(** * ParallelIO: the write path for distributed arrays and the swapm engine

    A shallow embedding of [pio/pio_spmd.c] (the point-to-point exchange
    engine and the flow-controlled gather) and of [src/clib/pio_darray.c]
    (the write-multi-buffer, its flush policy and the multi-variable write
    coordinator), with the properties of the specification stated over it.

    C [int] values are integers of [Z] with the 32-bit wrap-around written
    out in each arithmetic operation; [PIO_Offset], [long] and [size_t]
    values are 64-bit.  Calls into MPI, the buffer pool and the file-format
    backends are recorded in a trace of events; what they return is read
    from an explicit environment. *)

From Stdlib Require Import ZArith List Bool Lia Permutation Floats.SpecFloat.
Import ListNotations.
Open Scope Z_scope.

(** ** Machine integers *)

Module CInt.

(** Two's complement wrap-around of a [w]-bit signed integer. *)
Definition wrap (w : Z) (z : Z) : Z := (z + 2 ^ (w - 1)) mod 2 ^ w - 2 ^ (w - 1).

Definition INT_MAX : Z := 2 ^ 31 - 1.
Definition INT_MIN : Z := - 2 ^ 31.

Definition int_add (a b : Z) : Z := wrap 32 (a + b).
Definition int_sub (a b : Z) : Z := wrap 32 (a - b).
Definition int_mul (a b : Z) : Z := wrap 32 (a * b).
(** C division truncates toward zero; the remainder takes the sign of
    the dividend. *)
Definition int_div (a b : Z) : Z := wrap 32 (Z.quot a b).
Definition int_rem (a b : Z) : Z := Z.rem a b.

(** [PIO_Offset], [long], [bufsize]: 64-bit signed. *)
Definition off_add (a b : Z) : Z := wrap 64 (a + b).
Definition off_mul (a b : Z) : Z := wrap 64 (a * b).

(** Conversion to [int] (the implicit narrowing of an argument). *)
Definition to_int (z : Z) : Z := wrap 32 z.

Definition in_int (z : Z) : Prop := INT_MIN <= z <= INT_MAX.

(** Reading [a[i]]; the callers below only read inside the array. *)
Definition aget (a : list Z) (i : Z) : Z := nth (Z.to_nat i) a 0.

(** The indices [lo, lo+1, ..., hi-1] of a [for] loop. *)
Definition Zrange (lo hi : Z) : list Z :=
  map (fun k => lo + Z.of_nat k) (seq 0 (Z.to_nat (hi - lo))).

End CInt.
Import CInt.

(** ** Memory blocks *)

Module Memory.

(** A byte of a block; [None] is a byte that was never written (the
    pool hands out blocks with indeterminate contents). *)
Definition cell : Type := option Byte.byte.
Definition block : Type := list cell.

Definition size (b : block) : Z := Z.of_nat (length b).

(** Reading one byte; outside the block nothing is known. *)
Definition load (b : block) (i : Z) : cell :=
  if i <? 0 then None else nth (Z.to_nat i) b None.

Fixpoint mapi_from {A B : Type} (f : nat -> A -> B) (i : nat) (l : list A) : list B :=
  match l with
  | [] => []
  | x :: l' => f i x :: mapi_from f (S i) l'
  end.

(** [memcpy(dst + doff, src + soff, n)].  A write past the end of [dst]
    is undefined in C; here it is dropped, so the block keeps its
    size. *)
Definition memcpy (dst : block) (doff : Z) (src : block) (soff n : Z) : block :=
  mapi_from (fun i c =>
               let i := Z.of_nat i in
               if (doff <=? i) && (i <? doff + n) then load src (soff + (i - doff)) else c)
            0%nat dst.

(** A fresh block of [n] bytes ([bget], [malloc]). *)
Definition fresh (n : Z) : block := repeat None (Z.to_nat n).

(** [bgetr(old, n)] and [realloc(old, n)] when they succeed: [n] bytes,
    the old contents kept up to the smaller of the two sizes.  A null
    [old] is the empty block. *)
Definition resize (old : block) (n : Z) : block :=
  firstn (Z.to_nat n) (old ++ fresh n).

Definition bytes (l : list Byte.byte) : block := map Some l.

End Memory.
Import Memory.

(** ** pio_spmd.c *)

Module Spmd.

Definition PIO_NOERR : Z := 0.
Definition MAX_GATHER_BLOCK_SIZE : Z := 64.

(** The [min] macro. *)
Definition min (a b : Z) : Z := if a <? b then a else b.

(** The MPI datatypes the two source files name, with their sizes. *)
Inductive MPI_Datatype :=
| MPI_BYTE | MPI_CHAR | MPI_SHORT | MPI_INT | MPI_FLOAT | MPI_DOUBLE
| MPI_UNSIGNED_CHAR | MPI_UNSIGNED_SHORT | MPI_UNSIGNED
| MPI_LONG_LONG | MPI_UNSIGNED_LONG_LONG
| MPI_OFFSET
| MPI_DATATYPE_NULL.

Definition type_size (t : MPI_Datatype) : Z :=
  match t with
  | MPI_BYTE | MPI_CHAR | MPI_UNSIGNED_CHAR => 1
  | MPI_SHORT | MPI_UNSIGNED_SHORT => 2
  | MPI_INT | MPI_FLOAT | MPI_UNSIGNED => 4
  | MPI_DOUBLE | MPI_LONG_LONG | MPI_UNSIGNED_LONG_LONG | MPI_OFFSET => 8
  | MPI_DATATYPE_NULL => 0
  end.

(** [ceil2]: [p = 1; while (p < i) p *= 2;].  The loop does not end when
    [p] wraps to 0 below a positive [i], so it runs on fuel; 64
    doublings are more than an [int] can take. *)
Fixpoint ceil2_loop (fuel : nat) (i p : Z) : option Z :=
  match fuel with
  | O => None
  | S fuel' => if p <? i then ceil2_loop fuel' i (int_mul p 2) else Some p
  end.

Definition ceil2 (i : Z) : option Z := ceil2_loop 64 i 1.

(** [pair]: [q = (p+1) ^ k; pair = (q > np-1) ? -1 : q]. *)
Definition pair (np p k : Z) : Z :=
  let q := Z.lxor (int_add p 1) k in
  if q >? int_sub np 1 then -1 else q.

(** A request slot: [rcvids+i], [sndids+i], [hs_rcvids+i]. *)
Inductive request := rcvids (i : Z) | sndids (i : Z) | hs_rcvids (i : Z).

(** A message buffer: [rcvbuf + off], [sndbuf + off], or the handshake
    word [&hs]. *)
Inductive buffer := rcvbuf (off : Z) | sndbuf (off : Z) | hs_word.

(** The MPI calls of [pio_swapm], in program order. *)
Inductive mpi_call :=
| MPI_Irecv (b : buffer) (count : Z) (t : MPI_Datatype) (source tag : Z) (r : request)
| MPI_Send (b : buffer) (count : Z) (t : MPI_Datatype) (dest tag : Z)
| MPI_Rsend (b : buffer) (count : Z) (t : MPI_Datatype) (dest tag : Z)
| MPI_Wait (r : request).

Definition tget (a : list MPI_Datatype) (i : Z) : MPI_Datatype :=
  nth (Z.to_nat i) a MPI_DATATYPE_NULL.

(** The arguments of [pio_swapm] that decide its calls. *)
Record swapm_args := {
  nprocs : Z;
  mytask : Z;
  sndlths : list Z;
  sdispls : list Z;
  stypes : list MPI_Datatype;
  rcvlths : list Z;
  rdispls : list Z;
  rtypes : list MPI_Datatype;
  handshake : bool;
  isend : bool;
  max_requests : Z
}.

(** Lines 144-154: the copy to self. *)
Definition self_copy (a : swapm_args) : list mpi_call :=
  if 0 <? aget (sndlths a) (mytask a) then
    let tag := int_add (mytask a) (nprocs a) in
    [ MPI_Irecv (rcvbuf (aget (rdispls a) (mytask a))) (aget (rcvlths a) (mytask a))
                (tget (rtypes a) (mytask a)) (mytask a) tag (rcvids 0);
      MPI_Send (sndbuf (aget (sdispls a) (mytask a))) (aget (sndlths a) (mytask a))
               (tget (stypes a) (mytask a)) (mytask a) tag;
      MPI_Wait (rcvids 0) ]
  else [].

(** Lines 162-168: the partners of the pair schedule with a payload in
    either direction, in step order; [c2] is [ceil2(nprocs)]. *)
Definition has_payload (a : swapm_args) (p : Z) : bool :=
  (0 <=? p) && ((0 <? aget (sndlths a) p) || (0 <? aget (rcvlths a) p)).

Definition schedule (a : swapm_args) (c2 : Z) : list Z :=
  filter (has_payload a)
         (map (fun istep => pair (nprocs a) istep (mytask a)) (Zrange 0 (int_sub c2 1))).

(** Lines 174-188: the window [(maxreq, maxreqh)]. *)
Definition window (steps max_requests : Z) : Z * Z :=
  if steps =? 1 then (1, 1)
  else if (1 <? max_requests) && (max_requests <? steps)
       then (max_requests, int_div max_requests 2)
  else if 0 <? max_requests then (2, 1)
  else (steps, steps).

(** Posting the handshake receive and the data receive of slot [i]
    (lines 191-197, 199-208 and 227-243). *)
Definition post_hs (a : swapm_args) (swapids : list Z) (i : Z) : list mpi_call :=
  let p := aget swapids i in
  if handshake a && (0 <? aget (sndlths a) p)
  then [MPI_Irecv hs_word 1 MPI_INT p (int_add (mytask a) (nprocs a)) (hs_rcvids i)]
  else [].

Definition post_recv (a : swapm_args) (swapids : list Z) (i : Z) : list mpi_call :=
  let p := aget swapids i in
  if 0 <? aget (rcvlths a) p then
    let tag := int_add p (nprocs a) in
    MPI_Irecv (rcvbuf (aget (rdispls a) p)) (aget (rcvlths a) p) (tget (rtypes a) p) p tag
              (rcvids i)
    :: (if handshake a then [MPI_Send hs_word 1 MPI_INT p tag] else [])
  else [].

(** One turn of the loop of lines 211-245; the state is [rstep]. *)
Definition exchange_step (a : swapm_args) (swapids : list Z) (steps maxreqh : Z)
           (st : Z * list mpi_call) (istep : Z) : Z * list mpi_call :=
  let '(rstep, tr) := st in
  let p := aget swapids istep in
  let send :=
    if 0 <? aget (sndlths a) p then
      (if handshake a then [MPI_Wait (hs_rcvids istep)] else [])
      ++ [MPI_Rsend (sndbuf (aget (sdispls a) p)) (aget (sndlths a) p) (tget (stypes a) p)
                    p (int_add (mytask a) (nprocs a))]
    else [] in
  if istep >? maxreqh then
    let q := aget swapids (int_sub istep maxreqh) in
    let wait := if 0 <? aget (rcvlths a) q
                then [MPI_Wait (rcvids (int_sub istep maxreqh))] else [] in
    if rstep <? steps then
      (int_add rstep 1,
       tr ++ send ++ wait ++ post_hs a swapids rstep ++ post_recv a swapids rstep)
    else (rstep, tr ++ send ++ wait)
  else (rstep, tr ++ send).

(** Lines 246-252: the trailing waits. *)
Definition final_wait (a : swapm_args) (swapids : list Z) (istep : Z) : list mpi_call :=
  let p := aget swapids istep in
  (if 0 <? aget (rcvlths a) p then [MPI_Wait (rcvids istep)] else [])
  ++ (if isend a && (0 <? aget (sndlths a) p) then [MPI_Wait (sndids istep)] else []).

(** [pio_swapm]: the calls it makes and the value it returns.
    [CheckMPIReturn] only prints, so no MPI result changes the control
    flow.  [None] stands for a [ceil2] that does not return. *)
Definition pio_swapm (a : swapm_args) : option (list mpi_call * Z) :=
  match ceil2 (nprocs a) with
  | None => None
  | Some c2 =>
      let sched := schedule a c2 in
      let steps := Z.of_nat (length sched) in
      (* swapids[nprocs], zeroed, then filled from the front *)
      let swapids := sched ++ repeat 0 (Z.to_nat (nprocs a) - length sched) in
      if steps =? 0 then Some (self_copy a, PIO_NOERR)
      else
        let '(maxreq, maxreqh) := window steps (max_requests a) in
        let hs_posts :=
          if handshake a
          then flat_map (fun istep =>
                           let p := aget swapids istep in
                           if 0 <? aget (sndlths a) p
                           then [MPI_Irecv hs_word 1 MPI_INT p
                                           (int_add (mytask a) (nprocs a)) (hs_rcvids istep)]
                           else [])
                        (Zrange 0 maxreq)
          else [] in
        let preposts := flat_map (post_recv a swapids) (Zrange 0 maxreq) in
        let '(_, body) :=
          fold_left (exchange_step a swapids steps maxreqh) (Zrange 0 steps) (maxreq, []) in
        let tail := flat_map (final_wait a swapids) (Zrange (int_sub steps maxreqh) steps) in
        Some (self_copy a ++ hs_posts ++ preposts ++ body ++ tail, PIO_NOERR)
  end.

(** The peer of a call: the rank it receives from or sends to. *)
Definition call_peer (c : mpi_call) : option Z :=
  match c with
  | MPI_Irecv _ _ _ source _ _ => Some source
  | MPI_Send _ _ _ dest _ => Some dest
  | MPI_Rsend _ _ _ dest _ => Some dest
  | MPI_Wait _ => None
  end.

(** Data receives outstanding: posted with [MPI_Irecv] into [rcvbuf]
    and not yet waited for.  [outstanding] walks a trace and returns
    the slots still open; [max_outstanding] is the largest number of
    open slots at any point of the trace. *)
Definition slot_eqb (i j : Z) : bool := i =? j.

Definition track (open : list Z) (c : mpi_call) : list Z :=
  match c with
  | MPI_Irecv (rcvbuf _) _ _ _ _ (rcvids i) => i :: open
  | MPI_Wait (rcvids i) => filter (fun j => negb (slot_eqb i j)) open
  | _ => open
  end.

Fixpoint max_outstanding_from (open : list Z) (tr : list mpi_call) : Z :=
  match tr with
  | [] => Z.of_nat (length open)
  | c :: tr' =>
      Z.max (Z.of_nat (length open)) (max_outstanding_from (track open c) tr')
  end.

Definition max_outstanding (tr : list mpi_call) : Z := max_outstanding_from [] tr.

(** The slots open after the calls [tr], from the slots [open]. *)
Definition open_after (open : list Z) (tr : list mpi_call) : list Z := fold_left track tr open.

(** [within B open tr open']: the calls [tr] lead from the open slots
    [open] to [open'] and never have more than [B] of them open. *)
Definition within (B : Z) (open : list Z) (tr : list mpi_call) (open' : list Z) : Prop :=
  open_after open tr = open' /\ max_outstanding_from open tr <= B.

(** Slot [i] has a data receive: [rcvlths[swapids[i]] > 0]. *)
Definition has_recv (a : swapm_args) (swapids : list Z) (i : Z) : bool :=
  0 <? aget (rcvlths a) (aget swapids i).

(** The open slots of the loop: each posted once, each with a receive,
    all below [hi], and all from [lo] on but slot 0, which the loop never
    waits for. *)
Definition open_slots (R : Z -> bool) (lo hi : Z) (open : list Z) : Prop :=
  NoDup open /\ forall i, In i open -> R i = true /\ 0 <= i < hi /\ (i = 0 \/ lo <= i).

(** *** pio_fc_gather *)

(** What one task passes to [pio_fc_gather]; [comm_rank] and
    [comm_size] are what [MPI_Comm_rank] and [MPI_Comm_size] return on
    [comm]. *)
Record gather_args := {
  g_sendbuf : block;
  g_sendcnt : Z;
  g_sendtype : MPI_Datatype;
  g_recvbuf : block;
  g_recvcnt : Z;
  g_recvtype : MPI_Datatype;
  g_root : Z;
  comm_rank : Z;
  comm_size : Z;
  g_flow_cntl : Z
}.

(** The MPI calls of [pio_fc_gather]; a receive names the byte offset
    of its buffer in [recvbuf], a request slot is an index into
    [rcvid]. *)
Inductive gather_call :=
| G_Wait (slot : Z)
| G_Irecv (recvbuf_off : Z) (count : Z) (t : MPI_Datatype) (source tag slot : Z)
| G_Send_hs (t : MPI_Datatype) (dest tag : Z)
| G_Waitall (count : Z)
| G_Recv_hs (t : MPI_Datatype) (source tag : Z)
| G_Rsend (count : Z) (t : MPI_Datatype) (dest tag : Z)
| G_Gather.

(** The loop state at the root: [head], [count], [displs], the calls so
    far and [recvbuf]. *)
Record gather_state := {
  head : Z;
  count : Z;
  displs : Z;
  calls : list gather_call;
  recvbuf_now : block
}.

(** A posted receive from [p] is matched by the ready-send of [p],
    which carries [sendcnt] elements of [p]'s [sendbuf]; at most
    [recvcnt] elements of [recvtype] are stored, from the byte the
    receive was given.  [sent p] is the message of rank [p]. *)
Definition deliver (a : gather_args) (sent : Z -> block) (buf : block) (off p : Z) : block :=
  let n := Z.min (size (sent p)) (g_recvcnt a * type_size (g_recvtype a)) in
  memcpy buf off (sent p) 0 n.

(** [MPI_Gather] at the root, by the MPI standard: the message of rank
    [p], the root's own included, is stored at displacement
    [p * recvcnt * extent(recvtype)] of [recvbuf]. *)
Definition MPI_Gather_root (a : gather_args) (sent : Z -> block) : block :=
  fold_left (fun buf p =>
               deliver a sent buf (p * g_recvcnt a * type_size (g_recvtype a)) p)
            (Zrange 0 (comm_size a)) (g_recvbuf a).

(** Lines 70-85, one turn. *)
Definition gather_root_step (a : gather_args) (sent : Z -> block) (preposts mtag : Z)
           (st : gather_state) (p : Z) : gather_state :=
  if negb (p =? g_root a) && (0 <? g_recvcnt a) then
    let wait := if count st >? preposts
                then [G_Wait (int_add (int_rem (head st) preposts) 1)] else [] in
    let head' := int_add (int_rem (head st) preposts) 1 in
    {| head := head';
       count := int_add (count st) 1;
       displs := int_mul p (g_recvcnt a);
       calls := calls st ++ wait
                ++ [G_Irecv p (g_recvcnt a) (g_recvtype a) p mtag head';
                    G_Send_hs (g_recvtype a) p mtag];
       recvbuf_now := deliver a sent (recvbuf_now st) p p |}
  else st.

(** [pio_fc_gather] on one task: the calls, [recvbuf] on return and the
    value returned.  Every receive the root posts is taken to complete
    before the function returns, in the order of posting; the
    flow-control-off path is the one call of [MPI_Gather]. *)
Definition pio_fc_gather (a : gather_args) (sent : Z -> block)
  : list gather_call * block * Z :=
  if 0 <? g_flow_cntl a then
    let gather_block_size := min (g_flow_cntl a) MAX_GATHER_BLOCK_SIZE in
    let mtag := int_mul 2 (comm_size a) in
    if comm_rank a =? g_root a then
      let preposts := min (int_sub (comm_size a) 1) gather_block_size in
      let st := fold_left (gather_root_step a sent preposts mtag)
                          (Zrange 0 (comm_size a))
                          {| head := 0; count := 0; displs := 0; calls := [];
                             recvbuf_now := g_recvbuf a |} in
      let count' := min (count st) preposts in
      (calls st ++ (if 0 <? count' then [G_Waitall count'] else []),
       recvbuf_now st, PIO_NOERR)
    else
      ((if 0 <? g_sendcnt a
        then [G_Recv_hs (g_sendtype a) (g_root a) mtag;
              G_Rsend (g_sendcnt a) (g_sendtype a) (g_root a) mtag]
        else []),
       g_recvbuf a, PIO_NOERR)
  else
    ([G_Gather],
     (if comm_rank a =? g_root a then MPI_Gather_root a sent else g_recvbuf a),
     PIO_NOERR).

(** The rank a ready-send goes to, and the rank a data receive is
    posted for. *)
Definition rsend_dest (c : mpi_call) : list Z :=
  match c with MPI_Rsend _ _ _ dest _ => [dest] | _ => [] end.
Definition data_recv_source (c : mpi_call) : list Z :=
  match c with MPI_Irecv (rcvbuf _) _ _ source _ _ => [source] | _ => [] end.

(** The rank and the request slot of a receive the root of a gather
    posts, and the rank a handshake goes to. *)
Definition g_irecv (c : gather_call) : list (Z * Z) :=
  match c with G_Irecv _ _ _ source _ slot => [(source, slot)] | _ => [] end.
Definition g_handshake (c : gather_call) : list Z :=
  match c with G_Send_hs _ dest _ => [dest] | _ => [] end.

(** The request slot a wait of the root of a gather is for. *)
Definition g_wait (c : gather_call) : list Z :=
  match c with G_Wait slot => [slot] | _ => [] end.

(** What a call does with the handshake request of step [k]: [true]
    when it posts the receive, [false] when it waits for it. *)
Definition hs_use (k : Z) (c : mpi_call) : list bool :=
  match c with
  | MPI_Irecv _ _ _ _ _ (hs_rcvids j) => if j =? k then [true] else []
  | MPI_Wait (hs_rcvids j) => if j =? k then [false] else []
  | _ => []
  end.

(** The uses of the handshake request of step [k] by the first [j]
    turns of the exchange loop, when the loop has posted the slots
    below [rstep]. *)
Definition hs_uses_in_loop (maxreq maxreqh k j rstep : Z) : list bool :=
  match (maxreq <=? k) && (k <? rstep), k <? j with
  | true, true => if maxreqh + 2 <=? maxreq then [true; false] else [false; true]
  | true, false => [true]
  | false, true => [false]
  | false, false => []
  end.

(** The arguments [a] with another [isend]. *)
Definition set_isend (a : swapm_args) (b : bool) : swapm_args :=
  {| nprocs := nprocs a; mytask := mytask a;
     sndlths := sndlths a; sdispls := sdispls a; stypes := stypes a;
     rcvlths := rcvlths a; rdispls := rdispls a; rtypes := rtypes a;
     handshake := handshake a; isend := b; max_requests := max_requests a |}.

(** The calls but the waits for a send request. *)
Definition not_send_wait (c : mpi_call) : bool :=
  match c with MPI_Wait (sndids _) => false | _ => true end.

End Spmd.

(** ** pio_darray.c: the data model *)

Module Darray.

Import Spmd.

(** The codes a call returns ([PIO_NOERR] is 0).  [MPI_FAIL] is what
    [check_mpi] makes of an MPI error, [BACKEND] a code passed through
    from a callee outside this file. *)
Inductive pio_code :=
| PIO_NOERR | PIO_EBADID | PIO_EINVAL | PIO_EPERM | PIO_ENOMEM
| PIO_EBADIOTYPE | PIO_EBADTYPE
| MPI_FAIL (mpierr : Z)
| BACKEND (ierr : Z).

Definition is_noerr (c : pio_code) : bool :=
  match c with PIO_NOERR => true | _ => false end.

(** [iodesc->rearranger] and [file->iotype] are [int]s; the values the
    code does not name are kept as they are. *)
Inductive rearranger_t := PIO_REARR_BOX | PIO_REARR_SUBSET | REARR_OTHER (v : Z).

Inductive iotype_t :=
| PIO_IOTYPE_PNETCDF | PIO_IOTYPE_NETCDF | PIO_IOTYPE_NETCDF4C | PIO_IOTYPE_NETCDF4P
| IOTYPE_OTHER (v : Z).

Definition is_pnetcdf (t : iotype_t) : bool :=
  match t with PIO_IOTYPE_PNETCDF => true | _ => false end.
Definition is_box (r : rearranger_t) : bool :=
  match r with PIO_REARR_BOX => true | _ => false end.
Definition is_subset (r : rearranger_t) : bool :=
  match r with PIO_REARR_SUBSET => true | _ => false end.

Definition DARRAY_FILL : Z := 1.
Definition DARRAY_DATA : Z := 0.

(** [io_desc_t], the fields this file reads.  [llen], [holegridsize]
    and [maxholegridsize] are [PIO_Offset]s, the other numbers [int]s. *)
Record io_desc_t := {
  rearranger : rearranger_t;
  ndof : Z;
  llen : Z;
  maxiobuflen : Z;
  mpitype : MPI_Datatype;
  mpitype_size : Z;
  piotype_size : Z;
  maxregions : Z;
  maxfillregions : Z;
  holegridsize : Z;
  maxholegridsize : Z;
  needsfill : bool
}.

(** [var_desc_t]. *)
Record var_desc_t := {
  record : Z;
  pio_type : Z;
  type_size : Z;
  v_fillvalue : option block;
  use_fill : Z;
  fillbuf : option block;
  v_wb_pend : Z;
  vrsize : Z
}.

(** [wmulti_buffer] without its [next] pointer: the chain is a list.
    A null array is [None]. *)
Record wmulti_buffer := {
  w_ioid : Z;
  recordvar : Z;
  num_arrays : Z;
  arraylen : Z;
  vid : option (list Z);
  data : option block;
  frame : option (list Z);
  fillvalue : option block
}.

(** [iosystem_desc_t]. *)
Record iosystem_desc_t := {
  async : bool;
  ioproc : bool;
  io_rank : Z;
  compmaster_is_root : bool      (* ios->compmaster == MPI_ROOT *)
}.

(** [file_desc_t].  [buffer] is the head of the chain, embedded in the
    file, and [buffer_next] the entries linked behind it. *)
Record file_desc_t := {
  iosystem : iosystem_desc_t;
  pio_ncid : Z;
  mode : Z;
  iotype : iotype_t;
  buffer : wmulti_buffer;
  buffer_next : list wmulti_buffer;
  varlist : Z -> var_desc_t;
  iobuf : option block;
  wb_pend : Z
}.

Definition chain (f : file_desc_t) : list wmulti_buffer := buffer f :: buffer_next f.

Definition set_chain (f : file_desc_t) (c : list wmulti_buffer) : file_desc_t :=
  match c with
  | [] => f
  | w :: c' =>
      {| iosystem := iosystem f; pio_ncid := pio_ncid f; mode := mode f;
         iotype := iotype f; buffer := w; buffer_next := c';
         varlist := varlist f; iobuf := iobuf f; wb_pend := wb_pend f |}
  end.

Definition set_iobuf (f : file_desc_t) (b : option block) : file_desc_t :=
  {| iosystem := iosystem f; pio_ncid := pio_ncid f; mode := mode f;
     iotype := iotype f; buffer := buffer f; buffer_next := buffer_next f;
     varlist := varlist f; iobuf := b; wb_pend := wb_pend f |}.

Definition set_wb_pend (f : file_desc_t) (n : Z) : file_desc_t :=
  {| iosystem := iosystem f; pio_ncid := pio_ncid f; mode := mode f;
     iotype := iotype f; buffer := buffer f; buffer_next := buffer_next f;
     varlist := varlist f; iobuf := iobuf f; wb_pend := n |}.

Definition set_var (f : file_desc_t) (varid : Z) (v : var_desc_t) : file_desc_t :=
  {| iosystem := iosystem f; pio_ncid := pio_ncid f; mode := mode f;
     iotype := iotype f; buffer := buffer f; buffer_next := buffer_next f;
     varlist := fun i => if i =? varid then v else varlist f i;
     iobuf := iobuf f; wb_pend := wb_pend f |}.

Definition set_v_wb_pend (v : var_desc_t) (n : Z) : var_desc_t :=
  {| record := record v; pio_type := pio_type v; type_size := type_size v;
     v_fillvalue := v_fillvalue v; use_fill := use_fill v; fillbuf := fillbuf v;
     v_wb_pend := n; vrsize := vrsize v |}.

Definition set_vrsize (v : var_desc_t) (n : Z) : var_desc_t :=
  {| record := record v; pio_type := pio_type v; type_size := type_size v;
     v_fillvalue := v_fillvalue v; use_fill := use_fill v; fillbuf := fillbuf v;
     v_wb_pend := v_wb_pend v; vrsize := n |}.

Definition set_fillbuf (v : var_desc_t) (b : option block) : var_desc_t :=
  {| record := record v; pio_type := pio_type v; type_size := type_size v;
     v_fillvalue := v_fillvalue v; use_fill := use_fill v; fillbuf := b;
     v_wb_pend := v_wb_pend v; vrsize := vrsize v |}.

(** The entry a pointer [wmb] into the chain points at, and the store
    through it. *)
Definition wmb_null : wmulti_buffer :=
  {| w_ioid := 0; recordvar := 0; num_arrays := 0; arraylen := 0;
     vid := None; data := None; frame := None; fillvalue := None |}.

Definition get_wmb (f : file_desc_t) (i : nat) : wmulti_buffer := nth i (chain f) wmb_null.

Fixpoint list_set {A : Type} (l : list A) (i : nat) (x : A) : list A :=
  match l, i with
  | [], _ => []
  | _ :: l', O => x :: l'
  | y :: l', S i' => y :: list_set l' i' x
  end.

Definition put_wmb (f : file_desc_t) (i : nat) (w : wmulti_buffer) : file_desc_t :=
  set_chain f (list_set (chain f) i w).

(** The calls this file makes into MPI, the pool, libc and the other
    files of the library, in program order. *)
Inductive which_buf := For_iobuf | For_fillbuf.

(** What the compute side broadcasts to the I/O side (lines 178-200). *)
Inductive bcast_item :=
| B_ncid | B_nvars | B_varids (n : Z) | B_ioid | B_arraylen | B_array (nbytes : Z)
| B_frame_present | B_frame (n : Z) | B_fillvalue_present | B_fillvalue (nbytes : Z)
| B_flushtodisk.

Inductive event :=
| Ev_inq_vartype (varid : Z)
| Ev_inq_type (xtype : Z)
| Ev_malloc (n : Z)
| Ev_inq_var_fill (varid : Z)
| Ev_calloc_wmb
| Ev_bstats
| Ev_Allreduce_MAX (needsflush : Z)
| Ev_calc_var_rec_sz (varid : Z)
| Ev_flush_buffer (wmb : nat) (flushtodisk : bool)
| Ev_bgetr_data (n : Z)
| Ev_realloc_vid (n : Z)
| Ev_realloc_frame (n : Z)
| Ev_bgetr_fillvalue (n : Z)
| Ev_memcpy_fillvalue (off n : Z)
| Ev_memcpy_data (off n : Z)
| Ev_inq_varndims (varid : Z)
| Ev_Send_msg
| Ev_Bcast (what : bcast_item)
| Ev_Bcast_mpierr
| Ev_Bcast_fndims
| Ev_flush_output_buffer (force : bool)
| Ev_bget (b : which_buf) (n : Z)
| Ev_rearrange_comp2io (nvars : Z) (iobuf_then : option block)
| Ev_write_darray_multi_par (nvars mode : Z) (fillbuf_then : option block)
| Ev_write_darray_multi_serial (nvars mode : Z) (fillbuf_then : option block)
| Ev_brel (b : which_buf).

(** What [flush_buffer] leaves behind: its code, the entry it drained
    and the file fields a write can touch. *)
Record flush_result := {
  fl_code : pio_code;
  fl_wmb : wmulti_buffer;
  fl_iobuf : option block;
  fl_varlist : Z -> var_desc_t;
  fl_wb_pend : Z
}.

(** What [flush_output_buffer] leaves behind: its code and the file
    fields it can touch (it completes the pending writes and releases
    [iobuf] and the [fillbuf]s). *)
Record output_flush := {
  of_code : pio_code;
  of_iobuf : option block;
  of_varlist : Z -> var_desc_t;
  of_wb_pend : Z
}.

(** The environment of a call: the constants of [pio.h] and
    [config.h], the process-wide variables, the registries, and what
    each outside call answers.  An answer may depend on the calls made
    before it, so the pool and MPI are given the trace. *)
Record env := {
  PIO_MAX_VARS : Z;
  PIO_WRITE : Z;
  PIO_MAX_CACHED_IO_REGIONS : Z;
  NDEBUG : bool;                               (* [pioassert] compiled out *)
  pio_buffer_size_limit : Z;
  PIO_FILL : MPI_Datatype -> block;            (* the bytes of PIO_FILL_BYTE, ... *)
  pio_get_file : Z -> option file_desc_t;
  pio_get_iodesc_from_id : Z -> option io_desc_t;
  bstats_curalloc : list event -> Z;
  bstats_maxfree : list event -> Z;
  pool_ok : list event -> Z -> bool;           (* bget, bgetr *)
  libc_ok : list event -> Z -> bool;           (* malloc, calloc, realloc *)
  mpi_err : list event -> Z;                   (* 0 is MPI_SUCCESS *)
  allreduce_others : list Z;                   (* the other tasks' [needsflush] *)
  PIOc_inq_vartype : Z -> pio_code * Z;
  PIOc_inq_type : Z -> pio_code * Z;
  PIOc_inq_var_fill : Z -> pio_code * (Z * block);
  PIOc_inq_varndims : Z -> pio_code * Z;
  calc_var_rec_sz : file_desc_t -> Z -> pio_code * Z;
  flush_buffer : file_desc_t -> wmulti_buffer -> bool -> flush_result;
  flush_output_buffer : file_desc_t -> bool -> output_flush;
  rearrange_comp2io : io_desc_t -> block -> option block -> Z -> pio_code * option block;
  write_darray_multi_par : file_desc_t -> Z -> Z -> pio_code;
  write_darray_multi_serial : file_desc_t -> Z -> Z -> pio_code
}.

(** *** Control flow

    A computation threads the file and the trace, and either goes on
    with a value or leaves the function: by [return], by the abort of a
    failed [pioassert], or by a fault (a null pointer is read or
    written). *)
Record state := { file : file_desc_t; trace : list event }.

Inductive exit := Return (c : pio_code) | Abort | Fault.

Inductive step (A : Type) := Next (a : A) | Stop (e : exit).
Arguments Next {A} a.
Arguments Stop {A} e.

Definition M (A : Type) : Type := state -> step A * state.

Definition ret {A : Type} (a : A) : M A := fun s => (Next a, s).
Definition bind {A B : Type} (m : M A) (k : A -> M B) : M B :=
  fun s => match m s with
           | (Next a, s') => k a s'
           | (Stop e, s') => (Stop e, s')
           end.
Definition leave {A : Type} (e : exit) : M A := fun s => (Stop e, s).
Definition emit (ev : event) : M unit :=
  fun s => (Next tt, {| file := file s; trace := trace s ++ [ev] |}).
Definition get_file : M file_desc_t := fun s => (Next (file s), s).
Definition get_trace : M (list event) := fun s => (Next (trace s), s).
Definition put_file (f : file_desc_t) : M unit :=
  fun s => (Next tt, {| file := f; trace := trace s |}).
Definition when (b : bool) (m : M unit) : M unit := if b then m else ret tt.

(** Modelled from the spec: [pio_err], [check_mpi] and [check_netcdf]
    are not in the two source files; by the error handling design
    (section 7) a call site reports the error and returns the code to
    its caller, and an MPI failure is returned as its own kind. *)
Definition pio_err {A : Type} (c : pio_code) : M A := leave (Return c).
Definition check_mpi {A : Type} (mpierr : Z) : M A := leave (Return (MPI_FAIL mpierr)).
Definition check_netcdf {A : Type} (c : pio_code) : M A := leave (Return c).

(** Modelled from the spec: [pioassert] is not in the two source files;
    the spec calls it an assertion of the write path (section 3).  It
    ends the run when the condition fails, unless assertions are
    compiled out; it never makes the caller return. *)
Definition pioassert (E : env) (cond : bool) : M unit :=
  if cond || NDEBUG E then ret tt else leave Abort.

Notation "x <- m ;; k" := (bind m (fun x => k))
  (at level 61, m at next level, right associativity).
Notation "' p <- m ;; k" := (bind m (fun x => let p := x in k))
  (at level 61, p pattern, m at next level, right associativity).
Notation "m ;;; k" := (bind m (fun _ : unit => k))
  (at level 61, right associativity).

(** Calling a function of this file: its [return] ends the callee, not
    the caller. *)
Definition call (body : M pio_code) : M pio_code :=
  fun s => match body s with
           | (Stop (Return c), s') => (Next c, s')
           | r => r
           end.

(** The pool and libc, by their answers in the environment. *)
Definition pool_alloc (E : env) (ev : event) (n : Z) : M bool :=
  tr <- get_trace ;; emit ev ;;; ret (pool_ok E tr n).
Definition libc_alloc (E : env) (ev : event) (n : Z) : M bool :=
  tr <- get_trace ;; emit ev ;;; ret (libc_ok E tr n).
Definition mpi_call (E : env) (ev : event) : M Z :=
  tr <- get_trace ;; emit ev ;;; ret (mpi_err E tr).

(** *** The flush policy *)

(** C [double]: IEEE 754 binary64, round to nearest even. *)
Definition double : Type := spec_float.
Definition double_of_long (z : Z) : double := binary_normalize 53 1024 z 0 false.
Definition double_mul (x y : double) : double := SFmul 53 1024 x y.
Definition double_le (x y : double) : bool := SFleb x y.
(** The literal [1.1]: the binary64 number nearest to 11/10. *)
Definition double_1_1 : double := S754_finite false 4953959590107546 (-52).

(** What a shift record says of the number [P] it was shifted out of,
    after [k] bits: the mantissa is the quotient by [2^k], and the round
    and sticky bits place the remainder against half of [2^k]. *)
Definition shr_at (P k : Z) (mrs : shr_record) : Prop :=
  0 <= shr_m mrs
  /\ 0 <= P - shr_m mrs * 2 ^ k < 2 ^ k
  /\ (shr_r mrs = true <-> 2 ^ k <= 2 * (P - shr_m mrs * 2 ^ k))
  /\ (shr_s mrs = true <->
      P - shr_m mrs * 2 ^ k <> 0 /\ 2 * (P - shr_m mrs * 2 ^ k) <> 2 ^ k).

Definition NEEDS_DISK_FLUSH : Z := 2.
Definition NEEDS_IO_FLUSH : Z := 1.
Definition NO_FLUSH : Z := 0.

(** [PIO_wmb_needs_flush(wmb, arraylen, iodesc)], lines 548-585, on the
    statistics [bstats] reports.  [arraylen] is an [int] here. *)
Definition PIO_wmb_needs_flush (pio_buffer_size_limit curalloc maxfree : Z)
           (wmb : wmulti_buffer) (arraylen : Z) (iodesc : io_desc_t) : Z :=
  if curalloc >=? pio_buffer_size_limit then NEEDS_DISK_FLUSH
  else
    let array_sz_bytes := int_mul arraylen (mpitype_size iodesc) in
    let wmb_req_cache_sz := off_mul (int_add 1 (num_arrays wmb)) array_sz_bytes in
    if double_le (double_of_long maxfree)
                 (double_mul double_1_1 (double_of_long wmb_req_cache_sz))
    then NEEDS_IO_FLUSH
    else NO_FLUSH.

(** *** find_var_fillvalue, lines 499-532 *)

Definition find_var_fillvalue (E : env) (varid : Z) : M pio_code :=
  f <- get_file ;;
  let vdesc := varlist f varid in
  emit (Ev_inq_vartype varid) ;;;
  let '(ierr, t) := PIOc_inq_vartype E varid in
  if negb (is_noerr ierr) then pio_err ierr else
  emit (Ev_inq_type t) ;;;
  let '(ierr, sz) := PIOc_inq_type E t in
  if negb (is_noerr ierr) then
    put_file (set_var f varid
                {| record := record vdesc; pio_type := t; type_size := type_size vdesc;
                   v_fillvalue := v_fillvalue vdesc; use_fill := use_fill vdesc;
                   fillbuf := fillbuf vdesc; v_wb_pend := v_wb_pend vdesc;
                   vrsize := vrsize vdesc |}) ;;;
    pio_err ierr
  else
  ok <- libc_alloc E (Ev_malloc sz) sz ;;
  if negb ok then
    put_file (set_var f varid
                {| record := record vdesc; pio_type := t; type_size := sz;
                   v_fillvalue := None; use_fill := use_fill vdesc;
                   fillbuf := fillbuf vdesc; v_wb_pend := v_wb_pend vdesc;
                   vrsize := vrsize vdesc |}) ;;;
    pio_err PIO_ENOMEM
  else
  emit (Ev_inq_var_fill varid) ;;;
  let '(ierr, (no_fill, value)) := PIOc_inq_var_fill E varid in
  if negb (is_noerr ierr) then
    put_file (set_var f varid
                {| record := record vdesc; pio_type := t; type_size := sz;
                   v_fillvalue := Some (fresh sz); use_fill := use_fill vdesc;
                   fillbuf := fillbuf vdesc; v_wb_pend := v_wb_pend vdesc;
                   vrsize := vrsize vdesc |}) ;;;
    pio_err ierr
  else
  put_file (set_var f varid
              {| record := record vdesc; pio_type := t; type_size := sz;
                 v_fillvalue := Some (memcpy (fresh sz) 0 value 0 sz);
                 use_fill := if no_fill =? 0 then 1 else 0;
                 fillbuf := fillbuf vdesc; v_wb_pend := v_wb_pend vdesc;
                 vrsize := vrsize vdesc |}) ;;;
  ret PIO_NOERR.

(** *** PIOc_write_darray, lines 635-948 *)

(** Lines 715-717: [for (wmb = &file->buffer; wmb->next; wmb = wmb->next)]
    stops at the first entry but the last that matches, else at the
    last.  The result is the position of [wmb] in the chain. *)
Definition wmb_matches (ioid recordvar_ : Z) (w : wmulti_buffer) : bool :=
  (w_ioid w =? ioid) && (recordvar w =? recordvar_).

Fixpoint find_wmb (ioid recordvar_ : Z) (w : wmulti_buffer) (next : list wmulti_buffer)
         (i : nat) : nat :=
  match next with
  | [] => i
  | w' :: next' =>
      if wmb_matches ioid recordvar_ w then i
      else find_wmb ioid recordvar_ w' next' (S i)
  end.

(** Lines 721-740: the new entry, linked behind the last one. *)
Definition new_wmb (ioid recordvar_ arraylen_ : Z) : wmulti_buffer :=
  {| w_ioid := ioid; recordvar := recordvar_; num_arrays := 0; arraylen := arraylen_;
     vid := None; data := None; frame := None; fillvalue := None |}.

Definition locate_wmb (E : env) (ioid recordvar_ arraylen_ : Z) : M nat :=
  f <- get_file ;;
  let i := find_wmb ioid recordvar_ (buffer f) (buffer_next f) 0 in
  if negb (wmb_matches ioid recordvar_ (get_wmb f i)) then
    ok <- libc_alloc E Ev_calloc_wmb 1 ;;
    if negb ok then pio_err PIO_ENOMEM
    else
      put_file (set_chain f (chain f ++ [new_wmb ioid recordvar_ arraylen_])) ;;;
      ret (S i)
  else ret i.

(** Lines 744-761: the local flush code. *)
Definition local_needsflush (E : env) (tr : list event) (wmb : wmulti_buffer)
           (arraylen_ : Z) (iodesc : io_desc_t) : Z :=
  let needsflush :=
    PIO_wmb_needs_flush (pio_buffer_size_limit E) (bstats_curalloc E tr) (bstats_maxfree E tr)
                        wmb (to_int arraylen_) iodesc in
  let decomp_max_regions :=
    if maxregions iodesc >=? maxfillregions iodesc
    then maxregions iodesc else maxfillregions iodesc in
  let io_max_regions := off_mul (int_add 1 (num_arrays wmb)) decomp_max_regions in
  if io_max_regions >? PIO_MAX_CACHED_IO_REGIONS E then 2 else needsflush.

(** [MPI_Allreduce(MPI_IN_PLACE, &needsflush, 1, MPI_INT, MPI_MAX, comp_comm)]:
    every task of the communicator receives the largest contribution. *)
Definition allreduce_max (mine : Z) (others : list Z) : Z := fold_left Z.max others mine.

Definition resize_ints (old : option (list Z)) (n : Z) : list Z :=
  let l := match old with Some l => l | None => [] end in
  firstn (Z.to_nat n) (l ++ repeat 0 (Z.to_nat n)).

Definition opt_block (b : option block) : block :=
  match b with Some l => l | None => [] end.

(** Lines 858-904: the default fill value of the netCDF type; the
    [_NETCDF4] types are compiled in. *)
Definition default_fill (E : env) (vtype : MPI_Datatype) : option block :=
  match vtype with
  | MPI_BYTE | MPI_CHAR | MPI_SHORT | MPI_INT | MPI_FLOAT | MPI_DOUBLE
  | MPI_UNSIGNED_CHAR | MPI_UNSIGNED_SHORT | MPI_UNSIGNED
  | MPI_LONG_LONG | MPI_UNSIGNED_LONG_LONG => Some (PIO_FILL E vtype)
  | _ => None
  end.

Definition set_wmb (w : wmulti_buffer) (n al : Z) (v : option (list Z)) (d : option block)
           (fr : option (list Z)) (fv : option block) : wmulti_buffer :=
  {| w_ioid := w_ioid w; recordvar := recordvar w; num_arrays := n; arraylen := al;
     vid := v; data := d; frame := fr; fillvalue := fv |}.

(** Lines 819-930: the payload is put behind the arrays already
    queued in [wmb]. *)
Definition append_payload (E : env) (i : nat) (varid arraylen_ : Z) (array : block) (user_fill : option block)
           (iodesc : io_desc_t) : M unit :=
  f <- get_file ;;
  let wmb := get_wmb f i in
  let vdesc := varlist f varid in
  let n1 := int_add 1 (num_arrays wmb) in
  let sz := mpitype_size iodesc in
  (* Get memory for data. *)
  data' <-
    (if 0 <? arraylen_ then
       let nbytes := off_mul (off_mul n1 arraylen_) sz in
       ok <- pool_alloc E (Ev_bgetr_data nbytes) nbytes ;;
       if negb ok then
         put_file (put_wmb f i (set_wmb wmb (num_arrays wmb) (arraylen wmb) (vid wmb) None
                                        (frame wmb) (fillvalue wmb))) ;;;
         pio_err PIO_ENOMEM
       else ret (Some (resize (opt_block (data wmb)) nbytes))
     else ret (data wmb)) ;;
  let wmb1 := set_wmb wmb (num_arrays wmb) (arraylen wmb) (vid wmb) data'
                      (frame wmb) (fillvalue wmb) in
  (* vid *)
  ok <- libc_alloc E (Ev_realloc_vid (4 * n1)) (4 * n1) ;;
  if negb ok then
    put_file (put_wmb f i (set_wmb wmb1 (num_arrays wmb) (arraylen wmb) None data'
                                   (frame wmb) (fillvalue wmb))) ;;;
    pio_err PIO_ENOMEM
  else
  let vid' := resize_ints (vid wmb) n1 in
  (* frame *)
  frame' <-
    (if record vdesc >=? 0 then
       ok <- libc_alloc E (Ev_realloc_frame (4 * n1)) (4 * n1) ;;
       if negb ok then
         put_file (put_wmb f i (set_wmb wmb1 (num_arrays wmb) (arraylen wmb) (Some vid') data'
                                        None (fillvalue wmb))) ;;;
         pio_err PIO_ENOMEM
       else ret (Some (resize_ints (frame wmb) n1))
     else ret (frame wmb)) ;;
  let wmb2 := set_wmb wmb (num_arrays wmb) (arraylen wmb) (Some vid') data'
                      frame' (fillvalue wmb) in
  (* fill value *)
  fill' <-
    (if needsfill iodesc then
       let nbytes := int_mul sz n1 in
       ok <- pool_alloc E (Ev_bgetr_fillvalue nbytes) nbytes ;;
       if negb ok then
         put_file (put_wmb f i (set_wmb wmb2 (num_arrays wmb) (arraylen wmb) (Some vid') data'
                                        frame' None)) ;;;
         pio_err PIO_ENOMEM
       else
         let fv := resize (opt_block (fillvalue wmb)) nbytes in
         let off := int_mul sz (num_arrays wmb) in
         match user_fill with
         | Some fill =>
             emit (Ev_memcpy_fillvalue off sz) ;;;
             ret (Some (memcpy fv off fill 0 sz))
         | None =>
             match default_fill E (mpitype iodesc) with
             | Some fill =>
                 emit (Ev_memcpy_fillvalue off sz) ;;;
                 ret (Some (memcpy fv off fill 0 sz))
             | None =>
                 put_file (put_wmb f i (set_wmb wmb2 (num_arrays wmb) (arraylen wmb)
                                                (Some vid') data' frame' (Some fv))) ;;;
                 pio_err PIO_EBADTYPE
             end
         end
     else ret (fillvalue wmb)) ;;
  (* Tell the buffer about the data it is getting. *)
  let vid'' := list_set vid' (Z.to_nat (num_arrays wmb)) varid in
  let off := off_mul (off_mul arraylen_ sz) (num_arrays wmb) in
  data'' <-
    (if 0 <? arraylen_ then
       emit (Ev_memcpy_data off (off_mul arraylen_ sz)) ;;;
       ret (option_map (fun d => memcpy d off array 0 (off_mul arraylen_ sz)) data')
     else ret data') ;;
  let frame'' :=
    option_map (fun fr => list_set fr (Z.to_nat (num_arrays wmb)) (record vdesc)) frame' in
  put_file (put_wmb f i (set_wmb wmb n1 arraylen_ (Some vid'') data'' frame'' fill')).

(** Lines 675-740: the checks, the fill value of the variable, the
    entry of the chain.  The result is the decomposition, [arraylen]
    cut down to [ndof], and the position of [wmb] in the chain. *)
Definition check_and_locate (E : env) (varid ioid arraylen_ : Z)
  : M (io_desc_t * Z * nat) :=
  f <- get_file ;;
  (* Can we write to this file? *)
  if Z.land (mode f) (PIO_WRITE E) =? 0 then pio_err PIO_EPERM else
  (* Get decomposition information. *)
  match pio_get_iodesc_from_id E ioid with
  | None => pio_err PIO_EBADID
  | Some iodesc =>
  if arraylen_ <? ndof iodesc then pio_err PIO_EINVAL else
  let arraylen_ := if arraylen_ >? ndof iodesc then ndof iodesc else arraylen_ in
  (* If we don't know the fill value for this var, get it. *)
  (match v_fillvalue (varlist f varid) with
   | None =>
       ierr <- call (find_var_fillvalue E varid) ;;
       if negb (is_noerr ierr) then pio_err PIO_EBADID else ret tt
   | Some _ => ret tt
   end) ;;;
  f <- get_file ;;
  let vdesc := varlist f varid in
  let recordvar_ := if record vdesc >=? 0 then 1 else 0 in
  i <- locate_wmb E ioid recordvar_ arraylen_ ;;
  ret (iodesc, arraylen_, i)
  end.

(** Lines 744-768: the local flush code and the agreement on it.  The
    result is the code every task of the compute communicator holds. *)
Definition agree_on_flush (E : env) (i : nat) (arraylen_ : Z) (iodesc : io_desc_t) : M Z :=
  f <- get_file ;;
  tr <- get_trace ;;
  emit Ev_bstats ;;;
  let needsflush := local_needsflush E tr (get_wmb f i) arraylen_ iodesc in
  (* Tell all tasks on the computation communicator whether we need
     to flush data. *)
  mpierr <- mpi_call E (Ev_Allreduce_MAX needsflush) ;;
  if negb (mpierr =? 0) then check_mpi mpierr else
  ret (allreduce_max needsflush (allreduce_others E)).

(** Lines 770-780. *)
Definition record_size (E : env) (varid : Z) : M unit :=
  f <- get_file ;;
  when (negb (async (iosystem f)) || negb (ioproc (iosystem f)))
       (if vrsize (varlist f varid) =? 0 then
          emit (Ev_calc_var_rec_sz varid) ;;;
          put_file (set_var f varid
                      (set_vrsize (varlist f varid) (snd (calc_var_rec_sz E f varid))))
        else ret tt).

(** Lines 781-802: flush data if needed. *)
Definition flush_if_needed (E : env) (i : nat) (needsflush : Z) : M unit :=
  when (needsflush >? 0)
       (f <- get_file ;;
        emit (Ev_flush_buffer i (needsflush =? 2)) ;;;
        let r := flush_buffer E f (get_wmb f i) (needsflush =? 2) in
        put_file
          (put_wmb {| iosystem := iosystem f; pio_ncid := pio_ncid f; mode := mode f;
                      iotype := iotype f; buffer := buffer f;
                      buffer_next := buffer_next f; varlist := fl_varlist r;
                      iobuf := fl_iobuf r; wb_pend := fl_wb_pend r |}
                   i (fl_wmb r)) ;;;
        if negb (is_noerr (fl_code r)) then pio_err (fl_code r) else ret tt).

(** Lines 804-806: one record size of data is buffered. *)
Definition count_pending (varid : Z) : M unit :=
  f <- get_file ;;
  let v := varlist f varid in
  put_file (set_wb_pend
              (set_var f varid (set_v_wb_pend v (off_add (v_wb_pend v) (vrsize v))))
              (off_add (wb_pend f) (vrsize v))).

(** The body after the file was found. *)
Definition write_darray_body (E : env) (ncid varid ioid arraylen_ : Z) (array : block)
           (user_fill : option block) : M pio_code :=
  r <- check_and_locate E varid ioid arraylen_ ;;
  let '(iodesc, arraylen_, i) := r in
  needsflush <- agree_on_flush E i arraylen_ iodesc ;;
  record_size E varid ;;;
  flush_if_needed E i needsflush ;;;
  count_pending varid ;;;
  append_payload E i varid arraylen_ array user_fill iodesc ;;;
  ret PIO_NOERR.

(** The outcome of a call: how it ended, the file as it is left (when
    there is one) and the calls made. *)
Record outcome := {
  ended : exit;
  file_after : option file_desc_t;
  calls_made : list event
}.

Definition run (f : file_desc_t) (body : M pio_code) : outcome :=
  match body {| file := f; trace := [] |} with
  | (Next c, s) => {| ended := Return c; file_after := Some (file s); calls_made := trace s |}
  | (Stop e, s) => {| ended := e; file_after := Some (file s); calls_made := trace s |}
  end.

Definition PIOc_write_darray (E : env) (ncid varid ioid arraylen_ : Z) (array : block) (user_fill : option block)
  : outcome :=
  match pio_get_file E ncid with
  | None => {| ended := Return PIO_EBADID; file_after := None; calls_made := [] |}
  | Some f => run f (write_darray_body E ncid varid ioid arraylen_ array user_fill)
  end.

(** *** PIOc_write_darray_multi, lines 106-487 *)

Definition after_output_flush (f : file_desc_t) (r : output_flush) : file_desc_t :=
  {| iosystem := iosystem f; pio_ncid := pio_ncid f; mode := mode f;
     iotype := iotype f; buffer := buffer f; buffer_next := buffer_next f;
     varlist := of_varlist r; iobuf := of_iobuf r; wb_pend := of_wb_pend r |}.

Record multi_args := {
  m_ncid : Z;
  m_varids : option (list Z);
  m_ioid : Z;
  m_nvars : Z;
  m_arraylen : Z;
  m_array : block;
  m_frame : option (list Z);
  m_fillvalue : option block;
  m_flushtodisk : bool
}.

(** [size_t] arithmetic: 64-bit unsigned. *)
Definition size_mul (a b : Z) : Z := (a * b) mod 2 ^ 64.

(** Lines 274-277 and 423-426: slot [i] of variable [nv] is given the
    fill value of [nv]; [n] is the number of slots of one variable.
    The destination index is computed in the width [w] of [n]: 32 bits
    for [maxiobuflen], 64 for [holegridsize]. *)
Definition prefill (w : Z) (buf : block) (nvars n sz : Z) (fill : block) : block :=
  fold_left
    (fun b nv =>
       fold_left
         (fun b i =>
            memcpy b (wrap w (sz * wrap w (i + wrap w (nv * n)))) fill (int_mul nv sz) sz)
         (Zrange 0 n) b)
    (Zrange 0 nvars) buf.

(** A chain of MPI calls, each made only while [mpierr] is still 0. *)
Fixpoint mpi_chain (E : env) (evs : list event) (mpierr : Z) : M Z :=
  match evs with
  | [] => ret mpierr
  | ev :: evs' =>
      if mpierr =? 0 then (e <- mpi_call E ev ;; mpi_chain E evs' e) else ret mpierr
  end.

(** Lines 167-200. *)
Definition bcast_params (E : env) (ios : iosystem_desc_t) (a : multi_args)
           (iodesc : io_desc_t) : M Z :=
  let present {A : Type} (o : option A) : bool := match o with Some _ => true | None => false end in
  mpi_chain E
    ((if compmaster_is_root ios then [Ev_Send_msg] else [])
     ++ [Ev_Bcast B_ncid; Ev_Bcast B_nvars; Ev_Bcast (B_varids (m_nvars a));
         Ev_Bcast B_ioid; Ev_Bcast B_arraylen;
         Ev_Bcast (B_array (off_mul (m_arraylen a) (piotype_size iodesc)));
         Ev_Bcast B_frame_present]
     ++ (if present (m_frame a) then [Ev_Bcast (B_frame (m_nvars a))] else [])
     ++ [Ev_Bcast B_fillvalue_present]
     ++ (if present (m_fillvalue a)
         then [Ev_Bcast (B_fillvalue (int_mul (m_nvars a) (piotype_size iodesc)))] else [])
     ++ [Ev_Bcast B_flushtodisk])
    0.

(** The two [switch (file->iotype)] of lines 366-383 and 429-445;
    [buf] is the buffer the backend is to write. *)
Definition dispatch (E : env) (nvars mode_ : Z) (buf : option block) : M unit :=
  f <- get_file ;;
  match iotype f with
  | PIO_IOTYPE_NETCDF4P | PIO_IOTYPE_PNETCDF =>
      emit (Ev_write_darray_multi_par nvars mode_ buf) ;;;
      let ierr := write_darray_multi_par E f nvars mode_ in
      if negb (is_noerr ierr) then pio_err ierr else ret tt
  | PIO_IOTYPE_NETCDF4C | PIO_IOTYPE_NETCDF =>
      emit (Ev_write_darray_multi_serial nvars mode_ buf) ;;;
      let ierr := write_darray_multi_serial E f nvars mode_ in
      if negb (is_noerr ierr) then pio_err ierr else ret tt
  | IOTYPE_OTHER _ => pio_err PIO_EBADIOTYPE
  end.

Definition is_some {A : Type} (o : option A) : bool :=
  match o with Some _ => true | None => false end.

(** Lines 127-146: the checks on the arguments. *)
Definition check_inputs (E : env) (a : multi_args) : M (list Z * io_desc_t) :=
  f <- get_file ;;
  match m_varids a with
  | None => pio_err PIO_EINVAL
  | Some varids =>
      if m_nvars a <=? 0 then pio_err PIO_EINVAL else
      if existsb (fun v => (aget varids v <? 0) || (aget varids v >? PIO_MAX_VARS E))
                 (Zrange 0 (m_nvars a))
      then pio_err PIO_EINVAL else
      (* Check that we can write to this file. *)
      if Z.land (mode f) (PIO_WRITE E) =? 0 then pio_err PIO_EPERM else
      match pio_get_iodesc_from_id E (m_ioid a) with
      | None => pio_err PIO_EBADID
      | Some iodesc =>
          pioassert E (is_box (rearranger iodesc) || is_subset (rearranger iodesc)) ;;;
          ret (varids, iodesc)
      end
  end.

(** Lines 151-216: the number of dimensions and the broadcast to the
    I/O tasks. *)
Definition share_params (E : env) (a : multi_args) (varids : list Z) (iodesc : io_desc_t)
  : M unit :=
  f <- get_file ;;
  let ios := iosystem f in
  when (negb (async ios) || negb (ioproc ios))
       (emit (Ev_inq_varndims (aget varids 0)) ;;;
        let ierr := fst (PIOc_inq_varndims E (aget varids 0)) in
        if negb (is_noerr ierr) then check_netcdf ierr else ret tt) ;;;
  when (async ios)
       (mpierr <- (if negb (ioproc ios) then bcast_params E ios a iodesc else ret 0) ;;
        mpierr2 <- mpi_call E Ev_Bcast_mpierr ;;
        if negb (mpierr2 =? 0) then check_mpi mpierr2 else
        if negb (mpierr =? 0) then check_mpi mpierr else
        _ <- mpi_call E Ev_Bcast_fndims ;;
        ret tt).

(** Lines 218-288: the pending buffer of pnetcdf is flushed, then
    [iobuf] is allocated and, for the box rearranger, filled. *)
Definition allocate_iobuf (E : env) (a : multi_args) (iodesc : io_desc_t) : M unit :=
  f <- get_file ;;
  when (is_pnetcdf (iotype f) && is_some (iobuf f))
       (emit (Ev_flush_output_buffer true) ;;;
        put_file (after_output_flush f (flush_output_buffer E f true))) ;;;
  f <- get_file ;;
  pioassert E (negb (is_some (iobuf f))) ;;;
  let rlen := int_mul (maxiobuflen iodesc) (m_nvars a) in
  if 0 <? rlen then
    let n := size_mul (mpitype_size iodesc) rlen in
    ok <- pool_alloc E (Ev_bget For_iobuf n) n ;;
    if negb ok then put_file (set_iobuf f None) ;;; pio_err PIO_ENOMEM else
    if needsfill iodesc && is_box (rearranger iodesc) then
      if (0 <? m_nvars a) && (0 <? maxiobuflen iodesc) then
        match m_fillvalue a with
        | None => put_file (set_iobuf f (Some (fresh n))) ;;; leave Fault
        | Some fill =>
            put_file (set_iobuf f (Some (prefill 32 (fresh n) (m_nvars a) (maxiobuflen iodesc)
                                                 (mpitype_size iodesc) fill)))
        end
      else put_file (set_iobuf f (Some (fresh n)))
    else put_file (set_iobuf f (Some (fresh n)))
  else if is_pnetcdf (iotype f) && ioproc (iosystem f) then
    ok <- pool_alloc E (Ev_bget For_iobuf 1) 1 ;;
    if negb ok then put_file (set_iobuf f None) ;;; pio_err PIO_ENOMEM
    else put_file (set_iobuf f (Some (fresh 1)))
  else ret tt.

(** Lines 290-395: rearrangement, the write of the data, the release
    of [iobuf]. *)
Definition write_data (E : env) (a : multi_args) (iodesc : io_desc_t) : M unit :=
  f <- get_file ;;
  emit (Ev_rearrange_comp2io (m_nvars a) (iobuf f)) ;;;
  let '(ierr, iobuf') := rearrange_comp2io E iodesc (m_array a) (iobuf f) (m_nvars a) in
  put_file (set_iobuf f iobuf') ;;;
  if negb (is_noerr ierr) then pio_err ierr else
  dispatch E (m_nvars a) DARRAY_DATA iobuf' ;;;
  f <- get_file ;;
  when (negb (is_pnetcdf (iotype f)) && is_some (iobuf f))
       (emit (Ev_brel For_iobuf) ;;; put_file (set_iobuf f None)).

(** Lines 407-457: the hole grid of the subset rearranger. *)
Definition write_holes (E : env) (a : multi_args) (varids : list Z) (iodesc : io_desc_t)
  : M unit :=
  when (is_subset (rearranger iodesc) && needsfill iodesc)
       (f <- get_file ;;
        let varid0 := aget varids 0 in
        let vdesc0 := varlist f varid0 in
        pioassert E (negb (is_some (fillbuf vdesc0))) ;;;
        (* Get a buffer. *)
        fillbuf' <-
          (if io_rank (iosystem f) =? 0 then
             let n := off_mul (off_mul (maxholegridsize iodesc) (mpitype_size iodesc))
                              (m_nvars a) in
             ok <- pool_alloc E (Ev_bget For_fillbuf n) n ;;
             ret (if ok then Some (fresh n) else None)
           else if 0 <? holegridsize iodesc then
             let n := off_mul (off_mul (holegridsize iodesc) (mpitype_size iodesc))
                              (m_nvars a) in
             ok <- pool_alloc E (Ev_bget For_fillbuf n) n ;;
             ret (if ok then Some (fresh n) else None)
           else ret (fillbuf vdesc0)) ;;
        (* Copy the fill value into the buffer. *)
        filled <-
          (if (0 <? m_nvars a) && (0 <? holegridsize iodesc) then
             match fillbuf', m_fillvalue a with
             | Some b, Some fill =>
                 ret (Some (prefill 64 b (m_nvars a) (holegridsize iodesc)
                                    (mpitype_size iodesc) fill))
             | _, _ =>
                 put_file (set_var f varid0 (set_fillbuf vdesc0 fillbuf')) ;;; leave Fault
             end
           else ret fillbuf') ;;
        put_file (set_var f varid0 (set_fillbuf vdesc0 filled)) ;;;
        dispatch E (m_nvars a) DARRAY_FILL filled ;;;
        f <- get_file ;;
        when (negb (is_pnetcdf (iotype f)) && is_some (fillbuf (varlist f varid0)))
             (emit (Ev_brel For_fillbuf) ;;;
              put_file (set_var f varid0 (set_fillbuf (varlist f varid0) None)))).

(** Lines 459-481. *)
Definition complete (E : env) (a : multi_args) (varids : list Z) : M unit :=
  f <- get_file ;;
  if ioproc (iosystem f) && is_pnetcdf (iotype f) then
    emit (Ev_flush_output_buffer (m_flushtodisk a)) ;;;
    let r := flush_output_buffer E f (m_flushtodisk a) in
    put_file (after_output_flush f r) ;;;
    if negb (is_noerr (of_code r)) then pio_err (of_code r) else ret tt
  else
    put_file
      (set_wb_pend
         (fold_left (fun f i => set_var f (aget varids i)
                                        (set_v_wb_pend (varlist f (aget varids i)) 0))
                    (Zrange 0 (m_nvars a)) f)
         0).

Definition write_darray_multi_body (E : env) (a : multi_args) : M pio_code :=
  '(varids, iodesc) <- check_inputs E a ;;
  share_params E a varids iodesc ;;;
  allocate_iobuf E a iodesc ;;;
  write_data E a iodesc ;;;
  write_holes E a varids iodesc ;;;
  complete E a varids ;;;
  ret PIO_NOERR.

Definition PIOc_write_darray_multi (E : env) (a : multi_args) : outcome :=
  match pio_get_file E (m_ncid a) with
  | None => {| ended := Return PIO_EBADID; file_after := None; calls_made := [] |}
  | Some f => run f (write_darray_multi_body E a)
  end.

(** The file as [flush_if_needed] leaves it after a flush of entry [i]. *)
Definition flushed_file (E : env) (f : file_desc_t) (i : nat) (flushtodisk : bool)
  : file_desc_t :=
  let r := flush_buffer E f (get_wmb f i) flushtodisk in
  put_wmb {| iosystem := iosystem f; pio_ncid := pio_ncid f; mode := mode f;
             iotype := iotype f; buffer := buffer f; buffer_next := buffer_next f;
             varlist := fl_varlist r; iobuf := fl_iobuf r; wb_pend := fl_wb_pend r |}
          i (fl_wmb r).

(** The calls of [flush_if_needed] for the agreed code [g]. *)
Definition flush_calls (i : nat) (g : Z) : list event :=
  if g >? 0 then [Ev_flush_buffer i (g =? 2)] else [].

(** [stops_in Q m]: when [m] leaves the function, it does so in a way
    of kind [Q]. *)
Definition stops_in {A : Type} (Q : exit -> bool) (m : M A) : Prop :=
  forall s e s', m s = (Stop e, s') -> Q e = true.

Definition is_return (e : exit) : bool :=
  match e with Return _ => true | _ => false end.

Definition is_error_return (e : exit) : bool :=
  match e with Return PIO_NOERR => false | Return _ => true | _ => false end.

Definition not_success (e : exit) : bool :=
  match e with Return PIO_NOERR => false | _ => true end.


(** [keeps Inv m]: [m] leaves a file that satisfies [Inv] as a file
    that satisfies [Inv]. *)
Definition keeps {A : Type} (Inv : file_desc_t -> Prop) (m : M A) : Prop :=
  forall s r s', Inv (file s) -> m s = (r, s') -> Inv (file s').

(** The backend and the roles of the task: no code of this file
    changes them. *)
Definition same_kind (f0 f : file_desc_t) : Prop :=
  iotype f = iotype f0 /\ iosystem f = iosystem f0.

(** The calls that share the parameters of a write with the I/O tasks. *)
Definition is_share_event (ev : event) : bool :=
  match ev with
  | Ev_inq_varndims _ | Ev_Send_msg | Ev_Bcast _ | Ev_Bcast_mpierr | Ev_Bcast_fndims => true
  | _ => false
  end.

Definition not_rearrange (ev : event) : bool :=
  match ev with Ev_rearrange_comp2io _ _ => false | _ => true end.

(** The calls of the hole-fill pass: the allocation and the release of
    [fillbuf] and the dispatch with mode FILL. *)
Definition is_hole_event (ev : event) : bool :=
  match ev with
  | Ev_bget For_fillbuf _ | Ev_brel For_fillbuf => true
  | Ev_write_darray_multi_par _ md _ | Ev_write_darray_multi_serial _ md _ =>
      md =? DARRAY_FILL
  | _ => false
  end.

Definition not_hole_event (ev : event) : bool := negb (is_hole_event ev).

(** The flush of the pending buffer of pnetcdf, lines 219-220. *)
Definition flush_first (f : file_desc_t) : list event :=
  if is_pnetcdf (iotype f) && is_some (iobuf f) then [Ev_flush_output_buffer true] else [].

(** The dispatch to the backend of [file] with mode [md] and buffer
    [buf]: the call, if the backend is known. *)
Definition dispatch_call (t : iotype_t) (nvars md : Z) (buf : option block) : list event :=
  match t with
  | PIO_IOTYPE_NETCDF4P | PIO_IOTYPE_PNETCDF => [Ev_write_darray_multi_par nvars md buf]
  | PIO_IOTYPE_NETCDF4C | PIO_IOTYPE_NETCDF => [Ev_write_darray_multi_serial nvars md buf]
  | IOTYPE_OTHER _ => []
  end.

(** *** Kinds of calls *)

(** The calls that change the arrays of a write-multi-buffer. *)
Definition is_append_event (ev : event) : bool :=
  match ev with
  | Ev_bgetr_data _ | Ev_realloc_vid _ | Ev_realloc_frame _ | Ev_bgetr_fillvalue _
  | Ev_memcpy_fillvalue _ _ | Ev_memcpy_data _ _ => true
  | _ => false
  end.

(** The calls of [find_var_fillvalue] and the allocation of a new,
    empty entry of the chain. *)
Definition is_setup_event (ev : event) : bool :=
  match ev with
  | Ev_inq_vartype _ | Ev_inq_type _ | Ev_malloc _ | Ev_inq_var_fill _ | Ev_calloc_wmb => true
  | _ => false
  end.

Definition is_calc_event (ev : event) : bool :=
  match ev with Ev_calc_var_rec_sz _ => true | _ => false end.

(** The calls that allocate a buffer or hand one to a backend. *)
Definition is_buffer_or_write_event (ev : event) : bool :=
  match ev with
  | Ev_bget _ _ | Ev_rearrange_comp2io _ _
  | Ev_write_darray_multi_par _ _ _ | Ev_write_darray_multi_serial _ _ _
  | Ev_flush_output_buffer _ | Ev_brel _ => true
  | _ => false
  end.

(** [emits P m]: whatever [m] does, it only adds calls of kind [P] to
    the trace. *)
Definition emits {A : Type} (P : event -> bool) (m : M A) : Prop :=
  forall s r s', m s = (r, s') ->
                 exists evs, trace s' = trace s ++ evs /\ forallb P evs = true.

(** The calls before the rearrangement: the sharing of the parameters,
    the flush of a pending buffer of pnetcdf and the allocation of
    [iobuf]. *)
Definition is_prepare_event (ev : event) : bool :=
  is_share_event ev
  || match ev with
     | Ev_flush_output_buffer _ | Ev_bget For_iobuf _ => true
     | _ => false
     end.

(** The calls of [find_var_fillvalue]. *)
Definition is_lookup_event (ev : event) : bool :=
  match ev with
  | Ev_inq_vartype _ | Ev_inq_type _ | Ev_malloc _ | Ev_inq_var_fill _ => true
  | _ => false
  end.

(** The entry a write of decomposition [ioid] and record kind [rv] goes
    to: the first of the chain that matches, or a new one behind the
    last when none does. *)
Definition is_target (f : file_desc_t) (ioid rv : Z) (i : nat) : Prop :=
  (i <= length (chain f))%nat
  /\ (forall j, (j < i)%nat -> wmb_matches ioid rv (get_wmb f j) = false)
  /\ ((i < length (chain f))%nat -> wmb_matches ioid rv (get_wmb f i) = true).

Definition is_flush_event (ev : event) : bool :=
  match ev with Ev_flush_buffer _ _ => true | _ => false end.

(** *** PIOc_set_buffer_size_limit, lines 41-50 *)

(** Line 19: the limit a process starts with. *)
Definition default_buffer_size_limit : Z := 10485760.

(** The call on the process-wide [pio_buffer_size_limit]: the value it
    returns and the limit it leaves. *)
Definition PIOc_set_buffer_size_limit (pio_buffer_size_limit limit : Z) : Z * Z :=
  let oldsize := pio_buffer_size_limit in
  (* If the user passed a valid size, use it. *)
  let pio_buffer_size_limit := if limit >? 0 then limit else pio_buffer_size_limit in
  (oldsize, pio_buffer_size_limit).

(** A run of calls with the limits of [limits], from the limit [start]:
    the values returned and the limit left. *)
Definition set_limits (start : Z) (limits : list Z) : list Z * Z :=
  fold_left (fun st limit =>
               let '(oldsize, now) := PIOc_set_buffer_size_limit (snd st) limit in
               (fst st ++ [oldsize], now))
            limits ([], start).

(** The environment of the calls made while the limit is [limit]. *)
Definition with_buffer_size_limit (E : env) (limit : Z) : env :=
  {| PIO_MAX_VARS := PIO_MAX_VARS E; PIO_WRITE := PIO_WRITE E;
     PIO_MAX_CACHED_IO_REGIONS := PIO_MAX_CACHED_IO_REGIONS E;
     NDEBUG := NDEBUG E;
     pio_buffer_size_limit := limit;
     PIO_FILL := PIO_FILL E;
     pio_get_file := pio_get_file E;
     pio_get_iodesc_from_id := pio_get_iodesc_from_id E;
     bstats_curalloc := bstats_curalloc E;
     bstats_maxfree := bstats_maxfree E;
     pool_ok := pool_ok E;
     libc_ok := libc_ok E;
     mpi_err := mpi_err E;
     allreduce_others := allreduce_others E;
     PIOc_inq_vartype := PIOc_inq_vartype E;
     PIOc_inq_type := PIOc_inq_type E;
     PIOc_inq_var_fill := PIOc_inq_var_fill E;
     PIOc_inq_varndims := PIOc_inq_varndims E;
     calc_var_rec_sz := calc_var_rec_sz E;
     flush_buffer := flush_buffer E;
     flush_output_buffer := flush_output_buffer E;
     rearrange_comp2io := rearrange_comp2io E;
     write_darray_multi_par := write_darray_multi_par E;
     write_darray_multi_serial := write_darray_multi_serial E |}.

End Darray.

(** ** Reading a distributed array *)

Module ReadDarray.

Import Darray.

(** The fields of [file_desc_t], of its [iosystem] and of its
    [varlist] that [PIOc_read_darray] reads or writes; [rb_pend] and
    [vrsize] are [PIO_Offset]s. *)
Record rfile_desc_t := {
  r_async : bool;
  r_ioproc : bool;
  iomaster_is_root : bool;           (* ios->iomaster == MPI_ROOT *)
  r_iotype : iotype_t;
  r_vrsize : Z -> Z;                 (* varlist[varid].vrsize *)
  v_rb_pend : Z -> Z;                (* varlist[varid].rb_pend *)
  rb_pend : Z
}.

(** The calls of [PIOc_read_darray]; [null] tells that the pointer
    [iobuf] of the call is null. *)
Inductive revent :=
| Rv_calc_var_rec_sz (varid : Z)
| Rv_bget (n : Z)
| Rv_read_darray_nc_serial (varid : Z) (null : bool)
| Rv_read_darray_nc (varid : Z) (null : bool)
| Rv_rearrange_io2comp (null : bool)
| Rv_brel (null : bool).

(** What the outside calls answer: a backend answers with its code and
    the bytes it leaves in the buffer it was given, the rearranger with
    its code and the array of the caller. *)
Record renv := {
  r_NDEBUG : bool;
  r_pio_get_file : Z -> option rfile_desc_t;
  r_pio_get_iodesc_from_id : Z -> option io_desc_t;
  r_calc_var_rec_sz : rfile_desc_t -> Z -> pio_code * Z;
  bget_ok : Z -> bool;
  pio_read_darray_nc_serial : rfile_desc_t -> io_desc_t -> Z -> option block
                              -> pio_code * block;
  pio_read_darray_nc : rfile_desc_t -> io_desc_t -> Z -> option block
                       -> pio_code * block;
  rearrange_io2comp : io_desc_t -> option block -> block -> pio_code * block
}.

Record routcome := {
  r_ended : exit;
  r_file_after : option rfile_desc_t;
  r_calls_made : list revent;
  r_array : block
}.

Definition is_null (b : option block) : bool :=
  match b with Some _ => false | None => true end.

Definition set_r_vrsize (f : rfile_desc_t) (varid n : Z) : rfile_desc_t :=
  {| r_async := r_async f; r_ioproc := r_ioproc f; iomaster_is_root := iomaster_is_root f;
     r_iotype := r_iotype f;
     r_vrsize := fun i => if i =? varid then n else r_vrsize f i;
     v_rb_pend := v_rb_pend f; rb_pend := rb_pend f |}.

Definition set_rb_pend (f : rfile_desc_t) (varid v n : Z) : rfile_desc_t :=
  {| r_async := r_async f; r_ioproc := r_ioproc f; iomaster_is_root := iomaster_is_root f;
     r_iotype := r_iotype f; r_vrsize := r_vrsize f;
     v_rb_pend := fun i => if i =? varid then v else v_rb_pend f i;
     rb_pend := n |}.

(** Lines 1034-1065, from the rearrangement on; [iobuf] is the buffer
    the backend has filled. *)
Definition rearrange_and_release (E : renv) (file : rfile_desc_t) (iodesc : io_desc_t)
           (varid rlen : Z) (tr : list revent) (iobuf : option block) (array : block)
  : routcome :=
  (* Rearrange the data. *)
  let '(ierr, array') := rearrange_io2comp E iodesc iobuf array in
  let tr := tr ++ [Rv_rearrange_io2comp (is_null iobuf)] in
  if negb (is_noerr ierr) then
    {| r_ended := Return ierr; r_file_after := Some file; r_calls_made := tr;
       r_array := array' |}
  else
    (* We don't use non-blocking reads *)
    let file := set_rb_pend file varid 0 0 in
    (* Free the buffer. *)
    let tr := tr ++ (if 0 <? rlen then [Rv_brel (is_null iobuf)] else []) in
    {| r_ended := Return PIO_NOERR; r_file_after := Some file; r_calls_made := tr;
       r_array := array' |}.

(** [PIOc_read_darray], lines 967-1068.  [rlen] is a [size_t]. *)
Definition PIOc_read_darray (E : renv) (ncid varid ioid arraylen : Z) (array : block)
  : routcome :=
  (* Get the file info. *)
  match r_pio_get_file E ncid with
  | None => {| r_ended := Return PIO_EBADID; r_file_after := None; r_calls_made := [];
               r_array := array |}
  | Some file =>
  (* Get the iodesc. *)
  match r_pio_get_iodesc_from_id E ioid with
  | None => {| r_ended := Return PIO_EBADID; r_file_after := Some file; r_calls_made := [];
               r_array := array |}
  | Some iodesc =>
  (* pioassert, as on the write path *)
  if negb (is_box (rearranger iodesc) || is_subset (rearranger iodesc) || r_NDEBUG E) then
    {| r_ended := Abort; r_file_after := Some file; r_calls_made := []; r_array := array |}
  else
  let rlen := (if iomaster_is_root file then maxiobuflen iodesc else llen iodesc) mod 2 ^ 64 in
  let calc := (negb (r_async file) || negb (r_ioproc file)) && (r_vrsize file varid =? 0) in
  let tr := if calc then [Rv_calc_var_rec_sz varid] else [] in
  let file := if calc then set_r_vrsize file varid (snd (r_calc_var_rec_sz E file varid))
              else file in
  let file := set_rb_pend file varid
                          (off_add (v_rb_pend file varid) (r_vrsize file varid))
                          (off_add (rb_pend file) (r_vrsize file varid)) in
  (* Allocate a buffer for one record. *)
  let alloc := r_ioproc file && (0 <? rlen) in
  let n := size_mul (mpitype_size iodesc) rlen in
  let tr := tr ++ (if alloc then [Rv_bget n] else []) in
  if alloc && negb (bget_ok E n) then
    {| r_ended := Return PIO_ENOMEM; r_file_after := Some file; r_calls_made := tr;
       r_array := array |}
  else
  let iobuf := if alloc then Some (fresh n) else None in
  (* Call the correct darray read function based on iotype. *)
  match r_iotype file with
  | PIO_IOTYPE_NETCDF | PIO_IOTYPE_NETCDF4C =>
      let '(ierr, bytes_read) := pio_read_darray_nc_serial E file iodesc varid iobuf in
      let iobuf := option_map (fun _ => bytes_read) iobuf in
      let tr := tr ++ [Rv_read_darray_nc_serial varid (is_null iobuf)] in
      if negb (is_noerr ierr) then
        {| r_ended := Return ierr; r_file_after := Some file; r_calls_made := tr;
           r_array := array |}
      else rearrange_and_release E file iodesc varid rlen tr iobuf array
  | PIO_IOTYPE_PNETCDF | PIO_IOTYPE_NETCDF4P =>
      let '(ierr, bytes_read) := pio_read_darray_nc E file iodesc varid iobuf in
      let iobuf := option_map (fun _ => bytes_read) iobuf in
      let tr := tr ++ [Rv_read_darray_nc varid (is_null iobuf)] in
      if negb (is_noerr ierr) then
        {| r_ended := Return ierr; r_file_after := Some file; r_calls_made := tr;
           r_array := array |}
      else rearrange_and_release E file iodesc varid rlen tr iobuf array
  | IOTYPE_OTHER _ =>
      {| r_ended := Return PIO_EBADIOTYPE; r_file_after := Some file; r_calls_made := tr;
         r_array := array |}
  end
  end
  end.

Definition is_rv_bget (ev : revent) : bool :=
  match ev with Rv_bget _ => true | _ => false end.
Definition is_rv_brel (ev : revent) : bool :=
  match ev with Rv_brel _ => true | _ => false end.

End ReadDarray.

(** ** Concrete inputs used below *)

Module Inputs.

Import Spmd.

(** Four ranks, every pair exchanging one [int]; the arguments of
    rank 0 (the layout of the test program of [pio_spmd.c] cut down to
    one element per peer). *)
Definition swap4 (max_requests_ : Z) : swapm_args :=
  {| nprocs := 4; mytask := 0;
     sndlths := [1; 1; 1; 1]; sdispls := [0; 4; 8; 12];
     stypes := [MPI_INT; MPI_INT; MPI_INT; MPI_INT];
     rcvlths := [1; 1; 1; 1]; rdispls := [0; 4; 8; 12];
     rtypes := [MPI_INT; MPI_INT; MPI_INT; MPI_INT];
     handshake := false; isend := false; max_requests := max_requests_ |}.

(** Two ranks gathering one [int] each at rank 0. *)
Definition gather2 (flow_cntl : Z) : gather_args :=
  {| g_sendbuf := bytes [Byte.x0a; Byte.x0b; Byte.x0c; Byte.x0d];
     g_sendcnt := 1; g_sendtype := MPI_INT;
     g_recvbuf := fresh 8; g_recvcnt := 1; g_recvtype := MPI_INT;
     g_root := 0; comm_rank := 0; comm_size := 2; g_flow_cntl := flow_cntl |}.

Definition sent2 (p : Z) : block :=
  if p =? 0 then bytes [Byte.x0a; Byte.x0b; Byte.x0c; Byte.x0d]
  else bytes [Byte.x1a; Byte.x1b; Byte.x1c; Byte.x1d].

Import Darray.

(** A decomposition of two [int]s per task with eight regions, a file
    opened for writing whose chain holds two arrays queued for
    decomposition 5 (scenario S3 of the specification), and an
    environment in which every outside call succeeds. *)
Definition iodesc0 : io_desc_t :=
  {| rearranger := PIO_REARR_BOX; ndof := 2; llen := 2; maxiobuflen := 2;
     mpitype := MPI_INT; mpitype_size := 4; piotype_size := 4;
     maxregions := 8; maxfillregions := 1;
     holegridsize := 0; maxholegridsize := 0; needsfill := false |}.

Definition var0 : var_desc_t :=
  {| record := -1; pio_type := 4; type_size := 4;
     v_fillvalue := Some (bytes [Byte.xff; Byte.xff; Byte.xff; Byte.xff]);
     use_fill := 1; fillbuf := None; v_wb_pend := 0; vrsize := 16 |}.

Definition ios0 : iosystem_desc_t :=
  {| async := false; ioproc := true; io_rank := 0; compmaster_is_root := false |}.

Definition queued2 : wmulti_buffer :=
  {| w_ioid := 5; recordvar := 0; num_arrays := 2; arraylen := 2;
     vid := Some [0; 1];
     data := Some (bytes (repeat Byte.x01 8 ++ repeat Byte.x02 8));
     frame := None; fillvalue := None |}.

Definition file0 (m : Z) (t : iotype_t) (next : list wmulti_buffer) : file_desc_t :=
  {| iosystem := ios0; pio_ncid := 7; mode := m; iotype := t;
     buffer := {| w_ioid := -1; recordvar := 0; num_arrays := 0; arraylen := 0;
                  vid := None; data := None; frame := None; fillvalue := None |};
     buffer_next := next;
     varlist := fun _ => var0; iobuf := None; wb_pend := 0 |}.

(** Modelled from the spec: [flush_buffer] is not in the two source
    files; by the flush monotonicity property (section 8, 3) it leaves
    the entry with no array queued. *)
Definition flush_buffer0 (f : file_desc_t) (w : wmulti_buffer) (flushtodisk : bool)
  : flush_result :=
  {| fl_code := PIO_NOERR;
     fl_wmb := set_wmb w 0 (arraylen w) None None None None;
     fl_iobuf := iobuf f; fl_varlist := varlist f; fl_wb_pend := 0 |}.

Definition env0 (f : file_desc_t) (d : io_desc_t) (ndebug : bool) (maxfree : Z) : env :=
  {| PIO_MAX_VARS := 8192; PIO_WRITE := 1; PIO_MAX_CACHED_IO_REGIONS := 16;
     NDEBUG := ndebug;
     pio_buffer_size_limit := 10485760;
     PIO_FILL := fun t => fresh (Spmd.type_size t);
     pio_get_file := fun ncid => if ncid =? 7 then Some f else None;
     pio_get_iodesc_from_id := fun ioid => if ioid =? 5 then Some d else None;
     bstats_curalloc := fun _ => 4096;
     bstats_maxfree := fun _ => maxfree;
     pool_ok := fun _ _ => true;
     libc_ok := fun _ _ => true;
     mpi_err := fun _ => 0;
     allreduce_others := [0; 0; 0];
     PIOc_inq_vartype := fun _ => (PIO_NOERR, 4);
     PIOc_inq_type := fun _ => (PIO_NOERR, 4);
     PIOc_inq_var_fill := fun _ => (PIO_NOERR, (0, fresh 4));
     PIOc_inq_varndims := fun _ => (PIO_NOERR, 1);
     calc_var_rec_sz := fun _ _ => (PIO_NOERR, 16);
     flush_buffer := flush_buffer0;
     flush_output_buffer :=
     fun f _ => {| of_code := PIO_NOERR; of_iobuf := None;
                   of_varlist := varlist f; of_wb_pend := 0 |};
     rearrange_comp2io := fun _ _ b _ => (PIO_NOERR, b);
     write_darray_multi_par := fun _ _ _ => PIO_NOERR;
     write_darray_multi_serial := fun _ _ _ => PIO_NOERR |}.

(** Scenario S3: two arrays queued, eight regions each, a cap of 16. *)
Definition file_S3 : file_desc_t := file0 1 PIO_IOTYPE_NETCDF [queued2].
Definition env_S3 : env := env0 file_S3 iodesc0 false 1000000.
Definition payload0 : block := bytes (repeat Byte.x03 8).

(** A decomposition whose rearranger is neither of the two, and a
    call that writes two variables through it. *)
Definition iodesc_other : io_desc_t :=
  {| rearranger := REARR_OTHER 3; ndof := 2; llen := 2; maxiobuflen := 2;
     mpitype := MPI_INT; mpitype_size := 4; piotype_size := 4;
     maxregions := 8; maxfillregions := 1;
     holegridsize := 0; maxholegridsize := 0; needsfill := false |}.

Definition file_plain : file_desc_t := file0 1 PIO_IOTYPE_NETCDF [].

Definition multi2 : multi_args :=
  {| m_ncid := 7; m_varids := Some [0; 1]; m_ioid := 5; m_nvars := 2; m_arraylen := 2;
     m_array := bytes (repeat Byte.x03 16); m_frame := None;
     m_fillvalue := Some (bytes (repeat Byte.xff 8)); m_flushtodisk := false |}.

(** A subset decomposition with one hole on this task and at most two
    on any, of one-byte elements; the task is the I/O master. *)
Definition iodesc_holes : io_desc_t :=
  {| rearranger := PIO_REARR_SUBSET; ndof := 2; llen := 2; maxiobuflen := 2;
     mpitype := MPI_CHAR; mpitype_size := 1; piotype_size := 1;
     maxregions := 8; maxfillregions := 1;
     holegridsize := 1; maxholegridsize := 2; needsfill := true |}.

Definition multi1 : multi_args :=
  {| m_ncid := 7; m_varids := Some [0]; m_ioid := 5; m_nvars := 1; m_arraylen := 2;
     m_array := bytes (repeat Byte.x03 2); m_frame := None;
     m_fillvalue := Some (bytes [Byte.xff]); m_flushtodisk := false |}.

(** A box decomposition that needs fill, of two-byte elements. *)
Definition iodesc_fill : io_desc_t :=
  {| rearranger := PIO_REARR_BOX; ndof := 2; llen := 2; maxiobuflen := 2;
     mpitype := MPI_SHORT; mpitype_size := 2; piotype_size := 2;
     maxregions := 8; maxfillregions := 1;
     holegridsize := 0; maxholegridsize := 0; needsfill := true |}.

Definition multi2_fill : multi_args :=
  {| m_ncid := 7; m_varids := Some [0; 1]; m_ioid := 5; m_nvars := 2; m_arraylen := 2;
     m_array := bytes (repeat Byte.x03 8); m_frame := None;
     m_fillvalue := Some (bytes [Byte.xf0; Byte.xf1; Byte.xe0; Byte.xe1]);
     m_flushtodisk := false |}.

(** The environment [E] with other answers of the pool, of
    [PIOc_inq_var_fill] and of the two backends. *)
Definition env_with (E : env) (pool : list event -> Z -> bool)
           (inq_var_fill : Z -> pio_code * (Z * block)) (backend : pio_code) : env :=
  {| PIO_MAX_VARS := PIO_MAX_VARS E; PIO_WRITE := PIO_WRITE E;
     PIO_MAX_CACHED_IO_REGIONS := PIO_MAX_CACHED_IO_REGIONS E;
     NDEBUG := NDEBUG E;
     pio_buffer_size_limit := pio_buffer_size_limit E;
     PIO_FILL := PIO_FILL E;
     pio_get_file := pio_get_file E;
     pio_get_iodesc_from_id := pio_get_iodesc_from_id E;
     bstats_curalloc := bstats_curalloc E;
     bstats_maxfree := bstats_maxfree E;
     pool_ok := pool;
     libc_ok := libc_ok E;
     mpi_err := mpi_err E;
     allreduce_others := allreduce_others E;
     PIOc_inq_vartype := PIOc_inq_vartype E;
     PIOc_inq_type := PIOc_inq_type E;
     PIOc_inq_var_fill := inq_var_fill;
     PIOc_inq_varndims := PIOc_inq_varndims E;
     calc_var_rec_sz := calc_var_rec_sz E;
     flush_buffer := flush_buffer E;
     flush_output_buffer := flush_output_buffer E;
     rearrange_comp2io := rearrange_comp2io E;
     write_darray_multi_par := fun _ _ _ => backend;
     write_darray_multi_serial := fun _ _ _ => backend |}.

(** A file whose variables are record variables with no fill value at
    hand. *)
Definition var_nofill : var_desc_t :=
  {| record := 3; pio_type := 0; type_size := 0; v_fillvalue := None;
     use_fill := 0; fillbuf := None; v_wb_pend := 0; vrsize := 16 |}.

Definition file_nofill : file_desc_t :=
  {| iosystem := ios0; pio_ncid := 7; mode := 1; iotype := PIO_IOTYPE_NETCDF;
     buffer := {| w_ioid := -1; recordvar := 0; num_arrays := 0; arraylen := 0;
                  vid := None; data := None; frame := None; fillvalue := None |};
     buffer_next := [];
     varlist := fun _ => var_nofill; iobuf := None; wb_pend := 0 |}.

(** The pool has room, the query of the fill value fails. *)
Definition env_nofill : env :=
  env_with (env0 file_nofill iodesc0 false 1000000) (fun _ _ => true)
           (fun _ => (BACKEND (-49), (0, fresh 4))) PIO_NOERR.

(** One array queued for decomposition 5, and a pool with room. *)
Definition queued1 : wmulti_buffer :=
  {| w_ioid := 5; recordvar := 0; num_arrays := 1; arraylen := 2;
     vid := Some [4];
     data := Some (bytes (repeat Byte.x01 8));
     frame := None; fillvalue := None |}.

Definition file_queued : file_desc_t := file0 1 PIO_IOTYPE_NETCDF [queued1].
Definition env_queue : env := env0 file_queued iodesc0 false 1000000.

(** The pool is exhausted. *)
Definition env_full : env :=
  env_with env_queue (fun _ _ => false) (PIOc_inq_var_fill env_queue) PIO_NOERR.

(** The backends refuse the data. *)
Definition env_refused : env :=
  env_with (env0 file_plain iodesc0 false 100) (fun _ _ => true)
           (fun _ => (PIO_NOERR, (0, fresh 4))) (BACKEND (-31)).

(** The four ranks of [swap4] with handshakes and one request at a
    time. *)
Definition swap4_hs : swapm_args :=
  {| nprocs := 4; mytask := 0;
     sndlths := [1; 1; 1; 1]; sdispls := [0; 4; 8; 12];
     stypes := [MPI_INT; MPI_INT; MPI_INT; MPI_INT];
     rcvlths := [1; 1; 1; 1]; rdispls := [0; 4; 8; 12];
     rtypes := [MPI_INT; MPI_INT; MPI_INT; MPI_INT];
     handshake := true; isend := true; max_requests := 1 |}.

(** A file read on a compute task that is not an I/O task, and on an
    I/O task whose backend fails. *)
Definition rfile0 (is_ioproc : bool) : ReadDarray.rfile_desc_t :=
  {| ReadDarray.r_async := false; ReadDarray.r_ioproc := is_ioproc;
     ReadDarray.iomaster_is_root := false;
     ReadDarray.r_iotype := PIO_IOTYPE_NETCDF;
     ReadDarray.r_vrsize := fun _ => 16;
     ReadDarray.v_rb_pend := fun _ => 0;
     ReadDarray.rb_pend := 0 |}.

Definition renv0 (is_ioproc : bool) (backend : pio_code) : ReadDarray.renv :=
  {| ReadDarray.r_NDEBUG := false;
     ReadDarray.r_pio_get_file := fun ncid => if ncid =? 7 then Some (rfile0 is_ioproc) else None;
     ReadDarray.r_pio_get_iodesc_from_id := fun ioid => if ioid =? 5 then Some iodesc0 else None;
     ReadDarray.r_calc_var_rec_sz := fun _ _ => (PIO_NOERR, 16);
     ReadDarray.bget_ok := fun _ => true;
     ReadDarray.pio_read_darray_nc_serial := fun _ _ _ _ => (backend, fresh 8);
     ReadDarray.pio_read_darray_nc := fun _ _ _ _ => (backend, fresh 8);
     ReadDarray.rearrange_io2comp := fun _ _ array => (PIO_NOERR, array) |}.

(** The environment [E] on another communicator: the results of its
    MPI calls and the flush codes of the other compute tasks. *)
Definition env_comm (E : env) (mpi : list event -> Z) (others : list Z) : env :=
  {| PIO_MAX_VARS := PIO_MAX_VARS E; PIO_WRITE := PIO_WRITE E;
     PIO_MAX_CACHED_IO_REGIONS := PIO_MAX_CACHED_IO_REGIONS E;
     NDEBUG := NDEBUG E;
     pio_buffer_size_limit := pio_buffer_size_limit E;
     PIO_FILL := PIO_FILL E;
     pio_get_file := pio_get_file E;
     pio_get_iodesc_from_id := pio_get_iodesc_from_id E;
     bstats_curalloc := bstats_curalloc E;
     bstats_maxfree := bstats_maxfree E;
     pool_ok := pool_ok E;
     libc_ok := libc_ok E;
     mpi_err := mpi;
     allreduce_others := others;
     PIOc_inq_vartype := PIOc_inq_vartype E;
     PIOc_inq_type := PIOc_inq_type E;
     PIOc_inq_var_fill := PIOc_inq_var_fill E;
     PIOc_inq_varndims := PIOc_inq_varndims E;
     calc_var_rec_sz := calc_var_rec_sz E;
     flush_buffer := flush_buffer E;
     flush_output_buffer := flush_output_buffer E;
     rearrange_comp2io := rearrange_comp2io E;
     write_darray_multi_par := write_darray_multi_par E;
     write_darray_multi_serial := write_darray_multi_serial E |}.

(** Nothing is queued for decomposition 5 and the all-reduce fails. *)
Definition env_allreduce_fails : env :=
  env_comm (Inputs.env0 Inputs.file_plain Inputs.iodesc0 false 1000000) (fun _ => 1) [0; 0; 0].

(** One array is queued, the pool has room, and another compute task
    asks for an I/O flush. *)
Definition env_peer_flush : env := env_comm Inputs.env_queue (fun _ => 0) [0; 1; 0].

(** An I/O task that gathers 2^29 doubles (4 GiB) of one variable from
    compute tasks holding two each, through the box rearranger with
    fill. *)
Definition iodesc_4GiB : io_desc_t :=
  {| rearranger := PIO_REARR_BOX; ndof := 2; llen := 536870912; maxiobuflen := 536870912;
     mpitype := Spmd.MPI_DOUBLE; mpitype_size := 8; piotype_size := 8;
     maxregions := 8; maxfillregions := 1;
     holegridsize := 0; maxholegridsize := 0; needsfill := true |}.

Definition multi_4GiB : multi_args :=
  {| m_ncid := 7; m_varids := Some [0]; m_ioid := 5; m_nvars := 1; m_arraylen := 2;
     m_array := bytes (repeat Byte.x03 16); m_frame := None;
     m_fillvalue := Some (bytes (repeat Byte.xff 8)); m_flushtodisk := false |}.

Definition env_4GiB : env := Inputs.env0 Inputs.file_plain iodesc_4GiB false 100.

End Inputs.

(** ** Facts on machine integers and loops *)

Lemma wrap_small (w z : Z) :
  0 < w -> - 2 ^ (w - 1) <= z < 2 ^ (w - 1) -> wrap w z = z.
Proof.
  intros Hw Hz. unfold wrap.
  assert (E : 2 ^ w = 2 * 2 ^ (w - 1)).
  { replace w with (Z.succ (w - 1)) at 1 by lia. apply Z.pow_succ_r. lia. }
  rewrite Z.mod_small; lia.
Qed.

Lemma wrap32_small (z : Z) : INT_MIN <= z <= INT_MAX -> wrap 32 z = z.
Proof.
  unfold INT_MIN, INT_MAX. intros H. apply wrap_small; [lia|].
  change (2 ^ (32 - 1)) with (2 ^ 31). lia.
Qed.

Lemma wrap64_small (z : Z) : - 2 ^ 63 <= z < 2 ^ 63 -> wrap 64 z = z.
Proof.
  intros H. apply wrap_small; [lia|]. change (2 ^ (64 - 1)) with (2 ^ 63). lia.
Qed.

Lemma In_Zrange (lo hi k : Z) : In k (Zrange lo hi) <-> lo <= k < hi.
Proof.
  unfold Zrange. rewrite in_map_iff. split.
  - intros [n [<- Hn]]. apply in_seq in Hn. lia.
  - intros H. exists (Z.to_nat (k - lo)). split; [lia|]. apply in_seq. lia.
Qed.

Lemma Zrange_length (lo hi : Z) : length (Zrange lo hi) = Z.to_nat (hi - lo).
Proof. unfold Zrange. now rewrite length_map, length_seq. Qed.

Lemma Zrange_empty (lo hi : Z) : hi <= lo -> Zrange lo hi = [].
Proof.
  intros H. unfold Zrange. replace (Z.to_nat (hi - lo)) with 0%nat by lia. reflexivity.
Qed.

(** ** Facts on memory blocks *)

Lemma mapi_from_length {A B : Type} (f : nat -> A -> B) (i : nat) (l : list A) :
  length (mapi_from f i l) = length l.
Proof. revert i. induction l as [|x l IH]; intros i; simpl; [reflexivity|]. now rewrite IH. Qed.


Lemma mapi_from_nth {A B : Type} (f : nat -> A -> B) (i k : nat) (l : list A) (d : A) (d' : B) :
  (k < length l)%nat -> nth k (mapi_from f i l) d' = f (i + k)%nat (nth k l d).
Proof.
  revert i k. induction l as [|x l IH]; intros i k H; simpl in *; [lia|].
  destruct k as [|k].
  - now rewrite Nat.add_0_r.
  - rewrite IH by lia. f_equal. lia.
Qed.

Lemma memcpy_length (dst : block) (doff : Z) (src : block) (soff n : Z) :
  length (memcpy dst doff src soff n) = length dst.
Proof. apply mapi_from_length. Qed.

Lemma memcpy_size (dst : block) (doff : Z) (src : block) (soff n : Z) :
  size (memcpy dst doff src soff n) = size dst.
Proof. unfold size. now rewrite memcpy_length. Qed.


(** What a block holds after [memcpy]. *)
Lemma load_memcpy (dst : block) (doff : Z) (src : block) (soff n k : Z) :
  0 <= k < size dst ->
  load (memcpy dst doff src soff n) k =
    if (doff <=? k) && (k <? doff + n) then load src (soff + (k - doff)) else load dst k.
Proof.
  unfold size. intros Hk. unfold load at 1. destruct (Z.ltb_spec k 0); [lia|].
  unfold memcpy. rewrite (mapi_from_nth _ 0 (Z.to_nat k) dst (None : cell) (None : cell)) by lia.
  cbv zeta. simpl. rewrite Z2Nat.id by lia.
  destruct ((doff <=? k) && (k <? doff + n)); [reflexivity|].
  unfold load. destruct (Z.ltb_spec k 0); [lia|reflexivity].
Qed.

Lemma load_outside (b : block) (k : Z) : size b <= k -> load b k = None.
Proof.
  unfold size, load. intros H. destruct (Z.ltb_spec k 0); [reflexivity|].
  apply nth_overflow. lia.
Qed.

Lemma fresh_size (n : Z) : 0 <= n -> size (fresh n) = n.
Proof. intros H. unfold size, fresh. rewrite repeat_length. lia. Qed.

Lemma resize_size (old : block) (n : Z) : 0 <= n -> size (resize old n) = n.
Proof.
  intros H. unfold size, resize, fresh.
  rewrite length_firstn, length_app, repeat_length. lia.
Qed.

(** [resize] keeps the bytes of the old block. *)
Lemma load_resize (old : block) (n k : Z) :
  0 <= k < n -> k < size old -> load (resize old n) k = load old k.
Proof.
  unfold size, load, resize. intros Hk Ho. destruct (Z.ltb_spec k 0); [lia|].
  rewrite nth_firstn. destruct (Nat.ltb_spec (Z.to_nat k) (Z.to_nat n)); [|lia].
  apply app_nth1. lia.
Qed.

Lemma load_fresh (n k : Z) : load (fresh n) k = None.
Proof.
  unfold load, fresh. destruct (k <? 0); [reflexivity|].
  destruct (Nat.lt_ge_cases (Z.to_nat k) (length (repeat (None : cell) (Z.to_nat n))))
    as [H|H].
  - apply nth_error_nth. rewrite nth_error_repeat; [reflexivity|].
    now rewrite repeat_length in H.
  - now apply nth_overflow.
Qed.

(** ** The pair schedule *)

Section PairSchedule.

Import Spmd.

(** Without wrap-around, [pair] is the exclusive or of [istep + 1] and
    the rank, cut off above [np - 1]. *)
Lemma pair_xor (np istep me : Z) :
  0 <= istep < INT_MAX -> INT_MIN < np <= INT_MAX ->
  pair np istep me =
    if Z.lxor (istep + 1) me >? np - 1 then -1 else Z.lxor (istep + 1) me.
Proof.
  unfold INT_MAX, INT_MIN. intros Hi Hn. unfold pair, int_add, int_sub.
  rewrite !wrap32_small by (unfold INT_MAX, INT_MIN; lia). reflexivity.
Qed.

Lemma lxor_nonneg (a b : Z) : 0 <= a -> 0 <= b -> 0 <= Z.lxor a b.
Proof. intros Ha Hb. apply Z.lxor_nonneg. tauto. Qed.

Lemma in_schedule (a : swapm_args) (c2 p : Z) :
  In p (schedule a c2) <->
  (exists istep, 0 <= istep < int_sub c2 1 /\ p = pair (nprocs a) istep (mytask a))
  /\ 0 <= p /\ (0 < aget (sndlths a) p \/ 0 < aget (rcvlths a) p).
Proof.
  unfold schedule, has_payload. rewrite filter_In, in_map_iff.
  rewrite andb_true_iff, orb_true_iff, Z.leb_le, !Z.ltb_lt.
  split.
  - intros [[i [<- Hi]] H]. apply In_Zrange in Hi. split; [|exact H]. now exists i.
  - intros [[i [Hi ->]] H]. split; [|exact H]. exists i. split; [reflexivity|].
    now apply In_Zrange.
Qed.

End PairSchedule.

(** C5, as the specification words it, fails: for rank 1 of four at step
    0 the code pairs with rank 0, where ((me + 1) XOR (istep + 1)) - 1
    is rank 2. *)
Lemma pair_is_not_the_shifted_xor :
  Spmd.pair 4 0 1 = 0 /\ Z.lxor (1 + 1) (0 + 1) - 1 = 2 /\
  Spmd.pair 4 0 1 <> Z.lxor (1 + 1) (0 + 1) - 1.
Proof. repeat split. discriminate. Qed.

(** C5, amended: the partner of rank [me] at step [istep] is
    (istep + 1) XOR me, the ranks taken from 0; a partner above
    [nprocs - 1] is answered by -1, which is no exchange; the partner is
    never negative otherwise, never the rank itself, and the schedule of
    [pio_swapm] keeps, in step order, the partners that have a payload to
    send or to receive. *)
Theorem pair_partner (a : Spmd.swapm_args) (c2 istep : Z) :
  0 <= istep < INT_MAX ->
  0 <= Spmd.mytask a < Spmd.nprocs a ->
  Spmd.nprocs a <= INT_MAX ->
  let q := Z.lxor (istep + 1) (Spmd.mytask a) in
  let p := Spmd.pair (Spmd.nprocs a) istep (Spmd.mytask a) in
  (q <= Spmd.nprocs a - 1 -> p = q /\ 0 <= p <= Spmd.nprocs a - 1 /\ p <> Spmd.mytask a)
  /\ (Spmd.nprocs a - 1 < q -> p = -1 /\ ~ In p (Spmd.schedule a c2))
  /\ (forall r, In r (Spmd.schedule a c2) <->
                (exists i, 0 <= i < int_sub c2 1 /\
                           r = Spmd.pair (Spmd.nprocs a) i (Spmd.mytask a))
                /\ 0 <= r
                /\ (0 < aget (Spmd.sndlths a) r \/ 0 < aget (Spmd.rcvlths a) r)).
Proof.
  intros Hi Hme Hn q p.
  assert (Hp : p = if q >? Spmd.nprocs a - 1 then -1 else q).
  { subst p q. apply pair_xor; unfold INT_MIN, INT_MAX in *; lia. }
  assert (Hq : 0 <= q) by (apply lxor_nonneg; lia).
  split; [|split].
  - intros Hle. destruct (Z.gtb_spec q (Spmd.nprocs a - 1)) as [H|H]; [lia|].
    split; [exact Hp|]. split; [lia|].
    rewrite Hp. intros E. unfold q in E.
    assert (E' : Z.lxor (Z.lxor (istep + 1) (Spmd.mytask a)) (Spmd.mytask a) = 0).
    { rewrite E. apply Z.lxor_nilpotent. }
    rewrite Z.lxor_assoc, Z.lxor_nilpotent, Z.lxor_0_r in E'. lia.
  - intros Hgt. destruct (Z.gtb_spec q (Spmd.nprocs a - 1)) as [H|H]; [|lia].
    split; [exact Hp|]. rewrite Hp. intros Hin. apply in_schedule in Hin. lia.
  - intros r. apply in_schedule.
Qed.

Lemma pair_partner_witness :
  Spmd.pair 4 0 1 = Z.lxor (0 + 1) 1 /\ In 1 (Spmd.schedule (Inputs.swap4 1) 4).
Proof.
  pose proof (pair_partner (Inputs.swap4 1) 4 0) as H.
  assert (H1 : 0 <= 0 < INT_MAX) by (unfold INT_MAX; lia).
  assert (H2 : 0 <= Spmd.mytask (Inputs.swap4 1) < Spmd.nprocs (Inputs.swap4 1))
    by (simpl; lia).
  assert (H3 : Spmd.nprocs (Inputs.swap4 1) <= INT_MAX) by (unfold INT_MAX; simpl; lia).
  specialize (H H1 H2 H3). simpl in H. destruct H as [_ [_ H]].
  split; [reflexivity|]. apply H. split; [|split].
  - exists 0. split; [|reflexivity]. split; [discriminate | reflexivity].
  - discriminate.
  - left. reflexivity.
Defined.

(** ** The receive window of pio_swapm *)

Section Window.

Import Spmd.

Lemma self_copy_peer (a : swapm_args) (c : mpi_call) (p : Z) :
  In c (self_copy a) -> call_peer c = Some p -> p = mytask a.
Proof.
  unfold self_copy. destruct (0 <? aget (sndlths a) (mytask a)); simpl; [|tauto].
  intros [<- | [<- | [<- | []]]]; simpl; congruence.
Qed.

Lemma schedule_length_int (a : swapm_args) (c2 : Z) :
  0 <= Z.of_nat (length (schedule a c2)) <= INT_MAX.
Proof.
  split; [lia|]. unfold schedule.
  pose proof (filter_length_le (has_payload a)
                (map (fun istep => pair (nprocs a) istep (mytask a))
                     (Zrange 0 (int_sub c2 1)))) as H.
  rewrite length_map, Zrange_length in H.
  assert (B : int_sub c2 1 < 2 ^ 31).
  { unfold int_sub, wrap. change (2 ^ (32 - 1)) with (2 ^ 31).
    pose proof (Z.mod_pos_bound (c2 - 1 + 2 ^ 31) (2 ^ 32)). lia. }
  unfold INT_MAX. lia.
Qed.

Lemma window_cases (steps mr : Z) :
  0 <= steps <= INT_MAX ->
  (steps = 1 -> window steps mr = (1, 1))
  /\ (1 < steps -> 1 < mr < steps -> window steps mr = (mr, Z.quot mr 2))
  /\ (1 < steps -> mr = 1 \/ steps <= mr -> window steps mr = (2, 1))
  /\ (1 < steps -> mr <= 0 -> window steps mr = (steps, steps)).
Proof.
  unfold INT_MAX. intros Hs. unfold window. repeat split.
  - intros ->. reflexivity.
  - intros H1 H2. destruct (Z.eqb_spec steps 1); [lia|].
    destruct (Z.ltb_spec 1 mr); [|lia]. destruct (Z.ltb_spec mr steps); [|lia].
    simpl. unfold int_div. rewrite wrap32_small; [reflexivity|].
    unfold INT_MIN, INT_MAX.
    assert (0 <= Z.quot mr 2 <= mr).
    { split; [apply Z.quot_pos; lia|]. apply Z.quot_le_upper_bound; lia. }
    lia.
  - intros H1 H2. destruct (Z.eqb_spec steps 1); [lia|].
    destruct (Z.ltb_spec 1 mr); destruct (Z.ltb_spec mr steps); simpl; try lia;
      destruct (Z.ltb_spec 0 mr); try lia; reflexivity.
  - intros H1 H2. destruct (Z.eqb_spec steps 1); [lia|].
    destruct (Z.ltb_spec 1 mr); [lia|]. simpl.
    destruct (Z.ltb_spec 0 mr); [lia|]. reflexivity.
Qed.

Lemma pio_swapm_returns (a : swapm_args) (c2 : Z) :
  ceil2 (nprocs a) = Some c2 -> exists tr, pio_swapm a = Some (tr, PIO_NOERR).
Proof.
  intros H. unfold pio_swapm. rewrite H.
  destruct (Z.of_nat (length (schedule a c2)) =? 0); [eauto|].
  destruct (window _ _) as [maxreq maxreqh].
  destruct (fold_left _ _ _) as [r body]. eauto.
Qed.

End Window.

(** *** The data receives open at one time *)

Section Outstanding.

Import Spmd.

Lemma max_outstanding_from_ge (tr : list mpi_call) :
  forall open, Z.of_nat (length open) <= max_outstanding_from open tr.
Proof. destruct tr; intros open; cbn [max_outstanding_from]; lia. Qed.

Lemma max_outstanding_from_app (t1 t2 : list mpi_call) :
  forall open,
    max_outstanding_from open (t1 ++ t2)
    = Z.max (max_outstanding_from open t1) (max_outstanding_from (open_after open t1) t2).
Proof.
  induction t1 as [|c t1 IH]; intros open; cbn [app max_outstanding_from open_after fold_left].
  - pose proof (max_outstanding_from_ge t2 open). lia.
  - rewrite IH. unfold open_after. lia.
Qed.

Lemma open_after_app (t1 t2 : list mpi_call) (open : list Z) :
  open_after open (t1 ++ t2) = open_after (open_after open t1) t2.
Proof. unfold open_after. apply fold_left_app. Qed.

(** Calls that open or close no data receive. *)
Lemma neutral_calls (tr : list mpi_call) :
  (forall c, In c tr -> forall open, track open c = open) ->
  forall open, open_after open tr = open
               /\ max_outstanding_from open tr = Z.of_nat (length open).
Proof.
  induction tr as [|c tr IH]; intros H open; cbn [open_after fold_left max_outstanding_from].
  - split; reflexivity.
  - rewrite (H c (or_introl eq_refl)).
    destruct (IH (fun c' Hc => H c' (or_intror Hc)) open) as [I1 I2].
    unfold open_after in I1. rewrite I1, I2. split; [reflexivity|lia].
Qed.

Lemma open_slots_length (R : Z -> bool) (lo hi : Z) (open : list Z) :
  open_slots R lo hi open -> 1 <= lo ->
  Z.of_nat (length open) <= 1 + Z.max 0 (hi - lo).
Proof.
  intros [N H] Hlo.
  assert (I : incl open (0 :: Zrange lo hi)).
  { intros i Hi. destruct (H i Hi) as [_ [B [Z0|L]]]; [left; auto|].
    right. apply In_Zrange. lia. }
  pose proof (NoDup_incl_length N I) as Le. cbn [length] in Le.
  rewrite Zrange_length in Le. lia.
Qed.

Lemma within_app (B : Z) (o o1 o2 : list Z) (t1 t2 : list mpi_call) :
  within B o t1 o1 -> within B o1 t2 o2 -> within B o (t1 ++ t2) o2.
Proof.
  intros [E1 M1] [E2 M2]. split.
  - rewrite open_after_app, E1. exact E2.
  - rewrite max_outstanding_from_app, E1. lia.
Qed.

Lemma within_nil (B : Z) (o : list Z) : Z.of_nat (length o) <= B -> within B o [] o.
Proof. intros H. split; [reflexivity|exact H]. Qed.

Lemma within_neutral (B : Z) (o : list Z) (tr : list mpi_call) :
  (forall c, In c tr -> forall open, track open c = open) ->
  Z.of_nat (length o) <= B -> within B o tr o.
Proof.
  intros H Hb. destruct (neutral_calls tr H o) as [E M]. split; [exact E|lia].
Qed.

(** Calls that open no data receive leave no more of them open. *)
Lemma closing_calls (tr : list mpi_call) :
  (forall c, In c tr -> forall open, (length (track open c) <= length open)%nat) ->
  forall open, max_outstanding_from open tr = Z.of_nat (length open).
Proof.
  induction tr as [|c tr IH]; intros H open; cbn [max_outstanding_from].
  - reflexivity.
  - rewrite (IH (fun c' Hc => H c' (or_intror Hc))).
    pose proof (H c (or_introl eq_refl) open). lia.
Qed.

Section Slots.

Variables (a : swapm_args) (swapids : list Z).

Lemma within_post (B lo i : Z) (open : list Z) :
  open_slots (has_recv a swapids) lo i open -> 0 <= i -> (i = 0 \/ lo <= i) ->
  Z.of_nat (length open) + 1 <= B ->
  exists open', within B open (post_recv a swapids i) open'
                /\ open_slots (has_recv a swapids) lo (i + 1) open'.
Proof.
  intros [N H] Hi Hlo Hb. unfold post_recv.
  destruct (0 <? aget (rcvlths a) (aget swapids i)) eqn:Ri.
  - exists (i :: open). split.
    + split.
      * destruct (handshake a); reflexivity.
      * destruct (handshake a); cbn [max_outstanding_from track length];
          rewrite ?Nat2Z.inj_succ; lia.
    + split.
      * constructor; [|exact N]. intros Hin. destruct (H i Hin) as [_ [Hr _]]. lia.
      * intros k [<-|Hk]; [split; [exact Ri|lia]|].
        destruct (H k Hk) as [A1 [A2 A3]]. split; [exact A1|]. split; [lia|exact A3].
  - exists open. split; [apply within_nil; lia|]. split; [exact N|].
    intros k Hk. destruct (H k Hk) as [A1 [A2 A3]]. split; [exact A1|]. split; [lia|exact A3].
Qed.

Lemma within_wait (B j hi : Z) (open : list Z) :
  open_slots (has_recv a swapids) j hi open -> 1 <= j -> Z.of_nat (length open) <= B ->
  exists open',
    within B open (if 0 <? aget (rcvlths a) (aget swapids j) then [MPI_Wait (rcvids j)] else [])
           open'
    /\ open_slots (has_recv a swapids) (j + 1) hi open'
    /\ (length open' <= length open)%nat.
Proof.
  intros [N H] Hj Hb.
  destruct (0 <? aget (rcvlths a) (aget swapids j)) eqn:Rj.
  - exists (filter (fun k => negb (slot_eqb j k)) open). split; [|split].
    + split; [reflexivity|]. cbn [max_outstanding_from track].
      pose proof (filter_length_le (fun k => negb (slot_eqb j k)) open). lia.
    + split; [apply NoDup_filter; exact N|].
      intros k Hk. apply filter_In in Hk as [Hk Hne].
      destruct (H k Hk) as [A1 [A2 A3]]. split; [exact A1|]. split; [exact A2|].
      unfold slot_eqb in Hne. destruct (Z.eqb_spec j k); [discriminate|]. lia.
    + apply filter_length_le.
  - exists open. split; [apply within_nil; exact Hb|]. split; [|lia].
    split; [exact N|]. intros k Hk. destruct (H k Hk) as [A1 [A2 A3]].
    split; [exact A1|]. split; [exact A2|].
    assert (k <> j).
    { intros ->. unfold has_recv in A1. rewrite Rj in A1. discriminate. }
    lia.
Qed.


Lemma Zrange_cons (lo hi : Z) : lo < hi -> Zrange lo hi = lo :: Zrange (lo + 1) hi.
Proof.
  intros H. unfold Zrange.
  replace (Z.to_nat (hi - lo)) with (S (Z.to_nat (hi - (lo + 1)))) by lia.
  cbn [seq map]. f_equal; [lia|].
  rewrite <- seq_shift, map_map. apply map_ext. intros k. lia.
Qed.

Lemma open_slots_nil (lo hi : Z) : open_slots (has_recv a swapids) lo hi [].
Proof. split; [constructor|]. intros i []. Qed.

(** Lines 199-208: the receives posted before the loop. *)
Lemma within_preposts (maxreq : Z) :
  1 <= maxreq ->
  forall (n : nat) (k : Z) (open : list Z),
    Z.of_nat n = maxreq - k -> 0 <= k ->
    open_slots (has_recv a swapids) 1 k open ->
    exists open',
      within maxreq open (flat_map (post_recv a swapids) (Zrange k maxreq)) open'
      /\ open_slots (has_recv a swapids) 1 maxreq open'.
Proof.
  intros Hmr. induction n as [|n IH]; intros k open Hn Hk Ho.
  - rewrite Zrange_empty by lia. cbn [flat_map]. exists open. split.
    + apply within_nil. pose proof (open_slots_length _ _ _ _ Ho). lia.
    + replace maxreq with k by lia. exact Ho.
  - rewrite Zrange_cons by lia. cbn [flat_map].
    assert (L : Z.of_nat (length open) + 1 <= maxreq).
    { assert (k = 0 \/ 1 <= k) as [K|K] by lia.
      - destruct open as [|i open]; [cbn; lia|].
        destruct Ho as [_ H]. destruct (H i (or_introl eq_refl)) as [_ [B _]]. lia.
      - pose proof (open_slots_length _ _ _ _ Ho). lia. }
    destruct (within_post maxreq 1 k open Ho Hk) as [o1 [W1 S1]]; [lia|exact L|].
    destruct (IH (k + 1) o1) as [o2 [W2 S2]]; [lia|lia|exact S1|].
    exists o2. split; [|exact S2]. eapply within_app; eassumption.
Qed.

Lemma send_is_neutral (k : Z) :
  forall c,
    In c (if 0 <? aget (sndlths a) (aget swapids k)
          then (if handshake a then [MPI_Wait (hs_rcvids k)] else [])
               ++ [MPI_Rsend (sndbuf (aget (sdispls a) (aget swapids k)))
                             (aget (sndlths a) (aget swapids k))
                             (tget (stypes a) (aget swapids k)) (aget swapids k)
                             (int_add (mytask a) (nprocs a))]
          else []) ->
    forall open, track open c = open.
Proof.
  intros c Hc open.
  destruct (0 <? aget (sndlths a) (aget swapids k)); [|destruct Hc].
  destruct (handshake a); cbn in Hc; intuition (subst; reflexivity).
Qed.

Lemma post_hs_is_neutral (k : Z) :
  forall c, In c (post_hs a swapids k) -> forall open, track open c = open.
Proof.
  intros c Hc open. unfold post_hs in Hc.
  destruct (handshake a && (0 <? aget (sndlths a) (aget swapids k))); cbn in Hc;
    intuition (subst; reflexivity).
Qed.

(** Lines 211-245: the loop keeps at most [maxreq] data receives open. *)
Lemma within_exchange (steps maxreq maxreqh : Z) (open0 : list Z) :
  1 <= maxreq -> 0 <= maxreqh <= steps -> steps <= INT_MAX ->
  2 <= maxreq \/ steps <= maxreqh + 1 ->
  forall (n : nat) (k rstep : Z) (tr : list mpi_call) (open : list Z),
    Z.of_nat n = steps - k -> 0 <= k ->
    within maxreq open0 tr open ->
    open_slots (has_recv a swapids) (Z.max 1 (k - maxreqh)) rstep open ->
    maxreq <= rstep <= steps ->
    rstep - Z.max 1 (k - maxreqh) <= maxreq - 1 ->
    (rstep < steps -> rstep - Z.max 1 (k - maxreqh) = maxreq - 1) ->
    exists rstep' body open',
      fold_left (exchange_step a swapids steps maxreqh) (Zrange k steps) (rstep, tr)
      = (rstep', body)
      /\ within maxreq open0 body open'
      /\ Z.of_nat (length open') <= maxreq.
Proof.
  intros Hmr Hmh Hst H2.
  induction n as [|n IH]; intros k rstep tr open Hn Hk W Ho Hr Hd He.
  - rewrite Zrange_empty by lia. cbn [fold_left]. exists rstep, tr, open.
    split; [reflexivity|]. split; [exact W|].
    pose proof (open_slots_length _ _ _ _ Ho). lia.
  - rewrite Zrange_cons by lia. cbn [fold_left]. unfold exchange_step at 2.
    pose proof (open_slots_length _ _ _ _ Ho) as Len.
    assert (Ws : within maxreq open
                   (if 0 <? aget (sndlths a) (aget swapids k)
                    then (if handshake a then [MPI_Wait (hs_rcvids k)] else [])
                         ++ [MPI_Rsend (sndbuf (aget (sdispls a) (aget swapids k)))
                                       (aget (sndlths a) (aget swapids k))
                                       (tget (stypes a) (aget swapids k)) (aget swapids k)
                                       (int_add (mytask a) (nprocs a))]
                    else []) open).
    { apply within_neutral; [apply send_is_neutral|lia]. }
    destruct (Z.gtb_spec k maxreqh) as [G|G].
    + assert (Ej : int_sub k maxreqh = k - maxreqh).
      { unfold int_sub. apply wrap32_small. unfold INT_MIN, INT_MAX in *. lia. }
      rewrite Ej. replace (Z.max 1 (k - maxreqh)) with (k - maxreqh) in * by lia.
      destruct (within_wait maxreq (k - maxreqh) rstep open Ho) as [o1 [W1 [S1 L1]]];
        [lia|lia|].
      destruct (Z.ltb_spec rstep steps) as [Lt|Ge].
      * assert (Er : int_add rstep 1 = rstep + 1).
        { unfold int_add. apply wrap32_small. unfold INT_MIN, INT_MAX in *. lia. }
        rewrite Er. specialize (He Lt).
        pose proof (open_slots_length _ _ _ _ S1) as Len1.
        destruct (within_post maxreq (k - maxreqh + 1) rstep o1 S1) as [o2 [W2 S2]];
          [lia|lia|lia|].
        apply (IH (k + 1) (rstep + 1) _ o2); try lia.
        -- eapply within_app; [exact W|]. eapply within_app; [exact Ws|].
           eapply within_app; [exact W1|]. eapply within_app; [|exact W2].
           apply within_neutral; [apply post_hs_is_neutral|lia].
        -- replace (Z.max 1 (k + 1 - maxreqh)) with (k - maxreqh + 1) by lia. exact S2.
      * apply (IH (k + 1) rstep _ o1); try lia.
        -- eapply within_app; [exact W|]. eapply within_app; [exact Ws|]. exact W1.
        -- replace (Z.max 1 (k + 1 - maxreqh)) with (k - maxreqh + 1) by lia. exact S1.
    + apply (IH (k + 1) rstep _ open); try lia.
      * eapply within_app; [exact W|]. exact Ws.
      * replace (Z.max 1 (k + 1 - maxreqh)) with (Z.max 1 (k - maxreqh)) by lia. exact Ho.
Qed.


Lemma final_wait_closes (k : Z) :
  forall c, In c (final_wait a swapids k) ->
            forall open, (length (track open c) <= length open)%nat.
Proof.
  intros c Hc open. unfold final_wait in Hc.
  destruct (0 <? aget (rcvlths a) (aget swapids k));
    destruct (isend a && (0 <? aget (sndlths a) (aget swapids k))); cbn in Hc;
    intuition (subst; cbn [track]; try apply filter_length_le; auto).
Qed.

End Slots.

Lemma self_copy_within (a : swapm_args) (B : Z) : 1 <= B -> within B [] (self_copy a) [].
Proof.
  intros H. unfold self_copy. destruct (0 <? aget (sndlths a) (mytask a)).
  - split; [reflexivity|]. cbn. lia.
  - apply within_nil. cbn. lia.
Qed.

Lemma window_facts (steps mr : Z) :
  1 <= steps <= INT_MAX ->
  1 <= fst (window steps mr) <= steps
  /\ 0 <= snd (window steps mr) <= steps
  /\ (2 <= fst (window steps mr) \/ steps <= snd (window steps mr) + 1).
Proof.
  intros H. unfold window.
  destruct (Z.eqb_spec steps 1) as [E|E]; [cbn [fst snd]; lia|].
  destruct (Z.ltb_spec 1 mr) as [A|A]; destruct (Z.ltb_spec mr steps) as [B|B];
    cbn [andb fst snd]; try (destruct (Z.ltb_spec 0 mr); cbn [fst snd]; lia).
  assert (Q : int_div mr 2 = Z.quot mr 2).
  { unfold int_div. apply wrap32_small. unfold INT_MIN, INT_MAX in *.
    pose proof (Z.quot_pos mr 2). pose proof (Z.quot_lt mr 2). lia. }
  rewrite Q. pose proof (Z.quot_pos mr 2). pose proof (Z.quot_lt mr 2). lia.
Qed.

(** The data receives of [pio_swapm] open at any one time are at most
    [maxreq]. *)
Lemma swapm_outstanding (a : swapm_args) (c2 : Z) (tr : list mpi_call) (r : Z) :
  ceil2 (nprocs a) = Some c2 ->
  pio_swapm a = Some (tr, r) ->
  0 < Z.of_nat (length (schedule a c2)) ->
  max_outstanding tr
  <= fst (window (Z.of_nat (length (schedule a c2))) (max_requests a)).
Proof.
  intros Hc H Hs. unfold pio_swapm in H. rewrite Hc in H. cbv zeta in H.
  pose proof (schedule_length_int a c2) as Hint.
  set (steps := Z.of_nat (length (schedule a c2))) in *.
  set (swapids := schedule a c2 ++ repeat 0 (Z.to_nat (nprocs a) - length (schedule a c2))) in *.
  destruct (Z.eqb_spec steps 0) as [E|_]; [lia|].
  destruct (window_facts steps (max_requests a)) as [F1 [F2 F3]]; [lia|].
  destruct (window steps (max_requests a)) as [maxreq maxreqh]. cbn [fst snd] in *.
  destruct (within_preposts a swapids maxreq (proj1 F1) (Z.to_nat maxreq) 0 [])
    as [o1 [W1 S1]]; [lia|lia|apply open_slots_nil|].
  pose proof (open_slots_length _ _ _ _ S1) as L1.
  destruct (within_exchange a swapids steps maxreq maxreqh o1 (proj1 F1) F2 (proj2 Hint) F3
              (Z.to_nat steps) 0 maxreq [] o1) as [rstep [body [o2 [Fd [W2 L2]]]]];
    try lia.
  { apply within_nil. lia. }
  { replace (Z.max 1 (0 - maxreqh)) with 1 by lia. exact S1. }
  rewrite Fd in H. injection H as Ht _. subst tr. unfold max_outstanding.
  assert (W : within maxreq []
                (self_copy a
                 ++ (if handshake a
                     then flat_map (fun istep =>
                                      if 0 <? aget (sndlths a) (aget swapids istep)
                                      then [MPI_Irecv hs_word 1 MPI_INT (aget swapids istep)
                                                      (int_add (mytask a) (nprocs a))
                                                      (hs_rcvids istep)]
                                      else [])
                                   (Zrange 0 maxreq)
                     else [])
                 ++ flat_map (post_recv a swapids) (Zrange 0 maxreq) ++ body) o2).
  { eapply within_app; [apply self_copy_within; lia|].
    eapply within_app; [|eapply within_app; [exact W1|exact W2]].
    apply within_neutral; [|cbn; lia].
    intros c Hin open. destruct (handshake a); [|destruct Hin].
    apply in_flat_map in Hin as [k [_ Hin]].
    destruct (0 <? aget (sndlths a) (aget swapids k)); [|destruct Hin].
    destruct Hin as [<-|[]]. reflexivity. }
  destruct W as [Eo Mo].
  rewrite !app_assoc. rewrite max_outstanding_from_app. rewrite <- !app_assoc.
  rewrite Eo.
  assert (C : max_outstanding_from
                o2 (flat_map (final_wait a swapids) (Zrange (int_sub steps maxreqh) steps))
              = Z.of_nat (length o2)).
  { apply closing_calls. intros c Hin. apply in_flat_map in Hin as [k [_ Hin]].
    exact (final_wait_closes a swapids k c Hin). }
  rewrite C. lia.
Qed.

End Outstanding.

(** C4, as the specification words it, fails: rank 0 of four with three
    partners and [max_requests = 1] posts two data receives before it
    waits for any, and a [max_requests] of 5, above the 3 steps, gives a
    window of 2, not of 3. *)
Lemma swapm_one_request_is_not_serialized :
  Spmd.ceil2 4 = Some 4
  /\ Z.of_nat (length (Spmd.schedule (Inputs.swap4 1) 4)) = 3
  /\ Spmd.max_requests (Inputs.swap4 1) <= 1
  /\ option_map (fun r => Spmd.max_outstanding (fst r)) (Spmd.pio_swapm (Inputs.swap4 1))
     = Some 2
  /\ Spmd.window 3 1 = (2, 1)
  /\ Spmd.window 3 5 = (2, 1).
Proof. repeat split. discriminate. Qed.

(** C4, amended: with more than one scheduled partner the window is
    [max_requests] (and half of it, rounded down, for the waits) when
    1 < max_requests < steps; it is 2 when max_requests is 1 or is steps
    or more; it is steps, every receive posted at once, when
    max_requests <= 0.  With one partner the window is forced to 1.
    With no partner the call returns success and its only calls are the
    copy to self, none of them with a peer.  The call always returns
    success, and with a partner it never has more data receives open
    than the window. *)
Theorem swapm_window (a : Spmd.swapm_args) (c2 : Z) :
  Spmd.ceil2 (Spmd.nprocs a) = Some c2 ->
  let steps := Z.of_nat (length (Spmd.schedule a c2)) in
  let mr := Spmd.max_requests a in
  (steps = 0 ->
   Spmd.pio_swapm a = Some (Spmd.self_copy a, Spmd.PIO_NOERR)
   /\ forall c p, In c (Spmd.self_copy a) -> Spmd.call_peer c = Some p -> p = Spmd.mytask a)
  /\ (steps = 1 -> Spmd.window steps mr = (1, 1))
  /\ (1 < steps -> 1 < mr < steps -> Spmd.window steps mr = (mr, Z.quot mr 2))
  /\ (1 < steps -> mr = 1 \/ steps <= mr -> Spmd.window steps mr = (2, 1))
  /\ (1 < steps -> mr <= 0 -> Spmd.window steps mr = (steps, steps))
  /\ (exists tr, Spmd.pio_swapm a = Some (tr, Spmd.PIO_NOERR))
  /\ (0 < steps ->
      forall tr r, Spmd.pio_swapm a = Some (tr, r) ->
                   Spmd.max_outstanding tr <= fst (Spmd.window steps mr)).
Proof.
  intros Hc steps mr.
  pose proof (window_cases steps mr (schedule_length_int a c2)) as [W1 [W2 [W3 W4]]].
  split; [|split; [exact W1|split; [exact W2|split; [exact W3|split; [exact W4|split]]]]].
  - intros H0. split.
    + unfold Spmd.pio_swapm. rewrite Hc. fold steps. rewrite H0. reflexivity.
    + intros c p. apply self_copy_peer.
  - eapply pio_swapm_returns; eauto.
  - intros Hs tr r Hr. exact (swapm_outstanding a c2 tr r Hc Hr Hs).
Qed.

Lemma swapm_window_witness :
  Spmd.window 3 1 = (2, 1) /\ exists tr, Spmd.pio_swapm (Inputs.swap4 1) = Some (tr, Spmd.PIO_NOERR).
Proof.
  assert (Hc : Spmd.ceil2 (Spmd.nprocs (Inputs.swap4 1)) = Some 4) by reflexivity.
  destruct (swapm_window (Inputs.swap4 1) 4 Hc) as [_ [_ [_ [H [_ [Hr _]]]]]].
  split; [|exact Hr]. apply H; [reflexivity | left; reflexivity].
Defined.

(** ** The flow-controlled gather *)

(** C10 at two ranks gathering one [int] each at rank 0: with flow
    control the message of rank 1 is stored from byte 1 of [recvbuf] and
    the root's own part is not stored; [MPI_Gather] stores the root's
    part from byte 0 and the message of rank 1 from byte 4. *)
Lemma fc_gather_differs_from_MPI_Gather :
  snd (fst (Spmd.pio_fc_gather (Inputs.gather2 1) Inputs.sent2))
  = [None; Some Byte.x1a; Some Byte.x1b; Some Byte.x1c; Some Byte.x1d; None; None; None]
  /\ snd (fst (Spmd.pio_fc_gather (Inputs.gather2 0) Inputs.sent2))
     = [Some Byte.x0a; Some Byte.x0b; Some Byte.x0c; Some Byte.x0d;
        Some Byte.x1a; Some Byte.x1b; Some Byte.x1c; Some Byte.x1d]
  /\ fst (fst (Spmd.pio_fc_gather (Inputs.gather2 1) Inputs.sent2))
     = [Spmd.G_Irecv 1 1 Spmd.MPI_INT 1 4 1; Spmd.G_Send_hs Spmd.MPI_INT 1 4;
        Spmd.G_Waitall 1].
Proof. repeat split. Qed.

(** ** Reasoning on computations *)

Section Computations.

Import Darray.

Lemma bind_inv {A B : Type} (m : M A) (k : A -> M B) (s : state) (r : step B) (s' : state) :
  bind m k s = (r, s') ->
  (exists e, m s = (Stop e, s') /\ r = Stop e)
  \/ (exists a s1, m s = (Next a, s1) /\ k a s1 = (r, s')).
Proof.
  unfold bind. destruct (m s) as [[a|e] s1]; intros H.
  - right. eauto.
  - left. inversion H; subst. eauto.
Qed.

Lemma emits_ret {A : Type} (P : event -> bool) (a : A) : emits P (ret a).
Proof. intros s r s' H. inversion H; subst. exists []. now rewrite app_nil_r. Qed.

Lemma emits_leave {A : Type} (P : event -> bool) (e : exit) : emits P (@leave A e).
Proof. intros s r s' H. inversion H; subst. exists []. now rewrite app_nil_r. Qed.

Lemma emits_get_file (P : event -> bool) : emits P get_file.
Proof. intros s r s' H. inversion H; subst. exists []. now rewrite app_nil_r. Qed.

Lemma emits_get_trace (P : event -> bool) : emits P get_trace.
Proof. intros s r s' H. inversion H; subst. exists []. now rewrite app_nil_r. Qed.

Lemma emits_put_file (P : event -> bool) (f : file_desc_t) : emits P (put_file f).
Proof. intros s r s' H. inversion H; subst. exists []. simpl. now rewrite app_nil_r. Qed.

Lemma emits_emit (P : event -> bool) (ev : event) : P ev = true -> emits P (emit ev).
Proof.
  intros HP s r s' H. inversion H; subst. exists [ev]. simpl. now rewrite HP.
Qed.

Lemma emits_bind {A B : Type} (P : event -> bool) (m : M A) (k : A -> M B) :
  emits P m -> (forall a, emits P (k a)) -> emits P (bind m k).
Proof.
  intros Hm Hk s r s' H. apply bind_inv in H as [[e [H ->]] | [a [s1 [H1 H2]]]].
  - eapply Hm; eauto.
  - destruct (Hm _ _ _ H1) as [e1 [E1 F1]]. destruct (Hk a _ _ _ H2) as [e2 [E2 F2]].
    exists (e1 ++ e2). rewrite E2, E1, app_assoc, forallb_app, F1, F2. auto.
Qed.

Lemma emits_call (P : event -> bool) (m : M pio_code) : emits P m -> emits P (call m).
Proof.
  intros Hm s r s' H. unfold call in H.
  destruct (m s) as [[c|[c| |]] s1] eqn:E; inversion H; subst; eapply Hm; eauto.
Qed.

Lemma emits_weaken {A : Type} (P Q : event -> bool) (m : M A) :
  (forall ev, P ev = true -> Q ev = true) -> emits P m -> emits Q m.
Proof.
  intros HPQ Hm s r s' H. destruct (Hm _ _ _ H) as [evs [E F]]. exists evs. split; [exact E|].
  rewrite forallb_forall in *. auto.
Qed.

Lemma stops_ret {A : Type} (Q : exit -> bool) (a : A) : stops_in Q (ret a).
Proof. intros s e s' H. discriminate. Qed.

Lemma stops_leave {A : Type} (Q : exit -> bool) (e : exit) :
  Q e = true -> stops_in Q (@leave A e).
Proof. intros HQ s e' s' H. inversion H; subst. exact HQ. Qed.

Lemma stops_get_file (Q : exit -> bool) : stops_in Q get_file.
Proof. intros s e s' H. discriminate. Qed.

Lemma stops_get_trace (Q : exit -> bool) : stops_in Q get_trace.
Proof. intros s e s' H. discriminate. Qed.

Lemma stops_put_file (Q : exit -> bool) (f : file_desc_t) : stops_in Q (put_file f).
Proof. intros s e s' H. discriminate. Qed.

Lemma stops_emit (Q : exit -> bool) (ev : event) : stops_in Q (emit ev).
Proof. intros s e s' H. discriminate. Qed.

Lemma stops_bind {A B : Type} (Q : exit -> bool) (m : M A) (k : A -> M B) :
  stops_in Q m -> (forall a, stops_in Q (k a)) -> stops_in Q (bind m k).
Proof.
  intros Hm Hk s e s' H. apply bind_inv in H as [[e' [H E]] | [a [s1 [H1 H2]]]].
  - inversion E; subst. eapply Hm; eauto.
  - eapply Hk; eauto.
Qed.

Lemma stops_call (Q : exit -> bool) (m : M pio_code) :
  stops_in is_return m -> stops_in Q (call m).
Proof.
  intros Hm s e s' H. unfold call in H.
  destruct (m s) as [[c|x] s1] eqn:E; [discriminate|].
  pose proof (Hm _ _ _ E) as R. destruct x; try discriminate.
Qed.

Lemma keeps_ret {A : Type} (Inv : file_desc_t -> Prop) (a : A) : keeps Inv (ret a).
Proof. intros s r s' H E. inversion E; subst. exact H. Qed.

Lemma keeps_leave {A : Type} (Inv : file_desc_t -> Prop) (e : exit) : keeps Inv (@leave A e).
Proof. intros s r s' H E. inversion E; subst. exact H. Qed.

Lemma keeps_get_trace (Inv : file_desc_t -> Prop) : keeps Inv get_trace.
Proof. intros s r s' H E. inversion E; subst. exact H. Qed.

Lemma keeps_emit (Inv : file_desc_t -> Prop) (ev : event) : keeps Inv (emit ev).
Proof. intros s r s' H E. inversion E; subst. exact H. Qed.

Lemma keeps_put_file (Inv : file_desc_t -> Prop) (f : file_desc_t) :
  Inv f -> keeps Inv (put_file f).
Proof. intros Hf s r s' H E. inversion E; subst. exact Hf. Qed.

Lemma keeps_bind {A B : Type} (Inv : file_desc_t -> Prop) (m : M A) (k : A -> M B) :
  keeps Inv m -> (forall a, keeps Inv (k a)) -> keeps Inv (bind m k).
Proof.
  intros Hm Hk s r s' H E. apply bind_inv in E as [[e [E _]] | [a [s1 [E1 E2]]]].
  - eapply Hm; eauto.
  - eapply Hk; [|exact E2]. eapply Hm; eauto.
Qed.

Lemma keeps_get_file_bind {B : Type} (Inv : file_desc_t -> Prop) (k : file_desc_t -> M B) :
  (forall f, Inv f -> keeps Inv (k f)) -> keeps Inv (bind get_file k).
Proof. intros Hk s r s' H E. unfold bind, get_file in E. eapply Hk; eauto. Qed.

End Computations.

Ltac emits_step :=
  match goal with
  | |- Darray.emits _ (Darray.bind _ _) => apply emits_bind; [|intros]
  | |- Darray.emits _ (Darray.ret _) => apply emits_ret
  | |- Darray.emits _ (Darray.leave _) => apply emits_leave
  | |- Darray.emits _ (Darray.pio_err _) => apply emits_leave
  | |- Darray.emits _ (Darray.check_mpi _) => apply emits_leave
  | |- Darray.emits _ (Darray.check_netcdf _) => apply emits_leave
  | |- Darray.emits _ Darray.get_file => apply emits_get_file
  | |- Darray.emits _ Darray.get_trace => apply emits_get_trace
  | |- Darray.emits _ (Darray.put_file _) => apply emits_put_file
  | |- Darray.emits _ (Darray.emit _) => apply emits_emit; reflexivity
  | |- Darray.emits _ (Darray.call _) => apply emits_call
  | |- Darray.emits _ (Darray.when ?b _) => unfold Darray.when; destruct b
  | |- Darray.emits _ (Darray.pioassert _ _) => unfold Darray.pioassert
  | |- Darray.emits _ (Darray.pool_alloc _ _ _) => unfold Darray.pool_alloc
  | |- Darray.emits _ (Darray.libc_alloc _ _ _) => unfold Darray.libc_alloc
  | |- Darray.emits _ (Darray.mpi_call _ _) => unfold Darray.mpi_call
  | |- Darray.emits _ (if ?b then _ else _) => destruct b
  | |- Darray.emits _ (match ?x with _ => _ end) => destruct x
  end.

Ltac emits_tac := repeat emits_step.

Ltac stops_step :=
  match goal with
  | |- Darray.stops_in _ (Darray.bind _ _) => apply stops_bind; [|intros]
  | |- Darray.stops_in _ (Darray.ret _) => apply stops_ret
  | |- Darray.stops_in _ (Darray.leave _) => apply stops_leave; reflexivity
  | |- Darray.stops_in _ (Darray.pio_err _) => apply stops_leave; reflexivity
  | |- Darray.stops_in _ (Darray.check_mpi _) => apply stops_leave; reflexivity
  | |- Darray.stops_in _ (Darray.check_netcdf _) => apply stops_leave; reflexivity
  | |- Darray.stops_in _ Darray.get_file => apply stops_get_file
  | |- Darray.stops_in _ Darray.get_trace => apply stops_get_trace
  | |- Darray.stops_in _ (Darray.put_file _) => apply stops_put_file
  | |- Darray.stops_in _ (Darray.emit _) => apply stops_emit
  | |- Darray.stops_in _ (Darray.when ?b _) => unfold Darray.when; destruct b
  | |- Darray.stops_in _ (Darray.pool_alloc _ _ _) => unfold Darray.pool_alloc
  | |- Darray.stops_in _ (Darray.libc_alloc _ _ _) => unfold Darray.libc_alloc
  | |- Darray.stops_in _ (Darray.mpi_call _ _) => unfold Darray.mpi_call
  | |- Darray.stops_in _ (if ?b then _ else _) => destruct b
  | |- Darray.stops_in _ (match ?x with _ => _ end) => destruct x
  end.

Ltac stops_tac := repeat stops_step.

Ltac keeps_step :=
  match goal with
  | |- Darray.keeps _ (Darray.bind Darray.get_file _) => apply keeps_get_file_bind; intros
  | |- Darray.keeps _ (Darray.bind _ _) => apply keeps_bind; [|intros]
  | |- Darray.keeps _ (Darray.ret _) => apply keeps_ret
  | |- Darray.keeps _ (Darray.leave _) => apply keeps_leave
  | |- Darray.keeps _ (Darray.pio_err _) => apply keeps_leave
  | |- Darray.keeps _ (Darray.check_mpi _) => apply keeps_leave
  | |- Darray.keeps _ (Darray.check_netcdf _) => apply keeps_leave
  | |- Darray.keeps _ Darray.get_trace => apply keeps_get_trace
  | |- Darray.keeps _ (Darray.emit _) => apply keeps_emit
  | |- Darray.keeps _ (Darray.put_file _) =>
      apply keeps_put_file; unfold Darray.same_kind in *; simpl; tauto
  | |- Darray.keeps _ (Darray.when ?b _) => unfold Darray.when; destruct b
  | |- Darray.keeps _ (Darray.pioassert _ _) => unfold Darray.pioassert
  | |- Darray.keeps _ (Darray.pool_alloc _ _ _) => unfold Darray.pool_alloc
  | |- Darray.keeps _ (Darray.libc_alloc _ _ _) => unfold Darray.libc_alloc
  | |- Darray.keeps _ (Darray.mpi_call _ _) => unfold Darray.mpi_call
  | |- Darray.keeps _ (if ?b then _ else _) => destruct b
  | |- Darray.keeps _ (match ?x with _ => _ end) => destruct x
  end.

Ltac keeps_tac := repeat keeps_step.

(** ** PIOc_write_darray: the order of its calls *)

Section WriteDarray.

Import Darray.

Lemma find_var_fillvalue_emits (E : env) (varid : Z) :
  emits is_setup_event (find_var_fillvalue E varid).
Proof. unfold find_var_fillvalue. emits_tac. Qed.

Lemma locate_wmb_emits (E : env) (ioid rv al : Z) :
  emits is_setup_event (locate_wmb E ioid rv al).
Proof. unfold locate_wmb. emits_tac. Qed.

Lemma check_and_locate_emits (E : env) (varid ioid al : Z) :
  emits is_setup_event (check_and_locate E varid ioid al).
Proof.
  unfold check_and_locate. emits_tac.
  - apply find_var_fillvalue_emits.
  - apply locate_wmb_emits.
Qed.

Lemma append_payload_emits (E : env) (i : nat) (varid al : Z) (array : block)
      (user_fill : option block) (iodesc : io_desc_t) :
  emits is_append_event (append_payload E i varid al array user_fill iodesc).
Proof. unfold append_payload. emits_tac. Qed.

(** *** The chain under the stores of the code *)

Lemma list_set_length {A : Type} (l : list A) (i : nat) (x : A) :
  length (list_set l i x) = length l.
Proof.
  revert i. induction l as [|y l IH]; intros [|i]; simpl; try reflexivity. now rewrite IH.
Qed.

Lemma list_set_nth {A : Type} (l : list A) (i : nat) (x d : A) :
  (i < length l)%nat -> nth i (list_set l i x) d = x.
Proof.
  revert i. induction l as [|y l IH]; intros [|i] H; simpl in *; try lia; [reflexivity|].
  apply IH. lia.
Qed.

Lemma chain_set_chain (f : file_desc_t) (c : list wmulti_buffer) :
  c <> [] -> chain (set_chain f c) = c.
Proof. destruct c; [congruence|reflexivity]. Qed.

Lemma chain_put_wmb (f : file_desc_t) (i : nat) (w : wmulti_buffer) :
  chain (put_wmb f i w) = list_set (chain f) i w.
Proof.
  unfold put_wmb. apply chain_set_chain. unfold chain. destruct i; simpl; congruence.
Qed.

Lemma get_put_wmb (f : file_desc_t) (i : nat) (w : wmulti_buffer) :
  (i < length (chain f))%nat -> get_wmb (put_wmb f i w) i = w.
Proof. intros H. unfold get_wmb. rewrite chain_put_wmb. now apply list_set_nth. Qed.

Lemma agree_on_flush_run (E : env) (i : nat) (al : Z) (iodesc : io_desc_t) (s : state) :
  let c := local_needsflush E (trace s) (get_wmb (file s) i) al iodesc in
  let e := mpi_err E (trace s ++ [Ev_bstats]) in
  let s1 := {| file := file s; trace := trace s ++ [Ev_bstats; Ev_Allreduce_MAX c] |} in
  agree_on_flush E i al iodesc s =
    if e =? 0 then (Next (allreduce_max c (allreduce_others E)), s1)
    else (Stop (Return (MPI_FAIL e)), s1).
Proof.
  unfold agree_on_flush, mpi_call, bind, get_file, get_trace, emit, check_mpi, leave, ret.
  simpl. rewrite <- app_assoc. simpl.
  destruct (mpi_err E (trace s ++ [Ev_bstats]) =? 0); reflexivity.
Qed.

Lemma record_size_run (E : env) (varid : Z) (s : state) :
  exists f' calc,
    record_size E varid s = (Next tt, {| file := f'; trace := trace s ++ calc |})
    /\ forallb is_calc_event calc = true
    /\ chain f' = chain (file s).
Proof.
  unfold record_size, when, bind, get_file, emit, put_file, ret. simpl.
  destruct (negb (async (iosystem (file s))) || negb (ioproc (iosystem (file s)))).
  - destruct (vrsize (varlist (file s) varid) =? 0).
    + eexists. exists [Ev_calc_var_rec_sz varid]. simpl. repeat split.
    + exists (file s), []. rewrite app_nil_r. destruct s. repeat split.
  - exists (file s), []. rewrite app_nil_r. destruct s. repeat split.
Qed.

Lemma flush_if_needed_run (E : env) (i : nat) (g : Z) (s : state) :
  flush_if_needed E i g s =
    if g >? 0 then
      ((if is_noerr (fl_code (flush_buffer E (file s) (get_wmb (file s) i) (g =? 2)))
        then Next tt
        else Stop (Return (fl_code (flush_buffer E (file s) (get_wmb (file s) i) (g =? 2))))),
       {| file := flushed_file E (file s) i (g =? 2);
          trace := trace s ++ [Ev_flush_buffer i (g =? 2)] |})
    else (Next tt, s).
Proof.
  unfold flush_if_needed, when, bind, get_file, emit, put_file, pio_err, leave, ret.
  destruct (g >? 0); [|reflexivity]. simpl.
  destruct (is_noerr _); reflexivity.
Qed.

Lemma count_pending_run (varid : Z) (s : state) :
  exists f', count_pending varid s = (Next tt, {| file := f'; trace := trace s |})
             /\ chain f' = chain (file s).
Proof.
  unfold count_pending, bind, get_file, put_file. simpl. eexists. split; reflexivity.
Qed.

Lemma flushed_file_chain_length (E : env) (f : file_desc_t) (i : nat) (b : bool) :
  length (chain (flushed_file E f i b)) = length (chain f).
Proof. unfold flushed_file. rewrite chain_put_wmb, list_set_length. reflexivity. Qed.

(** Every run of the body: it ends in the checks; or the all-reduce
    fails; or it goes on to the flush, which fails or is followed by the
    append. *)
Lemma write_darray_body_run (E : env) (ncid varid ioid al : Z) (array : block)
      (user_fill : option block) (s0 : state) (r : step pio_code) (s' : state) :
  write_darray_body E ncid varid ioid al array user_fill s0 = (r, s') ->
  (exists e, check_and_locate E varid ioid al s0 = (Stop e, s') /\ r = Stop e)
  \/ exists iodesc al' i s1,
      check_and_locate E varid ioid al s0 = (Next (iodesc, al', i), s1)
      /\ let c := local_needsflush E (trace s1) (get_wmb (file s1) i) al' iodesc in
         let e := mpi_err E (trace s1 ++ [Ev_bstats]) in
         let g := allreduce_max c (allreduce_others E) in
         (e <> 0 /\ r = Stop (Return (MPI_FAIL e))
          /\ s' = {| file := file s1; trace := trace s1 ++ [Ev_bstats; Ev_Allreduce_MAX c] |})
         \/ (e = 0 /\ exists calc,
                forallb is_calc_event calc = true
                /\ ((exists x, r = Stop x /\ is_error_return x = true
                               /\ trace s' = trace s1 ++ [Ev_bstats; Ev_Allreduce_MAX c]
                                                   ++ calc ++ flush_calls i g)
                    \/ exists s5 ra,
                        trace s5 = trace s1 ++ [Ev_bstats; Ev_Allreduce_MAX c]
                                            ++ calc ++ flush_calls i g
                        /\ length (chain (file s5)) = length (chain (file s1))
                        /\ append_payload E i varid al' array user_fill iodesc s5 = (ra, s')
                        /\ r = match ra with
                               | Next _ => Next PIO_NOERR
                               | Stop x => Stop x
                               end)).
Proof.
  unfold write_darray_body. intros H.
  apply bind_inv in H as [[e [H ->]] | [[[iodesc al'] i] [s1 [H1 H]]]]; [left; eauto|].
  right. exists iodesc, al', i, s1. split; [exact H1|]. cbv zeta.
  set (c := local_needsflush E (trace s1) (get_wmb (file s1) i) al' iodesc) in *.
  apply bind_inv in H as [[e [H ->]] | [g [s2 [H2 H]]]].
  - left. rewrite agree_on_flush_run in H. cbv zeta in H. fold c in H.
    destruct (Z.eqb_spec (mpi_err E (trace s1 ++ [Ev_bstats])) 0) as [E0|E0];
      inversion H; subst. auto.
  - right. rewrite agree_on_flush_run in H2. cbv zeta in H2. fold c in H2.
    destruct (Z.eqb_spec (mpi_err E (trace s1 ++ [Ev_bstats])) 0) as [E0|E0];
      inversion H2; subst g s2; clear H2. split; [exact E0|].
    set (g := allreduce_max c (allreduce_others E)) in *.
    destruct (record_size_run E varid
                {| file := file s1; trace := trace s1 ++ [Ev_bstats; Ev_Allreduce_MAX c] |})
      as [f3 [calc [R [Fc Ch3]]]].
    apply bind_inv in H as [[e [H ->]] | [[] [s3 [H3 H]]]]; [congruence|].
    rewrite R in H3. inversion H3; subst s3; clear H3. simpl in Ch3.
    exists calc. split; [exact Fc|].
    apply bind_inv in H as [[e [H ->]] | [[] [s4 [H4 H]]]].
    { left. exists e. split; [reflexivity|]. unfold flush_calls.
      rewrite flush_if_needed_run in H. cbn [file trace] in H.
      destruct (g >? 0); [|discriminate].
      destruct (fl_code _) eqn:Fl; inversion H; subst; simpl;
        rewrite <- !app_assoc; split; reflexivity. }
    right.
    assert (T4 : trace s4 = trace s1 ++ [Ev_bstats; Ev_Allreduce_MAX c]
                                     ++ calc ++ flush_calls i g
                 /\ length (chain (file s4)) = length (chain (file s1))).
    { unfold flush_calls. rewrite flush_if_needed_run in H4. cbn [file trace] in H4.
      destruct (g >? 0); inversion H4; subst; cbn [file trace].
      - rewrite flushed_file_chain_length, <- !app_assoc, Ch3. split; reflexivity.
      - rewrite app_nil_r, <- !app_assoc, Ch3. split; reflexivity. }
    clear H4. destruct T4 as [T4 Ch4].
    destruct (count_pending_run varid s4) as [f5 [C Ch5]].
    apply bind_inv in H as [[e [H ->]] | [[] [s5 [H5 H]]]]; [congruence|].
    rewrite C in H5. inversion H5; subst s5; clear H5.
    apply bind_inv in H as [[e [H ->]] | [[] [s6 [H6 H]]]].
    + exists {| file := f5; trace := trace s4 |}, (Stop e). cbn [file trace].
      split; [exact T4|]. split; [congruence|]. split; [exact H|reflexivity].
    + exists {| file := f5; trace := trace s4 |}, (Next tt). cbn [file trace].
      split; [exact T4|]. split; [congruence|].
      inversion H; subst. split; [exact H6|reflexivity].
Qed.

(** The shape of every run of the body: it ends in the checks; or the
    all-reduce fails; or the flush, if any, comes between the all-reduce
    and the calls that append. *)
Lemma write_darray_body_shape (E : env) (ncid varid ioid al : Z) (array : block)
      (user_fill : option block) (s0 : state) (r : step pio_code) (s' : state) :
  write_darray_body E ncid varid ioid al array user_fill s0 = (r, s') ->
  (exists e, check_and_locate E varid ioid al s0 = (Stop e, s') /\ r = Stop e)
  \/ exists iodesc al' i s1,
      check_and_locate E varid ioid al s0 = (Next (iodesc, al', i), s1)
      /\ let c := local_needsflush E (trace s1) (get_wmb (file s1) i) al' iodesc in
         let e := mpi_err E (trace s1 ++ [Ev_bstats]) in
         let g := allreduce_max c (allreduce_others E) in
         (e <> 0 /\ r = Stop (Return (MPI_FAIL e))
          /\ s' = {| file := file s1; trace := trace s1 ++ [Ev_bstats; Ev_Allreduce_MAX c] |})
         \/ (e = 0 /\ exists calc appends,
                trace s' = trace s1 ++ [Ev_bstats; Ev_Allreduce_MAX c]
                                    ++ calc ++ flush_calls i g ++ appends
                /\ forallb is_calc_event calc = true
                /\ forallb is_append_event appends = true
                /\ (r = Next PIO_NOERR \/ exists x, r = Stop x)).
Proof.
  intros H. apply write_darray_body_run in H
    as [H | [iodesc [al' [i [s1 [C H]]]]]]; [left; exact H|].
  right. exists iodesc, al', i, s1. split; [exact C|]. cbv zeta in *.
  destruct H as [H | [E0 [calc [Fc H]]]]; [left; exact H|].
  right. split; [exact E0|]. exists calc.
  destruct H as [[x [-> [_ T]]] | [s5 [ra [T [_ [A ->]]]]]].
  - exists []. rewrite T, app_nil_r. repeat split; eauto.
  - destruct (append_payload_emits E i varid al' array user_fill iodesc _ _ _ A)
      as [appends [Ta Fa]].
    exists appends. rewrite Ta, T, <- !app_assoc. simpl.
    repeat split; auto. destruct ra; eauto.
Qed.

Lemma find_var_fillvalue_stops (E : env) (varid : Z) :
  stops_in is_return (find_var_fillvalue E varid).
Proof. unfold find_var_fillvalue. stops_tac. Qed.

Lemma check_and_locate_stops (E : env) (varid ioid al : Z) :
  stops_in is_error_return (check_and_locate E varid ioid al).
Proof.
  unfold check_and_locate, locate_wmb. stops_tac.
  apply stops_call, find_var_fillvalue_stops.
Qed.

(** The all-reduce with [MPI_MAX]: the result is the largest of the
    contributions, whichever task asks. *)
Lemma allreduce_max_is_max (others : list Z) (c : Z) :
  In (allreduce_max c others) (c :: others)
  /\ forall x, In x (c :: others) -> x <= allreduce_max c others.
Proof.
  unfold allreduce_max. revert c. induction others as [|y l IH]; intros c; simpl.
  - split; [auto|]. intros x [<-|[]]. lia.
  - destruct (IH (Z.max c y)) as [I M]. split.
    + destruct I as [I|I]; [|now right; right].
      destruct (Z.max_spec c y) as [[_ Hm]|[_ Hm]]; rewrite Hm in I |- *; [right; left|left];
        exact I.
    + intros x [<-|[<-|Hx]].
      * specialize (M (Z.max c y) (or_introl eq_refl)). lia.
      * specialize (M (Z.max c y) (or_introl eq_refl)). lia.
      * apply M. now right.
Qed.

Lemma allreduce_max_agrees (c c' : Z) (others others' : list Z) :
  Permutation (c' :: others') (c :: others) ->
  allreduce_max c' others' = allreduce_max c others.
Proof.
  intros HP.
  destruct (allreduce_max_is_max others c) as [I M].
  destruct (allreduce_max_is_max others' c') as [I' M'].
  apply Z.le_antisymm.
  - apply M. eapply Permutation_in; eauto.
  - apply M'. eapply Permutation_in; [apply Permutation_sym|]; eauto.
Qed.

Lemma needs_flush_range (limit curalloc maxfree : Z) (w : wmulti_buffer) (al : Z)
      (d : io_desc_t) :
  0 <= PIO_wmb_needs_flush limit curalloc maxfree w al d <= 2.
Proof.
  unfold PIO_wmb_needs_flush, NEEDS_DISK_FLUSH, NEEDS_IO_FLUSH, NO_FLUSH.
  destruct (curalloc >=? limit); [lia|]. destruct (double_le _ _); lia.
Qed.

Lemma local_needsflush_range (E : env) (tr : list event) (w : wmulti_buffer) (al : Z)
      (d : io_desc_t) :
  0 <= local_needsflush E tr w al d <= 2.
Proof.
  unfold local_needsflush. destruct (_ >? _); [lia|]. apply needs_flush_range.
Qed.

(** Lines 758-761, without wrap-around. *)
Lemma region_cap_local_code (E : env) (tr : list event) (w : wmulti_buffer) (al : Z)
      (d : io_desc_t) :
  0 <= num_arrays w < INT_MAX ->
  INT_MIN <= maxregions d <= INT_MAX ->
  INT_MIN <= maxfillregions d <= INT_MAX ->
  PIO_MAX_CACHED_IO_REGIONS E < (1 + num_arrays w) * Z.max (maxregions d) (maxfillregions d) ->
  local_needsflush E tr w al d = 2.
Proof.
  unfold INT_MIN, INT_MAX. intros Hn Hr Hf Hcap. unfold local_needsflush, int_add, off_mul.
  rewrite wrap32_small by (unfold INT_MIN, INT_MAX; lia).
  assert (Hd : (if maxregions d >=? maxfillregions d then maxregions d else maxfillregions d)
               = Z.max (maxregions d) (maxfillregions d)).
  { destruct (Z.geb_spec (maxregions d) (maxfillregions d)); lia. }
  rewrite Hd. rewrite wrap64_small.
  - destruct (Z.gtb_spec ((1 + num_arrays w) * Z.max (maxregions d) (maxfillregions d))
                         (PIO_MAX_CACHED_IO_REGIONS E)); [reflexivity | lia].
  - assert (- 2 ^ 31 <= Z.max (maxregions d) (maxfillregions d) <= 2 ^ 31 - 1) by lia.
    assert (1 <= 1 + num_arrays w <= 2 ^ 31) by lia. nia.
Qed.



(** *** The check of [arraylen] *)

Section ArrayLen.

Variable E : env.
Variables varid ioid : Z.
Variable iodesc : io_desc_t.
Hypothesis Hiodesc : pio_get_iodesc_from_id E ioid = Some iodesc.




End ArrayLen.

(** *** The append *)





Lemma append_payload_stops (E : env) (i : nat) (varid al : Z) (array : block)
      (user_fill : option block) (iodesc : io_desc_t) :
  stops_in is_error_return (append_payload E i varid al array user_fill iodesc).
Proof. unfold append_payload. stops_tac. Qed.

Lemma forallb_In {A : Type} (P : A -> bool) (l : list A) (x : A) :
  forallb P l = true -> In x l -> P x = true.
Proof. intros H. rewrite forallb_forall in H. apply H. Qed.




End WriteDarray.

(** C2: when the entry the payload goes to already holds [num_arrays]
    arrays and (1 + num_arrays) * max(maxregions, maxfillregions) is above
    [PIO_MAX_CACHED_IO_REGIONS], the local flush code is 2; the other
    tasks contributing codes of at most 2, the agreed code is 2, and
    unless the all-reduce fails [flush_buffer] is called with
    [wait_for_disk] true before any call that appends the payload. *)
Theorem region_cap_forces_disk_flush (E : Darray.env) (ncid varid ioid al : Z)
        (array : block) (user_fill : option block) (f : Darray.file_desc_t)
        (iodesc : Darray.io_desc_t) (al' : Z) (i : nat) (s1 : Darray.state) :
  Darray.pio_get_file E ncid = Some f ->
  Darray.check_and_locate E varid ioid al {| Darray.file := f; Darray.trace := [] |}
  = (Darray.Next (iodesc, al', i), s1) ->
  let wmb := Darray.get_wmb (Darray.file s1) i in
  0 <= Darray.num_arrays wmb < INT_MAX ->
  INT_MIN <= Darray.maxregions iodesc <= INT_MAX ->
  INT_MIN <= Darray.maxfillregions iodesc <= INT_MAX ->
  Darray.PIO_MAX_CACHED_IO_REGIONS E
  < (1 + Darray.num_arrays wmb)
    * Z.max (Darray.maxregions iodesc) (Darray.maxfillregions iodesc) ->
  Forall (fun c => c <= 2) (Darray.allreduce_others E) ->
  let o := Darray.PIOc_write_darray E ncid varid ioid al array user_fill in
  Darray.local_needsflush E (Darray.trace s1) wmb al' iodesc = 2
  /\ Darray.allreduce_max 2 (Darray.allreduce_others E) = 2
  /\ exists rest,
      Darray.calls_made o
      = Darray.trace s1 ++ Darray.Ev_bstats :: Darray.Ev_Allreduce_MAX 2 :: rest
      /\ forallb Darray.is_setup_event (Darray.trace s1) = true
      /\ ((rest = [] /\ exists e, e <> 0 /\ Darray.ended o = Darray.Return (Darray.MPI_FAIL e))
          \/ exists calc appends,
              rest = calc ++ Darray.Ev_flush_buffer i true :: appends
              /\ forallb Darray.is_calc_event calc = true
              /\ forallb Darray.is_append_event appends = true).
Proof.
  intros Hf C wmb Hn Hr Hfr Hcap Hoth o.
  assert (L : Darray.local_needsflush E (Darray.trace s1) wmb al' iodesc = 2)
    by (apply region_cap_local_code; assumption).
  assert (G : Darray.allreduce_max 2 (Darray.allreduce_others E) = 2).
  { destruct (allreduce_max_is_max (Darray.allreduce_others E) 2) as [I M].
    apply Z.le_antisymm; [|apply M; now left].
    destruct I as [I|I]; [lia|]. rewrite Forall_forall in Hoth. now apply Hoth. }
  split; [exact L|]. split; [exact G|].
  subst o. unfold Darray.PIOc_write_darray. rewrite Hf. unfold Darray.run.
  destruct (Darray.write_darray_body E ncid varid ioid al array user_fill
              {| Darray.file := f; Darray.trace := [] |}) as [r s'] eqn:B.
  apply write_darray_body_shape in B
    as [[e [C' _]] | [iodesc' [al'' [i' [s1' [C' H]]]]]]; [congruence|].
  rewrite C in C'. inversion C'; subst iodesc' al'' i' s1'. clear C'.
  cbv zeta in H. fold wmb in H. rewrite L, G in H.
  destruct (check_and_locate_emits E varid ioid al _ _ _ C) as [evs [T F]]. simpl in T.
  destruct H as [[E0 [-> ->]] | [E0 [calc [appends [T' [Fc [Fa R]]]]]]].
  - exists []. simpl. split; [reflexivity|]. split; [rewrite T; exact F|].
    left. split; [reflexivity|]. eauto.
  - exists (calc ++ Darray.Ev_flush_buffer i true :: appends).
    assert (Tr : Darray.calls_made
                   (match r with
                    | Darray.Next c =>
                        {| Darray.ended := Darray.Return c;
                           Darray.file_after := Some (Darray.file s');
                           Darray.calls_made := Darray.trace s' |}
                    | Darray.Stop e =>
                        {| Darray.ended := e; Darray.file_after := Some (Darray.file s');
                           Darray.calls_made := Darray.trace s' |}
                    end) = Darray.trace s') by (destruct r; reflexivity).
    rewrite Tr, T'. split; [reflexivity|]. split; [rewrite T; exact F|].
    right. exists calc, appends. auto.
Qed.

Lemma region_cap_forces_disk_flush_witness :
  exists rest,
    Darray.calls_made (Darray.PIOc_write_darray Inputs.env_S3 7 2 5 2 Inputs.payload0 None)
    = [] ++ Darray.Ev_bstats :: Darray.Ev_Allreduce_MAX 2 :: rest
    /\ exists calc appends, rest = calc ++ Darray.Ev_flush_buffer 1 true :: appends.
Proof.
  destruct (region_cap_forces_disk_flush Inputs.env_S3 7 2 5 2 Inputs.payload0 None
              Inputs.file_S3 Inputs.iodesc0 2 1%nat
              {| Darray.file := Inputs.file_S3; Darray.trace := [] |})
    as [_ [_ [rest [H [_ [[_ [e [_ He]]] | [calc [appends [Hr _]]]]]]]]].
  - reflexivity.
  - reflexivity.
  - unfold INT_MAX. simpl. lia.
  - unfold INT_MIN, INT_MAX. simpl. lia.
  - unfold INT_MIN, INT_MAX. simpl. lia.
  - simpl. lia.
  - repeat constructor; simpl; lia.
  - discriminate He.
  - exists rest. split; [exact H|]. exists calc, appends. exact Hr.
Defined.



(** ** PIOc_write_darray_multi: the checks on the arguments *)

Section MultiChecks.

Import Darray.

Lemma check_inputs_run (E : env) (a : multi_args) (s : state) :
  check_inputs E a s =
    match m_varids a with
    | None => (Stop (Return PIO_EINVAL), s)
    | Some varids =>
        if m_nvars a <=? 0 then (Stop (Return PIO_EINVAL), s)
        else if existsb (fun v => (aget varids v <? 0) || (aget varids v >? PIO_MAX_VARS E))
                        (Zrange 0 (m_nvars a))
        then (Stop (Return PIO_EINVAL), s)
        else if Z.land (mode (file s)) (PIO_WRITE E) =? 0 then (Stop (Return PIO_EPERM), s)
        else match pio_get_iodesc_from_id E (m_ioid a) with
             | None => (Stop (Return PIO_EBADID), s)
             | Some iodesc =>
                 if is_box (rearranger iodesc) || is_subset (rearranger iodesc) || NDEBUG E
                 then (Next (varids, iodesc), s)
                 else (Stop Abort, s)
             end
    end.
Proof.
  unfold check_inputs, bind, get_file, pioassert, pio_err, leave, ret.
  destruct (m_varids a) as [varids|]; [|reflexivity].
  destruct (m_nvars a <=? 0); [reflexivity|].
  destruct (existsb _ _); [reflexivity|].
  destruct (Z.land (mode (file s)) (PIO_WRITE E) =? 0); [reflexivity|].
  destruct (pio_get_iodesc_from_id E (m_ioid a)) as [iodesc|]; [|reflexivity].
  destruct (is_box (rearranger iodesc) || is_subset (rearranger iodesc) || NDEBUG E);
    reflexivity.
Qed.

(** A call that ends in the checks has made no call and left the file
    as it was. *)
Lemma multi_stops_in_checks (E : env) (a : multi_args) (f : file_desc_t) (e : exit) :
  pio_get_file E (m_ncid a) = Some f ->
  check_inputs E a {| file := f; trace := [] |} = (Stop e, {| file := f; trace := [] |}) ->
  PIOc_write_darray_multi E a = {| ended := e; file_after := Some f; calls_made := [] |}.
Proof.
  intros Hf H. unfold PIOc_write_darray_multi, run, write_darray_multi_body, bind.
  rewrite Hf, H. reflexivity.
Qed.

Lemma varids_in_range (E : env) (varids : list Z) (nvars : Z) :
  existsb (fun v => (aget varids v <? 0) || (aget varids v >? PIO_MAX_VARS E))
          (Zrange 0 nvars) = true
  <-> exists v, 0 <= v < nvars /\ (aget varids v < 0 \/ PIO_MAX_VARS E < aget varids v).
Proof.
  rewrite existsb_exists. split.
  - intros [v [Hin H]]. apply In_Zrange in Hin. exists v. split; [exact Hin|].
    apply orb_true_iff in H as [H|H]; [left; now apply Z.ltb_lt in H|].
    right. apply Z.gtb_lt in H. exact H.
  - intros [v [Hv H]]. exists v. split; [now apply In_Zrange|].
    apply orb_true_iff. destruct H as [H|H]; [left; now apply Z.ltb_lt|].
    right. now apply Z.gtb_lt.
Qed.

End MultiChecks.

(** ** PIOc_write_darray_multi: the calls of each part *)

Section MultiParts.

Import Darray.

Variable E : env.
Variable a : multi_args.
Variable iodesc : io_desc_t.
Variable f0 : file_desc_t.

Lemma mpi_chain_emits (P : event -> bool) (evs : list event) (e : Z) :
  forallb P evs = true -> emits P (mpi_chain E evs e).
Proof.
  revert e. induction evs as [|ev evs IH]; intros e H; simpl.
  - apply emits_ret.
  - simpl in H. apply andb_true_iff in H as [H1 H2]. destruct (e =? 0); [|apply emits_ret].
    unfold mpi_call. emits_tac; auto. now apply emits_emit.
Qed.

Lemma mpi_chain_keeps (Inv : file_desc_t -> Prop) (evs : list event) (e : Z) :
  keeps Inv (mpi_chain E evs e).
Proof.
  revert e. induction evs as [|ev evs IH]; intros e; simpl.
  - apply keeps_ret.
  - destruct (e =? 0); [|apply keeps_ret]. unfold mpi_call. keeps_tac. apply IH.
Qed.

Lemma bcast_params_emits (ios : iosystem_desc_t) :
  emits is_share_event (bcast_params E ios a iodesc).
Proof.
  unfold bcast_params. apply mpi_chain_emits.
  destruct (compmaster_is_root ios), (m_frame a), (m_fillvalue a); reflexivity.
Qed.

Lemma share_params_emits (varids : list Z) :
  emits is_share_event (share_params E a varids iodesc).
Proof. unfold share_params. emits_tac. apply bcast_params_emits. Qed.

Lemma share_params_keeps (varids : list Z) (Inv : file_desc_t -> Prop) :
  keeps Inv (share_params E a varids iodesc).
Proof.
  unfold share_params. apply keeps_get_file_bind. intros f Hf.
  keeps_tac. unfold bcast_params. apply mpi_chain_keeps.
Qed.

Lemma allocate_iobuf_keeps : keeps (same_kind f0) (allocate_iobuf E a iodesc).
Proof. unfold allocate_iobuf. keeps_tac. Qed.

Lemma dispatch_keeps (nvars md : Z) (buf : option block) :
  keeps (same_kind f0) (dispatch E nvars md buf).
Proof. unfold dispatch. keeps_tac. Qed.

Lemma write_data_keeps : keeps (same_kind f0) (write_data E a iodesc).
Proof.
  unfold write_data. keeps_tac. apply dispatch_keeps.
Qed.

Lemma allocate_iobuf_emits (P : event -> bool) :
  (forall b, P (Ev_flush_output_buffer b) = true) ->
  (forall n, P (Ev_bget For_iobuf n) = true) ->
  emits P (allocate_iobuf E a iodesc).
Proof.
  intros P1 P2. unfold allocate_iobuf. emits_tac; apply emits_emit; auto.
Qed.

Lemma dispatch_emits (P : event -> bool) (nvars md : Z) (buf : option block) :
  P (Ev_write_darray_multi_par nvars md buf) = true ->
  P (Ev_write_darray_multi_serial nvars md buf) = true ->
  emits P (dispatch E nvars md buf).
Proof. intros P1 P2. unfold dispatch. emits_tac; apply emits_emit; auto. Qed.

Lemma complete_emits (P : event -> bool) (varids : list Z) :
  (forall b, P (Ev_flush_output_buffer b) = true) ->
  emits P (complete E a varids).
Proof. intros P1. unfold complete. emits_tac; apply emits_emit; auto. Qed.

Lemma write_holes_emits (P : event -> bool) (varids : list Z) :
  (forall n, P (Ev_bget For_fillbuf n) = true) ->
  (forall nv b, P (Ev_write_darray_multi_par nv DARRAY_FILL b) = true) ->
  (forall nv b, P (Ev_write_darray_multi_serial nv DARRAY_FILL b) = true) ->
  P (Ev_brel For_fillbuf) = true ->
  emits P (write_holes E a varids iodesc).
Proof.
  intros P1 P2 P3 P4. unfold write_holes.
  emits_tac; try (apply emits_emit; auto); try (apply dispatch_emits; auto).
Qed.

(** The data pass: rearrangement first, on [iobuf] as it is then. *)
Lemma write_data_run (s : state) (r : step unit) (s' : state) :
  write_data E a iodesc s = (r, s') ->
  exists rest,
    trace s' = trace s ++ Ev_rearrange_comp2io (m_nvars a) (iobuf (file s)) :: rest
    /\ forallb not_rearrange rest = true
    /\ forallb not_hole_event rest = true.
Proof.
  unfold write_data. intros H.
  apply bind_inv in H as [[e [H _]] | [f [s1 [H1 H]]]]; [discriminate|].
  inversion H1; subst f s1; clear H1.
  apply bind_inv in H as [[e [H _]] | [[] [s2 [H2 H]]]]; [discriminate|].
  inversion H2; subst s2; clear H2.
  assert (K : emits (fun ev => not_rearrange ev && not_hole_event ev)
                    (let '(ierr, iobuf') :=
                       rearrange_comp2io E iodesc (m_array a) (iobuf (file s)) (m_nvars a) in
                     put_file (set_iobuf (file s) iobuf');;;
                     (if negb (is_noerr ierr)
                      then pio_err ierr
                      else
                        dispatch E (m_nvars a) DARRAY_DATA iobuf';;;
                        f <- get_file;;
                        when (negb (is_pnetcdf (iotype f)) && is_some (iobuf f))
                             (emit (Ev_brel For_iobuf);;; put_file (set_iobuf f None))))).
  { emits_tac. apply dispatch_emits; reflexivity. }
  destruct (K _ _ _ H) as [rest [T F]]. simpl in T. exists rest.
  rewrite T, <- app_assoc. split; [reflexivity|].
  rewrite forallb_forall in F. split; apply forallb_forall; intros ev Hin;
    specialize (F ev Hin); apply andb_true_iff in F; tauto.
Qed.

(** What a successful allocation leaves in [iobuf]. *)
Lemma allocate_iobuf_ok (s s2 : state) :
  allocate_iobuf E a iodesc s = (Next tt, s2) ->
  let rlen := int_mul (maxiobuflen iodesc) (m_nvars a) in
  let N := size_mul (mpitype_size iodesc) rlen in
  ((0 <? rlen) = true
   /\ trace s2 = trace s ++ flush_first (file s) ++ [Ev_bget For_iobuf N]
   /\ ((needsfill iodesc && is_box (rearranger iodesc)
        && ((0 <? m_nvars a) && (0 <? maxiobuflen iodesc)) = true
        /\ exists fill,
            m_fillvalue a = Some fill
            /\ iobuf (file s2)
               = Some (prefill 32 (fresh N) (m_nvars a) (maxiobuflen iodesc)
                               (mpitype_size iodesc) fill))
       \/ (needsfill iodesc && is_box (rearranger iodesc)
           && ((0 <? m_nvars a) && (0 <? maxiobuflen iodesc)) = false
           /\ iobuf (file s2) = Some (fresh N))))
  \/ ((0 <? rlen) = false
      /\ is_pnetcdf (iotype (file s)) && ioproc (iosystem (file s)) = true
      /\ trace s2 = trace s ++ flush_first (file s) ++ [Ev_bget For_iobuf 1]
      /\ iobuf (file s2) = Some (fresh 1))
  \/ ((0 <? rlen) = false
      /\ is_pnetcdf (iotype (file s)) && ioproc (iosystem (file s)) = false
      /\ trace s2 = trace s ++ flush_first (file s)).
Proof.
  intros H. cbv zeta.
  unfold allocate_iobuf, when, pioassert, pool_alloc, bind, get_file, get_trace, emit,
    put_file, pio_err, leave, ret, flush_first in *.
  cbn [file trace] in H.
  destruct (is_pnetcdf (iotype (file s)) && is_some (iobuf (file s))) eqn:Fl;
    cbn [file trace after_output_flush iobuf iotype iosystem] in H;
    repeat match type of H with
           | context [if ?b then _ else _] => destruct b eqn:?
           | context [match ?x with Some _ => _ | None => _ end] => destruct x eqn:?
           end;
    cbn [file trace] in H; try discriminate;
    inversion H; subst s2; cbn [file trace iobuf set_iobuf];
    rewrite <- ?app_assoc; cbn [app];
    repeat match goal with
           | H : (_ && _) = true |- _ => apply andb_true_iff in H as [? ?]
           end;
    repeat match goal with
           | H : ?b = true |- context [?b] => rewrite H
           | H : ?b = false |- context [?b] => rewrite H
           end;
    cbn [andb]; rewrite ?app_nil_r;
    first [ left; split; [reflexivity|]; split; [reflexivity|];
            first [ left; split; [reflexivity|]; eexists; split; reflexivity
                  | right; split; [reflexivity|reflexivity]
                  | right; split; [|reflexivity]; rewrite ?andb_false_r; reflexivity ]
          | right; left; repeat split; reflexivity
          | right; right; repeat split; reflexivity
          | idtac ].
Qed.

Lemma rearrange_is_the_one (l1 l2 : list event) (nv nv' : Z) (buf buf' : option block) :
  forallb not_rearrange l1 = true -> forallb not_rearrange l2 = true ->
  In (Ev_rearrange_comp2io nv buf) (l1 ++ Ev_rearrange_comp2io nv' buf' :: l2) ->
  nv = nv' /\ buf = buf'.
Proof.
  intros F1 F2 Hin. apply in_app_or in Hin as [Hin|[Hin|Hin]].
  - pose proof (forallb_In _ _ _ F1 Hin) as P. discriminate P.
  - inversion Hin. split; reflexivity.
  - pose proof (forallb_In _ _ _ F2 Hin) as P. discriminate P.
Qed.

Lemma share_is_not_rearrange (l : list event) :
  forallb is_share_event l = true -> forallb not_rearrange l = true.
Proof.
  intros H. apply forallb_forall. intros ev Hin. pose proof (forallb_In _ _ _ H Hin) as P.
  destruct ev; try discriminate P; reflexivity.
Qed.

Lemma share_is_not_hole (l : list event) :
  forallb is_share_event l = true -> forallb not_hole_event l = true.
Proof.
  intros H. apply forallb_forall. intros ev Hin. pose proof (forallb_In _ _ _ H Hin) as P.
  destruct ev; try discriminate P; reflexivity.
Qed.

(** Without need of fill, or with another rearranger, the hole-fill
    pass does nothing. *)
Lemma write_holes_skipped (varids : list Z) (s : state) :
  is_subset (rearranger iodesc) && needsfill iodesc = false ->
  write_holes E a varids iodesc s = (Next tt, s).
Proof. intros H. unfold write_holes, when. rewrite H. reflexivity. Qed.

(** A hole-fill pass that comes to its end. *)
Lemma write_holes_ok (varids : list Z) (s s4 : state) :
  write_holes E a varids iodesc s = (Next tt, s4) ->
  is_subset (rearranger iodesc) && needsfill iodesc = true ->
  let nvars := m_nvars a in
  let h := holegridsize iodesc in
  let sz := mpitype_size iodesc in
  let master := io_rank (iosystem (file s)) =? 0 in
  let N := if master then off_mul (off_mul (maxholegridsize iodesc) sz) nvars
           else off_mul (off_mul h sz) nvars in
  exists buf,
    trace s4 = trace s
                     ++ (if master || (0 <? h) then [Ev_bget For_fillbuf N] else [])
                     ++ dispatch_call (iotype (file s)) nvars DARRAY_FILL buf
                     ++ (if negb (is_pnetcdf (iotype (file s))) && is_some buf
                         then [Ev_brel For_fillbuf] else [])
    /\ dispatch_call (iotype (file s)) nvars DARRAY_FILL buf <> []
    /\ ((0 <? nvars) && (0 <? h) = true ->
        exists fill, m_fillvalue a = Some fill
                     /\ buf = Some (prefill 64 (fresh N) nvars h sz fill)).
Proof.
  intros H Hc. cbv zeta.
  unfold write_holes, when, dispatch, pioassert, pool_alloc, bind, get_file, get_trace, emit,
    put_file, pio_err, leave, ret in H.
  rewrite Hc in H. cbn [file trace] in H.
  destruct (negb (is_some (fillbuf (varlist (file s) (aget varids 0)))) || NDEBUG E);
    [|discriminate].
  destruct (0 <? m_nvars a) eqn:Nv; destruct (0 <? holegridsize iodesc) eqn:Hpos;
    destruct (io_rank (iosystem (file s)) =? 0) eqn:Mst; cbn [orb andb];
    cbn [file trace orb andb] in H;
    repeat match type of H with
           | context [pool_ok ?e ?t ?n] => destruct (pool_ok e t n) eqn:?
           | context [match m_fillvalue a with Some _ => _ | None => _ end] =>
               destruct (m_fillvalue a) eqn:?
           | context [match fillbuf ?v with Some _ => _ | None => _ end] =>
               destruct (fillbuf v) eqn:?
           end;
    cbn [file trace iotype set_var set_fillbuf varlist] in H; try discriminate;
    destruct (iotype (file s)) eqn:Io; cbn [file trace iotype] in H; try discriminate;
    repeat match type of H with
           | context [if negb (is_noerr ?c) then _ else _] => destruct (is_noerr c)
           end;
    cbn [negb file trace iotype set_var set_fillbuf varlist fillbuf is_pnetcdf andb] in H;
    try discriminate;
    rewrite ?Z.eqb_refl, ?Io in H;
    cbn [negb file trace iotype set_var set_fillbuf varlist fillbuf is_pnetcdf andb is_some]
      in H;
    try discriminate;
    try match type of H with
        | context [is_some (fillbuf ?v)] => destruct (fillbuf v) eqn:?; cbn [is_some] in H
        end;
    injection H as Hs; rewrite <- Hs; cbn [trace dispatch_call is_pnetcdf negb andb is_some];
    rewrite <- ?app_assoc; cbn [app];
    (match type of Hs with
     | context [Ev_write_darray_multi_par _ _ ?b] => exists b
     | context [Ev_write_darray_multi_serial _ _ ?b] => exists b
     end;
     cbn [is_some]; rewrite <- ?app_assoc; cbn [app];
     split; [reflexivity|]; split; [discriminate|];
     first [ intros _; eexists; split; reflexivity | intros X; discriminate X ]).
Qed.

End MultiParts.

(** C6, as the specification words it, fails: with a rearranger that
    is neither BOX nor SUBSET and all else in order, the call does not
    return INVAL.  It is ended by the failed assertion; and where
    assertions are compiled out it goes on, allocates the buffer,
    dispatches the write and returns success. *)
Lemma unknown_rearranger_is_not_INVAL :
  Darray.rearranger Inputs.iodesc_other <> Darray.PIO_REARR_BOX
  /\ Darray.rearranger Inputs.iodesc_other <> Darray.PIO_REARR_SUBSET
  /\ Darray.ended (Darray.PIOc_write_darray_multi
                     (Inputs.env0 Inputs.file_plain Inputs.iodesc_other false 100)
                     Inputs.multi2)
     = Darray.Abort
  /\ Darray.ended (Darray.PIOc_write_darray_multi
                     (Inputs.env0 Inputs.file_plain Inputs.iodesc_other true 100)
                     Inputs.multi2)
     = Darray.Return Darray.PIO_NOERR
  /\ In (Darray.Ev_bget Darray.For_iobuf 16)
        (Darray.calls_made (Darray.PIOc_write_darray_multi
                              (Inputs.env0 Inputs.file_plain Inputs.iodesc_other true 100)
                              Inputs.multi2)).
Proof.
  split; [discriminate|]. split; [discriminate|]. split; [reflexivity|].
  split; [reflexivity|]. vm_compute. auto.
Qed.

(** C6, amended: [PIOc_write_darray_multi] returns INVAL when
    [nvars <= 0] (or [varids] is null) and when a varid is outside
    [0, PIO_MAX_VARS]; it returns PERM when the mode of the file lacks
    write permission; on each of these returns it has made no call, so
    no buffer is allocated and no write dispatched, and the file is as it
    was.  A rearranger that is neither BOX nor SUBSET is not answered by
    INVAL: it fails an assertion, which ends the run before any call is
    made; where assertions are compiled out the checks let it pass. *)
Theorem multi_validation (E : Darray.env) (a : Darray.multi_args) (f : Darray.file_desc_t) :
  Darray.pio_get_file E (Darray.m_ncid a) = Some f ->
  let o := Darray.PIOc_write_darray_multi E a in
  let untouched := Darray.file_after o = Some f /\ Darray.calls_made o = [] in
  let s0 := {| Darray.file := f; Darray.trace := [] |} in
  (Darray.m_nvars a <= 0 \/ Darray.m_varids a = None ->
   Darray.ended o = Darray.Return Darray.PIO_EINVAL /\ untouched)
  /\ (forall varids,
         Darray.m_varids a = Some varids -> 0 < Darray.m_nvars a ->
         ((exists v, 0 <= v < Darray.m_nvars a
                     /\ (aget varids v < 0 \/ Darray.PIO_MAX_VARS E < aget varids v)) ->
          Darray.ended o = Darray.Return Darray.PIO_EINVAL /\ untouched)
         /\ ((forall v, 0 <= v < Darray.m_nvars a ->
                        0 <= aget varids v <= Darray.PIO_MAX_VARS E) ->
             (Z.land (Darray.mode f) (Darray.PIO_WRITE E) = 0 ->
              Darray.ended o = Darray.Return Darray.PIO_EPERM /\ untouched)
             /\ (Z.land (Darray.mode f) (Darray.PIO_WRITE E) <> 0 ->
                 forall iodesc,
                   Darray.pio_get_iodesc_from_id E (Darray.m_ioid a) = Some iodesc ->
                   Darray.rearranger iodesc <> Darray.PIO_REARR_BOX ->
                   Darray.rearranger iodesc <> Darray.PIO_REARR_SUBSET ->
                   (Darray.NDEBUG E = false -> Darray.ended o = Darray.Abort /\ untouched)
                   /\ (Darray.NDEBUG E = true ->
                       Darray.check_inputs E a s0 = (Darray.Next (varids, iodesc), s0))))).
Proof.
  intros Hf o untouched s0.
  assert (Stops : forall e, Darray.check_inputs E a s0 = (Darray.Stop e, s0) ->
                            Darray.ended o = e /\ untouched).
  { intros e H. subst o untouched. rewrite (multi_stops_in_checks E a f e Hf H).
    repeat split. }
  pose proof (check_inputs_run E a s0) as R. split.
  - intros H. apply Stops. rewrite R.
    destruct (Darray.m_varids a) as [varids|]; [|reflexivity].
    destruct H as [H|H]; [|discriminate].
    destruct (Z.leb_spec (Darray.m_nvars a) 0); [reflexivity|lia].
  - intros varids Hv Hn. rewrite Hv in R.
    destruct (Z.leb_spec (Darray.m_nvars a) 0); [lia|]. split.
    + intros Hex. apply Stops. apply varids_in_range in Hex. rewrite Hex in R. exact R.
    + intros Hall.
      assert (Hex : existsb (fun v => (aget varids v <? 0)
                                      || (aget varids v >? Darray.PIO_MAX_VARS E))
                            (Zrange 0 (Darray.m_nvars a)) = false).
      { destruct (existsb _ _) eqn:X; [|reflexivity].
        apply varids_in_range in X as [v [Hv' Hbad]]. specialize (Hall v Hv'). lia. }
      rewrite Hex in R. simpl in R. split.
      * intros Hm. apply Stops. rewrite Hm in R. exact R.
      * intros Hm iodesc Hd Hb Hs.
        destruct (Z.eqb_spec (Z.land (Darray.mode f) (Darray.PIO_WRITE E)) 0);
          [contradiction|].
        rewrite Hd in R.
        assert (Hr : Darray.is_box (Darray.rearranger iodesc)
                     || Darray.is_subset (Darray.rearranger iodesc) = false).
        { destruct (Darray.rearranger iodesc); [contradiction|contradiction|reflexivity]. }
        rewrite Hr in R. simpl in R. split.
        -- intros Hnd. apply Stops. rewrite Hnd in R. exact R.
        -- intros Hnd. rewrite Hnd in R. exact R.
Qed.

Lemma multi_validation_witness :
  Darray.ended (Darray.PIOc_write_darray_multi
                  (Inputs.env0 Inputs.file_plain Inputs.iodesc_other false 100)
                  Inputs.multi2)
  = Darray.Abort
  /\ Darray.calls_made (Darray.PIOc_write_darray_multi
                          (Inputs.env0 Inputs.file_plain Inputs.iodesc_other false 100)
                          Inputs.multi2) = [].
Proof.
  pose (E := Inputs.env0 Inputs.file_plain Inputs.iodesc_other false 100).
  assert (Hf : Darray.pio_get_file E (Darray.m_ncid Inputs.multi2) = Some Inputs.file_plain)
    by reflexivity.
  destruct (multi_validation E Inputs.multi2 Inputs.file_plain Hf) as [_ H].
  assert (Hn : 0 < Darray.m_nvars Inputs.multi2) by (simpl; lia).
  destruct (H [0; 1] eq_refl Hn) as [_ H2].
  assert (Hall : forall v, 0 <= v < Darray.m_nvars Inputs.multi2 ->
                           0 <= aget [0; 1] v <= Darray.PIO_MAX_VARS E).
  { simpl. intros v Hv. assert (C : v = 0 \/ v = 1) by lia.
    destruct C as [-> | ->]; subst E; cbv; split; discriminate. }
  destruct (H2 Hall) as [_ H3].
  assert (Hm : Z.land (Darray.mode Inputs.file_plain) (Darray.PIO_WRITE E) <> 0)
    by discriminate.
  destruct (H3 Hm Inputs.iodesc_other eq_refl) as [H4 _]; [discriminate|discriminate|].
  destruct (H4 eq_refl) as [He [_ Hc]]. split; assumption.
Defined.

(** ** The fill loops *)

Section Prefill.

Import Darray.

Lemma fold_left_keeps {A B : Type} (g : A -> B -> A) (Inv Good : A -> Prop) (ts : list B) :
  (forall t b, In t ts -> Inv b -> Inv (g b t)) ->
  (forall t b, In t ts -> Inv b -> Good b -> Good (g b t)) ->
  forall a, Inv a -> Inv (fold_left g ts a) /\ (Good a -> Good (fold_left g ts a)).
Proof.
  induction ts as [|t ts IH]; intros HI HG a Ha; simpl; [tauto|].
  assert (Ha' : Inv (g a t)) by (apply HI; [now left|exact Ha]).
  destruct (IH (fun t b H => HI t b (or_intror H)) (fun t b H => HG t b (or_intror H))
               (g a t) Ha') as [I G].
  split; [exact I|]. intros Hg. apply G. apply HG; [now left|exact Ha|exact Hg].
Qed.

Lemma fold_left_sets {A B : Type} (g : A -> B -> A) (Inv Good : A -> Prop) (ts : list B) :
  (forall t b, In t ts -> Inv b -> Inv (g b t)) ->
  (forall t b, In t ts -> Inv b -> Good b -> Good (g b t)) ->
  (exists t0, In t0 ts /\ forall b, Inv b -> Good (g b t0)) ->
  forall a, Inv a -> Good (fold_left g ts a).
Proof.
  induction ts as [|t ts IH]; intros HI HG [t0 [Hin Hset]] a Ha; [destruct Hin|].
  simpl. assert (Ha' : Inv (g a t)) by (apply HI; [now left|exact Ha]).
  destruct Hin as [<-|Hin].
  - apply (fold_left_keeps g Inv Good ts (fun t b H => HI t b (or_intror H))
                           (fun t b H => HG t b (or_intror H)) (g a t) Ha').
    now apply Hset.
  - apply IH; auto.
    + intros; apply HI; auto. now right.
    + intros; apply HG; auto. now right.
    + exists t0. auto.
Qed.

Variable w : Z.
Hypothesis Hw : w = 32 \/ w = 64.
Variables nvars n sz : Z.
Variable fill : block.
Hypothesis Hsz : 0 < sz.
Hypothesis Hn : 0 < n.
Hypothesis Hfit : sz * (nvars * n) < 2 ^ 31.

Lemma wrap_w_small (z : Z) : 0 <= z < 2 ^ 31 -> wrap w z = z.
Proof.
  intros H. apply wrap_small; [destruct Hw as [Hx|Hx]; rewrite Hx; reflexivity|].
  destruct Hw as [Hx|Hx]; rewrite Hx;
    [change (2 ^ (32 - 1)) with (2 ^ 31) | change (2 ^ (64 - 1)) with (2 ^ 63)]; lia.
Qed.

Lemma slot_bounds (nv i : Z) :
  0 <= nv < nvars -> 0 <= i < n ->
  0 <= nv * n /\ nv * n + n <= nvars * n /\ 0 <= i + nv * n < nvars * n
  /\ sz * (i + nv * n) + sz <= sz * (nvars * n)
  /\ 0 <= nv * sz /\ nv * sz + sz <= sz * (nvars * n).
Proof.
  intros Hv Hi.
  assert (A1 : (nv + 1) * n <= nvars * n) by (apply Z.mul_le_mono_nonneg_r; lia).
  assert (A2 : 0 <= nv * n) by (apply Z.mul_nonneg_nonneg; lia).
  assert (A3 : sz * (i + nv * n + 1) <= sz * (nvars * n))
    by (apply Z.mul_le_mono_nonneg_l; lia).
  assert (A4 : (nv + 1) * sz <= nvars * sz) by (apply Z.mul_le_mono_nonneg_r; lia).
  assert (A5 : 0 <= nv * sz) by (apply Z.mul_nonneg_nonneg; lia).
  assert (A6 : (nvars * sz) * 1 <= (nvars * sz) * n)
    by (apply Z.mul_le_mono_nonneg_l; [apply Z.mul_nonneg_nonneg|]; lia).
  lia.
Qed.

Lemma prefill_offset (nv i : Z) :
  0 <= nv < nvars -> 0 <= i < n ->
  wrap w (sz * wrap w (i + wrap w (nv * n))) = sz * (i + nv * n)
  /\ int_mul nv sz = nv * sz.
Proof.
  intros Hv Hi. destruct (slot_bounds nv i Hv Hi) as [B1 [B2 [B3 [B4 [B5 B6]]]]].
  assert (N1 : nvars * n <= sz * (nvars * n)) by nia.
  rewrite (wrap_w_small (nv * n)) by lia.
  rewrite (wrap_w_small (i + nv * n)) by lia.
  rewrite (wrap_w_small (sz * (i + nv * n))) by nia.
  split; [reflexivity|]. unfold int_mul. apply wrap32_small. unfold INT_MIN, INT_MAX. lia.
Qed.

(** After the loops, slot [i0] of variable [v0] holds the fill value of
    [v0], byte by byte, and the buffer has kept its size. *)
Lemma prefill_load (buf : block) (v0 i0 j0 : Z) :
  0 <= v0 < nvars -> 0 <= i0 < n -> 0 <= j0 < sz ->
  sz * (nvars * n) <= size buf ->
  load (prefill w buf nvars n sz fill) (sz * (i0 + v0 * n) + j0) = load fill (v0 * sz + j0).
Proof.
  intros Hv0 Hi0 Hj0 Hsize.
  set (k := sz * (i0 + v0 * n) + j0).
  set (Inv := fun b : block => size b = size buf).
  set (Good := fun b : block => load b k = load fill (v0 * sz + j0)).
  destruct (slot_bounds v0 i0 Hv0 Hi0) as [B1 [B2 [B3 [B4 [B5 B6]]]]].
  assert (Hk : 0 <= k < size buf) by (unfold k; nia).
  assert (Step : forall nv i b,
             0 <= nv < nvars -> 0 <= i < n -> Inv b ->
             Inv (memcpy b (wrap w (sz * wrap w (i + wrap w (nv * n)))) fill (int_mul nv sz) sz)
             /\ (Good b ->
                 Good (memcpy b (wrap w (sz * wrap w (i + wrap w (nv * n)))) fill
                              (int_mul nv sz) sz))
             /\ (nv = v0 -> i = i0 ->
                 Good (memcpy b (wrap w (sz * wrap w (i + wrap w (nv * n)))) fill
                              (int_mul nv sz) sz))).
  { intros nv i b Hv Hi Hb. destruct (prefill_offset nv i Hv Hi) as [-> ->].
    unfold Inv, Good in *. rewrite memcpy_size. split; [exact Hb|].
    rewrite load_memcpy by (rewrite Hb; exact Hk).
    destruct ((sz * (i + nv * n) <=? k) && (k <? sz * (i + nv * n) + sz)) eqn:C.
    - apply andb_true_iff in C as [C1 C2]. apply Z.leb_le in C1. apply Z.ltb_lt in C2.
      unfold k in C1, C2.
      assert (Ee : i + nv * n = i0 + v0 * n) by nia.
      assert (Ev : nv = v0) by nia. assert (Ei : i = i0) by nia. subst nv i.
      assert (Ek : v0 * sz + (k - sz * (i0 + v0 * n)) = v0 * sz + j0) by (unfold k; lia).
      rewrite Ek. split; reflexivity.
    - split; [tauto|]. intros -> ->. exfalso.
      apply andb_false_iff in C as [C|C];
        [apply Z.leb_gt in C | apply Z.ltb_ge in C]; unfold k in C; lia. }
  assert (KeepI : forall nv i b, 0 <= nv < nvars -> In i (Zrange 0 n) -> Inv b ->
                   Inv (memcpy b (wrap w (sz * wrap w (i + wrap w (nv * n)))) fill
                               (int_mul nv sz) sz)).
  { intros nv i b Hv Hi Hb. apply In_Zrange in Hi. apply (Step nv i b); [lia|lia|exact Hb]. }
  assert (KeepG : forall nv i b, 0 <= nv < nvars -> In i (Zrange 0 n) -> Inv b -> Good b ->
                   Good (memcpy b (wrap w (sz * wrap w (i + wrap w (nv * n)))) fill
                                (int_mul nv sz) sz)).
  { intros nv i b Hv Hi Hb Hg. apply In_Zrange in Hi.
    destruct (Step nv i b) as [_ [S _]]; [lia|lia|exact Hb|]. exact (S Hg). }
  unfold prefill.
  apply (fold_left_sets _ Inv Good).
  - intros nv b Hin Hb. apply In_Zrange in Hin.
    apply (fold_left_keeps _ Inv Good (Zrange 0 n)); [| |exact Hb].
    + intros i b' Hi Hb'. now apply KeepI.
    + intros i b' Hi Hb' Hg. now apply KeepG.
  - intros nv b Hin Hb Hg. apply In_Zrange in Hin.
    apply (fold_left_keeps _ Inv Good (Zrange 0 n)); [| |exact Hb|exact Hg].
    + intros i b' Hi Hb'. now apply KeepI.
    + intros i b' Hi Hb' Hg'. now apply KeepG.
  - exists v0. split; [apply In_Zrange; lia|]. intros b Hb.
    apply (fold_left_sets _ Inv Good (Zrange 0 n)); [| | |exact Hb].
    + intros i b' Hi Hb'. now apply KeepI.
    + intros i b' Hi Hb' Hg'. now apply KeepG.
    + exists i0. split; [apply In_Zrange; lia|]. intros b' Hb'.
      destruct (Step v0 i0 b') as [_ [_ S]]; [lia|lia|exact Hb'|]. now apply S.
  - reflexivity.
Qed.

Lemma prefill_size (buf : block) : size (prefill w buf nvars n sz fill) = size buf.
Proof.
  unfold prefill.
  apply (fold_left_keeps _ (fun b => size b = size buf) (fun _ => True)); auto.
  intros nv b _ Hb.
  apply (fold_left_keeps _ (fun b => size b = size buf) (fun _ => True)); auto.
  intros i b' _ Hb'. now rewrite memcpy_size.
Qed.

(** A byte behind the slots of the variables is left as it was. *)
Lemma prefill_untouched (buf : block) (k : Z) :
  sz * (nvars * n) <= k < size buf ->
  load (prefill w buf nvars n sz fill) k = load buf k.
Proof.
  intros Hk. unfold prefill.
  set (Inv := fun b : block => size b = size buf /\ load b k = load buf k).
  assert (Step : forall nv i b,
             0 <= nv < nvars -> 0 <= i < n -> Inv b ->
             Inv (memcpy b (wrap w (sz * wrap w (i + wrap w (nv * n)))) fill
                         (int_mul nv sz) sz)).
  { intros nv i b Hv Hi [Hb Hl]. destruct (prefill_offset nv i Hv Hi) as [-> ->].
    destruct (slot_bounds nv i Hv Hi) as [B1 [B2 [B3 [B4 [B5 B6]]]]].
    unfold Inv. rewrite memcpy_size. split; [exact Hb|].
    rewrite load_memcpy by (rewrite Hb; lia).
    destruct (Z.ltb_spec k (sz * (i + nv * n) + sz)); [lia|].
    now rewrite andb_false_r. }
  apply (fold_left_keeps _ Inv (fun _ => True)); [| |split; reflexivity]; auto.
  intros nv b Hin Hb. apply In_Zrange in Hin.
  apply (fold_left_keeps _ Inv (fun _ => True)); auto.
  intros i b' Hi Hb'. apply In_Zrange in Hi. apply Step; [lia|lia|exact Hb'].
Qed.

End Prefill.

Section PrefillWraps.
Import Darray.

(** The destination of the copy for slot [i] of the only variable, with
    eight-byte elements: the index is an [int]. *)
Lemma prefill_offset_of_slot (n i : Z) :
  0 <= i < 2 ^ 29 ->
  wrap 32 (8 * wrap 32 (i + wrap 32 (0 * n)))
  = if i <? 2 ^ 28 then 8 * i else 8 * i - 2 ^ 32.
Proof.
  intros Hi. change (2 ^ 29) with 536870912 in Hi.
  rewrite Z.mul_0_l. change (wrap 32 0) with 0. rewrite Z.add_0_r.
  rewrite (wrap32_small i) by (unfold INT_MIN, INT_MAX; lia).
  change (2 ^ 28) with 268435456. change (2 ^ 32) with 4294967296.
  destruct (Z.ltb_spec i 268435456).
  - apply wrap32_small. unfold INT_MIN, INT_MAX. lia.
  - unfold wrap. change (2 ^ (32 - 1)) with 2147483648. change (2 ^ 32) with 4294967296.
    replace (8 * i + 2147483648) with (8 * i - 2147483648 + 1 * 4294967296) by ring.
    rewrite Z.mod_add by lia. rewrite Z.mod_small by lia. lia.
Qed.

(** The fill loop of lines 274-277 for one variable of [n] eight-byte
    elements: the slots below 2^28 are filled, and no byte from 2^31 on
    is written. *)
Lemma prefill_one_variable (buf fill : block) (n : Z) :
  0 < n <= 2 ^ 29 -> 8 * n <= size buf ->
  let b := prefill 32 buf 1 n 8 fill in
  size b = size buf
  /\ (forall i j, 0 <= i < n -> i < 2 ^ 28 -> 0 <= j < 8 ->
                  load b (8 * i + j) = load fill j)
  /\ (forall k, 2 ^ 31 <= k -> load b k = load buf k).
Proof.
  intros Hn Hsize b. subst b.
  change (2 ^ 29) with 536870912 in Hn. change (2 ^ 28) with 268435456.
  change (2 ^ 31) with 2147483648.
  unfold prefill. change (Zrange 0 1) with [0]. cbn [fold_left]. change (int_mul 0 8) with 0.
  set (step := fun (b : block) (i : Z) =>
                 memcpy b (wrap 32 (8 * wrap 32 (i + wrap 32 (0 * n)))) fill 0 8).
  assert (Step : forall i b k, 0 <= i < n -> size b = size buf -> 0 <= k < size buf ->
                   load (step b i) k
                   = if (8 * i <=? k) && (k <? 8 * i + 8) && (i <? 268435456)
                     then load fill (k - 8 * i) else load b k).
  { intros i b k Hi Hb Hk. unfold step.
    rewrite prefill_offset_of_slot by (change (2 ^ 29) with 536870912; lia).
    change (2 ^ 28) with 268435456. change (2 ^ 32) with 4294967296.
    rewrite load_memcpy by (rewrite Hb; exact Hk).
    destruct (Z.ltb_spec i 268435456).
    - rewrite andb_true_r. reflexivity.
    - rewrite andb_false_r.
      destruct (Z.ltb_spec k (8 * i - 4294967296 + 8)); [lia|]. now rewrite andb_false_r. }
  assert (Size : forall i b, size (step b i) = size b)
    by (intros; unfold step; apply memcpy_size).
  split; [|split].
  - apply (fold_left_keeps step (fun b => size b = size buf) (fun _ => True)); auto.
    intros i b' _ Hb'. now rewrite Size.
  - intros i0 j Hi0 Hlow Hj.
    apply (fold_left_sets step (fun b => size b = size buf)
             (fun b => load b (8 * i0 + j) = load fill j) (Zrange 0 n)).
    + intros i b' _ Hb'. now rewrite Size.
    + intros i b' Hi Hb' Hg. apply In_Zrange in Hi. rewrite Step by lia.
      destruct (Z.leb_spec (8 * i) (8 * i0 + j)); [|exact Hg].
      destruct (Z.ltb_spec (8 * i0 + j) (8 * i + 8)); [|exact Hg].
      destruct (Z.ltb_spec i 268435456); [|exact Hg]. cbn [andb]. f_equal. lia.
    + exists i0. split; [apply In_Zrange; lia|]. intros b' Hb'. rewrite Step by lia.
      destruct (Z.leb_spec (8 * i0) (8 * i0 + j)); [|lia].
      destruct (Z.ltb_spec (8 * i0 + j) (8 * i0 + 8)); [|lia].
      destruct (Z.ltb_spec i0 268435456); [|lia]. cbn [andb]. f_equal. lia.
    + reflexivity.
  - intros k Hk.
    destruct (Z.lt_ge_cases k (size buf)) as [In|Out].
    + apply (fold_left_keeps step (fun b => size b = size buf)
               (fun b => load b k = load buf k) (Zrange 0 n)); [| |reflexivity|reflexivity].
      * intros i b' _ Hb'. now rewrite Size.
      * intros i b' Hi Hb' Hg. apply In_Zrange in Hi. rewrite Step by lia.
        destruct (Z.ltb_spec i 268435456); [|now rewrite andb_false_r].
        destruct (Z.ltb_spec k (8 * i + 8)); [lia|]. now rewrite andb_false_r.
    + rewrite !load_outside; [reflexivity|lia|].
      assert (S : size (fold_left step (Zrange 0 n) buf) = size buf).
      { apply (fold_left_keeps step (fun b => size b = size buf) (fun _ => True)); auto.
        intros i b' _ Hb'. now rewrite Size. }
      lia.
Qed.

End PrefillWraps.

(** ** PIOc_write_darray_multi: the order of its parts *)

Section MultiRun.

Import Darray.

Variable E : env.
Variable a : multi_args.
Variable f : file_desc_t.

(** Every run of the body, part by part.  [s1] is the state after the
    parameters are shared, [s2] after [iobuf] is allocated, [s3] after
    the data pass, [s4] after the hole-fill pass. *)
Lemma write_darray_multi_run (r : step pio_code) (s' : state) :
  let s0 := {| file := f; trace := [] |} in
  write_darray_multi_body E a s0 = (r, s') ->
  (exists e, check_inputs E a s0 = (Stop e, s0) /\ r = Stop e /\ s' = s0)
  \/ exists varids iodesc,
      check_inputs E a s0 = (Next (varids, iodesc), s0)
      /\ ((exists e, share_params E a varids iodesc s0 = (Stop e, s') /\ r = Stop e)
          \/ exists s1,
              share_params E a varids iodesc s0 = (Next tt, s1)
              /\ ((exists e, allocate_iobuf E a iodesc s1 = (Stop e, s') /\ r = Stop e)
                  \/ exists s2,
                      allocate_iobuf E a iodesc s1 = (Next tt, s2)
                      /\ ((exists e, write_data E a iodesc s2 = (Stop e, s') /\ r = Stop e)
                          \/ exists s3,
                              write_data E a iodesc s2 = (Next tt, s3)
                              /\ ((exists e, write_holes E a varids iodesc s3 = (Stop e, s')
                                             /\ r = Stop e)
                                  \/ exists s4,
                                      write_holes E a varids iodesc s3 = (Next tt, s4)
                                      /\ ((exists e, complete E a varids s4 = (Stop e, s')
                                                     /\ r = Stop e)
                                          \/ (complete E a varids s4 = (Next tt, s')
                                              /\ r = Next PIO_NOERR)))))).
Proof.
  intros s0 H. unfold write_darray_multi_body in H.
  apply bind_inv in H as [[e [C ->]] | [[varids iodesc] [s0' [C H]]]].
  - left. exists e. pose proof (check_inputs_run E a s0) as R. rewrite C in R.
    assert (s' = s0).
    { destruct (m_varids a); [|congruence].
      repeat match type of R with
             | context [if ?b then _ else _] => destruct b
             | context [match ?x with Some _ => _ | None => _ end] => destruct x
             end; congruence. }
    subst s'. auto.
  - right. exists varids, iodesc.
    assert (s0' = s0).
    { pose proof (check_inputs_run E a s0) as R. rewrite C in R.
      destruct (m_varids a); [|congruence].
      repeat match type of R with
             | context [if ?b then _ else _] => destruct b
             | context [match ?x with Some _ => _ | None => _ end] => destruct x
             end; congruence. }
    subst s0'. split; [exact C|].
    apply bind_inv in H as [[e [H ->]] | [[] [s1 [H1 H]]]]; [left; eauto|].
    right. exists s1. split; [exact H1|].
    apply bind_inv in H as [[e [H ->]] | [[] [s2 [H2 H]]]]; [left; eauto|].
    right. exists s2. split; [exact H2|].
    apply bind_inv in H as [[e [H ->]] | [[] [s3 [H3 H]]]]; [left; eauto|].
    right. exists s3. split; [exact H3|].
    apply bind_inv in H as [[e [H ->]] | [[] [s4 [H4 H]]]]; [left; eauto|].
    right. exists s4. split; [exact H4|].
    apply bind_inv in H as [[e [H ->]] | [[] [s5 [H5 H]]]]; [left; eauto|].
    right. inversion H; subst. auto.
Qed.

Lemma check_inputs_passed (s : state) (varids : list Z) (iodesc : io_desc_t) :
  check_inputs E a s = (Next (varids, iodesc), s) ->
  m_varids a = Some varids /\ 0 < m_nvars a
  /\ pio_get_iodesc_from_id E (m_ioid a) = Some iodesc.
Proof.
  rewrite check_inputs_run. destruct (m_varids a) as [v|]; [|discriminate].
  destruct (Z.leb_spec (m_nvars a) 0) as [Hn|Hn]; [discriminate|].
  destruct (existsb _ _); [discriminate|].
  destruct (Z.land _ _ =? 0); [discriminate|].
  destruct (pio_get_iodesc_from_id E (m_ioid a)) as [d|]; [|discriminate].
  destruct (is_box (rearranger d) || is_subset (rearranger d) || NDEBUG E); [|discriminate].
  intros H. inversion H; subst. auto.
Qed.

(** The one call of [rearrange_comp2io] of a run comes right after the
    allocation of [iobuf] and is given [iobuf] as the allocation left
    it. *)
Lemma multi_rearrange_point (r : step pio_code) (s' : state) (nv : Z) (buf : option block) :
  let s0 := {| file := f; trace := [] |} in
  write_darray_multi_body E a s0 = (r, s') ->
  In (Ev_rearrange_comp2io nv buf) (trace s') ->
  exists varids iodesc s1 s2 rest,
    check_inputs E a s0 = (Next (varids, iodesc), s0)
    /\ share_params E a varids iodesc s0 = (Next tt, s1)
    /\ file s1 = f
    /\ allocate_iobuf E a iodesc s1 = (Next tt, s2)
    /\ trace s' = trace s2 ++ Ev_rearrange_comp2io (m_nvars a) (iobuf (file s2)) :: rest
    /\ nv = m_nvars a /\ buf = iobuf (file s2).
Proof.
  intros s0 H Hin.
  apply write_darray_multi_run in H as [[e [_ [_ ->]]] | [varids [iodesc [C H]]]];
    [destruct Hin|].
  destruct H as [[e [H _]] | [s1 [H1 H]]].
  { destruct (share_params_emits E a iodesc varids _ _ _ H) as [evs [T F]]. simpl in T.
    rewrite T in Hin. pose proof (forallb_In _ _ _ (share_is_not_rearrange _ F) Hin) as P.
    discriminate P. }
  destruct (share_params_emits E a iodesc varids _ _ _ H1) as [evs1 [T1 F1]]. simpl in T1.
  assert (Hf1 : file s1 = f)
    by exact (share_params_keeps E a iodesc varids (fun x => x = f)
                {| file := f; trace := [] |} _ _ eq_refl H1).
  assert (NR : emits not_rearrange (allocate_iobuf E a iodesc))
    by (apply allocate_iobuf_emits; reflexivity).
  destruct H as [[e [H _]] | [s2 [H2 H]]].
  { destruct (NR _ _ _ H) as [evs [T F]]. rewrite T, T1 in Hin.
    apply in_app_or in Hin as [Hin|Hin].
    - pose proof (forallb_In _ _ _ (share_is_not_rearrange _ F1) Hin) as P. discriminate P.
    - pose proof (forallb_In _ _ _ F Hin) as P. discriminate P. }
  destruct (NR _ _ _ H2) as [evs2 [T2 F2]].
  assert (N2 : forallb not_rearrange (trace s2) = true).
  { rewrite T2, T1, forallb_app, F2, (share_is_not_rearrange _ F1). reflexivity. }
  assert (Fin : forall rest,
             trace s' = trace s2 ++ Ev_rearrange_comp2io (m_nvars a) (iobuf (file s2)) :: rest ->
             forallb not_rearrange rest = true ->
             exists varids iodesc s1 s2 rest,
               check_inputs E a s0 = (Next (varids, iodesc), s0)
               /\ share_params E a varids iodesc s0 = (Next tt, s1)
               /\ file s1 = f
               /\ allocate_iobuf E a iodesc s1 = (Next tt, s2)
               /\ trace s' = trace s2 ++ Ev_rearrange_comp2io (m_nvars a) (iobuf (file s2)) :: rest
               /\ nv = m_nvars a /\ buf = iobuf (file s2)).
  { intros rest T F. exists varids, iodesc, s1, s2, rest.
    rewrite T in Hin. destruct (rearrange_is_the_one _ _ _ _ _ _ N2 F Hin) as [-> ->].
    repeat split; auto. }
  destruct H as [[e [H _]] | [s3 [H3 H]]].
  { destruct (write_data_run E a iodesc _ _ _ H) as [rest [T [F _]]]. now apply (Fin rest). }
  destruct (write_data_run E a iodesc _ _ _ H3) as [rest3 [T3 [F3 _]]].
  assert (NH : emits not_rearrange (write_holes E a varids iodesc))
    by (apply write_holes_emits; reflexivity).
  destruct H as [[e [H _]] | [s4 [H4 H]]].
  { destruct (NH _ _ _ H) as [evs [T F]]. apply (Fin (rest3 ++ evs)).
    - rewrite T, T3, <- app_assoc. reflexivity.
    - now rewrite forallb_app, F3, F. }
  destruct (NH _ _ _ H4) as [evs4 [T4 F4]].
  assert (NC : emits not_rearrange (complete E a varids))
    by (apply complete_emits; reflexivity).
  assert (Last : forall x, complete E a varids s4 = (x, s') ->
                           exists evs, trace s' = trace s4 ++ evs
                                       /\ forallb not_rearrange evs = true).
  { intros x Hx. exact (NC _ _ _ Hx). }
  assert (exists x, complete E a varids s4 = (x, s')) as [x Hx]
      by (destruct H as [[e [H _]] | [H _]]; eauto).
  destruct (Last x Hx) as [evs5 [T5 F5]].
  apply (Fin (rest3 ++ evs4 ++ evs5)).
  - rewrite T5, T4, T3, <- !app_assoc. reflexivity.
  - now rewrite !forallb_app, F3, F4, F5.
Qed.

Lemma rearrange_then_no_hole (l1 rest : list event) (nv : Z) (b : option block) :
  forallb not_hole_event l1 = true -> forallb not_hole_event rest = true ->
  forallb not_hole_event (l1 ++ Ev_rearrange_comp2io nv b :: rest) = true.
Proof. intros F1 F2. rewrite forallb_app, F1. simpl. exact F2. Qed.

(** The calls of the hole-fill pass of a run are those of [write_holes],
    which runs, if the run gets that far, on a file of the same backend
    and roles, after calls that are none of the pass and before calls
    that are none of the pass. *)
Lemma multi_hole_point (r : step pio_code) (s' : state) :
  let s0 := {| file := f; trace := [] |} in
  write_darray_multi_body E a s0 = (r, s') ->
  (exists x, r = Stop x /\ forallb not_hole_event (trace s') = true)
  \/ exists varids iodesc s3 rh sh post,
      check_inputs E a s0 = (Next (varids, iodesc), s0)
      /\ same_kind f (file s3)
      /\ forallb not_hole_event (trace s3) = true
      /\ write_holes E a varids iodesc s3 = (rh, sh)
      /\ trace s' = trace sh ++ post
      /\ forallb not_hole_event post = true
      /\ (forall c, r = Next c -> rh = Next tt /\ c = PIO_NOERR).
Proof.
  intros s0 H.
  apply write_darray_multi_run in H as [[e [_ [-> ->]]] | [varids [iodesc [C H]]]];
    [left; eauto|].
  destruct H as [[e [H ->]] | [s1 [H1 H]]].
  { left. exists e. split; [reflexivity|].
    destruct (share_params_emits E a iodesc varids _ _ _ H) as [evs [T F]]. simpl in T.
    rewrite T. now apply share_is_not_hole. }
  destruct (share_params_emits E a iodesc varids _ _ _ H1) as [evs1 [T1 F1]]. simpl in T1.
  assert (Hf1 : file s1 = f)
    by exact (share_params_keeps E a iodesc varids (fun x => x = f)
                {| file := f; trace := [] |} _ _ eq_refl H1).
  assert (NA : emits not_hole_event (allocate_iobuf E a iodesc))
    by (apply allocate_iobuf_emits; reflexivity).
  destruct H as [[e [H ->]] | [s2 [H2 H]]].
  { left. exists e. split; [reflexivity|]. destruct (NA _ _ _ H) as [evs [T F]].
    now rewrite T, T1, forallb_app, F, (share_is_not_hole _ F1). }
  destruct (NA _ _ _ H2) as [evs2 [T2 F2]].
  assert (N2 : forallb not_hole_event (trace s2) = true)
    by now rewrite T2, T1, forallb_app, F2, (share_is_not_hole _ F1).
  assert (K1 : same_kind f (file s1)) by (rewrite Hf1; split; reflexivity).
  assert (K2 : same_kind f (file s2)) by exact (allocate_iobuf_keeps E a iodesc f _ _ _ K1 H2).
  destruct H as [[e [H ->]] | [s3 [H3 H]]].
  { left. exists e. split; [reflexivity|].
    destruct (write_data_run E a iodesc _ _ _ H) as [rest [T [_ F]]].
    rewrite T. now apply rearrange_then_no_hole. }
  destruct (write_data_run E a iodesc _ _ _ H3) as [rest3 [T3 [_ F3]]].
  assert (N3 : forallb not_hole_event (trace s3) = true)
    by (rewrite T3; now apply rearrange_then_no_hole).
  assert (K3 : same_kind f (file s3)) by exact (write_data_keeps E a iodesc f _ _ _ K2 H3).
  right. exists varids, iodesc, s3.
  destruct H as [[e [H ->]] | [s4 [H4 H]]].
  { exists (Stop e), s', []. rewrite app_nil_r.
    split; [exact C|]. split; [exact K3|]. split; [exact N3|]. split; [exact H|].
    split; [reflexivity|]. split; [reflexivity|]. intros c Hc. discriminate Hc. }
  assert (NC : emits not_hole_event (complete E a varids))
    by (apply complete_emits; reflexivity).
  exists (Next tt), s4.
  destruct H as [[e [H ->]] | [H ->]]; destruct (NC _ _ _ H) as [evs5 [T5 F5]];
    exists evs5; (split; [exact C|]); (split; [exact K3|]); (split; [exact N3|]);
    (split; [exact H4|]); (split; [exact T5|]); (split; [exact F5|]); intros c Hc.
  - discriminate Hc.
  - inversion Hc. split; reflexivity.
Qed.

End MultiRun.

(** X25: the one call of [rearrange_comp2io] in a run of
    [PIOc_write_darray_multi] is for the [nvars] variables of the call
    and follows the allocation of [iobuf].  When [maxiobuflen] and the
    element size are positive (so [rlen = nvars * maxiobuflen] is), the
    buffer it is given was allocated with exactly
    [nvars * maxiobuflen * mpitype_size] bytes, and, if the decomposition
    needs fill and uses the BOX rearranger, each of its elements holds
    the fill value of its variable.  When [maxiobuflen] is 0, so [rlen]
    is, and the backend is PNETCDF on an I/O task, a buffer of one byte
    was allocated instead. *)
Theorem iobuf_is_sized_and_prefilled (E : Darray.env) (a : Darray.multi_args)
        (f : Darray.file_desc_t) (iodesc : Darray.io_desc_t) :
  Darray.pio_get_file E (Darray.m_ncid a) = Some f ->
  Darray.pio_get_iodesc_from_id E (Darray.m_ioid a) = Some iodesc ->
  let o := Darray.PIOc_write_darray_multi E a in
  let nvars := Darray.m_nvars a in
  let n := Darray.maxiobuflen iodesc in
  let sz := Darray.mpitype_size iodesc in
  forall nv buf,
    In (Darray.Ev_rearrange_comp2io nv buf) (Darray.calls_made o) ->
    nv = nvars
    /\ (0 < n -> 0 < sz -> sz * (nvars * n) < 2 ^ 31 ->
        exists b pre post,
          buf = Some b
          /\ size b = nvars * n * sz
          /\ Darray.calls_made o
             = pre ++ Darray.Ev_bget Darray.For_iobuf (nvars * n * sz)
                   :: Darray.Ev_rearrange_comp2io nvars buf :: post
          /\ (Darray.needsfill iodesc = true ->
              Darray.rearranger iodesc = Darray.PIO_REARR_BOX ->
              exists fill,
                Darray.m_fillvalue a = Some fill
                /\ forall v i j,
                    0 <= v < nvars -> 0 <= i < n -> 0 <= j < sz ->
                    load b (sz * (i + v * n) + j) = load fill (v * sz + j)))
    /\ (n = 0 -> Darray.iotype f = Darray.PIO_IOTYPE_PNETCDF ->
        Darray.ioproc (Darray.iosystem f) = true ->
        exists pre post,
          buf = Some (fresh 1)
          /\ Darray.calls_made o
             = pre ++ Darray.Ev_bget Darray.For_iobuf 1
                   :: Darray.Ev_rearrange_comp2io nvars buf :: post).
Proof.
  intros Hf Hd o nvars n sz nv buf Hin.
  subst o. unfold Darray.PIOc_write_darray_multi, Darray.run in *. rewrite Hf in *.
  destruct (Darray.write_darray_multi_body E a {| Darray.file := f; Darray.trace := [] |})
    as [r s'] eqn:B.
  assert (Tr : Darray.calls_made
                 (match r with
                  | Darray.Next c =>
                      {| Darray.ended := Darray.Return c;
                         Darray.file_after := Some (Darray.file s');
                         Darray.calls_made := Darray.trace s' |}
                  | Darray.Stop e =>
                      {| Darray.ended := e; Darray.file_after := Some (Darray.file s');
                         Darray.calls_made := Darray.trace s' |}
                  end) = Darray.trace s') by (destruct r; reflexivity).
  rewrite Tr in *. clear Tr.
  destruct (multi_rearrange_point E a f r s' nv buf B Hin)
    as [varids [d [s1 [s2 [rest [C [S [Hf1 [A [T [-> ->]]]]]]]]]]].
  destruct (check_inputs_passed E a _ _ _ C) as [Hv [Hnv Hd']].
  rewrite Hd in Hd'. inversion Hd'; subst d. clear Hd'.
  fold nvars in Hnv.
  split; [reflexivity|].
  apply allocate_iobuf_ok in A. cbv zeta in A. rewrite Hf1 in A.
  fold nvars n sz in A.
  split.
  - intros Hn Hsz Hfit.
    assert (Hnn : 0 < nvars * n) by (apply Z.mul_pos_pos; assumption).
    assert (Hle : nvars * n <= sz * (nvars * n)) by nia.
    assert (Hr : int_mul n nvars = nvars * n).
    { unfold int_mul. rewrite wrap32_small; [ring|]. unfold INT_MIN, INT_MAX.
      replace (n * nvars) with (nvars * n) by ring. lia. }
    assert (HN : Darray.size_mul sz (int_mul n nvars) = nvars * n * sz).
    { rewrite Hr. unfold Darray.size_mul. rewrite Z.mod_small; [ring|].
      assert (2 ^ 31 < 2 ^ 64) by reflexivity. lia. }
    rewrite HN, Hr in A.
    destruct A as [[_ [T2 A]] | [[R _] | [R _]]];
      try (apply Z.ltb_ge in R; lia).
    assert (Hcalls : Darray.trace s'
                     = (Darray.trace s1 ++ Darray.flush_first f)
                         ++ Darray.Ev_bget Darray.For_iobuf (nvars * n * sz)
                         :: Darray.Ev_rearrange_comp2io nvars (Darray.iobuf (Darray.file s2))
                         :: rest).
    { rewrite T, T2, <- !app_assoc. reflexivity. }
    destruct A as [[Cnd [fill [Hfill Hb]]] | [Cnd Hb]].
    + exists (Darray.prefill 32 (fresh (nvars * n * sz)) nvars n sz fill),
        (Darray.trace s1 ++ Darray.flush_first f), rest.
      split; [exact Hb|]. split.
      { rewrite (prefill_size 32 nvars n sz fill), fresh_size; lia. }
      split; [exact Hcalls|].
      intros _ _. exists fill. split; [exact Hfill|]. intros v i j Hv' Hi Hj.
      apply (prefill_load 32 (or_introl eq_refl) nvars n sz fill Hsz Hn Hfit); auto.
      rewrite fresh_size; lia.
    + exists (fresh (nvars * n * sz)), (Darray.trace s1 ++ Darray.flush_first f), rest.
      split; [exact Hb|]. split; [apply fresh_size; lia|]. split; [exact Hcalls|].
      intros Hnf Hbox. exfalso. rewrite Hnf, Hbox in Cnd. simpl in Cnd.
      apply andb_false_iff in Cnd as [Cnd|Cnd]; apply Z.ltb_ge in Cnd; lia.
  - intros Hn0 Hpn Hio.
    assert (Hr : int_mul n nvars = 0) by (rewrite Hn0; reflexivity).
    rewrite Hr in A.
    destruct A as [[R _] | [[_ [_ [T2 Hb]]] | [_ [R _]]]]; [discriminate R| |].
    + exists (Darray.trace s1 ++ Darray.flush_first f), rest.
      split; [exact Hb|]. rewrite T, T2, <- !app_assoc. reflexivity.
    + rewrite Hpn, Hio in R. discriminate R.
Qed.

Lemma iobuf_is_sized_and_prefilled_witness :
  exists b pre post,
    Some (bytes [Byte.xf0; Byte.xf1; Byte.xf0; Byte.xf1;
                 Byte.xe0; Byte.xe1; Byte.xe0; Byte.xe1]) = Some b
    /\ size b = 2 * 2 * 2
    /\ Darray.calls_made
         (Darray.PIOc_write_darray_multi
            (Inputs.env0 Inputs.file_plain Inputs.iodesc_fill false 100) Inputs.multi2_fill)
       = pre ++ Darray.Ev_bget Darray.For_iobuf (2 * 2 * 2)
             :: Darray.Ev_rearrange_comp2io 2
                  (Some (bytes [Byte.xf0; Byte.xf1; Byte.xf0; Byte.xf1;
                                Byte.xe0; Byte.xe1; Byte.xe0; Byte.xe1]))
             :: post.
Proof.
  pose (E := Inputs.env0 Inputs.file_plain Inputs.iodesc_fill false 100).
  assert (Hf : Darray.pio_get_file E (Darray.m_ncid Inputs.multi2_fill)
               = Some Inputs.file_plain) by reflexivity.
  assert (Hd : Darray.pio_get_iodesc_from_id E (Darray.m_ioid Inputs.multi2_fill)
               = Some Inputs.iodesc_fill) by reflexivity.
  assert (Hin : In (Darray.Ev_rearrange_comp2io 2
                      (Some (bytes [Byte.xf0; Byte.xf1; Byte.xf0; Byte.xf1;
                                    Byte.xe0; Byte.xe1; Byte.xe0; Byte.xe1])))
                   (Darray.calls_made (Darray.PIOc_write_darray_multi E Inputs.multi2_fill))).
  { vm_compute. right. right. left. reflexivity. }
  destruct (iobuf_is_sized_and_prefilled E Inputs.multi2_fill Inputs.file_plain
              Inputs.iodesc_fill Hf Hd _ _ Hin) as [_ [H _]].
  destruct H as [b [pre [post [Hb [Hs [Hc _]]]]]].
  - simpl. lia.
  - simpl. lia.
  - simpl. lia.
  - exists b, pre, post. split; [exact Hb|]. split; [exact Hs|]. exact Hc.
Defined.

(** C7: with one variable of 2^29 eight-byte elements ([rlen] is
    positive and [iobuf] is allocated with 2^32 bytes, the size line 265
    computes in [size_t]), fill asked for and the BOX rearranger, the
    call succeeds and the buffer given to [rearrange_comp2io] holds the
    fill value in its elements 0 to 2^28 - 1 only: the index of lines
    276-277 is an [int] and wraps at element 2^28, so the elements from
    2^28 on are as [bget] left them. *)
Theorem iobuf_prefill_stops_at_2GiB :
  let o := Darray.PIOc_write_darray_multi Inputs.env_4GiB Inputs.multi_4GiB in
  Darray.ended o = Darray.Return Darray.PIO_NOERR
  /\ exists b pre post,
      Darray.calls_made o
      = pre ++ Darray.Ev_bget Darray.For_iobuf (1 * 536870912 * 8)
            :: Darray.Ev_rearrange_comp2io 1 (Some b) :: post
      /\ size b = 1 * 536870912 * 8
      /\ (forall i j, 0 <= i < 268435456 -> 0 <= j < 8 ->
                      load b (8 * i + j) = Some Byte.xff)
      /\ (forall i j, 268435456 <= i < 536870912 -> 0 <= j < 8 ->
                      load b (8 * i + j) = None).
Proof.
  cbv zeta. split; [reflexivity|].
  exists (Darray.prefill 32 (fresh 4294967296) 1 536870912 8 (bytes (repeat Byte.xff 8))),
    [Darray.Ev_inq_varndims 0],
    [Darray.Ev_write_darray_multi_serial 1 0
       (Some (Darray.prefill 32 (fresh 4294967296) 1 536870912 8 (bytes (repeat Byte.xff 8))));
     Darray.Ev_brel Darray.For_iobuf].
  split; [reflexivity|].
  destruct (prefill_one_variable (fresh 4294967296) (bytes (repeat Byte.xff 8)) 536870912)
    as [S [Lo Hi]].
  - change (2 ^ 29) with 536870912. lia.
  - rewrite fresh_size; lia.
  - split; [rewrite S; apply fresh_size; lia|]. split.
    + intros i j Hi' Hj. rewrite Lo; [|lia|change (2 ^ 28) with 268435456; lia|lia].
      assert (j = 0 \/ j = 1 \/ j = 2 \/ j = 3 \/ j = 4 \/ j = 5 \/ j = 6 \/ j = 7)
        as [->|[->|[->|[->|[->|[->|[->| ->]]]]]]] by lia; reflexivity.
    + intros i j Hi' Hj. rewrite Hi by (change (2 ^ 31) with 2147483648; lia).
      apply load_fresh.
Qed.

Section MultiStops.

Import Darray.

Variables (E : env) (a : multi_args).

Lemma mpi_chain_stops (Q : exit -> bool) (evs : list event) (e : Z) :
  stops_in Q (mpi_chain E evs e).
Proof.
  revert e. induction evs as [|ev evs IH]; intros e; simpl.
  - apply stops_ret.
  - destruct (e =? 0); [|apply stops_ret]. unfold mpi_call. stops_tac. apply IH.
Qed.

Lemma stops_unless_noerr {A : Type} (c : pio_code) (m : M A) :
  stops_in not_success m ->
  stops_in not_success (if negb (is_noerr c) then pio_err c else m).
Proof.
  intros H. destruct c; simpl; try exact H; apply stops_leave; reflexivity.
Qed.

Lemma dispatch_stops (nvars mode_ : Z) (buf : option block) :
  stops_in not_success (dispatch E nvars mode_ buf).
Proof.
  unfold dispatch. apply stops_bind; [apply stops_get_file|]. intros f.
  destruct (iotype f); try (apply stops_leave; reflexivity);
    (apply stops_bind; [apply stops_emit|]; intros _;
     apply stops_unless_noerr; apply stops_ret).
Qed.

(** The function is never left early with the code of success. *)
Lemma write_darray_multi_body_stops : stops_in not_success (write_darray_multi_body E a).
Proof.
  unfold write_darray_multi_body.
  apply stops_bind.
  { unfold check_inputs, pioassert. stops_tac. }
  intros [varids iodesc]. apply stops_bind.
  { unfold share_params. apply stops_bind; [apply stops_get_file|]. intros f.
    apply stops_bind.
    - unfold when. destruct (negb (async (iosystem f)) || negb (ioproc (iosystem f)));
        [|apply stops_ret].
      apply stops_bind; [apply stops_emit|]. intros _.
      unfold check_netcdf. apply (stops_unless_noerr _ (ret tt)). apply stops_ret.
    - intros _. unfold when. destruct (async (iosystem f)); [|apply stops_ret].
      apply stops_bind.
      { destruct (negb (ioproc (iosystem f))); [apply mpi_chain_stops|apply stops_ret]. }
      intros mpierr. stops_tac. }
  intros _. apply stops_bind.
  { unfold allocate_iobuf, pioassert. stops_tac. }
  intros _. apply stops_bind.
  { unfold write_data. apply stops_bind; [apply stops_get_file|]. intros f.
    apply stops_bind; [apply stops_emit|]. intros _.
    destruct (rearrange_comp2io E iodesc (m_array a) (iobuf f) (m_nvars a)) as [ierr b].
    apply stops_bind; [apply stops_put_file|]. intros _.
    apply stops_unless_noerr.
    apply stops_bind; [apply dispatch_stops|]. intros _. stops_tac. }
  intros _. apply stops_bind.
  { unfold write_holes, when.
    destruct (is_subset (rearranger iodesc) && needsfill iodesc); [|apply stops_ret].
    apply stops_bind; [apply stops_get_file|]. intros f.
    apply stops_bind; [unfold pioassert; stops_tac|]. intros _.
    apply stops_bind; [stops_tac|]. intros fb.
    apply stops_bind; [stops_tac|]. intros filled.
    apply stops_bind; [apply stops_put_file|]. intros _.
    apply stops_bind; [apply dispatch_stops|]. intros _. stops_tac. }
  intros _. apply stops_bind.
  { unfold complete. apply stops_bind; [apply stops_get_file|]. intros f.
    destruct (ioproc (iosystem f) && is_pnetcdf (iotype f)); [|apply stops_put_file].
    apply stops_bind; [apply stops_emit|]. intros _.
    apply stops_bind; [apply stops_put_file|]. intros _.
    apply stops_unless_noerr. apply stops_ret. }
  intros _. apply stops_ret.
Qed.

End MultiStops.

(** C8, as the specification words it, fails on the I/O master: with one
    hole on the task and at most two on any, the buffer of two elements
    is handed to the backend with its first element filled and its second
    as it was allocated. *)
Lemma master_fillbuf_is_not_filled_to_its_end :
  Darray.io_rank (Darray.iosystem Inputs.file_plain) = 0
  /\ In (Darray.Ev_bget Darray.For_fillbuf 2)
        (Darray.calls_made
           (Darray.PIOc_write_darray_multi
              (Inputs.env0 Inputs.file_plain Inputs.iodesc_holes false 100) Inputs.multi1))
  /\ In (Darray.Ev_write_darray_multi_serial 1 Darray.DARRAY_FILL (Some [Some Byte.xff; None]))
        (Darray.calls_made
           (Darray.PIOc_write_darray_multi
              (Inputs.env0 Inputs.file_plain Inputs.iodesc_holes false 100) Inputs.multi1))
  /\ load [Some Byte.xff; None] 1 <> load (bytes [Byte.xff]) 0.
Proof.
  split; [reflexivity|]. split; [vm_compute; tauto|]. split; [vm_compute; tauto|].
  discriminate.
Qed.

(** C8, amended: the calls of the hole-fill pass are made only if the
    rearranger is SUBSET and the decomposition needs fill, and in a run
    that returns success they are made if it is so.  Then a [fillbuf] of
    [maxholegridsize * mpitype_size * nvars] bytes is allocated on the
    I/O master (io_rank 0) and of [holegridsize * mpitype_size * nvars]
    bytes on another task with [holegridsize > 0]; the backend is
    dispatched with mode FILL on it; it is released afterwards, except
    for PNETCDF.  The first [holegridsize] elements of each variable, laid
    out one variable after the other, hold the fill value of the
    variable; what lies behind these [nvars * holegridsize] elements (on
    the I/O master, when [holegridsize < maxholegridsize]) is left as it
    was allocated. *)
Theorem hole_fill_pass (E : Darray.env) (a : Darray.multi_args) (f : Darray.file_desc_t)
        (iodesc : Darray.io_desc_t) :
  Darray.pio_get_file E (Darray.m_ncid a) = Some f ->
  Darray.pio_get_iodesc_from_id E (Darray.m_ioid a) = Some iodesc ->
  let o := Darray.PIOc_write_darray_multi E a in
  let nvars := Darray.m_nvars a in
  let h := Darray.holegridsize iodesc in
  let maxh := Darray.maxholegridsize iodesc in
  let sz := Darray.mpitype_size iodesc in
  let master := Darray.io_rank (Darray.iosystem f) =? 0 in
  let N := if master then off_mul (off_mul maxh sz) nvars else off_mul (off_mul h sz) nvars in
  (forall ev, In ev (Darray.calls_made o) -> Darray.is_hole_event ev = true ->
              Darray.rearranger iodesc = Darray.PIO_REARR_SUBSET
              /\ Darray.needsfill iodesc = true)
  /\ (Darray.ended o = Darray.Return Darray.PIO_NOERR ->
      Darray.rearranger iodesc = Darray.PIO_REARR_SUBSET ->
      Darray.needsfill iodesc = true ->
      exists pre buf post,
        Darray.calls_made o
        = pre ++ (if master || (0 <? h) then [Darray.Ev_bget Darray.For_fillbuf N] else [])
              ++ Darray.dispatch_call (Darray.iotype f) nvars Darray.DARRAY_FILL buf
              ++ (if negb (Darray.is_pnetcdf (Darray.iotype f)) && Darray.is_some buf
                  then [Darray.Ev_brel Darray.For_fillbuf] else [])
              ++ post
        /\ Darray.dispatch_call (Darray.iotype f) nvars Darray.DARRAY_FILL buf <> []
        /\ forallb Darray.not_hole_event pre = true
        /\ forallb Darray.not_hole_event post = true
        /\ (0 < h -> 0 < sz -> sz * (nvars * h) < 2 ^ 31 ->
            (master = true -> h <= maxh /\ sz * (nvars * maxh) < 2 ^ 31) ->
            exists b fill,
              buf = Some b
              /\ Darray.m_fillvalue a = Some fill
              /\ size b = (if master then maxh else h) * sz * nvars
              /\ (forall v i j,
                     0 <= v < nvars -> 0 <= i < h -> 0 <= j < sz ->
                     load b (sz * (i + v * h) + j) = load fill (v * sz + j))
              /\ (forall k, sz * (nvars * h) <= k < size b -> load b k = None))).
Proof.
  intros Hf Hd o nvars h maxh sz master N.
  subst o. unfold Darray.PIOc_write_darray_multi, Darray.run. rewrite Hf.
  destruct (Darray.write_darray_multi_body E a {| Darray.file := f; Darray.trace := [] |})
    as [r s'] eqn:B.
  assert (Tr : Darray.calls_made
                 (match r with
                  | Darray.Next c =>
                      {| Darray.ended := Darray.Return c;
                         Darray.file_after := Some (Darray.file s');
                         Darray.calls_made := Darray.trace s' |}
                  | Darray.Stop e =>
                      {| Darray.ended := e; Darray.file_after := Some (Darray.file s');
                         Darray.calls_made := Darray.trace s' |}
                  end) = Darray.trace s') by (destruct r; reflexivity).
  rewrite Tr. clear Tr.
  pose proof (multi_hole_point E a f r s' B) as P. split.
  - intros ev Hin Hev.
    destruct P as [[x [_ F]] | [varids [d [s3 [rh [sh [post [C [K [N3 [W [T [Fp _]]]]]]]]]]]]].
    { pose proof (forallb_In _ _ _ F Hin) as Q. unfold Darray.not_hole_event in Q.
      rewrite Hev in Q. discriminate Q. }
    destruct (check_inputs_passed E a _ _ _ C) as [_ [_ Hd']].
    rewrite Hd in Hd'. inversion Hd'; subst d. clear Hd'.
    destruct (Darray.is_subset (Darray.rearranger iodesc) && Darray.needsfill iodesc) eqn:Cnd.
    + apply andb_true_iff in Cnd as [C1 C2]. split; [|exact C2].
      destruct (Darray.rearranger iodesc); try discriminate C1. reflexivity.
    + exfalso. rewrite (write_holes_skipped E a iodesc varids s3 Cnd) in W.
      inversion W; subst sh. rewrite T in Hin. apply in_app_or in Hin as [Hin|Hin].
      * pose proof (forallb_In _ _ _ N3 Hin) as Q. unfold Darray.not_hole_event in Q.
        rewrite Hev in Q. discriminate Q.
      * pose proof (forallb_In _ _ _ Fp Hin) as Q. unfold Darray.not_hole_event in Q.
        rewrite Hev in Q. discriminate Q.
  - intros He Hsub Hnf.
    destruct P as [[x [Hx _]] | [varids [d [s3 [rh [sh [post [C [K [N3 [W [T [Fp R]]]]]]]]]]]]].
    { subst r. simpl in He. subst x.
      pose proof (write_darray_multi_body_stops E a _ _ _ B) as Q. discriminate Q. }
    destruct (check_inputs_passed E a _ _ _ C) as [_ [_ Hd']].
    rewrite Hd in Hd'. inversion Hd'; subst d. clear Hd'.
    assert (Hr : rh = Darray.Next tt).
    { destruct r as [c|x]; [exact (proj1 (R c eq_refl))|].
      exfalso. simpl in He. subst x.
      pose proof (write_darray_multi_body_stops E a _ _ _ B) as Q. discriminate Q. }
    subst rh.
    assert (Cnd : Darray.is_subset (Darray.rearranger iodesc) && Darray.needsfill iodesc
                  = true) by (rewrite Hsub, Hnf; reflexivity).
    destruct (write_holes_ok E a iodesc varids s3 sh W Cnd) as [buf [Th [Hdc Hbuf]]].
    cbv zeta in Th, Hdc, Hbuf. destruct K as [K1 K2]. rewrite K1, K2 in *.
    fold nvars h sz maxh master N in Th, Hdc, Hbuf.
    exists (Darray.trace s3), buf, post.
    split; [rewrite T, Th, <- !app_assoc; reflexivity|].
    split; [exact Hdc|]. split; [exact N3|]. split; [exact Fp|].
    intros Hh Hsz Hfit Hm.
    destruct (check_inputs_passed E a _ _ _ C) as [_ [Hnv _]]. fold nvars in Hnv.
    assert (L : (0 <? nvars) && (0 <? h) = true).
    { apply andb_true_iff. split; apply Z.ltb_lt; assumption. }
    destruct (Hbuf L) as [fill [Hfill ->]].
    assert (HN : N = (if master then maxh else h) * sz * nvars
                 /\ sz * (nvars * h) <= N).
    { subst N. unfold off_mul. destruct master.
      - destruct (Hm eq_refl) as [M1 M2].
        assert (0 <= maxh * sz) by nia. assert (maxh * sz <= sz * (nvars * maxh)) by nia.
        assert (2 ^ 31 < 2 ^ 63) by reflexivity.
        rewrite (wrap64_small (maxh * sz)) by lia.
        rewrite wrap64_small by nia. split; [reflexivity|]. nia.
      - assert (0 <= h * sz) by nia. assert (h * sz <= sz * (nvars * h)) by nia.
        assert (2 ^ 31 < 2 ^ 63) by reflexivity.
        rewrite (wrap64_small (h * sz)) by lia.
        rewrite wrap64_small by nia. split; [reflexivity|]. nia. }
    destruct HN as [HN1 HN2].
    assert (HN0 : 0 <= N) by nia.
    exists (Darray.prefill 64 (fresh N) nvars h sz fill), fill.
    split; [reflexivity|]. split; [exact Hfill|].
    split; [rewrite (prefill_size 64 nvars h sz fill), fresh_size; lia|].
    split.
    + intros v i j Hv Hi Hj.
      apply (prefill_load 64 (or_intror eq_refl) nvars h sz fill Hsz Hh Hfit); auto.
      rewrite fresh_size; lia.
    + intros k Hk. rewrite (prefill_size 64 nvars h sz fill) in Hk.
      rewrite (prefill_untouched 64 (or_intror eq_refl) nvars h sz fill Hsz Hh Hfit)
        by exact Hk.
      apply load_fresh.
Qed.

Lemma hole_fill_pass_witness :
  exists b fill,
    In (Darray.Ev_write_darray_multi_serial 1 Darray.DARRAY_FILL (Some b))
       (Darray.calls_made
          (Darray.PIOc_write_darray_multi
             (Inputs.env0 Inputs.file_plain Inputs.iodesc_holes false 100) Inputs.multi1))
    /\ Darray.m_fillvalue Inputs.multi1 = Some fill
    /\ size b = 2
    /\ load b 0 = load fill 0
    /\ load b 1 = None.
Proof.
  pose (E := Inputs.env0 Inputs.file_plain Inputs.iodesc_holes false 100).
  assert (Hf : Darray.pio_get_file E (Darray.m_ncid Inputs.multi1)
               = Some Inputs.file_plain) by reflexivity.
  assert (Hd : Darray.pio_get_iodesc_from_id E (Darray.m_ioid Inputs.multi1)
               = Some Inputs.iodesc_holes) by reflexivity.
  destruct (hole_fill_pass E Inputs.multi1 Inputs.file_plain Inputs.iodesc_holes Hf Hd)
    as [_ H].
  destruct (H eq_refl eq_refl eq_refl) as [pre [buf [post [Hc [_ [_ [_ Hb]]]]]]].
  destruct Hb as [b [fill [Hbuf [Hfill [Hs [Hl Hu]]]]]].
  - simpl. lia.
  - simpl. lia.
  - simpl. lia.
  - intros _. simpl. lia.
  - exists b, fill. split.
    + fold E. rewrite Hc, Hbuf. apply in_or_app. right. apply in_or_app. right.
      simpl. left. reflexivity.
    + split; [exact Hfill|]. split; [exact Hs|]. split.
      * apply (Hl 0 0 0); simpl; lia.
      * apply Hu. rewrite Hs. simpl. lia.
Defined.

(** ** The flush policy: binary64 arithmetic of PIO_wmb_needs_flush *)

Section Binary64.

Import Darray.

Lemma digits2_pos_bounds (p : positive) :
  2 ^ (Zpos (digits2_pos p) - 1) <= Zpos p < 2 ^ Zpos (digits2_pos p).
Proof.
  induction p as [p IH|p IH|]; cbn [digits2_pos].
  - rewrite Pos2Z.inj_succ. change (Z.pos p~1) with (2 * Z.pos p + 1).
    replace (Z.succ (Zpos (digits2_pos p)) - 1) with (Z.succ (Zpos (digits2_pos p) - 1)) by lia.
    rewrite !Z.pow_succ_r by lia.
    revert IH. generalize (2 ^ (Z.pos (digits2_pos p) - 1)), (2 ^ Z.pos (digits2_pos p)). lia.
  - rewrite Pos2Z.inj_succ. change (Z.pos p~0) with (2 * Z.pos p).
    replace (Z.succ (Zpos (digits2_pos p)) - 1) with (Z.succ (Zpos (digits2_pos p) - 1)) by lia.
    rewrite !Z.pow_succ_r by lia.
    revert IH. generalize (2 ^ (Z.pos (digits2_pos p) - 1)), (2 ^ Z.pos (digits2_pos p)). lia.
  - simpl. lia.
Qed.

Lemma digits2_pos_unique (p : positive) (d : Z) :
  2 ^ (d - 1) <= Zpos p < 2 ^ d -> Zpos (digits2_pos p) = d.
Proof.
  intros [L U]. pose proof (digits2_pos_bounds p) as [L' U'].
  destruct (Z.lt_trichotomy (Zpos (digits2_pos p)) d) as [H|[H|H]]; [|exact H|].
  - assert (2 ^ Zpos (digits2_pos p) <= 2 ^ (d - 1)) by (apply Z.pow_le_mono_r; lia). lia.
  - assert (0 <= d \/ d < 0) as [D|D] by lia.
    + assert (2 ^ d <= 2 ^ (Zpos (digits2_pos p) - 1)) by (apply Z.pow_le_mono_r; lia). lia.
    + rewrite (Z.pow_neg_r 2 d) in U by lia. lia.
Qed.

Lemma shr_1_at (P k : Z) (mrs : shr_record) :
  0 <= k -> shr_at P k mrs -> shr_at P (k + 1) (shr_1 mrs).
Proof.
  intros Hk. unfold shr_at. rewrite Z.pow_add_r by lia. change (2 ^ 1) with 2.
  assert (T : 0 < 2 ^ k) by (apply Z.pow_pos_nonneg; lia).
  destruct mrs as [m r s]. cbn [shr_m shr_r shr_s].
  destruct m as [|[p|p|]|[p|p|]]; cbn [shr_1 shr_m shr_r shr_s];
    try (intros [H _]; lia).
  - generalize dependent (2 ^ k). intros T HT.
    destruct r, s; cbn [orb]; intuition (try discriminate; try lia).
  - change (Z.pos p~1) with (2 * Z.pos p + 1). generalize dependent (2 ^ k). intros T HT.
    destruct r, s; cbn [orb]; intuition (try discriminate; try nia).
  - change (Z.pos p~0) with (2 * Z.pos p). generalize dependent (2 ^ k). intros T HT.
    destruct r, s; cbn [orb]; intuition (try discriminate; try nia).
  - generalize dependent (2 ^ k). intros T HT.
    destruct r, s; cbn [orb]; intuition (try discriminate; try nia).
Qed.

Lemma iter_shr_1_at (P : Z) (n : positive) :
  forall (k : Z) (mrs : shr_record),
    0 <= k -> shr_at P k mrs -> shr_at P (k + Zpos n) (iter_pos shr_1 n mrs).
Proof.
  induction n as [n IH|n IH|]; intros k mrs Hk H; cbn [iter_pos].
  - replace (k + Zpos n~1) with (k + 1 + Zpos n + Zpos n) by lia.
    apply IH; [lia|]. apply IH; [lia|]. apply shr_1_at; assumption.
  - replace (k + Zpos n~0) with (k + Zpos n + Zpos n) by lia.
    apply IH; [lia|]. apply IH; assumption.
  - apply shr_1_at; assumption.
Qed.

Lemma shr_at_start (P : Z) : 0 <= P -> shr_at P 0 (shr_record_of_loc P loc_Exact).
Proof.
  intros H. unfold shr_at. cbn [shr_record_of_loc shr_m shr_r shr_s].
  change (2 ^ 0) with 1. intuition (try discriminate; try lia).
Qed.

Lemma shr_at_shr (P e n : Z) :
  0 <= P -> 0 <= n ->
  shr_at P n (fst (shr (shr_record_of_loc P loc_Exact) e n))
  /\ snd (shr (shr_record_of_loc P loc_Exact) e n) = e + n.
Proof.
  intros HP Hn. destruct n as [|q|q]; cbn [shr fst snd].
  - split; [apply shr_at_start; exact HP|lia].
  - split; [|reflexivity]. apply (iter_shr_1_at P q 0); [lia|apply shr_at_start; exact HP].
  - lia.
Qed.

Lemma round_nearest_even_at (P k : Z) (mrs : shr_record) :
  0 <= k -> shr_at P k mrs ->
  let m1 := round_nearest_even (shr_m mrs) (loc_of_shr_record mrs) in
  shr_m mrs <= m1 <= shr_m mrs + 1
  /\ 2 * (m1 * 2 ^ k) <= 2 * P + 2 ^ k.
Proof.
  intros Hk. unfold shr_at. destruct mrs as [m r s]. cbn [shr_m shr_r shr_s].
  assert (T : 0 < 2 ^ k) by (apply Z.pow_pos_nonneg; lia).
  generalize dependent (2 ^ k). intros T HT [H0 [H1 [H2 H3]]].
  assert (R : r = true -> T <= 2 * (P - m * T)) by (intros E; apply H2; exact E).
  destruct r, s; cbn [loc_of_shr_record round_nearest_even];
    try specialize (R eq_refl); try destruct (Z.even m); split; nia.
Qed.

Lemma binary_round_aux_normal (P : positive) (e : Z) :
  let n := Zpos (digits2_pos P) - 53 in
  0 <= n -> -1074 <= e + n -> e + n < 971 ->
  exists (m : positive) (k : Z),
    binary_round_aux 53 1024 false (Zpos P) e loc_Exact = S754_finite false m (e + n + k)
    /\ 2 ^ 52 <= Zpos m < 2 ^ 53
    /\ (k = 0 \/ k = 1)
    /\ (forall a, a * 2 ^ n <= Zpos P -> a <= Zpos m * 2 ^ k)
    /\ 2 * (Zpos m * 2 ^ k * 2 ^ n) <= 2 * Zpos P + 2 ^ n.
Proof.
  intros n Hn He1 He2.
  assert (F1 : fexp 53 1024 (Zdigits2 (Zpos P) + e) - e = n)
    by (unfold fexp, emin; cbn [Zdigits2]; lia).
  unfold binary_round_aux. unfold shr_fexp at 1. rewrite F1.
  destruct (shr_at_shr (Zpos P) e n) as [A1 A2]; [lia|exact Hn|].
  destruct (shr (shr_record_of_loc (Zpos P) loc_Exact) e n) as [mrs' e'].
  cbn [fst snd] in A1, A2. subst e'.
  destruct (round_nearest_even_at (Zpos P) n mrs' Hn A1) as [R1 R2].
  set (m1 := round_nearest_even (shr_m mrs') (loc_of_shr_record mrs')) in *.
  destruct A1 as [M0 [M1 _]].
  pose proof (digits2_pos_bounds P) as D.
  replace (Zpos (digits2_pos P) - 1) with (52 + n) in D by (unfold n; lia).
  replace (Zpos (digits2_pos P)) with (53 + n) in D by (unfold n; lia).
  rewrite !Z.pow_add_r in D by lia.
  assert (T : 0 < 2 ^ n) by (apply Z.pow_pos_nonneg; lia).
  assert (B : 2 ^ 52 <= shr_m mrs' < 2 ^ 53).
  { revert D M1 M0 T. generalize (2 ^ n) (shr_m mrs') (2 ^ 52) (2 ^ 53). intros; nia. }
  assert (G : forall a, a * 2 ^ n <= Zpos P -> a <= shr_m mrs').
  { intros a Ha. revert Ha M1 T. generalize (2 ^ n) (shr_m mrs'). intros; nia. }
  clearbody m1. destruct m1 as [|q1|q1]; try lia.
  destruct (Z.eq_dec (Zpos q1) (2 ^ 53)) as [Q|Q].
  - assert (Q' : q1 = 9007199254740992%positive) by (change (2 ^ 53) with 9007199254740992 in Q; lia).
    subst q1.
    assert (F2 : fexp 53 1024 (Zdigits2 9007199254740992 + (e + n)) - (e + n) = 1).
    { change (Zdigits2 9007199254740992) with 54. unfold fexp, emin. lia. }
    unfold shr_fexp. rewrite F2. cbn [shr shr_record_of_loc iter_pos shr_1 shr_m].
    replace (e + n + 1 <=? 1024 - 53) with true by (symmetry; apply Z.leb_le; lia).
    exists 4503599627370496%positive, 1. split; [reflexivity|].
    split; [split; [reflexivity|reflexivity]|]. split; [right; reflexivity|].
    change (Zpos 4503599627370496 * 2 ^ 1) with (2 ^ 53). rewrite <- Q. split.
    + intros a Ha. specialize (G a Ha). lia.
    + exact R2.
  - assert (Dq : Zpos (digits2_pos q1) = 53).
    { apply digits2_pos_unique. change (53 - 1) with 52. lia. }
    assert (F2 : fexp 53 1024 (Zdigits2 (Zpos q1) + (e + n)) - (e + n) = 0).
    { cbn [Zdigits2]. rewrite Dq. unfold fexp, emin. lia. }
    unfold shr_fexp. rewrite F2. cbn [shr shr_record_of_loc shr_m].
    replace (e + n <=? 1024 - 53) with true by (symmetry; apply Z.leb_le; lia).
    exists q1, 0. rewrite Z.add_0_r. split; [reflexivity|].
    split; [lia|]. split; [left; reflexivity|].
    change (2 ^ 0) with 1. rewrite Z.mul_1_r. split.
    + intros a Ha. specialize (G a Ha). lia.
    + exact R2.
Qed.

Lemma iter_xO_pow (p q : positive) : Zpos (Pos.iter xO p q) = Zpos p * 2 ^ Zpos q.
Proof.
  induction q as [|q IH] using Pos.peano_ind.
  - cbn [Pos.iter]. change (2 ^ 1) with 2. lia.
  - rewrite Pos.iter_succ, Pos2Z.inj_succ, Z.pow_succ_r by lia.
    change (Zpos (Pos.iter xO p q)~0) with (2 * Zpos (Pos.iter xO p q)). rewrite IH. ring.
Qed.

Lemma digits2_pos_le (p : positive) (d : Z) :
  Zpos p < 2 ^ d -> Zpos (digits2_pos p) <= d.
Proof.
  intros H. pose proof (digits2_pos_bounds p) as [L _].
  destruct (Z.le_gt_cases (Zpos (digits2_pos p)) d) as [G|G]; [exact G|].
  assert (0 <= d \/ d < 0) as [D|D] by lia.
  - assert (2 ^ d <= 2 ^ (Zpos (digits2_pos p) - 1)) by (apply Z.pow_le_mono_r; lia). lia.
  - rewrite (Z.pow_neg_r 2 d) in H by lia. lia.
Qed.

Lemma digits2_pos_ge (p : positive) (d : Z) :
  2 ^ (d - 1) <= Zpos p -> d <= Zpos (digits2_pos p).
Proof.
  intros H. pose proof (digits2_pos_bounds p) as [_ U].
  destruct (Z.le_gt_cases d (Zpos (digits2_pos p))) as [G|G]; [exact G|].
  assert (2 ^ Zpos (digits2_pos p) <= 2 ^ (d - 1)) by (apply Z.pow_le_mono_r; lia). lia.
Qed.

(** On a mantissa of 53 digits the rounding has nothing to do. *)
Lemma binary_round_aux_canonical (m : positive) (e : Z) :
  2 ^ 52 <= Zpos m < 2 ^ 53 -> -1074 <= e < 971 ->
  binary_round_aux 53 1024 false (Zpos m) e loc_Exact = S754_finite false m e.
Proof.
  intros Hm He.
  assert (D : Zpos (digits2_pos m) = 53) by (apply digits2_pos_unique; exact Hm).
  destruct (binary_round_aux_normal m e) as [m' [k [E [B [K [G R]]]]]];
    rewrite ?D; try lia.
  rewrite D in E, G, R. change (53 - 53) with 0 in E, G, R. change (2 ^ 0) with 1 in G, R.
  rewrite E. specialize (G (Zpos m)).
  destruct K as [K|K]; subst k.
  - change (2 ^ 0) with 1 in G, R. f_equal; lia.
  - change (2 ^ 1) with 2 in G, R. lia.
Qed.

Lemma double_of_long_pos (x : Z) :
  0 < x < 2 ^ 53 ->
  exists (m : positive) (e : Z),
    double_of_long x = S754_finite false m e
    /\ 2 ^ 52 <= Zpos m < 2 ^ 53 /\ -52 <= e <= 0 /\ Zpos m = x * 2 ^ (- e).
Proof.
  intros [H0 H1]. destruct x as [|p|p]; try lia.
  unfold double_of_long, binary_normalize, binary_round.
  pose proof (digits2_pos_bounds p) as [L U].
  pose proof (digits2_pos_le p 53 H1) as D.
  assert (F : fexp 53 1024 (Zpos (digits2_pos p) + 0) = Zpos (digits2_pos p) - 53)
    by (unfold fexp, emin; lia).
  rewrite F. unfold shl_align.
  destruct (Zpos (digits2_pos p) - 53 - 0) as [|q|q] eqn:Q; try lia.
  - assert (Dp : Zpos (digits2_pos p) = 53) by lia. rewrite Dp in L.
    change (53 - 1) with 52 in L.
    rewrite binary_round_aux_canonical by lia.
    exists p, 0. split; [reflexivity|]. split; [lia|]. split; [lia|].
    change (2 ^ (- 0)) with 1. lia.
  - assert (Mz : Zpos (Pos.iter xO p q) = Zpos p * 2 ^ (Zpos q)) by apply iter_xO_pow.
    assert (Pw : 2 ^ (Zpos (digits2_pos p) - 1) * 2 ^ Zpos q = 2 ^ 52).
    { rewrite <- Z.pow_add_r by lia. f_equal. lia. }
    assert (Pw' : 2 ^ Zpos (digits2_pos p) * 2 ^ Zpos q = 2 ^ 53).
    { rewrite <- Z.pow_add_r by lia. f_equal. lia. }
    assert (T : 0 < 2 ^ Zpos q) by (apply Z.pow_pos_nonneg; lia).
    assert (B : 2 ^ 52 <= Zpos (Pos.iter xO p q) < 2 ^ 53).
    { rewrite Mz, <- Pw, <- Pw'. revert L U T.
      generalize (2 ^ Zpos q) (2 ^ (Zpos (digits2_pos p) - 1)) (2 ^ Zpos (digits2_pos p)).
      intros; nia. }
    rewrite binary_round_aux_canonical by lia.
    exists (Pos.iter xO p q), (Zpos (digits2_pos p) - 53).
    split; [reflexivity|]. split; [exact B|]. split; [lia|].
    rewrite Mz. f_equal. f_equal. lia.
Qed.

(** Two normal numbers compare as their values do. *)
Lemma SFleb_normal (m1 m2 : positive) (e1 e2 c : Z) :
  2 ^ 52 <= Zpos m1 < 2 ^ 53 -> 2 ^ 52 <= Zpos m2 < 2 ^ 53 -> c <= e1 -> c <= e2 ->
  SFleb (S754_finite false m1 e1) (S754_finite false m2 e2)
  = (Zpos m1 * 2 ^ (e1 - c) <=? Zpos m2 * 2 ^ (e2 - c)).
Proof.
  intros H1 H2 C1 C2. unfold SFleb, SFcompare.
  change (2 ^ 53) with (2 * 2 ^ 52) in H1, H2.
  destruct (Z.compare_spec e1 e2) as [E|E|E].
  - subst e2. change (Pos.compare_cont Eq m1 m2) with (Zpos m1 ?= Zpos m2).
    assert (T : 0 < 2 ^ (e1 - c)) by (apply Z.pow_pos_nonneg; lia).
    destruct (Z.compare_spec (Zpos m1) (Zpos m2)) as [M|M|M]; symmetry.
    + rewrite M. apply Z.leb_refl.
    + apply Z.leb_le. nia.
    + apply Z.leb_gt. nia.
  - symmetry. apply Z.leb_le.
    replace (e2 - c) with ((e2 - e1 - 1) + 1 + (e1 - c)) by lia.
    rewrite !Z.pow_add_r by lia. change (2 ^ 1) with 2.
    assert (T : 0 < 2 ^ (e1 - c)) by (apply Z.pow_pos_nonneg; lia).
    assert (T' : 0 < 2 ^ (e2 - e1 - 1)) by (apply Z.pow_pos_nonneg; lia).
    revert T T'. generalize (2 ^ (e1 - c)) (2 ^ (e2 - e1 - 1)). intros a b Ha Hb.
    assert (Zpos m1 * a <= 2 * Zpos m2 * a) by nia.
    assert (2 * Zpos m2 * a <= Zpos m2 * (b * 2 * a)) by nia. lia.
  - symmetry. apply Z.leb_gt.
    replace (e1 - c) with ((e1 - e2 - 1) + 1 + (e2 - c)) by lia.
    rewrite !Z.pow_add_r by lia. change (2 ^ 1) with 2.
    assert (T : 0 < 2 ^ (e2 - c)) by (apply Z.pow_pos_nonneg; lia).
    assert (T' : 0 < 2 ^ (e1 - e2 - 1)) by (apply Z.pow_pos_nonneg; lia).
    revert T T'. generalize (2 ^ (e2 - c)) (2 ^ (e1 - e2 - 1)). intros a b Ha Hb.
    assert (Zpos m2 * a < 2 * Zpos m1 * a) by nia.
    assert (2 * Zpos m1 * a <= Zpos m1 * (b * 2 * a)) by nia. lia.
Qed.

(** The product of the literal 1.1 and a size below 2^48: a normal
    number no integer at most 1.1d * x lies above, and at most half a
    unit in the last place above 1.1d * x. *)
Lemma double_mul_1_1 (x : Z) :
  0 < x < 2 ^ 48 ->
  exists (m : positive) (k s : Z),
    double_mul double_1_1 (double_of_long x) = S754_finite false m (k - s)
    /\ 2 ^ 52 <= Zpos m < 2 ^ 53
    /\ (k = 0 \/ k = 1) /\ 4 <= s <= 52
    /\ (forall a, a * 2 ^ 52 <= 4953959590107546 * x -> a * 2 ^ s <= Zpos m * 2 ^ k)
    /\ 2 * (Zpos m * 2 ^ k) * 2 ^ 52 <= 2 * 4953959590107546 * x * 2 ^ s + 2 ^ 52.
Proof.
  intros Hx.
  destruct (double_of_long_pos x) as [mx [ex [E [Bx [Hex Vx]]]]].
  { split; [lia|]. apply Z.lt_trans with (2 ^ 48); [lia|reflexivity]. }
  rewrite E. unfold double_mul, double_1_1, SFmul. cbn [xorb].
  set (P := (4953959590107546 * mx)%positive).
  assert (HP : Zpos P = 4953959590107546 * Zpos mx) by reflexivity.
  assert (A5 : 5 <= - ex).
  { destruct (Z.le_gt_cases 5 (- ex)) as [G|G]; [exact G|exfalso].
    assert (2 ^ (- ex) <= 2 ^ 4) by (apply Z.pow_le_mono_r; lia).
    change (2 ^ 4) with 16 in *. change (2 ^ 52) with 4503599627370496 in *.
    change (2 ^ 48) with 281474976710656 in *. nia. }
  assert (D1 : 105 <= Zpos (digits2_pos P)).
  { apply digits2_pos_ge. rewrite HP. change (2 ^ (105 - 1)) with (2 ^ 52 * 2 ^ 52).
    change (2 ^ 52) with 4503599627370496 in *. nia. }
  assert (D2 : Zpos (digits2_pos P) <= 106).
  { apply digits2_pos_le. rewrite HP. change (2 ^ 106) with (2 ^ 53 * 2 ^ 53).
    change (2 ^ 53) with 9007199254740992 in *. nia. }
  destruct (binary_round_aux_normal P (-52 + ex)) as [m [k [R [Bm [Hk [G H]]]]]];
    try lia.
  set (n := Zpos (digits2_pos P) - 53) in *.
  exists m, k, (52 - ex - n).
  split; [rewrite R; f_equal; lia|]. split; [exact Bm|]. split; [exact Hk|].
  split; [lia|].
  assert (Pw : 2 ^ n * 2 ^ (52 - ex - n) = 2 ^ 52 * 2 ^ (- ex)).
  { rewrite <- !Z.pow_add_r by lia. f_equal. lia. }
  assert (TA : 0 < 2 ^ (- ex)) by (apply Z.pow_pos_nonneg; lia).
  assert (TN : 0 < 2 ^ n) by (apply Z.pow_pos_nonneg; lia).
  assert (TS : 0 < 2 ^ (52 - ex - n)) by (apply Z.pow_pos_nonneg; lia).
  rewrite HP, Vx in G, H.
  revert G H Pw TA TN TS.
  generalize (2 ^ (- ex)) (2 ^ n) (2 ^ (52 - ex - n)) (Zpos m * 2 ^ k).
  intros A N S Y G H Pw TA TN TS. split.
  - intros a Ha. apply G.
    replace (a * S * N) with (a * (N * S)) by ring. rewrite Pw.
    replace (a * (2 ^ 52 * A)) with (a * 2 ^ 52 * A) by ring.
    replace (4953959590107546 * (x * A)) with (4953959590107546 * x * A) by ring.
    apply Z.mul_le_mono_nonneg_r; lia.
  - assert (Q : 2 * (Y * N) * S <= (2 * (4953959590107546 * (x * A)) + N) * S)
      by (apply Z.mul_le_mono_nonneg_r; lia).
    replace (2 * (Y * N) * S) with (2 * Y * (N * S)) in Q by ring.
    replace ((2 * (4953959590107546 * (x * A)) + N) * S)
      with (2 * 4953959590107546 * x * S * A + N * S) in Q by ring.
    rewrite Pw in Q.
    replace (2 * Y * (2 ^ 52 * A)) with ((2 * Y * 2 ^ 52) * A) in Q by ring.
    replace (2 * 4953959590107546 * x * S * A + 2 ^ 52 * A)
      with ((2 * 4953959590107546 * x * S + 2 ^ 52) * A) in Q by ring.
    apply Z.mul_le_mono_pos_r in Q; [exact Q|exact TA].
Qed.

(** A [long] of 2^53 or more is rounded to a normal number with a
    positive exponent. *)
Lemma double_of_long_big (z : Z) :
  2 ^ 53 <= z < 2 ^ 63 ->
  exists (m : positive) (e : Z),
    double_of_long z = S754_finite false m e /\ 2 ^ 52 <= Zpos m < 2 ^ 53 /\ 1 <= e.
Proof.
  intros [H0 H1]. destruct z as [|p|p]; try lia.
  unfold double_of_long, binary_normalize, binary_round.
  assert (D1 : 54 <= Zpos (digits2_pos p)) by (apply digits2_pos_ge; exact H0).
  pose proof (digits2_pos_le p 63 H1) as D2.
  assert (F : fexp 53 1024 (Zpos (digits2_pos p) + 0) = Zpos (digits2_pos p) - 53)
    by (unfold fexp, emin; lia).
  rewrite F. unfold shl_align.
  destruct (Zpos (digits2_pos p) - 53 - 0) as [|q|q] eqn:Q; try lia.
  destruct (binary_round_aux_normal p 0) as [m [k [R [Bm [Hk _]]]]]; try lia.
  exists m, (0 + (Zpos (digits2_pos p) - 53) + k).
  split; [exact R|]. split; [exact Bm|]. lia.
Qed.

(** The comparison of line 580 is the comparison of [10 * maxfree] with
    [11 * x] on integers, for a size below 2^48. *)
Lemma flush_threshold (maxfree x : Z) :
  0 <= maxfree < 2 ^ 63 -> 0 <= x < 2 ^ 48 ->
  double_le (double_of_long maxfree) (double_mul double_1_1 (double_of_long x))
  = (10 * maxfree <=? 11 * x).
Proof.
  intros Hm Hx.
  assert (P53 : 2 ^ 53 = 9007199254740992) by reflexivity.
  assert (P48 : 2 ^ 48 = 281474976710656) by reflexivity.
  assert (x = 0 \/ 0 < x) as [X|X] by lia;
    (assert (maxfree = 0 \/ 0 < maxfree < 2 ^ 53 \/ 2 ^ 53 <= maxfree) as [F|[F|F]] by lia).
  - subst. reflexivity.
  - subst x. destruct (double_of_long_pos maxfree) as [mm [em [E _]]]; [lia|].
    rewrite E. change (double_of_long 0) with (S754_zero false).
    unfold double_le, double_mul, double_1_1. cbn [SFmul SFleb SFcompare xorb]. symmetry.
    apply Z.leb_gt. lia.
  - subst x. destruct (double_of_long_big maxfree) as [mm [em [E _]]]; [lia|].
    rewrite E. change (double_of_long 0) with (S754_zero false).
    unfold double_le, double_mul, double_1_1. cbn [SFmul SFleb SFcompare xorb]. symmetry.
    apply Z.leb_gt. lia.
  - subst maxfree. destruct (double_mul_1_1 x) as [m [k [s [E _]]]]; [lia|].
    rewrite E. change (double_of_long 0) with (S754_zero false).
    unfold double_le. cbn [SFleb SFcompare]. symmetry. apply Z.leb_le. lia.
  - destruct (double_of_long_pos maxfree) as [mm [em [Em [Bm [Hem Vm]]]]]; [lia|].
    destruct (double_mul_1_1 x) as [m [k [s [E [B [Hk [Hs [G R]]]]]]]]; [lia|].
    rewrite Em, E. unfold double_le.
    rewrite (SFleb_normal mm m em (k - s) (-104)) by lia.
    rewrite Vm.
    replace (maxfree * 2 ^ (- em) * 2 ^ (em - -104))
      with (maxfree * 2 ^ s * 2 ^ (104 - s)).
    2:{ rewrite <- !Z.mul_assoc, <- !Z.pow_add_r by lia. f_equal. f_equal. lia. }
    replace (Zpos m * 2 ^ (k - s - -104)) with (Zpos m * 2 ^ k * 2 ^ (104 - s)).
    2:{ rewrite <- !Z.mul_assoc, <- !Z.pow_add_r by lia. f_equal. f_equal. lia. }
    assert (TS : 2 ^ 4 <= 2 ^ s) by (apply Z.pow_le_mono_r; lia).
    assert (TC : 0 < 2 ^ (104 - s)) by (apply Z.pow_pos_nonneg; lia).
    change (2 ^ 4) with 16 in TS. rewrite P48 in Hx.
    change (2 ^ 52) with 4503599627370496 in G, R.
    revert G R TS TC. generalize (2 ^ s) (2 ^ (104 - s)) (Zpos m * 2 ^ k).
    intros S C Y G R TS TC.
    destruct (Z.leb_spec (10 * maxfree) (11 * x)) as [L|L].
    + apply Z.leb_le. apply Z.mul_le_mono_nonneg_r; [lia|]. apply G. lia.
    + apply Z.leb_gt. apply Z.mul_lt_mono_pos_r; [exact TC|].
      destruct (Z.lt_ge_cases Y (maxfree * S)) as [Q|Q]; [exact Q|exfalso].
      assert (Q1 : 2 * (maxfree * S) * 4503599627370496
                   <= 2 * 4953959590107546 * x * S + 4503599627370496) by lia.
      assert (Q2 : (11 * x + 1) * S <= 10 * maxfree * S)
        by (apply Z.mul_le_mono_nonneg_r; lia).
      assert (Q3 : 8 * x * S <= 8 * 281474976710656 * S)
        by (apply Z.mul_le_mono_nonneg_r; lia).
      lia.
  - destruct (double_of_long_big maxfree) as [mm [em [Em [Bm Hem]]]]; [lia|].
    destruct (double_mul_1_1 x) as [m [k [s [E [B [Hk [Hs _]]]]]]]; [lia|].
    rewrite Em, E. unfold double_le, SFleb, SFcompare.
    destruct (Z.compare_spec em (k - s)) as [C|C|C]; lia.
Qed.

(** The bound on the size is not idle: at 2^53 bytes the rounding of
    the literal 1.1 tips the comparison. *)
Remark flush_threshold_needs_the_range :
  double_le (double_of_long 9907919180215092)
            (double_mul double_1_1 (double_of_long (2 ^ 53))) = true
  /\ (10 * 9907919180215092 <=? 11 * 2 ^ 53) = false.
Proof. split; vm_compute; reflexivity. Qed.

End Binary64.

(** X24: [PIO_wmb_needs_flush] returns 2 (DISK_FLUSH) when the pool's
    [curalloc] has reached [pio_buffer_size_limit]; otherwise it returns
    1 (IO_FLUSH) when [maxfree <= 1.1 * (1 + num_arrays) * arraylen *
    mpitype_size], that is when [10 * maxfree <= 11 * (1 + num_arrays) *
    arraylen * mpitype_size]; otherwise it returns 0 (NO_FLUSH).  The
    sizes are those the [int] and [long] arithmetic of the function
    holds without overflow, and the cache asked for is below 2^48
    bytes, where the product with the [double] 1.1 decides as the exact
    product does. *)
Theorem wmb_needs_flush_thresholds (limit curalloc maxfree : Z) (wmb : Darray.wmulti_buffer)
        (arraylen : Z) (iodesc : Darray.io_desc_t) :
  let req := (1 + Darray.num_arrays wmb) * arraylen * Darray.mpitype_size iodesc in
  let code := Darray.PIO_wmb_needs_flush limit curalloc maxfree wmb arraylen iodesc in
  0 <= maxfree < 2 ^ 63 ->
  0 <= arraylen -> 0 <= Darray.mpitype_size iodesc ->
  arraylen * Darray.mpitype_size iodesc <= INT_MAX ->
  0 <= Darray.num_arrays wmb < INT_MAX ->
  req < 2 ^ 48 ->
  (limit <= curalloc -> code = 2)
  /\ (curalloc < limit -> 10 * maxfree <= 11 * req -> code = 1)
  /\ (curalloc < limit -> 11 * req < 10 * maxfree -> code = 0).
Proof.
  intros req code Hm Ha Hs Hov Hn Hreq. subst code.
  unfold Darray.PIO_wmb_needs_flush, Darray.NEEDS_DISK_FLUSH, Darray.NEEDS_IO_FLUSH,
    Darray.NO_FLUSH.
  assert (A0 : 0 <= arraylen * Darray.mpitype_size iodesc) by (apply Z.mul_nonneg_nonneg; lia).
  assert (E1 : int_mul arraylen (Darray.mpitype_size iodesc)
               = arraylen * Darray.mpitype_size iodesc).
  { unfold int_mul. apply wrap32_small. unfold INT_MIN, INT_MAX in *. lia. }
  assert (E2 : int_add 1 (Darray.num_arrays wmb) = 1 + Darray.num_arrays wmb).
  { unfold int_add. apply wrap32_small. unfold INT_MIN, INT_MAX in *. lia. }
  assert (R0 : 0 <= req).
  { unfold req. rewrite <- Z.mul_assoc. apply Z.mul_nonneg_nonneg; lia. }
  assert (E3 : off_mul (1 + Darray.num_arrays wmb) (arraylen * Darray.mpitype_size iodesc)
               = req).
  { unfold off_mul, req. rewrite Z.mul_assoc. apply wrap64_small.
    fold req. assert (2 ^ 48 < 2 ^ 63) by reflexivity. lia. }
  rewrite E1, E2, E3, (flush_threshold maxfree req) by lia.
  split; [|split].
  - intros H. destruct (Z.geb_spec curalloc limit); [reflexivity|lia].
  - intros H L. destruct (Z.geb_spec curalloc limit); [lia|].
    destruct (Z.leb_spec (10 * maxfree) (11 * req)); [reflexivity|lia].
  - intros H L. destruct (Z.geb_spec curalloc limit); [lia|].
    destruct (Z.leb_spec (10 * maxfree) (11 * req)); [lia|reflexivity].
Qed.

Lemma wmb_needs_flush_thresholds_witness :
  Darray.PIO_wmb_needs_flush 1000 0 26 Inputs.queued2 2 Inputs.iodesc0 = 1
  /\ Darray.PIO_wmb_needs_flush 1000 0 27 Inputs.queued2 2 Inputs.iodesc0 = 0
  /\ Darray.PIO_wmb_needs_flush 1000 1000 27 Inputs.queued2 2 Inputs.iodesc0 = 2.
Proof.
  split; [|split].
  - apply (wmb_needs_flush_thresholds 1000 0 26 Inputs.queued2 2 Inputs.iodesc0);
      simpl; unfold INT_MAX; try lia; split; try lia; reflexivity.
  - apply (wmb_needs_flush_thresholds 1000 0 27 Inputs.queued2 2 Inputs.iodesc0);
      simpl; unfold INT_MAX; try lia; split; try lia; reflexivity.
  - apply (wmb_needs_flush_thresholds 1000 1000 27 Inputs.queued2 2 Inputs.iodesc0);
      simpl; unfold INT_MAX; try lia; split; try lia; reflexivity.
Defined.

(** C1: for an array of 2 GiB or more [PIO_wmb_needs_flush] does not
    return what the thresholds give.  The product
    [arraylen * mpitype_size] of line 566 is taken in [int] and wraps
    before it is widened to [PIO_Offset]: with 536870913 elements of
    four bytes it is -2147483644, the cache asked for is negative, and
    the function returns 0 (NO_FLUSH) although [maxfree] is far below
    1.1 times the size asked for, on a new entry and on one that holds
    two arrays alike.  With 536870911 elements the product fits and the
    function returns 1 (IO_FLUSH). *)
Theorem wmb_needs_flush_overflows_at_2GiB :
  let wmb := Darray.new_wmb 5 0 536870913 in
  int_mul 536870913 (Darray.mpitype_size Inputs.iodesc0) = -2147483644
  /\ Darray.PIO_wmb_needs_flush 10485760 4096 1000000 wmb 536870913 Inputs.iodesc0 = 0
  /\ Darray.PIO_wmb_needs_flush 10485760 4096 1000000 Inputs.queued2 536870913 Inputs.iodesc0 = 0
  /\ 4096 < 10485760
  /\ 10 * 1000000
     <= 11 * ((1 + Darray.num_arrays wmb) * 536870913 * Darray.mpitype_size Inputs.iodesc0)
  /\ Darray.PIO_wmb_needs_flush 10485760 4096 1000000 wmb 536870911 Inputs.iodesc0 = 1.
Proof.
  cbv zeta. split; [reflexivity|]. split; [vm_compute; reflexivity|].
  split; [vm_compute; reflexivity|]. split; [lia|]. split; [vm_compute; discriminate|].
  vm_compute. reflexivity.
Qed.

(** ** The exchange schedule of [pio_swapm] *)

Section Ceil2.
Import Spmd.

Lemma ceil2_loop_pow (i : Z) :
  i <= 2 ^ 30 ->
  forall (fuel : nat) (k : Z),
    0 <= k <= 30 -> (Z.to_nat (30 - k) < fuel)%nat ->
    (k = 0 \/ 2 ^ (k - 1) < i) ->
    exists k', k <= k' <= 30
               /\ ceil2_loop fuel i (2 ^ k) = Some (2 ^ k')
               /\ i <= 2 ^ k' /\ (k' = 0 \/ 2 ^ (k' - 1) < i).
Proof.
  intros Hi. induction fuel as [|fuel IH]; intros k Hk Hf Hlow; [lia|].
  cbn [ceil2_loop]. destruct (Z.ltb_spec (2 ^ k) i) as [L|L].
  - assert (K : k < 30).
    { destruct (Z.lt_ge_cases k 30) as [G|G]; [exact G|].
      assert (2 ^ 30 <= 2 ^ k) by (apply Z.pow_le_mono_r; lia). lia. }
    assert (E : int_mul (2 ^ k) 2 = 2 ^ (k + 1)).
    { rewrite Z.pow_add_r by lia. change (2 ^ 1) with 2. unfold int_mul.
      apply wrap32_small. unfold INT_MIN, INT_MAX.
      assert (2 ^ k <= 2 ^ 29) by (apply Z.pow_le_mono_r; lia).
      assert (0 < 2 ^ k) by (apply Z.pow_pos_nonneg; lia).
      change (2 ^ 29) with 536870912 in *. change (2 ^ 31) with 2147483648. lia. }
    rewrite E.
    destruct (IH (k + 1)) as [k' [A [B [C D]]]]; [lia|lia| |].
    + right. replace (k + 1 - 1) with k by lia. exact L.
    + exists k'. split; [lia|]. split; [exact B|]. split; assumption.
  - exists k. split; [lia|]. split; [reflexivity|]. split; [exact L|exact Hlow].
Qed.

(** X1: [ceil2(i)] returns the least power of two that is not below [i], for
    [i] up to 2^30: 1 for [i <= 1]. *)
Theorem ceil2_is_the_next_power_of_two (i : Z) :
  i <= 2 ^ 30 ->
  exists k, 0 <= k <= 30
            /\ ceil2 i = Some (2 ^ k)
            /\ i <= 2 ^ k
            /\ (k = 0 \/ 2 ^ (k - 1) < i).
Proof.
  intros Hi. destruct (ceil2_loop_pow i Hi 64 0) as [k [A [B [C D]]]];
    [lia|simpl; lia|left; reflexivity|].
  exists k. split; [lia|]. split; [exact B|]. split; assumption.
Qed.

End Ceil2.

Lemma ceil2_is_the_next_power_of_two_witness :
  exists k, 0 <= k <= 30 /\ Spmd.ceil2 5 = Some (2 ^ k) /\ 5 <= 2 ^ k
            /\ (k = 0 \/ 2 ^ (k - 1) < 5).
Proof.
  apply (ceil2_is_the_next_power_of_two 5). vm_compute. discriminate.
Defined.

Section Matching.
Import Spmd.

Lemma lxor_below_pow2 (a b k : Z) : 0 <= a < 2 ^ k -> 0 <= b < 2 ^ k -> Z.lxor a b < 2 ^ k.
Proof.
  intros Ha Hb.
  assert (0 <= k \/ k < 0) as [K|K] by lia; [|rewrite Z.pow_neg_r in Ha by lia; lia].
  assert (N : 0 <= Z.lxor a b) by (apply Z.lxor_nonneg; lia).
  assert (Z.lxor a b = 0 \/ 0 < Z.lxor a b) as [Z0|P] by lia; [lia|].
  apply Z.log2_lt_pow2; [exact P|].
  pose proof (Z.log2_lxor a b (proj1 Ha) (proj1 Hb)) as L.
  assert (La : a = 0 \/ Z.log2 a < k).
  { assert (a = 0 \/ 0 < a) as [A|A] by lia; [left; exact A|right].
    apply Z.log2_lt_pow2; lia. }
  assert (Lb : b = 0 \/ Z.log2 b < k).
  { assert (b = 0 \/ 0 < b) as [B|B] by lia; [left; exact B|right].
    apply Z.log2_lt_pow2; lia. }
  destruct La as [->|La], Lb as [->|Lb].
  - rewrite Z.lxor_0_l in P. lia.
  - rewrite Z.lxor_0_l in *. lia.
  - rewrite Z.lxor_0_r in *. lia.
  - lia.
Qed.

Lemma lxor_cancel (a b : Z) : Z.lxor a (Z.lxor a b) = b.
Proof. now rewrite <- Z.lxor_assoc, Z.lxor_nilpotent, Z.lxor_0_l. Qed.

(** X2: The rank I pair with at a step pairs with me at that step. *)
Theorem pair_is_symmetric (np istep me q : Z) :
  0 <= istep < INT_MAX -> 0 <= me < np -> np <= INT_MAX ->
  pair np istep me = q -> 0 <= q ->
  pair np istep q = me /\ q < np.
Proof.
  intros Hi Hme Hn Hp Hq.
  rewrite pair_xor in Hp by (unfold INT_MIN, INT_MAX in *; lia).
  rewrite pair_xor by (unfold INT_MIN, INT_MAX in *; lia).
  destruct (Z.gtb_spec (Z.lxor (istep + 1) me) (np - 1)) as [G|G]; [lia|].
  subst q. rewrite lxor_cancel.
  destruct (Z.gtb_spec me (np - 1)); [lia|]. split; [reflexivity|lia].
Qed.

Lemma NoDup_Zrange (lo hi : Z) : NoDup (Zrange lo hi).
Proof.
  remember (Z.to_nat (hi - lo)) as n eqn:Hn. revert lo Hn.
  induction n as [|n IH]; intros lo Hn.
  - rewrite Zrange_empty by lia. constructor.
  - rewrite Zrange_cons by lia. constructor.
    + intros H. apply In_Zrange in H. lia.
    + apply IH. lia.
Qed.

Lemma NoDup_filter_map {A B : Type} (f : A -> B) (P : B -> bool) (l : list A) :
  NoDup l ->
  (forall x y, In x l -> In y l -> P (f x) = true -> f x = f y -> x = y) ->
  NoDup (filter P (map f l)).
Proof.
  induction l as [|x l IH]; intros N H; cbn [map filter]; [constructor|].
  inversion N as [|? ? Hx Nl]; subst.
  assert (IH' : NoDup (filter P (map f l))).
  { apply IH; [exact Nl|]. intros a b Ha Hb. apply H; right; assumption. }
  destruct (P (f x)) eqn:Px; [|exact IH']. constructor; [|exact IH'].
  intros Hin. apply filter_In in Hin as [Hin _]. apply in_map_iff in Hin as [y [E Hy]].
  assert (x = y) by (apply H; [left; reflexivity|right; exact Hy|exact Px|congruence]).
  subst y. contradiction.
Qed.

(** X3: Lines 162-168: [swapids] lists each rank other than mine that has
    something to send or to receive, once. *)
Theorem schedule_reaches_every_partner_once (a : swapm_args) :
  1 <= nprocs a <= 2 ^ 30 -> 0 <= mytask a < nprocs a ->
  exists c2,
    ceil2 (nprocs a) = Some c2
    /\ NoDup (schedule a c2)
    /\ forall q, In q (schedule a c2) <->
                 0 <= q < nprocs a /\ q <> mytask a
                 /\ (0 < aget (sndlths a) q \/ 0 < aget (rcvlths a) q).
Proof.
  intros Hn Hme.
  destruct (ceil2_loop_pow (nprocs a) (proj2 Hn) 64 0) as [k [Hk [Hc [Hle Hlow]]]];
    [lia|simpl; lia|left; reflexivity|].
  change (ceil2 (nprocs a) = Some (2 ^ k)) in Hc.
  exists (2 ^ k). split; [exact Hc|].
  assert (P30 : 2 ^ 30 = 1073741824) by reflexivity.
  assert (Pk : 1 <= 2 ^ k <= 2 ^ 30).
  { split; [|apply Z.pow_le_mono_r; lia]. assert (0 < 2 ^ k) by (apply Z.pow_pos_nonneg; lia). lia. }
  assert (Es : int_sub (2 ^ k) 1 = 2 ^ k - 1).
  { unfold int_sub. apply wrap32_small. unfold INT_MIN, INT_MAX.
    change (2 ^ 31) with 2147483648. lia. }
  assert (Px : forall i, 0 <= i < 2 ^ k - 1 ->
                         pair (nprocs a) i (mytask a)
                         = if Z.lxor (i + 1) (mytask a) >? nprocs a - 1 then -1
                           else Z.lxor (i + 1) (mytask a)).
  { intros i Hi. apply pair_xor; unfold INT_MIN, INT_MAX; change (2 ^ 31) with 2147483648; lia. }
  split.
  - unfold schedule. rewrite Es. apply NoDup_filter_map; [apply NoDup_Zrange|].
    intros x y Hx Hy Hp E. apply In_Zrange in Hx, Hy.
    unfold has_payload in Hp. apply andb_true_iff in Hp as [Hp _]. apply Z.leb_le in Hp.
    rewrite (Px x) in E, Hp by lia. rewrite (Px y) in E by lia.
    destruct (Z.gtb_spec (Z.lxor (x + 1) (mytask a)) (nprocs a - 1)); [lia|].
    destruct (Z.gtb_spec (Z.lxor (y + 1) (mytask a)) (nprocs a - 1)); [lia|].
    assert (E' : Z.lxor (mytask a) (Z.lxor (mytask a) (x + 1))
                 = Z.lxor (mytask a) (Z.lxor (mytask a) (y + 1))).
    { rewrite (Z.lxor_comm (mytask a) (x + 1)), (Z.lxor_comm (mytask a) (y + 1)). congruence. }
    rewrite !lxor_cancel in E'. lia.
  - intros q. rewrite in_schedule, Es. split.
    + intros [[i [Hi ->]] [Hq Hpay]]. rewrite (Px i Hi) in *.
      destruct (Z.gtb_spec (Z.lxor (i + 1) (mytask a)) (nprocs a - 1)); [lia|].
      split; [lia|]. split; [|exact Hpay].
      intros E.
      assert (E' : Z.lxor (mytask a) (Z.lxor (mytask a) (i + 1)) = Z.lxor (mytask a) (mytask a)).
      { rewrite (Z.lxor_comm (mytask a) (i + 1)). congruence. }
      rewrite lxor_cancel, Z.lxor_nilpotent in E'. lia.
    + intros [Hq [Hne Hpay]]. split; [|split; [lia|exact Hpay]].
      set (x := Z.lxor q (mytask a)).
      assert (X0 : 0 <= x) by (apply Z.lxor_nonneg; lia).
      assert (X1 : x <> 0).
      { intros E. apply Z.lxor_eq in E. lia. }
      assert (X2 : x < 2 ^ k) by (apply lxor_below_pow2; lia).
      exists (x - 1). split; [lia|]. rewrite (Px (x - 1)) by lia.
      replace (x - 1 + 1) with x by lia. unfold x.
      rewrite (Z.lxor_comm q (mytask a)), (Z.lxor_comm (Z.lxor (mytask a) q)), lxor_cancel.
      destruct (Z.gtb_spec q (nprocs a - 1)); [lia|reflexivity].
Qed.

End Matching.

Lemma schedule_reaches_every_partner_once_witness :
  exists c2, Spmd.ceil2 4 = Some c2 /\ NoDup (Spmd.schedule (Inputs.swap4 1) c2)
             /\ In 3 (Spmd.schedule (Inputs.swap4 1) c2).
Proof.
  destruct (schedule_reaches_every_partner_once (Inputs.swap4 1)) as [c2 [Hc [Hn Hq]]].
  - simpl. split; [lia|vm_compute; discriminate].
  - simpl. lia.
  - exists c2. split; [exact Hc|]. split; [exact Hn|]. apply Hq.
    split; [simpl; lia|]. split; [discriminate|]. left. reflexivity.
Defined.

Lemma pair_is_symmetric_witness : Spmd.pair 4 2 3 = 0 /\ Spmd.pair 4 2 0 = 3 /\ 0 < 4.
Proof.
  split; [reflexivity|].
  apply (pair_is_symmetric 4 2 3 0); unfold INT_MAX; try lia. reflexivity.
Defined.

(** ** The messages of [pio_swapm] *)

Section Exchange.
Import Spmd.

Variables (a : swapm_args) (swapids : list Z).

Lemma open_after_post (i : Z) (open : list Z) :
  open_after open (post_recv a swapids i)
  = if has_recv a swapids i then i :: open else open.
Proof.
  unfold post_recv, has_recv. destruct (0 <? aget (rcvlths a) (aget swapids i)); [|reflexivity].
  destruct (handshake a); reflexivity.
Qed.

Lemma open_after_wait (j : Z) (open : list Z) :
  open_after open (if 0 <? aget (rcvlths a) (aget swapids j) then [MPI_Wait (rcvids j)] else [])
  = if has_recv a swapids j then filter (fun k => negb (slot_eqb j k)) open else open.
Proof.
  unfold has_recv. destruct (0 <? aget (rcvlths a) (aget swapids j)); reflexivity.
Qed.

Lemma open_after_final_wait (i : Z) (open : list Z) :
  open_after open (final_wait a swapids i)
  = if has_recv a swapids i then filter (fun k => negb (slot_eqb i k)) open else open.
Proof.
  unfold final_wait, has_recv. destruct (0 <? aget (rcvlths a) (aget swapids i));
    destruct (isend a && (0 <? aget (sndlths a) (aget swapids i))); reflexivity.
Qed.

(** The slots still open after the calls of the loop. *)
Lemma exchange_open (steps maxreq maxreqh : Z) (open0 : list Z) :
  1 <= maxreq <= steps -> 0 <= maxreqh <= steps -> steps <= INT_MAX ->
  2 <= maxreq \/ steps <= maxreqh + 1 ->
  forall (n : nat) (k rstep : Z) (tr : list mpi_call),
    Z.of_nat n = steps - k -> 0 <= k ->
    open_slots (has_recv a swapids) (Z.max 1 (k - maxreqh)) rstep (open_after open0 tr) ->
    (has_recv a swapids 0 = true -> In 0 (open_after open0 tr)) ->
    rstep = Z.min steps (maxreq + Z.max 0 (k - 1 - maxreqh)) ->
    exists rstep' body,
      fold_left (exchange_step a swapids steps maxreqh) (Zrange k steps) (rstep, tr)
      = (rstep', body)
      /\ open_slots (has_recv a swapids) (Z.max 1 (steps - maxreqh)) rstep'
                    (open_after open0 body)
      /\ (has_recv a swapids 0 = true -> In 0 (open_after open0 body))
      /\ rstep' = Z.min steps (maxreq + Z.max 0 (steps - 1 - maxreqh)).
Proof.
  intros Hmr Hmh Hst H2.
  induction n as [|n IH]; intros k rstep tr Hn Hk Ho H0 Hr.
  - rewrite Zrange_empty by lia. cbn [fold_left]. exists rstep, tr.
    assert (K : k = steps) by lia. rewrite K in Ho, Hr.
    split; [reflexivity|]. split; [exact Ho|]. split; [exact H0|exact Hr].
  - rewrite Zrange_cons by lia. cbn [fold_left]. unfold exchange_step at 2.
    set (send := if 0 <? aget (sndlths a) (aget swapids k)
                 then (if handshake a then [MPI_Wait (hs_rcvids k)] else [])
                      ++ [MPI_Rsend (sndbuf (aget (sdispls a) (aget swapids k)))
                                    (aget (sndlths a) (aget swapids k))
                                    (tget (stypes a) (aget swapids k)) (aget swapids k)
                                    (int_add (mytask a) (nprocs a))]
                 else []).
    assert (Es : forall o, open_after o send = o).
    { intros o. apply (neutral_calls send); apply send_is_neutral. }
    destruct (Z.gtb_spec k maxreqh) as [G|G].
    + assert (Ej : int_sub k maxreqh = k - maxreqh).
      { unfold int_sub. apply wrap32_small. unfold INT_MIN, INT_MAX in *. lia. }
      rewrite Ej. replace (Z.max 1 (k - maxreqh)) with (k - maxreqh) in Ho by lia.
      set (open := open_after open0 tr) in *.
      destruct (within_wait a swapids (Z.of_nat (length open)) (k - maxreqh) rstep open Ho)
        as [o1 [[W1 _] [S1 _]]]; [lia|lia|].
      assert (I1 : has_recv a swapids 0 = true -> In 0 o1).
      { intros R0. specialize (H0 R0). rewrite <- W1, open_after_wait.
        destruct (has_recv a swapids (k - maxreqh)); [|exact H0].
        apply filter_In. split; [exact H0|]. unfold slot_eqb.
        destruct (Z.eqb_spec (k - maxreqh) 0); [lia|reflexivity]. }
      destruct (Z.ltb_spec rstep steps) as [Lt|Ge].
      * assert (Er : int_add rstep 1 = rstep + 1).
        { unfold int_add. apply wrap32_small. unfold INT_MIN, INT_MAX in *. lia. }
        rewrite Er.
        destruct (within_post a swapids (Z.of_nat (length o1) + 1) (k - maxreqh + 1) rstep o1 S1)
          as [o2 [[W2 _] S2]]; [lia|lia|lia|].
        assert (Eo : open_after open0
                       (tr ++ send ++ (if 0 <? aget (rcvlths a) (aget swapids (k - maxreqh))
                                       then [MPI_Wait (rcvids (k - maxreqh))] else [])
                           ++ post_hs a swapids rstep ++ post_recv a swapids rstep) = o2).
        { rewrite !open_after_app. fold open. rewrite Es, W1.
          rewrite (proj1 (neutral_calls _ (post_hs_is_neutral a swapids rstep) o1)).
          exact W2. }
        apply (IH (k + 1) (rstep + 1)); try lia.
        -- rewrite Eo. replace (Z.max 1 (k + 1 - maxreqh)) with (k - maxreqh + 1) by lia.
           exact S2.
        -- rewrite Eo. intros R0. rewrite <- W2, open_after_post.
           destruct (has_recv a swapids rstep); [right|]; exact (I1 R0).
      * assert (Eo : open_after open0
                       (tr ++ send ++ (if 0 <? aget (rcvlths a) (aget swapids (k - maxreqh))
                                       then [MPI_Wait (rcvids (k - maxreqh))] else [])) = o1).
        { rewrite !open_after_app. fold open. rewrite Es. exact W1. }
        apply (IH (k + 1) rstep); try lia.
        -- rewrite Eo. replace (Z.max 1 (k + 1 - maxreqh)) with (k - maxreqh + 1) by lia.
           exact S1.
        -- rewrite Eo. exact I1.
    + assert (Eo : open_after open0 (tr ++ send) = open_after open0 tr).
      { rewrite open_after_app. apply Es. }
      apply (IH (k + 1) rstep); try lia.
      * rewrite Eo. replace (Z.max 1 (k + 1 - maxreqh)) with (Z.max 1 (k - maxreqh)) by lia.
        exact Ho.
      * rewrite Eo. exact H0.
Qed.


Lemma posts_keep (lo hi : Z) :
  forall (n : nat) (k : Z) (open : list Z) (x : Z),
    Z.of_nat n = hi - k -> lo <= k ->
    In x open -> In x (open_after open (flat_map (post_recv a swapids) (Zrange k hi))).
Proof.
  induction n as [|n IH]; intros k open x Hn Hk Hx.
  - rewrite Zrange_empty by lia. exact Hx.
  - rewrite Zrange_cons by lia. cbn [flat_map]. rewrite open_after_app, open_after_post.
    apply IH; [lia|lia|]. destruct (has_recv a swapids k); [right|]; exact Hx.
Qed.

Lemma preposts_open_first (maxreq : Z) :
  1 <= maxreq -> has_recv a swapids 0 = true ->
  In 0 (open_after [] (flat_map (post_recv a swapids) (Zrange 0 maxreq))).
Proof.
  intros Hm R0. rewrite Zrange_cons by lia. cbn [flat_map].
  rewrite open_after_app, open_after_post, R0.
  apply (posts_keep 1 maxreq (Z.to_nat (maxreq - 1)) (0 + 1)); [lia|lia|left; reflexivity].
Qed.

(** Lines 246-252: the trailing waits close the slots from [lo] on. *)
Lemma final_waits_open (hi x : Z) :
  forall (n : nat) (lo : Z) (open : list Z),
    Z.of_nat n = hi - lo ->
    (In x (open_after open (flat_map (final_wait a swapids) (Zrange lo hi)))
     <-> In x open /\ ~ (lo <= x < hi /\ has_recv a swapids x = true)).
Proof.
  induction n as [|n IH]; intros lo open Hn.
  - rewrite Zrange_empty by lia. cbn [flat_map open_after fold_left]. split; [|tauto].
    intros H. split; [exact H|lia].
  - rewrite Zrange_cons by lia. cbn [flat_map].
    rewrite open_after_app, open_after_final_wait, IH by lia.
    destruct (has_recv a swapids lo) eqn:Rl.
    + rewrite filter_In. unfold slot_eqb. destruct (Z.eqb_spec lo x) as [->|Ne]; cbn [negb].
      * split; [intros [[_ F] _]; discriminate|]. intros [_ H]. exfalso. apply H. split; [lia|exact Rl].
      * split.
        -- intros [[H _] N]. split; [exact H|]. intros [B Rx]. apply N. split; [lia|exact Rx].
        -- intros [H N]. split; [split; [exact H|reflexivity]|]. intros [B Rx]. apply N.
           split; [lia|exact Rx].
    + split.
      * intros [H N]. split; [exact H|]. intros [B Rx]. apply N. split; [|exact Rx].
        assert (x <> lo) by (intros ->; congruence). lia.
      * intros [H N]. split; [exact H|]. intros [B Rx]. apply N. split; [lia|exact Rx].
Qed.

End Exchange.

Section Leftover.
Import Spmd.

Lemma window_halves (steps mr : Z) :
  1 <= steps <= INT_MAX ->
  (snd (window steps mr) < steps <-> 1 < steps /\ 0 < mr).
Proof.
  intros H. unfold window.
  destruct (Z.eqb_spec steps 1) as [E|E]; [cbn [fst snd]; lia|].
  destruct (Z.ltb_spec 1 mr) as [A|A]; destruct (Z.ltb_spec mr steps) as [B|B];
    cbn [andb fst snd]; try (destruct (Z.ltb_spec 0 mr); cbn [fst snd]; lia).
  assert (Q : int_div mr 2 = Z.quot mr 2).
  { unfold int_div. apply wrap32_small. unfold INT_MIN, INT_MAX in *.
    pose proof (Z.quot_pos mr 2). pose proof (Z.quot_lt mr 2). lia. }
  rewrite Q. pose proof (Z.quot_pos mr 2). pose proof (Z.quot_lt mr 2). lia.
Qed.

Lemma aget_swapids_first (l r : list Z) : l <> [] -> aget (l ++ r) 0 = hd 0 l.
Proof. destruct l; [congruence|reflexivity]. Qed.

(** X5: When [pio_swapm] returns, every data receive it posted has been
    waited for but, with a window, the one of slot 0. *)
Theorem swapm_waits_for_all_but_the_first (a : swapm_args) (c2 : Z) (tr : list mpi_call)
        (r : Z) :
  ceil2 (nprocs a) = Some c2 ->
  pio_swapm a = Some (tr, r) ->
  forall i,
    In i (open_after [] tr)
    <-> i = 0 /\ 1 < Z.of_nat (length (schedule a c2)) /\ 0 < max_requests a
        /\ 0 < aget (rcvlths a) (hd 0 (schedule a c2)).
Proof.
  intros Hc H i. unfold pio_swapm in H. rewrite Hc in H. cbv zeta in H.
  pose proof (schedule_length_int a c2) as Hint.
  set (steps := Z.of_nat (length (schedule a c2))) in *.
  set (swapids := schedule a c2 ++ repeat 0 (Z.to_nat (nprocs a) - length (schedule a c2))) in *.
  destruct (Z.eqb_spec steps 0) as [E|NE].
  { injection H as <- _.
    assert (O : open_after [] (self_copy a) = []) by (apply (self_copy_within a 1); lia).
    rewrite O. split; [intros []|lia]. }
  assert (Hne : schedule a c2 <> []).
  { intros E. unfold steps in NE. rewrite E in NE. cbn in NE. lia. }
  assert (R0 : has_recv a swapids 0 = (0 <? aget (rcvlths a) (hd 0 (schedule a c2)))).
  { unfold has_recv, swapids. rewrite aget_swapids_first by exact Hne. reflexivity. }
  destruct (window_facts steps (max_requests a)) as [F1 [F2 F3]]; [lia|].
  pose proof (window_halves steps (max_requests a)) as Wh.
  destruct (window steps (max_requests a)) as [maxreq maxreqh]. cbn [fst snd] in *.
  destruct (within_preposts a swapids maxreq (proj1 F1) (Z.to_nat maxreq) 0 [])
    as [o1 [[W1 _] S1]]; [lia|lia|apply open_slots_nil|].
  destruct (exchange_open a swapids steps maxreq maxreqh o1 F1 F2 (proj2 Hint) F3
              (Z.to_nat steps) 0 maxreq []) as [rstep [body [Fd [S2 [I2 Hr]]]]]; try lia.
  { replace (Z.max 1 (0 - maxreqh)) with 1 by lia. exact S1. }
  { intros R. cbn [open_after fold_left]. rewrite <- W1.
    apply preposts_open_first; [lia|exact R]. }
  rewrite Fd in H. injection H as <- _.
  assert (Et : int_sub steps maxreqh = steps - maxreqh).
  { unfold int_sub. apply wrap32_small. unfold INT_MIN, INT_MAX in *. lia. }
  assert (Eb : open_after []
                 (self_copy a
                  ++ (if handshake a
                      then flat_map (fun istep =>
                                       if 0 <? aget (sndlths a) (aget swapids istep)
                                       then [MPI_Irecv hs_word 1 MPI_INT (aget swapids istep)
                                                       (int_add (mytask a) (nprocs a))
                                                       (hs_rcvids istep)]
                                       else [])
                                    (Zrange 0 maxreq)
                      else [])
                  ++ flat_map (post_recv a swapids) (Zrange 0 maxreq) ++ body)
               = open_after o1 body).
  { rewrite !open_after_app.
    replace (open_after [] (self_copy a)) with (@nil Z)
      by (symmetry; apply (self_copy_within a 1); lia).
    match goal with
    | |- context [open_after [] (if handshake a then ?t else [])] =>
        replace (open_after [] (if handshake a then t else [])) with (@nil Z)
    end.
    - rewrite W1. reflexivity.
    - symmetry. apply neutral_calls. intros c Hin open. destruct (handshake a); [|destruct Hin].
      apply in_flat_map in Hin as [k [_ Hin]].
      destruct (0 <? aget (sndlths a) (aget swapids k)); [|destruct Hin].
      destruct Hin as [<-|[]]. reflexivity. }
  rewrite !app_assoc, open_after_app, <- !app_assoc, Eb, Et.
  rewrite (final_waits_open a swapids steps i (Z.to_nat maxreqh) (steps - maxreqh)) by lia.
  destruct S2 as [_ S2]. split.
  - intros [Hin N]. destruct (S2 i Hin) as [Ri [Bi Li]].
    assert (i0 : i = 0).
    { destruct Li as [Z0|Li]; [exact Z0|]. exfalso. apply N. split; [lia|exact Ri]. }
    subst i. split; [reflexivity|].
    assert (Lt : maxreqh < steps).
    { destruct (Z.lt_ge_cases maxreqh steps) as [L|G]; [exact L|].
      exfalso. apply N. split; [lia|exact Ri]. }
    apply Wh in Lt; [|lia]. split; [tauto|]. split; [tauto|].
    rewrite R0 in Ri. apply Z.ltb_lt. exact Ri.
  - intros [-> [H1 [H2 H3]]].
    assert (Ri : has_recv a swapids 0 = true) by (rewrite R0; apply Z.ltb_lt; exact H3).
    split; [exact (I2 Ri)|]. intros [B _].
    assert (maxreqh < steps) by (apply Wh; lia). lia.
Qed.

End Leftover.

Lemma swapm_waits_for_all_but_the_first_witness :
  exists tr r, Spmd.pio_swapm (Inputs.swap4 1) = Some (tr, r)
               /\ In 0 (Spmd.open_after [] tr).
Proof.
  destruct (Spmd.pio_swapm (Inputs.swap4 1)) as [[tr r]|] eqn:H; [|discriminate H].
  exists tr, r. split; [reflexivity|].
  apply (swapm_waits_for_all_but_the_first (Inputs.swap4 1) 4 tr r eq_refl H 0).
  split; [reflexivity|]. split; [vm_compute; reflexivity|]. split; vm_compute; reflexivity.
Defined.

Section Messages.
Import Spmd.

Variables (a : swapm_args) (swapids : list Z).

Lemma rsend_post (i : Z) : flat_map rsend_dest (post_recv a swapids i) = [].
Proof.
  unfold post_recv. destruct (0 <? aget (rcvlths a) (aget swapids i)); [|reflexivity].
  destruct (handshake a); reflexivity.
Qed.

Lemma rsend_post_hs (i : Z) : flat_map rsend_dest (post_hs a swapids i) = [].
Proof.
  unfold post_hs. destruct (handshake a && (0 <? aget (sndlths a) (aget swapids i)));
    reflexivity.
Qed.

Lemma recv_post (i : Z) :
  flat_map data_recv_source (post_recv a swapids i)
  = if 0 <? aget (rcvlths a) (aget swapids i) then [aget swapids i] else [].
Proof.
  unfold post_recv. destruct (0 <? aget (rcvlths a) (aget swapids i)); [|reflexivity].
  destruct (handshake a); reflexivity.
Qed.

Lemma recv_post_hs (i : Z) : flat_map data_recv_source (post_hs a swapids i) = [].
Proof.
  unfold post_hs. destruct (handshake a && (0 <? aget (sndlths a) (aget swapids i)));
    reflexivity.
Qed.

Lemma filter_map_Zrange_snoc {B : Type} (f : Z -> B) (P : B -> bool) (lo hi : Z) :
  lo <= hi ->
  filter P (map f (Zrange lo (hi + 1)))
  = filter P (map f (Zrange lo hi)) ++ (if P (f hi) then [f hi] else []).
Proof.
  intros H. remember (Z.to_nat (hi - lo)) as n eqn:Hn. revert lo H Hn.
  induction n as [|n IH]; intros lo H Hn.
  - assert (lo = hi) by lia. subst lo. rewrite (Zrange_empty hi hi) by lia.
    rewrite Zrange_cons by lia. rewrite Zrange_empty by lia. cbn [map filter app].
    destruct (P (f hi)); reflexivity.
  - rewrite (Zrange_cons lo (hi + 1)) by lia. rewrite (Zrange_cons lo hi) by lia.
    cbn [map filter]. rewrite IH by lia. destruct (P (f lo)); reflexivity.
Qed.

(** The loop sends to the partners of its steps, in order, and posts
    the receives of the slots from [rstep] on, in order. *)
Lemma exchange_messages (steps maxreq maxreqh : Z) :
  1 <= maxreq <= steps -> 0 <= maxreqh <= steps -> steps <= INT_MAX ->
  forall (n : nat) (k rstep : Z) (tr : list mpi_call),
    Z.of_nat n = steps - k -> 0 <= k ->
    rstep = Z.min steps (maxreq + Z.max 0 (k - 1 - maxreqh)) ->
    flat_map rsend_dest tr
    = filter (fun p => 0 <? aget (sndlths a) p) (map (aget swapids) (Zrange 0 k)) ->
    flat_map data_recv_source tr
    = filter (fun p => 0 <? aget (rcvlths a) p) (map (aget swapids) (Zrange maxreq rstep)) ->
    exists rstep' body,
      fold_left (exchange_step a swapids steps maxreqh) (Zrange k steps) (rstep, tr)
      = (rstep', body)
      /\ rstep' = Z.min steps (maxreq + Z.max 0 (steps - 1 - maxreqh))
      /\ flat_map rsend_dest body
         = filter (fun p => 0 <? aget (sndlths a) p) (map (aget swapids) (Zrange 0 steps))
      /\ flat_map data_recv_source body
         = filter (fun p => 0 <? aget (rcvlths a) p)
                  (map (aget swapids) (Zrange maxreq rstep')).
Proof.
  intros Hmr Hmh Hst.
  induction n as [|n IH]; intros k rstep tr Hn Hk Hr Hs Hv.
  - rewrite Zrange_empty by lia. cbn [fold_left]. exists rstep, tr.
    assert (K : k = steps) by lia. rewrite K in Hr, Hs. auto.
  - rewrite Zrange_cons by lia. cbn [fold_left]. unfold exchange_step at 2.
    set (send := if 0 <? aget (sndlths a) (aget swapids k)
                 then (if handshake a then [MPI_Wait (hs_rcvids k)] else [])
                      ++ [MPI_Rsend (sndbuf (aget (sdispls a) (aget swapids k)))
                                    (aget (sndlths a) (aget swapids k))
                                    (tget (stypes a) (aget swapids k)) (aget swapids k)
                                    (int_add (mytask a) (nprocs a))]
                 else []).
    assert (Ss : flat_map rsend_dest send
                 = if 0 <? aget (sndlths a) (aget swapids k) then [aget swapids k] else []).
    { unfold send. destruct (0 <? aget (sndlths a) (aget swapids k)); [|reflexivity].
      destruct (handshake a); reflexivity. }
    assert (Sr : flat_map data_recv_source send = []).
    { unfold send. destruct (0 <? aget (sndlths a) (aget swapids k)); [|reflexivity].
      destruct (handshake a); reflexivity. }
    assert (Hs' : flat_map rsend_dest (tr ++ send)
                  = filter (fun p => 0 <? aget (sndlths a) p)
                           (map (aget swapids) (Zrange 0 (k + 1)))).
    { rewrite flat_map_app, Hs, Ss. symmetry.
      apply (filter_map_Zrange_snoc (aget swapids) (fun p => 0 <? aget (sndlths a) p) 0 k).
      lia. }
    set (wait := fun j => if 0 <? aget (rcvlths a) (aget swapids j)
                          then [MPI_Wait (rcvids j)] else []).
    assert (Ws : forall j, flat_map rsend_dest (wait j) = []
                           /\ flat_map data_recv_source (wait j) = []).
    { intros j. unfold wait. destruct (0 <? aget (rcvlths a) (aget swapids j)); split; reflexivity. }
    destruct (Z.gtb_spec k maxreqh) as [G|G].
    + fold (wait (int_sub k maxreqh)).
      destruct (Z.ltb_spec rstep steps) as [Lt|Ge].
      * assert (Er : int_add rstep 1 = rstep + 1).
        { unfold int_add. apply wrap32_small. unfold INT_MIN, INT_MAX in *. lia. }
        rewrite Er. apply (IH (k + 1) (rstep + 1)); try lia.
        -- rewrite !app_assoc, !flat_map_app, rsend_post, rsend_post_hs, (proj1 (Ws _)),
             !app_nil_r, <- flat_map_app. exact Hs'.
        -- rewrite !flat_map_app, recv_post, recv_post_hs, (proj2 (Ws _)), Sr, Hv.
           cbn [app]. symmetry.
           apply (filter_map_Zrange_snoc (aget swapids) (fun p => 0 <? aget (rcvlths a) p)
                                         maxreq rstep). lia.
      * apply (IH (k + 1) rstep); try lia.
        -- rewrite !app_assoc, !flat_map_app, (proj1 (Ws _)), !app_nil_r, <- flat_map_app.
           exact Hs'.
        -- rewrite !flat_map_app, (proj2 (Ws _)), Sr, Hv, !app_nil_r. reflexivity.
    + apply (IH (k + 1) rstep); try lia.
      * exact Hs'.
      * rewrite flat_map_app, Sr, Hv, app_nil_r. reflexivity.
Qed.

Lemma recv_preposts (lo hi : Z) :
  flat_map data_recv_source (flat_map (post_recv a swapids) (Zrange lo hi))
  = filter (fun p => 0 <? aget (rcvlths a) p) (map (aget swapids) (Zrange lo hi)).
Proof.
  induction (Zrange lo hi) as [|i l IH]; [reflexivity|].
  cbn [flat_map map filter]. rewrite flat_map_app, recv_post, IH.
  destruct (0 <? aget (rcvlths a) (aget swapids i)); reflexivity.
Qed.

Lemma rsend_preposts (l : list Z) :
  flat_map rsend_dest (flat_map (post_recv a swapids) l) = [].
Proof.
  induction l as [|i l IH]; [reflexivity|].
  cbn [flat_map]. rewrite flat_map_app, rsend_post, IH. reflexivity.
Qed.

Lemma no_message_in_final_waits (l : list Z) :
  flat_map rsend_dest (flat_map (final_wait a swapids) l) = []
  /\ flat_map data_recv_source (flat_map (final_wait a swapids) l) = [].
Proof.
  induction l as [|i l [IH1 IH2]]; [split; reflexivity|].
  cbn [flat_map]. rewrite !flat_map_app, IH1, IH2. unfold final_wait.
  destruct (0 <? aget (rcvlths a) (aget swapids i));
    destruct (isend a && (0 <? aget (sndlths a) (aget swapids i))); split; reflexivity.
Qed.

End Messages.

Section Complete.
Import Spmd.

Lemma Zrange_app (lo mid hi : Z) :
  lo <= mid <= hi -> Zrange lo hi = Zrange lo mid ++ Zrange mid hi.
Proof.
  intros H. remember (Z.to_nat (mid - lo)) as n eqn:Hn. revert lo H Hn.
  induction n as [|n IH]; intros lo H Hn.
  - assert (lo = mid) by lia. subst lo. rewrite (Zrange_empty mid mid) by lia. reflexivity.
  - rewrite (Zrange_cons lo hi), (Zrange_cons lo mid) by lia. cbn [app]. f_equal.
    apply IH; lia.
Qed.

Lemma map_aget_prefix (l r : list Z) :
  forall pre,
    map (aget (pre ++ l ++ r))
        (Zrange (Z.of_nat (length pre)) (Z.of_nat (length pre) + Z.of_nat (length l)))
    = l.
Proof.
  induction l as [|x l IH]; intros pre.
  - cbn [length]. rewrite Zrange_empty by lia. reflexivity.
  - cbn [length]. rewrite Zrange_cons by lia. cbn [map]. f_equal.
    + unfold aget. rewrite Nat2Z.id. rewrite app_nth2 by lia.
      rewrite Nat.sub_diag. reflexivity.
    + specialize (IH (pre ++ [x])). rewrite <- app_assoc in IH. cbn [app] in IH.
      rewrite length_app in IH. cbn [length] in IH.
      replace (Z.of_nat (length pre) + 1) with (Z.of_nat (length pre + 1)) by lia.
      replace (Z.of_nat (length pre) + Z.of_nat (S (length l)))
        with (Z.of_nat (length pre + 1) + Z.of_nat (length l)) by lia.
      exact IH.
Qed.

Lemma window_posts_all (steps mr : Z) :
  1 <= steps <= INT_MAX ->
  snd (window steps mr) + 1 <= fst (window steps mr) \/ fst (window steps mr) = steps.
Proof.
  intros H. unfold window.
  destruct (Z.eqb_spec steps 1) as [E|E]; [cbn [fst snd]; lia|].
  destruct (Z.ltb_spec 1 mr) as [A|A]; destruct (Z.ltb_spec mr steps) as [B|B];
    cbn [andb fst snd]; try (destruct (Z.ltb_spec 0 mr); cbn [fst snd]; lia).
  assert (Q : int_div mr 2 = Z.quot mr 2).
  { unfold int_div. apply wrap32_small. unfold INT_MIN, INT_MAX in *.
    pose proof (Z.quot_pos mr 2). pose proof (Z.quot_lt mr 2). lia. }
  rewrite Q. pose proof (Z.quot_pos mr 2). pose proof (Z.quot_lt mr 2). lia.
Qed.

(** X4: [pio_swapm] sends once to every scheduled partner it has data for,
    and posts one data receive for every scheduled partner it expects
    data from, both in the order of the schedule; the only other data
    receive is the one of the copy to itself. *)
Theorem swapm_exchanges_with_every_partner (a : swapm_args) (c2 : Z) (tr : list mpi_call)
        (r : Z) :
  ceil2 (nprocs a) = Some c2 ->
  pio_swapm a = Some (tr, r) ->
  flat_map rsend_dest tr
  = filter (fun p => 0 <? aget (sndlths a) p) (schedule a c2)
  /\ flat_map data_recv_source tr
     = (if 0 <? aget (sndlths a) (mytask a) then [mytask a] else [])
         ++ filter (fun p => 0 <? aget (rcvlths a) p) (schedule a c2).
Proof.
  intros Hc H. unfold pio_swapm in H. rewrite Hc in H. cbv zeta in H.
  pose proof (schedule_length_int a c2) as Hint.
  assert (Self : flat_map rsend_dest (self_copy a) = []
                 /\ flat_map data_recv_source (self_copy a)
                    = if 0 <? aget (sndlths a) (mytask a) then [mytask a] else []).
  { unfold self_copy. destruct (0 <? aget (sndlths a) (mytask a)); split; reflexivity. }
  set (steps := Z.of_nat (length (schedule a c2))) in *.
  set (swapids := schedule a c2 ++ repeat 0 (Z.to_nat (nprocs a) - length (schedule a c2))) in *.
  destruct (Z.eqb_spec steps 0) as [E|NE].
  { injection H as <- _.
    assert (S0 : schedule a c2 = []) by (apply length_zero_iff_nil; lia).
    rewrite S0. cbn [filter]. rewrite app_nil_r. exact Self. }
  assert (Sw : map (aget swapids) (Zrange 0 steps) = schedule a c2).
  { exact (map_aget_prefix (schedule a c2) _ []). }
  destruct (window_facts steps (max_requests a)) as [F1 [F2 F3]]; [lia|].
  pose proof (window_posts_all steps (max_requests a)) as Wp.
  destruct (window steps (max_requests a)) as [maxreq maxreqh]. cbn [fst snd] in *.
  destruct (exchange_messages a swapids steps maxreq maxreqh F1 F2 (proj2 Hint)
              (Z.to_nat steps) 0 maxreq []) as [rstep [body [Fd [Hr [Bs Bv]]]]]; try lia.
  { rewrite (Zrange_empty 0 0) by lia. reflexivity. }
  { rewrite (Zrange_empty maxreq maxreq) by lia. reflexivity. }
  rewrite Fd in H. injection H as <- _.
  assert (Rs : rstep = steps) by lia. rewrite Rs in Bv.
  assert (Hs : forall l,
             flat_map rsend_dest
               (if handshake a
                then flat_map (fun istep =>
                                 if 0 <? aget (sndlths a) (aget swapids istep)
                                 then [MPI_Irecv hs_word 1 MPI_INT (aget swapids istep)
                                                 (int_add (mytask a) (nprocs a))
                                                 (hs_rcvids istep)]
                                 else []) l
                else []) = []
             /\ flat_map data_recv_source
                  (if handshake a
                   then flat_map (fun istep =>
                                    if 0 <? aget (sndlths a) (aget swapids istep)
                                    then [MPI_Irecv hs_word 1 MPI_INT (aget swapids istep)
                                                    (int_add (mytask a) (nprocs a))
                                                    (hs_rcvids istep)]
                                    else []) l
                   else []) = []).
  { intros l. destruct (handshake a); [|split; reflexivity].
    induction l as [|i l [I1 I2]]; [split; reflexivity|].
    cbn [flat_map]. rewrite !flat_map_app, I1, I2.
    destruct (0 <? aget (sndlths a) (aget swapids i)); split; reflexivity. }
  destruct (no_message_in_final_waits a swapids (Zrange (int_sub steps maxreqh) steps))
    as [T1 T2].
  rewrite !flat_map_app, (proj1 Self), (proj2 Self), (proj1 (Hs _)), (proj2 (Hs _)),
    rsend_preposts, recv_preposts, Bs, Bv, T1, T2, !app_nil_r. cbn [app].
  rewrite Sw. split; [reflexivity|]. f_equal.
  rewrite <- filter_app, <- map_app, <- (Zrange_app 0 maxreq steps) by lia.
  rewrite Sw. reflexivity.
Qed.

End Complete.

Lemma swapm_exchanges_with_every_partner_witness :
  exists tr r, Spmd.pio_swapm (Inputs.swap4 1) = Some (tr, r)
               /\ flat_map Spmd.rsend_dest tr = [1; 2; 3]
               /\ flat_map Spmd.data_recv_source tr = [0; 1; 2; 3].
Proof.
  destruct (Spmd.pio_swapm (Inputs.swap4 1)) as [[tr r]|] eqn:H; [|discriminate H].
  exists tr, r. split; [reflexivity|].
  exact (swapm_exchanges_with_every_partner (Inputs.swap4 1) 4 tr r eq_refl H).
Defined.

(** ** The root of [pio_fc_gather] *)

Section GatherRoot.
Import Spmd.

Variables (a : gather_args) (sent : Z -> block).

Lemma filter_Zrange_snoc (P : Z -> bool) (lo hi : Z) :
  lo <= hi ->
  filter P (Zrange lo (hi + 1)) = filter P (Zrange lo hi) ++ (if P hi then [hi] else []).
Proof.
  intros H. remember (Z.to_nat (hi - lo)) as n eqn:Hn. revert lo H Hn.
  induction n as [|n IH]; intros lo H Hn.
  - assert (lo = hi) by lia. subst lo. rewrite (Zrange_empty hi hi) by lia.
    rewrite Zrange_cons by lia. rewrite Zrange_empty by lia. cbn [filter app].
    destruct (P hi); reflexivity.
  - rewrite (Zrange_cons lo (hi + 1)) by lia. rewrite (Zrange_cons lo hi) by lia.
    cbn [filter]. rewrite IH by lia. destruct (P lo); reflexivity.
Qed.

(** Lines 70-85: after the ranks below [k], the root has posted one
    receive for each of them but itself, in slots 1 to [preposts]. *)
Lemma gather_root_loop (preposts mtag : Z) :
  1 <= preposts -> preposts <= INT_MAX - 1 -> comm_size a <= INT_MAX -> 0 < g_recvcnt a ->
  forall (n : nat) (k : Z) (st : gather_state),
    Z.of_nat n = comm_size a - k -> 0 <= k ->
    0 <= head st <= preposts -> 0 <= count st <= k ->
    map fst (flat_map g_irecv (calls st))
    = filter (fun p => negb (p =? g_root a)) (Zrange 0 k) ->
    flat_map g_handshake (calls st)
    = filter (fun p => negb (p =? g_root a)) (Zrange 0 k) ->
    Forall (fun ps => 1 <= snd ps <= preposts) (flat_map g_irecv (calls st)) ->
    count st = Z.of_nat (length (flat_map g_irecv (calls st))) ->
    let st' := fold_left (gather_root_step a sent preposts mtag) (Zrange k (comm_size a)) st in
    map fst (flat_map g_irecv (calls st'))
    = filter (fun p => negb (p =? g_root a)) (Zrange 0 (comm_size a))
    /\ flat_map g_handshake (calls st')
       = filter (fun p => negb (p =? g_root a)) (Zrange 0 (comm_size a))
    /\ Forall (fun ps => 1 <= snd ps <= preposts) (flat_map g_irecv (calls st'))
    /\ count st' = Z.of_nat (length (flat_map g_irecv (calls st'))).
Proof.
  intros Hp Hp' Hn' Hrc.
  induction n as [|n IH]; intros k st Hn Hk Hh Hc Hs Hhs Hf Hcount; cbv zeta.
  - rewrite Zrange_empty by lia. cbn [fold_left].
    assert (K : k = comm_size a) by lia. rewrite K in Hs, Hhs. auto.
  - rewrite Zrange_cons by lia. cbn [fold_left]. apply IH; try lia;
      unfold gather_root_step;
      destruct (Z.eqb_spec k (g_root a)) as [E|E]; cbn [negb andb];
      try (destruct (Z.ltb_spec 0 (g_recvcnt a)); [|lia]); cbn [head count calls].
    + lia.
    + assert (R : 0 <= Z.rem (head st) preposts < preposts) by (apply Z.rem_bound_pos; lia).
      unfold int_add, int_rem. rewrite wrap32_small by (unfold INT_MIN, INT_MAX in *; lia). lia.
    + lia.
    + unfold int_add. rewrite wrap32_small by (unfold INT_MIN, INT_MAX in *; lia). lia.
    + rewrite (filter_Zrange_snoc _ 0 k) by lia.
      destruct (Z.eqb_spec k (g_root a)); [|congruence]. cbn [negb]. rewrite app_nil_r. exact Hs.
    + rewrite (filter_Zrange_snoc _ 0 k) by lia.
      destruct (Z.eqb_spec k (g_root a)); [congruence|]. cbn [negb].
      rewrite !flat_map_app, map_app, Hs.
      destruct (count st >? preposts); cbn; rewrite ?app_nil_r; reflexivity.
    + rewrite (filter_Zrange_snoc _ 0 k) by lia.
      destruct (Z.eqb_spec k (g_root a)); [|congruence]. cbn [negb]. rewrite app_nil_r. exact Hhs.
    + rewrite (filter_Zrange_snoc _ 0 k) by lia.
      destruct (Z.eqb_spec k (g_root a)); [congruence|]. cbn [negb].
      rewrite !flat_map_app, Hhs.
      destruct (count st >? preposts); cbn; rewrite ?app_nil_r; reflexivity.
    + exact Hf.
    + rewrite !flat_map_app. apply Forall_app. split; [exact Hf|].
      assert (R : 0 <= Z.rem (head st) preposts < preposts) by (apply Z.rem_bound_pos; lia).
      assert (S1 : 1 <= int_add (int_rem (head st) preposts) 1 <= preposts).
      { unfold int_add, int_rem.
        rewrite wrap32_small by (unfold INT_MIN, INT_MAX in *; lia). lia. }
      destruct (count st >? preposts); cbn; constructor; auto.
    + exact Hcount.
    + rewrite !flat_map_app, !length_app.
      unfold int_add. rewrite wrap32_small by (unfold INT_MIN, INT_MAX in *; lia).
      destruct (count st >? preposts); cbn [flat_map g_irecv app length]; lia.
Qed.

End GatherRoot.

Section GatherRootCalls.
Import Spmd.

Lemma filter_all {A : Type} (P : A -> bool) (l : list A) :
  (forall x, In x l -> P x = true) -> filter P l = l.
Proof.
  induction l as [|x l IH]; intros H; [reflexivity|]. cbn [filter].
  rewrite (H x (or_introl eq_refl)), IH; [reflexivity|]. intros y Hy. apply H. right. exact Hy.
Qed.

Lemma others_length (root n : Z) :
  0 <= root < n ->
  Z.of_nat (length (filter (fun p => negb (p =? root)) (Zrange 0 n))) = n - 1.
Proof.
  intros H. rewrite (Zrange_app 0 root n) by lia.
  rewrite (Zrange_cons root n) by lia. rewrite filter_app. cbn [filter].
  rewrite Z.eqb_refl. cbn [negb].
  rewrite !filter_all.
  - rewrite length_app, !Zrange_length. lia.
  - intros x Hx. apply In_Zrange in Hx. destruct (Z.eqb_spec x root); [lia|reflexivity].
  - intros x Hx. apply In_Zrange in Hx. destruct (Z.eqb_spec x root); [lia|reflexivity].
Qed.

(** X8: With flow control the root posts one receive for every other rank,
    in rank order, each followed by the handshake to that rank, in the
    request slots 1 to [preposts]; it ends with one [MPI_Waitall] over
    [preposts] requests. *)
Theorem fc_gather_root_serves_every_rank (a : gather_args) (sent : Z -> block) :
  comm_rank a = g_root a -> 0 < g_flow_cntl a -> 0 < g_recvcnt a ->
  0 <= g_root a < comm_size a -> 2 <= comm_size a <= INT_MAX ->
  let calls := fst (fst (pio_fc_gather a sent)) in
  let preposts := min (comm_size a - 1) (min (g_flow_cntl a) MAX_GATHER_BLOCK_SIZE) in
  let others := filter (fun p => negb (p =? g_root a)) (Zrange 0 (comm_size a)) in
  map fst (flat_map g_irecv calls) = others
  /\ flat_map g_handshake calls = others
  /\ Forall (fun ps => 1 <= snd ps <= preposts) (flat_map g_irecv calls)
  /\ exists body, calls = body ++ [G_Waitall preposts].
Proof.
  intros Hroot Hfc Hrc Hr Hn calls preposts others.
  assert (Es : int_sub (comm_size a) 1 = comm_size a - 1).
  { unfold int_sub. apply wrap32_small. unfold INT_MIN, INT_MAX in *. lia. }
  assert (Pb : 1 <= preposts <= 64 /\ preposts <= comm_size a - 1).
  { unfold preposts, min, MAX_GATHER_BLOCK_SIZE.
    destruct (Z.ltb_spec (g_flow_cntl a) 64);
      match goal with |- context [?x <? ?y] => destruct (Z.ltb_spec x y) end; lia. }
  subst calls. unfold pio_fc_gather.
  destruct (Z.ltb_spec 0 (g_flow_cntl a)); [|lia].
  rewrite Hroot, Z.eqb_refl, Es. fold preposts.
  set (st0 := {| head := 0; count := 0; displs := 0; calls := [];
                 recvbuf_now := g_recvbuf a |}).
  destruct (gather_root_loop a sent preposts (int_mul 2 (comm_size a)))
    with (n := Z.to_nat (comm_size a)) (k := 0) (st := st0) as [L1 [L2 [L3 L4]]];
    try (unfold INT_MAX in *; cbn [head count calls st0]; lia);
    try (cbn [calls st0 flat_map map]; rewrite (Zrange_empty 0 0) by lia; reflexivity).
  { constructor. }
  { reflexivity. }
  set (st := fold_left (gather_root_step a sent preposts (int_mul 2 (comm_size a)))
                       (Zrange 0 (comm_size a)) st0) in *.
  assert (Cn : count st = comm_size a - 1).
  { rewrite L4, <- (length_map fst), L1. apply others_length. exact Hr. }
  assert (Cm : min (count st) preposts = preposts).
  { unfold min at 1. rewrite Cn. destruct (Z.ltb_spec (comm_size a - 1) preposts); lia. }
  cbn [fst]. rewrite Cm. destruct (Z.ltb_spec 0 preposts); [|lia].
  rewrite !flat_map_app, map_app. cbn [flat_map g_irecv g_handshake map app].
  rewrite !app_nil_r. split; [exact L1|]. split; [exact L2|]. split; [exact L3|].
  exists (calls st). reflexivity.
Qed.

End GatherRootCalls.

Lemma fc_gather_root_serves_every_rank_witness :
  map fst (flat_map Spmd.g_irecv (fst (fst (Spmd.pio_fc_gather (Inputs.gather2 1) Inputs.sent2))))
  = [1]
  /\ exists body,
      fst (fst (Spmd.pio_fc_gather (Inputs.gather2 1) Inputs.sent2))
      = body ++ [Spmd.G_Waitall 1].
Proof.
  destruct (fc_gather_root_serves_every_rank (Inputs.gather2 1) Inputs.sent2)
    as [H1 [_ [_ H4]]].
  - reflexivity.
  - simpl. lia.
  - simpl. lia.
  - simpl. lia.
  - simpl. unfold INT_MAX. lia.
  - split; [exact H1|exact H4].
Defined.

Section GatherSlots.
Import Spmd.

Variables (a : gather_args) (sent : Z -> block).

Lemma Zrange_snoc (lo hi : Z) : lo <= hi -> Zrange lo (hi + 1) = Zrange lo hi ++ [hi].
Proof.
  intros H. rewrite (Zrange_app lo hi (hi + 1)) by lia.
  rewrite (Zrange_cons hi (hi + 1)) by lia. rewrite (Zrange_empty (hi + 1)) by lia.
  reflexivity.
Qed.

Lemma next_slot (c p : Z) :
  0 <= c -> 1 <= p ->
  (if c =? 0 then 0 else (c - 1) mod p + 1) mod p = c mod p.
Proof.
  intros Hc Hp. destruct (Z.eqb_spec c 0) as [->|N]; [reflexivity|].
  rewrite Z.add_mod_idemp_l by lia. f_equal. lia.
Qed.

(** Lines 70-85: receive number [j], from 0, is posted in slot
    [j mod preposts + 1], and from receive number [preposts + 1] on that
    slot is waited for first. *)
Lemma gather_root_slots_loop (preposts mtag : Z) :
  1 <= preposts -> preposts <= INT_MAX - 1 -> comm_size a <= INT_MAX -> 0 < g_recvcnt a ->
  forall (n : nat) (k : Z) (st : gather_state),
    Z.of_nat n = comm_size a - k -> 0 <= k ->
    0 <= count st <= k ->
    head st = (if count st =? 0 then 0 else (count st - 1) mod preposts + 1) ->
    map snd (flat_map g_irecv (calls st))
    = map (fun j => j mod preposts + 1) (Zrange 0 (count st)) ->
    flat_map g_wait (calls st)
    = map (fun j => j mod preposts + 1) (Zrange (preposts + 1) (count st)) ->
    let st' := fold_left (gather_root_step a sent preposts mtag) (Zrange k (comm_size a)) st in
    map snd (flat_map g_irecv (calls st'))
    = map (fun j => j mod preposts + 1) (Zrange 0 (count st'))
    /\ flat_map g_wait (calls st')
       = map (fun j => j mod preposts + 1) (Zrange (preposts + 1) (count st')).
Proof.
  intros Hp Hp' Hn' Hrc.
  induction n as [|n IH]; intros k st Hn Hk Hc Hh Hs Hw; cbv zeta.
  - rewrite Zrange_empty by lia. cbn [fold_left]. auto.
  - rewrite Zrange_cons by lia. cbn [fold_left].
    assert (Slot : int_add (int_rem (head st) preposts) 1 = count st mod preposts + 1).
    { unfold int_add, int_rem.
      assert (H0 : 0 <= head st).
      { rewrite Hh. destruct (count st =? 0); [lia|].
        assert (0 <= (count st - 1) mod preposts) by (apply Z.mod_pos_bound; lia). lia. }
      rewrite Z.rem_mod_nonneg by lia.
      rewrite Hh, next_slot by lia.
      assert (0 <= count st mod preposts < preposts) by (apply Z.mod_pos_bound; lia).
      apply wrap32_small. unfold INT_MIN, INT_MAX in *. lia. }
    assert (Cnt : int_add (count st) 1 = count st + 1).
    { unfold int_add. apply wrap32_small. unfold INT_MIN, INT_MAX in *. lia. }
    apply IH; try lia;
      unfold gather_root_step;
      destruct (Z.eqb_spec k (g_root a)) as [E|E]; cbn [negb andb];
      try (destruct (Z.ltb_spec 0 (g_recvcnt a)); [|lia]); cbn [head count calls];
      rewrite ?Slot, ?Cnt.
    + lia.
    + lia.
    + exact Hh.
    + destruct (Z.eqb_spec (count st + 1) 0); [lia|]. f_equal. f_equal. lia.
    + exact Hs.
    + rewrite !flat_map_app, map_app, Hs. rewrite (Zrange_snoc 0 (count st)) by lia.
      rewrite (map_app _ (Zrange 0 (count st))).
      destruct (count st >? preposts); cbn; rewrite ?app_nil_r; reflexivity.
    + exact Hw.
    + rewrite !flat_map_app, Hw.
      destruct (Z.gtb_spec (count st) preposts) as [G|G].
      * rewrite (Zrange_snoc (preposts + 1) (count st)) by lia.
        rewrite (map_app _ (Zrange (preposts + 1) (count st))). cbn.
        rewrite ?app_nil_r. reflexivity.
      * cbn. rewrite !app_nil_r. rewrite !Zrange_empty by lia. reflexivity.
Qed.

End GatherSlots.

Section GatherSlotsCalls.
Import Spmd.

(** X9: With flow control the root posts receive number [j], from 0, in
    request slot [j mod preposts + 1] of [rcvid]: slot 0 is not used,
    and with at least [gather_block_size] other ranks a receive is
    posted in slot [gather_block_size], past the [gather_block_size]
    requests allocated for [rcvid] (line 68).  A slot is waited for
    before it is used again from receive number [preposts + 1] on, not
    before receive number [preposts]. *)
Theorem fc_gather_root_slots (a : gather_args) (sent : Z -> block) :
  comm_rank a = g_root a -> 0 < g_flow_cntl a -> 0 < g_recvcnt a ->
  0 <= g_root a < comm_size a -> 2 <= comm_size a <= INT_MAX ->
  let calls := fst (fst (pio_fc_gather a sent)) in
  let gather_block_size := min (g_flow_cntl a) MAX_GATHER_BLOCK_SIZE in
  let preposts := min (comm_size a - 1) gather_block_size in
  map snd (flat_map g_irecv calls)
  = map (fun j => j mod preposts + 1) (Zrange 0 (comm_size a - 1))
  /\ flat_map g_wait calls
     = map (fun j => j mod preposts + 1) (Zrange (preposts + 1) (comm_size a - 1))
  /\ (gather_block_size <= comm_size a - 1 ->
      In gather_block_size (map snd (flat_map g_irecv calls))).
Proof.
  intros Hroot Hfc Hrc Hr Hn calls gbs preposts.
  assert (Es : int_sub (comm_size a) 1 = comm_size a - 1).
  { unfold int_sub. apply wrap32_small. unfold INT_MIN, INT_MAX in *. lia. }
  assert (Pb : 1 <= preposts <= 64 /\ preposts <= comm_size a - 1 /\ 1 <= gbs
               /\ (gbs <= comm_size a - 1 -> preposts = gbs)).
  { unfold preposts, gbs, min, MAX_GATHER_BLOCK_SIZE.
    destruct (Z.ltb_spec (g_flow_cntl a) 64);
      match goal with |- context [?x <? ?y] => destruct (Z.ltb_spec x y) end; lia. }
  assert (Calls : map snd (flat_map g_irecv calls)
                  = map (fun j => j mod preposts + 1) (Zrange 0 (comm_size a - 1))
                  /\ flat_map g_wait calls
                     = map (fun j => j mod preposts + 1)
                           (Zrange (preposts + 1) (comm_size a - 1))).
  { subst calls. unfold pio_fc_gather.
    destruct (Z.ltb_spec 0 (g_flow_cntl a)); [|lia].
    rewrite Hroot, Z.eqb_refl, Es. fold gbs. fold preposts.
    set (st0 := {| head := 0; count := 0; displs := 0; calls := [];
                   recvbuf_now := g_recvbuf a |}).
    destruct (gather_root_loop a sent preposts (int_mul 2 (comm_size a)))
      with (n := Z.to_nat (comm_size a)) (k := 0) (st := st0) as [L1 [_ [_ L4]]];
      try (unfold INT_MAX in *; cbn [head count calls st0]; lia);
      try (cbn [calls st0 flat_map map]; rewrite (Zrange_empty 0 0) by lia; reflexivity).
    { constructor. }
    { reflexivity. }
    destruct (gather_root_slots_loop a sent preposts (int_mul 2 (comm_size a)))
      with (n := Z.to_nat (comm_size a)) (k := 0) (st := st0) as [S1 S2];
      try (unfold INT_MAX in *; cbn [head count calls st0]; lia);
      try reflexivity.
    { cbn [calls st0 count flat_map map]. rewrite Zrange_empty by lia. reflexivity. }
    set (st := fold_left (gather_root_step a sent preposts (int_mul 2 (comm_size a)))
                         (Zrange 0 (comm_size a)) st0) in *.
    assert (Cn : count st = comm_size a - 1).
    { rewrite L4, <- (length_map fst), L1. apply others_length. exact Hr. }
    assert (Cm : min (count st) preposts = preposts).
    { unfold min at 1. rewrite Cn. destruct (Z.ltb_spec (comm_size a - 1) preposts); lia. }
    cbn [fst]. rewrite Cm. destruct (Z.ltb_spec 0 preposts); [|lia].
    rewrite !flat_map_app, map_app. cbn [flat_map g_irecv g_wait map app].
    rewrite !app_nil_r, <- Cn. split; [exact S1|exact S2]. }
  destruct Calls as [C1 C2]. split; [exact C1|]. split; [exact C2|].
  intros G. rewrite C1. apply in_map_iff. exists (gbs - 1).
  destruct Pb as [P1 [P2 [P3 P4]]]. rewrite (P4 G). split.
  - destruct (Z.eqb_spec gbs 1) as [->|N]; [reflexivity|].
    rewrite Z.mod_small by lia. lia.
  - apply In_Zrange. lia.
Qed.

End GatherSlotsCalls.

Lemma fc_gather_root_slots_witness :
  In 1 (map snd (flat_map Spmd.g_irecv
                          (fst (fst (Spmd.pio_fc_gather (Inputs.gather2 1) Inputs.sent2))))).
Proof.
  destruct (fc_gather_root_slots (Inputs.gather2 1) Inputs.sent2) as [_ [_ H]].
  - reflexivity.
  - simpl. lia.
  - simpl. lia.
  - simpl. lia.
  - simpl. unfold INT_MAX. lia.
  - apply H. vm_compute. discriminate.
Defined.


(** ** The handshake of [pio_swapm] *)

Ltac split_comparisons :=
  repeat match goal with
         | |- context [?x <=? ?y] => destruct (Z.leb_spec x y)
         | |- context [?x <? ?y] => destruct (Z.ltb_spec x y)
         | |- context [?x =? ?y] => destruct (Z.eqb_spec x y)
         end.

Section Handshake.
Import Spmd.

Variables (a : swapm_args) (swapids : list Z) (k0 : Z).
Hypothesis with_handshake : handshake a = true.
Hypothesis has_send : 0 < aget (sndlths a) (aget swapids k0).

Lemma hs_use_post_hs (i : Z) :
  flat_map (hs_use k0) (post_hs a swapids i) = if i =? k0 then [true] else [].
Proof.
  unfold post_hs. rewrite with_handshake. cbn [andb].
  destruct (Z.eqb_spec i k0) as [->|N].
  - destruct (Z.ltb_spec 0 (aget (sndlths a) (aget swapids k0))); [|lia].
    cbn. rewrite Z.eqb_refl. reflexivity.
  - destruct (0 <? aget (sndlths a) (aget swapids i)); [|reflexivity].
    cbn. destruct (Z.eqb_spec i k0); [contradiction|reflexivity].
Qed.

Lemma hs_use_post_recv (i : Z) : flat_map (hs_use k0) (post_recv a swapids i) = [].
Proof.
  unfold post_recv. destruct (0 <? aget (rcvlths a) (aget swapids i)); [|reflexivity].
  destruct (handshake a); reflexivity.
Qed.

Lemma hs_use_final_wait (l : list Z) :
  flat_map (hs_use k0) (flat_map (final_wait a swapids) l) = [].
Proof.
  induction l as [|i l IH]; [reflexivity|].
  cbn [flat_map]. rewrite !flat_map_app, IH. unfold final_wait.
  destruct (0 <? aget (rcvlths a) (aget swapids i));
    destruct (isend a && (0 <? aget (sndlths a) (aget swapids i))); reflexivity.
Qed.

Lemma hs_use_preposts (l : list Z) :
  flat_map (hs_use k0) (flat_map (post_recv a swapids) l) = [].
Proof.
  induction l as [|i l IH]; [reflexivity|].
  cbn [flat_map]. rewrite flat_map_app, hs_use_post_recv, IH. reflexivity.
Qed.

Lemma hs_use_self_copy : flat_map (hs_use k0) (self_copy a) = [].
Proof. unfold self_copy. destruct (0 <? aget (sndlths a) (mytask a)); reflexivity. Qed.

(** Lines 191-197: the handshake receives posted before the loop. *)
Lemma hs_use_hs_posts (lo hi : Z) :
  lo <= hi ->
  flat_map (hs_use k0)
           (flat_map (fun istep =>
                        if 0 <? aget (sndlths a) (aget swapids istep)
                        then [MPI_Irecv hs_word 1 MPI_INT (aget swapids istep)
                                        (int_add (mytask a) (nprocs a)) (hs_rcvids istep)]
                        else [])
                     (Zrange lo hi))
  = if (lo <=? k0) && (k0 <? hi) then [true] else [].
Proof.
  intros H. remember (Z.to_nat (hi - lo)) as n eqn:Hn. revert lo H Hn.
  induction n as [|n IH]; intros lo H Hn.
  - rewrite Zrange_empty by lia. cbn. split_comparisons; cbn; try reflexivity; lia.
  - rewrite Zrange_cons by lia. cbn [flat_map]. rewrite flat_map_app, IH by lia.
    destruct (Z.eqb_spec lo k0) as [->|N].
    + destruct (Z.ltb_spec 0 (aget (sndlths a) (aget swapids k0))); [|lia].
      cbn. rewrite Z.eqb_refl. split_comparisons; cbn; try reflexivity; lia.
    + assert (E : flat_map (hs_use k0)
                           (if 0 <? aget (sndlths a) (aget swapids lo)
                            then [MPI_Irecv hs_word 1 MPI_INT (aget swapids lo)
                                            (int_add (mytask a) (nprocs a)) (hs_rcvids lo)]
                            else []) = []).
      { destruct (0 <? aget (sndlths a) (aget swapids lo)); [|reflexivity].
        cbn. destruct (Z.eqb_spec lo k0); [contradiction|reflexivity]. }
      rewrite E. cbn [app]. split_comparisons; cbn; try reflexivity; lia.
Qed.

(** Lines 211-245: in the turn of step [k0] the loop waits for the
    handshake of the step and then sends; it posts the handshake
    receive of slot [rstep] at the end of a turn. *)
Lemma exchange_handshake (steps maxreq maxreqh : Z) :
  0 <= k0 < steps ->
  1 <= maxreq <= steps -> 0 <= maxreqh <= steps -> steps <= INT_MAX ->
  forall (n : nat) (k rstep : Z) (tr : list mpi_call),
    Z.of_nat n = steps - k -> 0 <= k ->
    rstep = Z.min steps (maxreq + Z.max 0 (k - 1 - maxreqh)) ->
    flat_map (hs_use k0) tr = hs_uses_in_loop maxreq maxreqh k0 k rstep ->
    exists rstep' body,
      fold_left (exchange_step a swapids steps maxreqh) (Zrange k steps) (rstep, tr)
      = (rstep', body)
      /\ rstep' = Z.min steps (maxreq + Z.max 0 (steps - 1 - maxreqh))
      /\ flat_map (hs_use k0) body = hs_uses_in_loop maxreq maxreqh k0 steps rstep'.
Proof.
  intros Hk0 Hmr Hmh Hst.
  induction n as [|n IH]; intros k rstep tr Hn Hk Hr Hu.
  - rewrite Zrange_empty by lia. cbn [fold_left]. exists rstep, tr.
    assert (K : k = steps) by lia. rewrite K in Hr, Hu. auto.
  - rewrite Zrange_cons by lia. cbn [fold_left]. unfold exchange_step at 2.
    set (send := if 0 <? aget (sndlths a) (aget swapids k)
                 then (if handshake a then [MPI_Wait (hs_rcvids k)] else [])
                      ++ [MPI_Rsend (sndbuf (aget (sdispls a) (aget swapids k)))
                                    (aget (sndlths a) (aget swapids k))
                                    (tget (stypes a) (aget swapids k)) (aget swapids k)
                                    (int_add (mytask a) (nprocs a))]
                 else []).
    assert (Ss : flat_map (hs_use k0) send = if k =? k0 then [false] else []).
    { unfold send. rewrite with_handshake. destruct (Z.eqb_spec k k0) as [->|N].
      - destruct (Z.ltb_spec 0 (aget (sndlths a) (aget swapids k0))); [|lia].
        cbn. rewrite Z.eqb_refl. reflexivity.
      - destruct (0 <? aget (sndlths a) (aget swapids k)); [|reflexivity].
        cbn. destruct (Z.eqb_spec k k0); [contradiction|reflexivity]. }
    set (wait := fun j => if 0 <? aget (rcvlths a) (aget swapids j)
                          then [MPI_Wait (rcvids j)] else []).
    assert (Ws : forall j, flat_map (hs_use k0) (wait j) = []).
    { intros j. unfold wait. destruct (0 <? aget (rcvlths a) (aget swapids j)); reflexivity. }
    destruct (Z.gtb_spec k maxreqh) as [G|G].
    + fold (wait (int_sub k maxreqh)).
      destruct (Z.ltb_spec rstep steps) as [Lt|Ge].
      * assert (Er : int_add rstep 1 = rstep + 1).
        { unfold int_add. apply wrap32_small. unfold INT_MIN, INT_MAX in *. lia. }
        rewrite Er. apply (IH (k + 1) (rstep + 1)); try lia.
        rewrite !flat_map_app, Hu, Ss, Ws, hs_use_post_hs, hs_use_post_recv.
        unfold hs_uses_in_loop. subst rstep.
        split_comparisons; cbn; try reflexivity; lia.
      * apply (IH (k + 1) rstep); try lia.
        rewrite !flat_map_app, Hu, Ss, Ws. unfold hs_uses_in_loop. subst rstep.
        split_comparisons; cbn; try reflexivity; lia.
    + apply (IH (k + 1) rstep); try lia.
      rewrite !flat_map_app, Hu, Ss. unfold hs_uses_in_loop. subst rstep.
      split_comparisons; cbn; try reflexivity; lia.
Qed.

End Handshake.

Section HandshakeOrder.
Import Spmd.

(** X6: With [handshake], each step [k] of the schedule that sends posts
    the receive of its handshake once and waits for it once, before the
    send.  The receive is posted before the wait when the step is below
    [maxreq] or [maxreq >= maxreqh + 2]; in the window [(2, 1)] (that
    is for [max_requests] 1 or 2, or at least the number of steps) the
    steps from 2 on wait for the handshake before its receive is
    posted. *)
Theorem swapm_handshake_order (a : swapm_args) (c2 : Z) (tr : list mpi_call) (r k : Z) :
  ceil2 (nprocs a) = Some c2 ->
  pio_swapm a = Some (tr, r) ->
  handshake a = true ->
  let steps := Z.of_nat (length (schedule a c2)) in
  let maxreq := fst (window steps (max_requests a)) in
  let maxreqh := snd (window steps (max_requests a)) in
  0 <= k < steps ->
  0 < aget (sndlths a) (aget (schedule a c2) k) ->
  flat_map (hs_use k) tr
  = (if (k <? maxreq) || (maxreqh + 2 <=? maxreq) then [true; false] else [false; true])
  /\ (0 < max_requests a -> max_requests a <= 2 \/ steps <= max_requests a -> 2 <= k ->
      flat_map (hs_use k) tr = [false; true]).
Proof.
  intros Hc H Hh steps maxreq maxreqh Hk Hs.
  assert (Main : flat_map (hs_use k) tr
                 = (if (k <? maxreq) || (maxreqh + 2 <=? maxreq)
                    then [true; false] else [false; true])).
  { unfold pio_swapm in H. rewrite Hc in H. cbv zeta in H.
    pose proof (schedule_length_int a c2) as Hint. fold steps in H, Hint.
    set (swapids := schedule a c2 ++ repeat 0 (Z.to_nat (nprocs a) - length (schedule a c2)))
      in *.
    assert (Sk : aget swapids k = aget (schedule a c2) k).
    { unfold aget, swapids. apply app_nth1. lia. }
    destruct (Z.eqb_spec steps 0) as [E|NE]; [lia|].
    destruct (window_facts steps (max_requests a)) as [F1 [F2 F3]]; [lia|].
    pose proof (window_posts_all steps (max_requests a)) as Wp.
    subst maxreq maxreqh.
    destruct (window steps (max_requests a)) as [maxreq maxreqh]. cbn [fst snd] in *.
    assert (Hs' : 0 < aget (sndlths a) (aget swapids k)) by (rewrite Sk; exact Hs).
    destruct (exchange_handshake a swapids k Hh Hs' steps maxreq maxreqh Hk F1 F2 (proj2 Hint)
                (Z.to_nat steps) 0 maxreq []) as [rstep [body [Fd [Hr Bu]]]]; try lia.
    { unfold hs_uses_in_loop. split_comparisons; cbn; try reflexivity; lia. }
    rewrite Fd in H. injection H as <- _. rewrite Hh.
    assert (M0 : 0 <= maxreq) by lia.
    rewrite !flat_map_app, (hs_use_self_copy a k),
      (hs_use_hs_posts a swapids k Hs' 0 maxreq M0),
      (hs_use_preposts a swapids k), Bu, (hs_use_final_wait a swapids k).
    2: exact Hh.
    unfold hs_uses_in_loop. subst rstep.
    split_comparisons; cbn; try reflexivity; lia. }
  split; [exact Main|].
  intros Hm Hw H2. rewrite Main. subst maxreq maxreqh. unfold window.
  assert (Dv : max_requests a <= 2 -> 1 < max_requests a -> int_div (max_requests a) 2 = 1).
  { intros A B. assert (M : max_requests a = 2) by lia. rewrite M. reflexivity. }
  destruct (Z.eqb_spec steps 1); [lia|].
  destruct (Z.ltb_spec 1 (max_requests a)) as [B1|B1];
    destruct (Z.ltb_spec (max_requests a) steps) as [B2|B2]; cbn [andb fst snd].
  - destruct Hw as [Hw|Hw]; [|lia]. rewrite (Dv Hw B1).
    assert (M : max_requests a = 2) by lia. rewrite M.
    split_comparisons; cbn; try reflexivity; lia.
  - destruct (Z.ltb_spec 0 (max_requests a)); [|lia]. cbn [fst snd].
    split_comparisons; cbn; try reflexivity; lia.
  - destruct (Z.ltb_spec 0 (max_requests a)); [|lia]. cbn [fst snd].
    split_comparisons; cbn; try reflexivity; lia.
  - destruct (Z.ltb_spec 0 (max_requests a)); [|lia]. cbn [fst snd].
    split_comparisons; cbn; try reflexivity; lia.
Qed.

End HandshakeOrder.

Lemma swapm_handshake_order_witness :
  exists tr r, Spmd.pio_swapm Inputs.swap4_hs = Some (tr, r)
               /\ flat_map (Spmd.hs_use 2) tr = [false; true].
Proof.
  destruct (Spmd.pio_swapm Inputs.swap4_hs) as [[tr r]|] eqn:H; [|discriminate H].
  exists tr, r. split; [reflexivity|].
  destruct (swapm_handshake_order Inputs.swap4_hs 4 tr r 2 eq_refl H eq_refl) as [_ H2].
  - vm_compute. split; [discriminate|reflexivity].
  - vm_compute. reflexivity.
  - apply H2.
    + simpl. lia.
    + left. simpl. lia.
    + lia.
Defined.

(** ** The [isend] flag of [pio_swapm] *)

Section Isend.
Import Spmd.

Variable a : swapm_args.
Variable swapids : list Z.

Lemma filter_keeps {A : Type} (P : A -> bool) (l : list A) :
  forallb P l = true -> filter P l = l.
Proof.
  induction l as [|x l IH]; [reflexivity|]. cbn [forallb filter].
  intros H. apply andb_true_iff in H as [Hx Hl]. rewrite Hx, IH by exact Hl. reflexivity.
Qed.

Lemma self_copy_no_send_wait : forallb not_send_wait (self_copy a) = true.
Proof. unfold self_copy. destruct (0 <? aget (sndlths a) (mytask a)); reflexivity. Qed.

Lemma post_recv_no_send_wait (i : Z) : forallb not_send_wait (post_recv a swapids i) = true.
Proof.
  unfold post_recv. destruct (0 <? aget (rcvlths a) (aget swapids i)); [|reflexivity].
  destruct (handshake a); reflexivity.
Qed.

Lemma post_hs_no_send_wait (i : Z) : forallb not_send_wait (post_hs a swapids i) = true.
Proof.
  unfold post_hs. destruct (handshake a && (0 <? aget (sndlths a) (aget swapids i)));
    reflexivity.
Qed.

Lemma forallb_flat_map {A B : Type} (P : B -> bool) (f : A -> list B) (l : list A) :
  (forall x, forallb P (f x) = true) -> forallb P (flat_map f l) = true.
Proof.
  intros H. induction l as [|x l IH]; [reflexivity|].
  cbn [flat_map]. rewrite forallb_app, H, IH. reflexivity.
Qed.

Lemma exchange_no_send_wait (steps maxreqh : Z) (l : list Z) :
  forall (rstep : Z) (tr : list mpi_call),
    forallb not_send_wait tr = true ->
    forallb not_send_wait
            (snd (fold_left (exchange_step a swapids steps maxreqh) l (rstep, tr))) = true.
Proof.
  induction l as [|i l IH]; intros rstep tr H; [exact H|].
  cbn [fold_left]. unfold exchange_step at 2.
  set (send := if 0 <? aget (sndlths a) (aget swapids i)
               then (if handshake a then [MPI_Wait (hs_rcvids i)] else [])
                    ++ [MPI_Rsend (sndbuf (aget (sdispls a) (aget swapids i)))
                                  (aget (sndlths a) (aget swapids i))
                                  (tget (stypes a) (aget swapids i)) (aget swapids i)
                                  (int_add (mytask a) (nprocs a))]
               else []).
  assert (Ss : forallb not_send_wait send = true).
  { unfold send. destruct (0 <? aget (sndlths a) (aget swapids i)); [|reflexivity].
    destruct (handshake a); reflexivity. }
  set (wait := if 0 <? aget (rcvlths a) (aget swapids (int_sub i maxreqh))
               then [MPI_Wait (rcvids (int_sub i maxreqh))] else []).
  assert (Ws : forallb not_send_wait wait = true).
  { unfold wait. destruct (0 <? aget (rcvlths a) (aget swapids (int_sub i maxreqh)));
      reflexivity. }
  destruct (i >? maxreqh); [destruct (rstep <? steps)|]; apply IH;
    rewrite !forallb_app, ?H, ?Ss, ?Ws, ?post_hs_no_send_wait, ?post_recv_no_send_wait;
    reflexivity.
Qed.

End Isend.

Section IsendFlag.
Import Spmd.

Lemma final_wait_without_isend (a : swapm_args) (swapids : list Z) (l : list Z) :
  filter not_send_wait (flat_map (final_wait a swapids) l)
  = flat_map (final_wait (set_isend a false) swapids) l.
Proof.
  induction l as [|i l IH]; [reflexivity|].
  cbn [flat_map]. rewrite filter_app, IH. f_equal.
  unfold final_wait. cbn [set_isend isend sndlths rcvlths andb].
  destruct (0 <? aget (rcvlths a) (aget swapids i));
    destruct (isend a && (0 <? aget (sndlths a) (aget swapids i))); reflexivity.
Qed.

(** X7: [isend] changes no send: the calls [pio_swapm] makes without
    [isend] are the calls it makes with it, less the waits for the
    send requests (lines 250-251). *)
Theorem swapm_isend_only_adds_waits (a : swapm_args) (tr : list mpi_call) (r : Z) :
  pio_swapm a = Some (tr, r) ->
  pio_swapm (set_isend a false) = Some (filter not_send_wait tr, r).
Proof.
  unfold pio_swapm. cbn [set_isend nprocs max_requests handshake sndlths mytask].
  change (schedule (set_isend a false)) with (schedule a).
  destruct (ceil2 (nprocs a)) as [c2|]; [|discriminate]. cbv zeta.
  set (steps := Z.of_nat (length (schedule a c2))).
  set (swapids := schedule a c2 ++ repeat 0 (Z.to_nat (nprocs a) - length (schedule a c2))).
  change (self_copy (set_isend a false)) with (self_copy a).
  destruct (steps =? 0).
  { intros H. injection H as <- <-.
    rewrite (filter_keeps _ _ (self_copy_no_send_wait a)). reflexivity. }
  destruct (window steps (max_requests a)) as [maxreq maxreqh].
  change (post_recv (set_isend a false)) with (post_recv a).
  change (exchange_step (set_isend a false)) with (exchange_step a).
  pose proof (exchange_no_send_wait a swapids steps maxreqh (Zrange 0 steps) maxreq []
                eq_refl) as Hb.
  destruct (fold_left (exchange_step a swapids steps maxreqh) (Zrange 0 steps) (maxreq, []))
    as [rstep body]. cbn [snd] in Hb.
  intros H. injection H as <- <-.
  rewrite !filter_app, (filter_keeps _ _ (self_copy_no_send_wait a)),
    (filter_keeps _ body Hb), final_wait_without_isend.
  rewrite (filter_keeps _ (flat_map (post_recv a swapids) (Zrange 0 maxreq))).
  2:{ apply forallb_flat_map. intros x. apply post_recv_no_send_wait. }
  rewrite (filter_keeps not_send_wait
             (if handshake a
              then flat_map (fun istep =>
                               if 0 <? aget (sndlths a) (aget swapids istep)
                               then [MPI_Irecv hs_word 1 MPI_INT (aget swapids istep)
                                               (int_add (mytask a) (nprocs a))
                                               (hs_rcvids istep)]
                               else [])
                            (Zrange 0 maxreq)
              else [])).
  2:{ destruct (handshake a); [|reflexivity]. apply forallb_flat_map. intros x.
      destruct (0 <? aget (sndlths a) (aget swapids x)); reflexivity. }
  reflexivity.
Qed.

End IsendFlag.

Lemma swapm_isend_only_adds_waits_witness :
  exists tr r, Spmd.pio_swapm Inputs.swap4_hs = Some (tr, r)
               /\ Spmd.pio_swapm (Spmd.set_isend Inputs.swap4_hs false)
                  = Some (filter Spmd.not_send_wait tr, r).
Proof.
  destruct (Spmd.pio_swapm Inputs.swap4_hs) as [[tr r]|] eqn:H; [|discriminate H].
  exists tr, r. split; [reflexivity|].
  exact (swapm_isend_only_adds_waits Inputs.swap4_hs tr r H).
Defined.

(** ** The entry of [PIOc_write_darray] *)

(** X10: [PIOc_write_darray] answers an unknown [ncid] with PIO_EBADID, a
    file not open for writing with PIO_EPERM and an unknown [ioid] with
    PIO_EBADID, in this order, before it makes any call or touches the
    file. *)
Theorem write_darray_entry_checks (E : Darray.env) (ncid varid ioid al : Z) (array : block)
        (user_fill : option block) :
  let o := Darray.PIOc_write_darray E ncid varid ioid al array user_fill in
  (Darray.pio_get_file E ncid = None ->
   o = {| Darray.ended := Darray.Return Darray.PIO_EBADID; Darray.file_after := None;
          Darray.calls_made := [] |})
  /\ forall f,
      Darray.pio_get_file E ncid = Some f ->
      (Z.land (Darray.mode f) (Darray.PIO_WRITE E) = 0 ->
       o = {| Darray.ended := Darray.Return Darray.PIO_EPERM; Darray.file_after := Some f;
              Darray.calls_made := [] |})
      /\ (Z.land (Darray.mode f) (Darray.PIO_WRITE E) <> 0 ->
          Darray.pio_get_iodesc_from_id E ioid = None ->
          o = {| Darray.ended := Darray.Return Darray.PIO_EBADID; Darray.file_after := Some f;
                 Darray.calls_made := [] |}).
Proof.
  intros o. subst o. unfold Darray.PIOc_write_darray. split.
  - intros ->. reflexivity.
  - intros f ->. unfold Darray.run, Darray.write_darray_body, Darray.check_and_locate,
      Darray.bind, Darray.get_file, Darray.pio_err, Darray.leave. cbn [Darray.file].
    split.
    + intros ->. reflexivity.
    + intros Hm ->. destruct (Z.eqb_spec (Z.land (Darray.mode f) (Darray.PIO_WRITE E)) 0);
        [contradiction|reflexivity].
Qed.

Lemma write_darray_entry_checks_witness :
  Darray.PIOc_write_darray Inputs.env_S3 8 2 5 2 Inputs.payload0 None
  = {| Darray.ended := Darray.Return Darray.PIO_EBADID; Darray.file_after := None;
       Darray.calls_made := [] |}
  /\ Darray.PIOc_write_darray Inputs.env_S3 7 2 6 2 Inputs.payload0 None
     = {| Darray.ended := Darray.Return Darray.PIO_EBADID;
          Darray.file_after := Some Inputs.file_S3; Darray.calls_made := [] |}.
Proof.
  split.
  - apply (write_darray_entry_checks Inputs.env_S3 8 2 5 2 Inputs.payload0 None). reflexivity.
  - destruct (write_darray_entry_checks Inputs.env_S3 7 2 6 2 Inputs.payload0 None) as [_ H].
    destruct (H Inputs.file_S3 eq_refl) as [_ H2]. apply H2; [discriminate|reflexivity].
Defined.

Section FillLookup.
Import Darray.

Lemma locate_wmb_no_lookup (E : env) (ioid rv al : Z) :
  emits (fun ev => negb (is_lookup_event ev)) (locate_wmb E ioid rv al).
Proof. unfold locate_wmb. emits_tac. Qed.

Lemma after_locate_no_lookup (E : env) (i : nat) (varid al : Z) (array : block)
      (user_fill : option block) (iodesc : io_desc_t) :
  emits (fun ev => negb (is_lookup_event ev))
        (needsflush <- agree_on_flush E i al iodesc ;;
         record_size E varid ;;;
         flush_if_needed E i needsflush ;;;
         count_pending varid ;;;
         append_payload E i varid al array user_fill iodesc ;;;
         ret PIO_NOERR).
Proof.
  unfold agree_on_flush, record_size, flush_if_needed, count_pending, append_payload.
  emits_tac.
Qed.

(** Lines 699-703: with the fill value of the variable at hand the
    checks make no call but the allocation of a new entry. *)
Lemma check_and_locate_known_fill (E : env) (varid ioid al : Z) (s : state)
      (r : step (io_desc_t * Z * nat)) (s' : state) :
  v_fillvalue (varlist (file s) varid) <> None ->
  check_and_locate E varid ioid al s = (r, s') ->
  exists evs, trace s' = trace s ++ evs
              /\ forallb (fun ev => negb (is_lookup_event ev)) evs = true.
Proof.
  intros V H. unfold check_and_locate, bind, get_file, pio_err, leave, ret in H.
  cbn [file] in H.
  assert (Nil : forall x : step (io_desc_t * Z * nat),
             (x, s) = (r, s') ->
             exists evs, trace s' = trace s ++ evs
                         /\ forallb (fun ev => negb (is_lookup_event ev)) evs = true).
  { intros x Hx. inversion Hx; subst. exists []. rewrite app_nil_r. auto. }
  destruct (Z.land (mode (file s)) (PIO_WRITE E) =? 0); [eapply Nil; exact H|].
  destruct (pio_get_iodesc_from_id E ioid) as [iodesc|]; [|eapply Nil; exact H].
  destruct (al <? ndof iodesc); [eapply Nil; exact H|].
  destruct (v_fillvalue (varlist (file s) varid)); [|congruence].
  match type of H with
  | context [locate_wmb E ?a ?b ?c s] => destruct (locate_wmb E a b c s) as [r1 s1] eqn:L
  end.
  apply locate_wmb_no_lookup in L. destruct r1; inversion H; subst; exact L.
Qed.

Lemma known_fill_no_lookup (E : env) (ncid varid ioid al : Z) (array : block)
      (user_fill : option block) (s : state) (r : step pio_code) (s' : state) :
  v_fillvalue (varlist (file s) varid) <> None ->
  write_darray_body E ncid varid ioid al array user_fill s = (r, s') ->
  exists evs, trace s' = trace s ++ evs
              /\ forallb (fun ev => negb (is_lookup_event ev)) evs = true.
Proof.
  intros V H. unfold write_darray_body in H.
  apply bind_inv in H as [[e [H ->]] | [[[iodesc al'] i] [s1 [H1 H]]]].
  - apply (check_and_locate_known_fill E varid ioid al s _ _ V H).
  - destruct (check_and_locate_known_fill E varid ioid al s _ _ V H1) as [ev1 [T1 F1]].
    destruct (after_locate_no_lookup E i varid al' array user_fill iodesc _ _ _ H)
      as [ev2 [T2 F2]].
    exists (ev1 ++ ev2). rewrite T2, T1, app_assoc, forallb_app, F1, F2. auto.
Qed.

End FillLookup.

(** X11: Lines 699-703: a variable whose fill value is at hand is not looked
    up again: the call makes none of the calls of [find_var_fillvalue]. *)
Theorem write_darray_known_fill_is_not_looked_up (E : Darray.env) (ncid varid ioid al : Z)
        (array : block) (user_fill : option block) (f : Darray.file_desc_t) :
  Darray.pio_get_file E ncid = Some f ->
  Darray.v_fillvalue (Darray.varlist f varid) <> None ->
  forall ev,
    In ev (Darray.calls_made (Darray.PIOc_write_darray E ncid varid ioid al array user_fill)) ->
    Darray.is_lookup_event ev = false.
Proof.
  intros Hf V ev. unfold Darray.PIOc_write_darray, Darray.run. rewrite Hf.
  destruct (Darray.write_darray_body E ncid varid ioid al array user_fill
              {| Darray.file := f; Darray.trace := [] |}) as [r s'] eqn:B.
  destruct (known_fill_no_lookup E ncid varid ioid al array user_fill
              {| Darray.file := f; Darray.trace := [] |} _ _ V B) as [evs [T F]]. cbn [Darray.trace app] in T.
  assert (C : Darray.calls_made
                match r with
                | Darray.Next c =>
                    {| Darray.ended := Darray.Return c;
                       Darray.file_after := Some (Darray.file s');
                       Darray.calls_made := Darray.trace s' |}
                | Darray.Stop e =>
                    {| Darray.ended := e; Darray.file_after := Some (Darray.file s');
                       Darray.calls_made := Darray.trace s' |}
                end = evs) by (destruct r; exact T).
  rewrite C. intros Hin. rewrite forallb_forall in F. specialize (F ev Hin).
  destruct (Darray.is_lookup_event ev); [discriminate F|reflexivity].
Qed.

Lemma write_darray_known_fill_is_not_looked_up_witness :
  forallb (fun ev => negb (Darray.is_lookup_event ev))
          (Darray.calls_made
             (Darray.PIOc_write_darray Inputs.env_S3 7 2 5 2 Inputs.payload0 None)) = true.
Proof.
  apply forallb_forall. intros ev Hin.
  rewrite (write_darray_known_fill_is_not_looked_up Inputs.env_S3 7 2 5 2 Inputs.payload0 None
             Inputs.file_S3 eq_refl ltac:(discriminate) ev Hin).
  reflexivity.
Defined.

(** X12: Lines 699-703 and 499-532: when the fill value of the variable is
    not at hand and a step of its lookup fails, [PIOc_write_darray]
    returns PIO_EBADID whatever the code of the step, a failed
    allocation included; it has made the calls of the lookup up to the
    one that failed and no other, and nothing is queued.  After a failed
    [PIOc_inq_var_fill] the variable is left with the storage that was
    allocated for its fill value, unwritten. *)
Theorem write_darray_fill_lookup_failure (E : Darray.env) (ncid varid ioid al : Z)
        (array : block) (user_fill : option block) (f : Darray.file_desc_t)
        (iodesc : Darray.io_desc_t) :
  Darray.pio_get_file E ncid = Some f ->
  Z.land (Darray.mode f) (Darray.PIO_WRITE E) <> 0 ->
  Darray.pio_get_iodesc_from_id E ioid = Some iodesc ->
  Darray.ndof iodesc <= al ->
  Darray.v_fillvalue (Darray.varlist f varid) = None ->
  let o := Darray.PIOc_write_darray E ncid varid ioid al array user_fill in
  let t := snd (Darray.PIOc_inq_vartype E varid) in
  let sz := snd (Darray.PIOc_inq_type E t) in
  let lookup := [Darray.Ev_inq_vartype varid; Darray.Ev_inq_type t; Darray.Ev_malloc sz;
                 Darray.Ev_inq_var_fill varid] in
  let failed (n : nat) :=
    Darray.ended o = Darray.Return Darray.PIO_EBADID
    /\ Darray.calls_made o = firstn n lookup
    /\ exists f', Darray.file_after o = Some f' /\ Darray.chain f' = Darray.chain f in
  (fst (Darray.PIOc_inq_vartype E varid) <> Darray.PIO_NOERR -> failed 1%nat)
  /\ (fst (Darray.PIOc_inq_vartype E varid) = Darray.PIO_NOERR ->
      (fst (Darray.PIOc_inq_type E t) <> Darray.PIO_NOERR -> failed 2%nat)
      /\ (fst (Darray.PIOc_inq_type E t) = Darray.PIO_NOERR ->
          (Darray.libc_ok E (firstn 2 lookup) sz = false -> failed 3%nat)
          /\ (Darray.libc_ok E (firstn 2 lookup) sz = true ->
              fst (Darray.PIOc_inq_var_fill E varid) <> Darray.PIO_NOERR ->
              failed 4%nat
              /\ exists f', Darray.file_after o = Some f'
                            /\ Darray.v_fillvalue (Darray.varlist f' varid)
                               = Some (fresh sz)))).
Proof.
  intros Hf Hm Hd Hal Hv o t sz lookup failed. subst failed o.
  unfold Darray.PIOc_write_darray, Darray.run. rewrite Hf.
  unfold Darray.write_darray_body, Darray.check_and_locate, Darray.call,
    Darray.find_var_fillvalue, Darray.libc_alloc, Darray.bind, Darray.get_file,
    Darray.get_trace, Darray.emit, Darray.put_file, Darray.pio_err, Darray.leave, Darray.ret.
  cbn [Darray.file Darray.trace app]. rewrite Hd, Hv.
  destruct (Z.eqb_spec (Z.land (Darray.mode f) (Darray.PIO_WRITE E)) 0) as [|_];
    [contradiction|].
  destruct (Z.ltb_spec al (Darray.ndof iodesc)) as [L|_]; [lia|].
  subst lookup sz t.
  destruct (Darray.PIOc_inq_vartype E varid) as [c1 t] eqn:E1. cbn [fst snd].
  split.
  { intros N. destruct c1; try contradiction; cbn; (split; [reflexivity|]);
      (split; [reflexivity|]); exists f; split; reflexivity. }
  intros ->. cbn [Darray.is_noerr negb Darray.file Darray.trace app].
  destruct (Darray.PIOc_inq_type E t) as [c2 sz] eqn:E2. cbn [fst snd].
  split.
  { intros N. destruct c2; try contradiction; cbn; (split; [reflexivity|]);
      (split; [reflexivity|]); eexists; split; reflexivity. }
  intros ->. cbn [Darray.is_noerr negb Darray.file Darray.trace app firstn].
  split.
  { intros ->. cbn. split; [reflexivity|]. split; [reflexivity|].
    eexists; split; reflexivity. }
  intros ->. cbn [negb Darray.file Darray.trace app].
  destruct (Darray.PIOc_inq_var_fill E varid) as [c3 [nf v]] eqn:E3. cbn [fst].
  intros N. destruct c3; try contradiction; cbn;
    (split; [split; [reflexivity|]; split; [reflexivity|]; eexists; split; reflexivity|]);
    eexists; (split; [reflexivity|]); cbn; rewrite Z.eqb_refl; reflexivity.
Qed.

Lemma write_darray_fill_lookup_failure_witness :
  Darray.ended (Darray.PIOc_write_darray Inputs.env_nofill 7 2 5 2 Inputs.payload0 None)
  = Darray.Return Darray.PIO_EBADID
  /\ Darray.calls_made (Darray.PIOc_write_darray Inputs.env_nofill 7 2 5 2 Inputs.payload0 None)
     = [Darray.Ev_inq_vartype 2; Darray.Ev_inq_type 4; Darray.Ev_malloc 4;
        Darray.Ev_inq_var_fill 2].
Proof.
  destruct (write_darray_fill_lookup_failure Inputs.env_nofill 7 2 5 2 Inputs.payload0 None
              Inputs.file_nofill Inputs.iodesc0) as [_ H].
  - reflexivity.
  - discriminate.
  - reflexivity.
  - simpl. lia.
  - reflexivity.
  - destruct (H eq_refl) as [_ H2]. destruct (H2 eq_refl) as [_ H3].
    destruct (H3 eq_refl) as [[He [Hc _]] _]; [discriminate|]. split; [exact He|exact Hc].
Defined.

Section Queue.
Import Darray.

Lemma find_wmb_first (ioid rv : Z) (next : list wmulti_buffer) :
  forall (w : wmulti_buffer) (k : nat),
    let i := find_wmb ioid rv w next k in
    (k <= i)%nat /\ (i - k < length (w :: next))%nat
    /\ (forall j, (j < i - k)%nat -> wmb_matches ioid rv (nth j (w :: next) wmb_null) = false)
    /\ (wmb_matches ioid rv (nth (i - k) (w :: next) wmb_null) = false ->
        (i - k = length next)%nat).
Proof.
  induction next as [|w' next IH]; intros w k; cbn [find_wmb].
  - cbv zeta. rewrite Nat.sub_diag. cbn [length]. split; [lia|]. split; [lia|].
    split; [intros j Hj; lia|]. reflexivity.
  - destruct (wmb_matches ioid rv w) eqn:M.
    + cbv zeta. rewrite Nat.sub_diag. cbn [length nth]. split; [lia|]. split; [lia|].
      split; [intros j Hj; lia|]. rewrite M. discriminate.
    + destruct (IH w' (S k)) as [I1 [I2 [I3 I4]]]. cbv zeta in *.
      set (i := find_wmb ioid rv w' next (S k)) in *.
      replace (i - k)%nat with (S (i - S k)) by lia. cbn [length nth] in *.
      split; [lia|]. split; [lia|]. split.
      * intros [|j] Hj; [exact M|]. apply I3. lia.
      * intros H. rewrite (I4 H). reflexivity.
Qed.

(** Lines 715-740: the entry is the first of the chain with the [ioid]
    and the record kind of the write; only when there is none is a new,
    empty entry linked behind the last one. *)
Lemma locate_wmb_run (E : env) (ioid rv al : Z) (s : state) (r : step nat) (s1 : state) :
  locate_wmb E ioid rv al s = (r, s1) ->
  (exists i,
      r = Next i
      /\ is_target (file s) ioid rv i
      /\ ((i < length (chain (file s)))%nat /\ file s1 = file s /\ trace s1 = trace s
          \/ (i = length (chain (file s))
              /\ file s1 = set_chain (file s) (chain (file s) ++ [new_wmb ioid rv al])
              /\ trace s1 = trace s ++ [Ev_calloc_wmb])))
  \/ (r = Stop (Return PIO_ENOMEM)
      /\ file s1 = file s /\ trace s1 = trace s ++ [Ev_calloc_wmb]).
Proof.
  unfold locate_wmb, libc_alloc, bind, get_file, get_trace, emit, put_file, pio_err, leave, ret.
  cbn [file trace]. intros H.
  destruct (find_wmb_first ioid rv (buffer_next (file s)) (buffer (file s)) 0)
    as [_ [I2 [I3 I4]]]. cbv zeta in *.
  set (i := find_wmb ioid rv (buffer (file s)) (buffer_next (file s)) 0) in *.
  rewrite Nat.sub_0_r in *. fold (chain (file s)) in *. fold (get_wmb (file s) i) in *.
  destruct (wmb_matches ioid rv (get_wmb (file s) i)) eqn:M; cbn [negb] in H.
  - injection H as <- <-. left. exists i. split; [reflexivity|]. split.
    + split; [lia|]. split; [exact I3|]. intros _. exact M.
    + left. auto.
  - specialize (I4 eq_refl).
    assert (L : length (chain (file s)) = S i) by (unfold chain; cbn [length]; lia).
    destruct (libc_ok E (trace s) 1); cbn [negb] in H.
    + set (f1 := set_chain (file s) (chain (file s) ++ [new_wmb ioid rv al])) in *.
      injection H as <- <-. cbn [file trace]. left. exists (S i).
      split; [reflexivity|]. split.
      * split; [lia|]. split; [|lia]. intros j Hj.
        destruct (Nat.lt_ge_cases j i) as [Lt|Ge]; [apply I3; exact Lt|].
        assert (j = i) by lia. subst j. exact M.
      * right. rewrite L. auto.
    + injection H as <- <-. cbn [file trace]. right. auto.
Qed.

Lemma is_target_unique (f : file_desc_t) (ioid rv : Z) (i j : nat) :
  is_target f ioid rv i -> is_target f ioid rv j -> i = j.
Proof.
  intros [A1 [A2 A3]] [B1 [B2 B3]].
  destruct (Nat.lt_trichotomy i j) as [L|[L|L]]; [|exact L|].
  - rewrite (B2 i L) in A3. assert (i < length (chain f))%nat by lia.
    specialize (A3 H). discriminate.
  - rewrite (A2 j L) in B3. assert (j < length (chain f))%nat by lia.
    specialize (B3 H). discriminate.
Qed.

Lemma keeps_call (Inv : file_desc_t -> Prop) (m : M pio_code) :
  keeps Inv m -> keeps Inv (call m).
Proof.
  intros Hm s r s' H Hc. unfold call in Hc. destruct (m s) as [[c|[c| |]] s1] eqn:Ms;
    inversion Hc; subst; apply (Hm s _ _ H Ms).
Qed.


(** The stores before the append touch neither the chain nor the record
    number of the variable. *)
Ltac keeps_queue_step :=
  match goal with
  | |- Darray.keeps _ (Darray.put_file _) =>
      apply keeps_put_file; unfold chain in *; cbn in *; rewrite ?Z.eqb_refl; cbn; tauto
  | |- _ => keeps_step
  end.

Lemma find_var_fillvalue_keeps_queue (E : env) (varid : Z) (c : list wmulti_buffer) (rc : Z) :
  keeps (fun f => chain f = c /\ record (varlist f varid) = rc) (find_var_fillvalue E varid).
Proof. unfold find_var_fillvalue. repeat keeps_queue_step. Qed.

Lemma record_size_keeps_queue (E : env) (varid : Z) (c : list wmulti_buffer) (rc : Z) :
  keeps (fun f => chain f = c /\ record (varlist f varid) = rc) (record_size E varid).
Proof. unfold record_size. repeat keeps_queue_step. Qed.

Lemma count_pending_keeps_queue (varid : Z) (c : list wmulti_buffer) (rc : Z) :
  keeps (fun f => chain f = c /\ record (varlist f varid) = rc) (count_pending varid).
Proof. unfold count_pending. repeat keeps_queue_step. Qed.

(** The checks and the record size leave the pending bytes alone. *)
Lemma check_and_locate_keeps_pending (E : env) (varid ioid al p vp : Z) :
  keeps (fun f => wb_pend f = p /\ v_wb_pend (varlist f varid) = vp)
        (check_and_locate E varid ioid al).
Proof.
  unfold check_and_locate. repeat keeps_queue_step.
  - apply keeps_call. unfold find_var_fillvalue. repeat keeps_queue_step.
  - unfold locate_wmb. repeat keeps_queue_step.
Qed.

Lemma check_and_locate_keeps_vrsize (E : env) (varid ioid al vr : Z) :
  keeps (fun f => vrsize (varlist f varid) = vr) (check_and_locate E varid ioid al).
Proof.
  unfold check_and_locate. repeat keeps_queue_step.
  - apply keeps_call. unfold find_var_fillvalue. repeat keeps_queue_step.
  - unfold locate_wmb. repeat keeps_queue_step.
Qed.

(** Lines 770-780: a record size that is known is not computed again. *)
Lemma record_size_keeps_vrsize (E : env) (varid : Z) (s s' : state) (r : step unit) :
  record_size E varid s = (r, s') ->
  vrsize (varlist (file s) varid) <> 0 ->
  vrsize (varlist (file s') varid) = vrsize (varlist (file s) varid).
Proof.
  unfold record_size, when, bind, get_file, emit, put_file, ret. cbn [file trace].
  intros H N. destruct (negb (async (iosystem (file s))) || negb (ioproc (iosystem (file s))));
    [|injection H as _ <-; reflexivity].
  destruct (Z.eqb_spec (vrsize (varlist (file s) varid)) 0); [contradiction|].
  injection H as _ <-. reflexivity.
Qed.

Lemma record_size_keeps_pending (E : env) (varid p vp : Z) :
  keeps (fun f => wb_pend f = p /\ v_wb_pend (varlist f varid) = vp) (record_size E varid).
Proof. unfold record_size. repeat keeps_queue_step. Qed.

(** Lines 675-740: a run of the checks that goes on has found the
    decomposition, cut [arraylen] down to [ndof] and settled on the
    entry; one that ends leaves the chain as it was. *)
Lemma check_and_locate_queue (E : env) (varid ioid al : Z) (s : state)
      (r : step (io_desc_t * Z * nat)) (s1 : state) :
  check_and_locate E varid ioid al s = (r, s1) ->
  let rv := if record (varlist (file s) varid) >=? 0 then 1 else 0 in
  record (varlist (file s1) varid) = record (varlist (file s) varid)
  /\ ((exists e, r = Stop e) /\ chain (file s1) = chain (file s)
      \/ exists iodesc i,
          r = Next (iodesc, ndof iodesc, i)
          /\ pio_get_iodesc_from_id E ioid = Some iodesc
          /\ ndof iodesc <= al
          /\ is_target (file s) ioid rv i
          /\ ((i < length (chain (file s)))%nat /\ chain (file s1) = chain (file s)
              \/ (i = length (chain (file s))
                  /\ chain (file s1)
                     = chain (file s) ++ [new_wmb ioid rv (ndof iodesc)]))).
Proof.
  intros H rv. unfold check_and_locate in H.
  apply bind_inv in H as [[e [H _]] | [f [s0 [H0 H]]]]; [discriminate|].
  unfold get_file in H0. injection H0 as <- <-.
  destruct (Z.land (mode (file s)) (PIO_WRITE E) =? 0).
  { inversion H; subst. split; [reflexivity|]. left. eauto. }
  destruct (pio_get_iodesc_from_id E ioid) as [iodesc|] eqn:Hd.
  2:{ inversion H; subst. split; [reflexivity|]. left. eauto. }
  destruct (Z.ltb_spec al (ndof iodesc)) as [L|L].
  { inversion H; subst. split; [reflexivity|]. left. eauto. }
  assert (Eal : (if al >? ndof iodesc then ndof iodesc else al) = ndof iodesc).
  { destruct (Z.gtb_spec al (ndof iodesc)); lia. }
  rewrite Eal in H.
  apply bind_inv in H as [[e [H ->]] | [[] [s2 [H2 H]]]].
  { (* the lookup of the fill value failed *)
    assert (K : chain (file s1) = chain (file s)
                /\ record (varlist (file s1) varid) = record (varlist (file s) varid)).
    { destruct (v_fillvalue (varlist (file s) varid)); [discriminate H|].
      apply bind_inv in H as [[e' [H _]] | [c [s3 [H3 H]]]].
      - apply (keeps_call _ _ (find_var_fillvalue_keeps_queue E varid (chain (file s))
                                 (record (varlist (file s) varid))) s _ _ (conj eq_refl eq_refl) H).
      - destruct (negb (is_noerr c)); inversion H; subst.
        apply (keeps_call _ _ (find_var_fillvalue_keeps_queue E varid (chain (file s))
                                 (record (varlist (file s) varid))) s _ _ (conj eq_refl eq_refl) H3). }
    destruct K as [K1 K2]. split; [exact K2|]. left. eauto. }
  assert (K : chain (file s2) = chain (file s)
              /\ record (varlist (file s2) varid) = record (varlist (file s) varid)).
  { destruct (v_fillvalue (varlist (file s) varid)).
    - inversion H2; subst. auto.
    - apply bind_inv in H2 as [[e' [H2 A]] | [c [s3 [H3 H2]]]]; [discriminate A|].
      destruct (negb (is_noerr c)); inversion H2; subst.
      apply (keeps_call _ _ (find_var_fillvalue_keeps_queue E varid (chain (file s))
                               (record (varlist (file s) varid))) s _ _ (conj eq_refl eq_refl) H3). }
  destruct K as [K1 K2].
  apply bind_inv in H as [[e [H _]] | [f2 [s3 [H3 H]]]]; [discriminate|].
  unfold get_file in H3. injection H3 as <- <-. rewrite K2 in H. fold rv in H.
  apply bind_inv in H as [[e [H ->]] | [i [s4 [H4 H]]]].
  - apply locate_wmb_run in H as [[i [A _]] | [_ [F _]]]; [discriminate A|].
    rewrite F. split; [exact K2|]. left. split; [eauto|exact K1].
  - inversion H; subst s4 r; clear H.
    apply locate_wmb_run in H4 as [[i' [A [T C]]] | [A _]]; [|discriminate A].
    injection A as <-.
    assert (T' : is_target (file s) ioid rv i).
    { unfold is_target, get_wmb in *. rewrite <- K1. exact T. }
    destruct C as [[Lt [F _]] | [Eq [F _]]].
    + rewrite F. split; [exact K2|]. right. exists iodesc, i.
      split; [reflexivity|]. split; [reflexivity|]. split; [exact L|]. split; [exact T'|].
      left. rewrite <- K1. auto.
    + assert (C : chain (file s1) = chain (file s2) ++ [new_wmb ioid rv (ndof iodesc)]).
      { rewrite F. apply chain_set_chain. destruct (chain (file s2)); discriminate. }
      assert (R : record (varlist (file s1) varid) = record (varlist (file s2) varid)).
      { rewrite F. unfold set_chain. destruct (chain (file s2) ++ _); reflexivity. }
      split; [congruence|]. right. exists iodesc, i.
      split; [reflexivity|]. split; [reflexivity|]. split; [exact L|]. split; [exact T'|].
      right. rewrite <- K1. auto.
Qed.

Lemma no_flush_event_app (l l' : list event) :
  forallb (fun ev => negb (is_flush_event ev)) (l ++ l') = true ->
  forallb (fun ev => negb (is_flush_event ev)) l = true
  /\ forallb (fun ev => negb (is_flush_event ev)) l' = true.
Proof. rewrite forallb_app. apply andb_true_iff. Qed.

(** A run of the body that does not flush: it ends before the append
    with the chain as it was but for a new entry, or it reaches the
    append with the chain as the checks left it. *)
Lemma write_darray_body_queue (E : env) (ncid varid ioid al : Z) (array : block)
      (user_fill : option block) (f : file_desc_t) (r : step pio_code) (s' : state) :
  write_darray_body E ncid varid ioid al array user_fill {| file := f; trace := [] |}
  = (r, s') ->
  forallb (fun ev => negb (is_flush_event ev)) (trace s') = true ->
  let rv := if record (varlist f varid) >=? 0 then 1 else 0 in
  ((exists e, r = Stop e)
   /\ forallb (fun ev => negb (is_append_event ev)) (trace s') = true
   /\ (chain (file s') = chain f
       \/ exists al', chain (file s') = chain f ++ [new_wmb ioid rv al']))
  \/ exists iodesc i s5 ra,
      pio_get_iodesc_from_id E ioid = Some iodesc
      /\ ndof iodesc <= al
      /\ is_target f ioid rv i
      /\ ((i < length (chain f))%nat /\ chain (file s5) = chain f
          \/ (i = length (chain f)
              /\ chain (file s5) = chain f ++ [new_wmb ioid rv (ndof iodesc)]))
      /\ record (varlist (file s5) varid) = record (varlist f varid)
      /\ append_payload E i varid (ndof iodesc) array user_fill iodesc s5 = (ra, s')
      /\ r = match ra with Next _ => Next PIO_NOERR | Stop x => Stop x end
      /\ wb_pend (file s5) = off_add (wb_pend f) (vrsize (varlist (file s5) varid))
      /\ v_wb_pend (varlist (file s5) varid)
         = off_add (v_wb_pend (varlist f varid)) (vrsize (varlist (file s5) varid))
      /\ (vrsize (varlist f varid) <> 0 ->
          vrsize (varlist (file s5) varid) = vrsize (varlist f varid)).
Proof.
  intros H NF rv. unfold write_darray_body in H.
  assert (Setup : forall evs, forallb is_setup_event evs = true ->
                             forallb (fun ev => negb (is_append_event ev)) evs = true).
  { intros evs F. rewrite forallb_forall in *. intros ev Hev. specialize (F ev Hev).
    destruct ev; try discriminate F; reflexivity. }
  apply bind_inv in H as [[e [H ->]] | [[[iodesc al'] i] [s1 [H1 H]]]].
  { destruct (check_and_locate_emits E varid ioid al _ _ _ H) as [evs [Tr F]].
    cbn [trace app] in Tr.
    apply check_and_locate_queue in H. cbv zeta in H. cbn [file] in H.
    destruct H as [_ [[_ C] | [d [i [A _]]]]]; [|discriminate A].
    left. split; [eauto|]. split; [rewrite Tr; apply Setup; exact F|left; exact C]. }
  destruct (check_and_locate_emits E varid ioid al _ _ _ H1) as [ev1 [Tr1 F1]].
  cbn [trace app] in Tr1. apply Setup in F1.
  pose proof (check_and_locate_keeps_pending E varid ioid al (wb_pend f)
                (v_wb_pend (varlist f varid)) {| file := f; trace := [] |} _ _
                (conj eq_refl eq_refl) H1) as P1.
  pose proof (check_and_locate_keeps_vrsize E varid ioid al (vrsize (varlist f varid))
                {| file := f; trace := [] |} _ _ eq_refl H1) as V1.
  apply check_and_locate_queue in H1. cbv zeta in H1. cbn [file] in H1. fold rv in H1.
  destruct H1 as [R1 [[[e A] _] | [d [i' [A [Hd [Hal [T C]]]]]]]]; [discriminate A|].
  injection A as A1 A2 A3. subst d al' i'.
  assert (C1 : chain (file s1) = chain f
               \/ chain (file s1) = chain f ++ [new_wmb ioid rv (ndof iodesc)]).
  { destruct C as [[_ C] | [_ C]]; auto. }
  apply bind_inv in H as [[e [H ->]] | [g [s2 [H2 H]]]].
  { left. split; [eauto|]. rewrite agree_on_flush_run in H. cbv zeta in H.
    destruct (_ =? 0); inversion H; subst; cbn [file trace]. split.
    - rewrite forallb_app, F1. reflexivity.
    - destruct C1 as [C1|C1]; [left; exact C1|right; eauto]. }
  rewrite agree_on_flush_run in H2. cbv zeta in H2.
  destruct (_ =? 0); [|discriminate H2]. injection H2 as <- <-.
  set (c := local_needsflush E (trace s1) (get_wmb (file s1) i) (ndof iodesc) iodesc) in *.
  set (g := allreduce_max c (allreduce_others E)) in *.
  apply bind_inv in H as [[e [H ->]] | [[] [s3 [H3 H]]]].
  { destruct (record_size_run E varid
                {| file := file s1; trace := trace s1 ++ [Ev_bstats; Ev_Allreduce_MAX c] |})
      as [f3 [calc [R _]]]. congruence. }
  assert (K3 : chain (file s3) = chain (file s1)
               /\ record (varlist (file s3) varid) = record (varlist f varid)).
  { apply (record_size_keeps_queue E varid (chain (file s1)) (record (varlist f varid))
             {| file := file s1; trace := trace s1 ++ [Ev_bstats; Ev_Allreduce_MAX c] |}
             _ _ (conj eq_refl R1) H3). }
  pose proof (record_size_keeps_pending E varid (wb_pend f) (v_wb_pend (varlist f varid))
                {| file := file s1; trace := trace s1 ++ [Ev_bstats; Ev_Allreduce_MAX c] |}
                _ _ P1 H3) as P3.
  pose proof (record_size_keeps_vrsize E varid _ _ _ H3) as V3. cbn [file] in V3.
  rewrite V1 in V3.
  assert (T3 : exists calc, trace s3 = (trace s1 ++ [Ev_bstats; Ev_Allreduce_MAX c]) ++ calc).
  { destruct (record_size_run E varid
                {| file := file s1; trace := trace s1 ++ [Ev_bstats; Ev_Allreduce_MAX c] |})
      as [f3 [calc [R _]]]. rewrite R in H3. injection H3 as <-. exists calc. reflexivity. }
  destruct T3 as [calc T3].
  apply bind_inv in H as [[e [H ->]] | [[] [s4 [H4 H]]]].
  { (* a flush that fails is a flush *)
    rewrite flush_if_needed_run in H. destruct (g >? 0); [|discriminate H].
    assert (Tr : trace s' = trace s3 ++ [Ev_flush_buffer i (g =? 2)]).
    { destruct (is_noerr _); inversion H; subst; reflexivity. }
    rewrite Tr in NF. apply no_flush_event_app in NF as [_ NF]. discriminate NF. }
  assert (S4 : s4 = s3).
  { rewrite flush_if_needed_run in H4. destruct (g >? 0); [|congruence].
    exfalso.
    assert (Tr : trace s4 = trace s3 ++ [Ev_flush_buffer i (g =? 2)]).
    { destruct (is_noerr _); inversion H4; subst; reflexivity. }
    assert (Ex : exists rest, trace s' = trace s4 ++ rest).
    { apply bind_inv in H as [[e [H _]] | [[] [s5 [H5 H]]]].
      - destruct (count_pending_run varid s4) as [f5 [Cp _]]. congruence.
      - destruct (count_pending_run varid s4) as [f5 [Cp _]]. rewrite Cp in H5.
        injection H5 as <-.
        apply bind_inv in H as [[e [H _]] | [[] [s6 [H6 H]]]].
        + destruct (append_payload_emits E i varid (ndof iodesc) array user_fill iodesc _ _ _ H)
            as [evs [Te _]]. exists evs. exact Te.
        + destruct (append_payload_emits E i varid (ndof iodesc) array user_fill iodesc _ _ _ H6)
            as [evs [Te _]]. exists evs. inversion H; subst. exact Te. }
    destruct Ex as [rest Ex]. rewrite Ex, Tr in NF.
    apply no_flush_event_app in NF as [NF _]. apply no_flush_event_app in NF as [_ NF].
    discriminate NF. }
  subst s4. clear H4.
  apply bind_inv in H as [[e [H ->]] | [[] [s5 [H5 H]]]].
  { destruct (count_pending_run varid s3) as [f5 [Cp _]]. congruence. }
  assert (K5 : chain (file s5) = chain (file s1)
               /\ record (varlist (file s5) varid) = record (varlist f varid)).
  { apply (count_pending_keeps_queue varid (chain (file s1)) (record (varlist f varid))
             _ _ _ K3 H5). }
  destruct K5 as [K5 R5].
  assert (P5 : wb_pend (file s5) = off_add (wb_pend f) (vrsize (varlist (file s5) varid))
               /\ v_wb_pend (varlist (file s5) varid)
                  = off_add (v_wb_pend (varlist f varid)) (vrsize (varlist (file s5) varid))).
  { unfold count_pending, bind, get_file, put_file in H5. injection H5 as <-.
    cbn. rewrite Z.eqb_refl. cbn. destruct P3 as [-> ->]. auto. }
  destruct P5 as [P5 P5'].
  assert (V5 : vrsize (varlist (file s5) varid) = vrsize (varlist (file s3) varid)).
  { unfold count_pending, bind, get_file, put_file in H5. injection H5 as <-.
    cbn. rewrite Z.eqb_refl. reflexivity. }
  rewrite <- V5 in V3.
  right. exists iodesc, i, s5.
  apply bind_inv in H as [[e [H ->]] | [[] [s6 [H6 H]]]].
  - exists (Stop e). rewrite K5. auto 12.
  - exists (Next tt). inversion H; subst. rewrite K5. auto 12.
Qed.

(** Lines 895-930: what a completed append leaves in the entry. *)
Lemma append_payload_result (E : env) (i : nat) (varid al : Z) (array : block)
      (user_fill : option block) (iodesc : io_desc_t) (s s' : state) :
  append_payload E i varid al array user_fill iodesc s = (Next tt, s') ->
  let w := get_wmb (file s) i in
  let n0 := num_arrays w in
  let n1 := int_add 1 n0 in
  let sz := mpitype_size iodesc in
  let rc := record (varlist (file s) varid) in
  exists d' fr' fv',
    file s' = put_wmb (file s) i
                      (set_wmb w n1 al
                               (Some (list_set (resize_ints (vid w) n1) (Z.to_nat n0) varid))
                               d' fr' fv')
    /\ d' = (if 0 <? al
             then Some (memcpy (resize (opt_block (data w)) (off_mul (off_mul n1 al) sz))
                               (off_mul (off_mul al sz) n0) array 0 (off_mul al sz))
             else data w)
    /\ fr' = (if rc >=? 0
              then Some (list_set (resize_ints (frame w) n1) (Z.to_nat n0) rc)
              else option_map (fun fr => list_set fr (Z.to_nat n0) rc) (frame w))
    /\ (if needsfill iodesc
        then exists fill,
            (user_fill = Some fill
             \/ (user_fill = None /\ default_fill E (mpitype iodesc) = Some fill))
            /\ fv' = Some (memcpy (resize (opt_block (fillvalue w)) (int_mul sz n1))
                                  (int_mul sz n0) fill 0 sz)
        else fv' = fillvalue w).
Proof.
  cbv zeta.
  unfold append_payload, pool_alloc, libc_alloc, bind, get_file, get_trace, emit, put_file,
    pio_err, leave, ret.
  cbn [file trace].
  destruct (0 <? al) eqn:Hal, (record (varlist (file s) varid) >=? 0) eqn:Hrec,
    (needsfill iodesc) eqn:Hnf, user_fill as [fill|],
    (default_fill E (mpitype iodesc)) as [dfill|] eqn:Hdf;
    cbn [file trace option_map];
    repeat match goal with
           | |- context [negb (pool_ok ?e ?t ?n)] => destruct (pool_ok e t n); cbn [negb file trace]
           | |- context [negb (libc_ok ?e ?t ?n)] => destruct (libc_ok e t n); cbn [negb file trace]
           end;
    intros H; try discriminate H; injection H as <-; cbn [file];
    eexists _, _, _; (split; [reflexivity|]); (split; [reflexivity|]);
    (split; [reflexivity|]); eauto.
Qed.

(** Lines 895-930: an append that fails returns PIO_ENOMEM, or
    PIO_EBADTYPE for a type without a default fill value; it leaves
    [num_arrays] and [arraylen] of the entry as they were. *)
Lemma append_payload_failed (E : env) (i : nat) (varid al : Z) (array : block)
      (user_fill : option block) (iodesc : io_desc_t) (s : state) (e : exit) (s' : state) :
  append_payload E i varid al array user_fill iodesc s = (Stop e, s') ->
  let w := get_wmb (file s) i in
  (e = Return PIO_ENOMEM
   \/ (e = Return PIO_EBADTYPE /\ needsfill iodesc = true /\ user_fill = None
       /\ default_fill E (mpitype iodesc) = None))
  /\ exists v d fr fv,
      file s' = put_wmb (file s) i (set_wmb w (num_arrays w) (arraylen w) v d fr fv)
      /\ (forall pre n, trace s' = pre ++ [Ev_bgetr_data n] ->
          e = Return PIO_ENOMEM /\ d = None /\ v = vid w /\ fr = frame w
          /\ fv = fillvalue w).
Proof.
  cbv zeta.
  unfold append_payload, pool_alloc, libc_alloc, bind, get_file, get_trace, emit, put_file,
    pio_err, leave, ret.
  cbn [file trace].
  destruct (0 <? al) eqn:Hal, (record (varlist (file s) varid) >=? 0) eqn:Hrec,
    (needsfill iodesc) eqn:Hnf, user_fill as [fill|],
    (default_fill E (mpitype iodesc)) as [dfill|] eqn:Hdf;
    cbn [file trace option_map];
    repeat match goal with
           | |- context [negb (pool_ok ?e ?t ?n)] => destruct (pool_ok e t n); cbn [negb file trace]
           | |- context [negb (libc_ok ?e ?t ?n)] => destruct (libc_ok e t n); cbn [negb file trace]
           end;
    intros H; try discriminate H; injection H as <- <-; cbn [file trace];
    (split; [auto|]); eexists _, _, _, _; (split; [reflexivity|]);
    intros pre n Hp; apply app_inj_tail in Hp as [_ Hp]; try discriminate Hp; auto.
Qed.

(** The allocation of the data is never the last call of an append
    that completes. *)
Lemma append_payload_goes_on (E : env) (i : nat) (varid al : Z) (array : block)
      (user_fill : option block) (iodesc : io_desc_t) (s s' : state) :
  append_payload E i varid al array user_fill iodesc s = (Next tt, s') ->
  forall pre n, trace s' <> pre ++ [Ev_bgetr_data n].
Proof.
  unfold append_payload, pool_alloc, libc_alloc, bind, get_file, get_trace, emit, put_file,
    pio_err, leave, ret.
  cbn [file trace].
  destruct (0 <? al) eqn:Hal, (record (varlist (file s) varid) >=? 0) eqn:Hrec,
    (needsfill iodesc) eqn:Hnf, user_fill as [fill|],
    (default_fill E (mpitype iodesc)) as [dfill|] eqn:Hdf;
    cbn [file trace option_map];
    repeat match goal with
           | |- context [negb (pool_ok ?e ?t ?n)] => destruct (pool_ok e t n); cbn [negb file trace]
           | |- context [negb (libc_ok ?e ?t ?n)] => destruct (libc_ok e t n); cbn [negb file trace]
           end;
    intros H; try discriminate H; injection H as <-; cbn [file trace];
    intros pre n Hp; apply app_inj_tail in Hp as [_ Hp]; discriminate Hp.
Qed.

Lemma list_set_nth_other {A : Type} (l : list A) (i j : nat) (x d : A) :
  j <> i -> nth j (list_set l i x) d = nth j l d.
Proof.
  revert i j. induction l as [|y l IH]; intros i j H; [destruct i; reflexivity|].
  destruct i, j; cbn [list_set nth]; try reflexivity; [congruence|]. apply IH. congruence.
Qed.

Lemma get_put_wmb_other (f : file_desc_t) (i j : nat) (w : wmulti_buffer) :
  j <> i -> get_wmb (put_wmb f i w) j = get_wmb f j.
Proof. intros H. unfold get_wmb. rewrite chain_put_wmb. now apply list_set_nth_other. Qed.

Lemma resize_ints_length (old : option (list Z)) (n : Z) :
  length (resize_ints old n) = Z.to_nat n.
Proof.
  unfold resize_ints. rewrite length_firstn, length_app, repeat_length. lia.
Qed.

Lemma resize_ints_keeps (l : list Z) (n j : Z) :
  0 <= j < n -> j < Z.of_nat (length l) -> aget (resize_ints (Some l) n) j = aget l j.
Proof.
  intros Hj Hl. unfold aget, resize_ints. rewrite nth_firstn.
  destruct (Nat.ltb_spec (Z.to_nat j) (Z.to_nat n)); [|lia]. apply app_nth1. lia.
Qed.

Lemma write_darray_body_stops_err (E : env) (ncid varid ioid al : Z) (array : block)
      (user_fill : option block) :
  stops_in is_error_return (write_darray_body E ncid varid ioid al array user_fill).
Proof.
  unfold write_darray_body. apply stops_bind; [apply check_and_locate_stops|].
  intros [[iodesc al'] i].
  apply stops_bind; [unfold agree_on_flush; stops_tac|]. intros g.
  apply stops_bind; [unfold record_size; stops_tac|]. intros _.
  apply stops_bind.
  { intros s e s' H. rewrite flush_if_needed_run in H.
    destruct (g >? 0); [|discriminate H].
    destruct (fl_code _); cbn in H; inversion H; reflexivity. }
  intros _.
  apply stops_bind; [unfold count_pending; stops_tac|]. intros _.
  apply stops_bind; [apply append_payload_stops|]. intros _. apply stops_ret.
Qed.

(** The entry the append of a call without flush starts from. *)
Lemma write_darray_reaches_the_append (E : env) (ncid varid ioid al : Z) (array : block)
      (user_fill : option block) (f : file_desc_t) (i : nat) :
  pio_get_file E ncid = Some f ->
  let o := PIOc_write_darray E ncid varid ioid al array user_fill in
  let rv := if record (varlist f varid) >=? 0 then 1 else 0 in
  ended o = Return PIO_NOERR ->
  forallb (fun ev => negb (is_flush_event ev)) (calls_made o) = true ->
  is_target f ioid rv i ->
  exists iodesc s5 s',
    file_after o = Some (file s')
    /\ pio_get_iodesc_from_id E ioid = Some iodesc
    /\ get_wmb (file s5) i
       = (if (i <? length (chain f))%nat then get_wmb f i
          else new_wmb ioid rv (ndof iodesc))
    /\ wmb_matches ioid rv (get_wmb (file s5) i) = true
    /\ (i < length (chain (file s5)))%nat
    /\ length (chain (file s5)) = Nat.max (length (chain f)) (S i)
    /\ (forall j, j <> i -> get_wmb (file s5) j = get_wmb f j)
    /\ record (varlist (file s5) varid) = record (varlist f varid)
    /\ append_payload E i varid (ndof iodesc) array user_fill iodesc s5 = (Next tt, s').
Proof.
  intros Hf o rv. subst o. unfold PIOc_write_darray, run. rewrite Hf.
  destruct (write_darray_body E ncid varid ioid al array user_fill {| file := f; trace := [] |})
    as [r s'] eqn:B.
  intros He NF T.
  assert (NF' : forallb (fun ev => negb (is_flush_event ev)) (trace s') = true)
    by (destruct r; exact NF).
  assert (Hr : r = Next PIO_NOERR).
  { destruct r as [c|x]; cbn in He; [congruence|]. subst x.
    apply write_darray_body_stops_err in B. discriminate B. }
  subst r. cbn [file_after].
  pose proof (write_darray_body_queue E ncid varid ioid al array user_fill f _ _ B NF') as Q.
  cbv zeta in Q. fold rv in Q.
  destruct Q as [[[e A] _] | [iodesc [i' [s5 [ra [Hd [Hal [T' [C [R [Ap [Er [Pe [Pv Vr]]]]]]]]]]]]]];
    [discriminate A|].
  assert (i' = i) by (apply (is_target_unique f ioid rv); assumption). subst i'.
  destruct ra as [[]|]; [|discriminate Er].
  exists iodesc, s5, s'. split; [reflexivity|]. split; [exact Hd|].
  destruct T as [T1 [T2 T3]].
  destruct C as [[Lt C] | [Eq C]].
  - destruct (Nat.ltb_spec i (length (chain f))); [|lia].
    assert (G : forall j, get_wmb (file s5) j = get_wmb f j)
      by (intros j; unfold get_wmb; rewrite C; reflexivity).
    rewrite G, C. split; [reflexivity|]. split; [apply T3; exact Lt|]. split; [exact Lt|].
    split; [lia|]. split; [intros j _; apply G|]. split; [exact R|exact Ap].
  - destruct (Nat.ltb_spec i (length (chain f))); [lia|].
    assert (G : get_wmb (file s5) i = new_wmb ioid rv (ndof iodesc)).
    { unfold get_wmb. rewrite C, app_nth2 by lia. rewrite Eq, Nat.sub_diag. reflexivity. }
    rewrite G, C, length_app. cbn [length]. split; [reflexivity|]. split.
    { unfold wmb_matches, new_wmb. cbn [w_ioid recordvar]. rewrite !Z.eqb_refl. reflexivity. }
    split; [lia|]. split; [lia|]. split; [|split; [exact R|exact Ap]].
    intros j Hj. unfold get_wmb. rewrite C.
    destruct (Nat.lt_ge_cases j (length (chain f))) as [Lt|Ge].
    + now rewrite app_nth1.
    + rewrite !nth_overflow; [reflexivity|lia|rewrite length_app; cbn [length]; lia].
Qed.

End Queue.

(** ** The agreement on the flush *)

(** C3: a run of [PIOc_write_darray] on an open file either ends in
    its checks, having made only the calls that look up the fill value
    and allocate an empty entry, with an error and the chain as it was;
    or the checks of lines 675-740 have settled on the entry [i] of the
    chain the write goes to (the first that matches, or a new, empty
    one linked behind the last, the only change made to the chain so
    far), and the code [c] computed on that entry is given to an
    all-reduce with MAX before any flush and before any array is put
    into an entry.  The agreed code [g] is the largest of [c] and the
    codes of the other tasks, whichever task asks.  If the all-reduce
    fails the function returns with the file as the checks left it.
    Otherwise [flush_buffer] is called on entry [i] if and only if
    [g > 0], once, with [wait_for_disk] true exactly when [g = 2], and
    every call that appends the payload comes after it. *)
Theorem flush_follows_the_agreed_code (E : Darray.env) (ncid varid ioid al : Z)
        (array : block) (user_fill : option block) (f : Darray.file_desc_t) :
  Darray.pio_get_file E ncid = Some f ->
  let o := Darray.PIOc_write_darray E ncid varid ioid al array user_fill in
  let rv := if Darray.record (Darray.varlist f varid) >=? 0 then 1 else 0 in
  (forallb Darray.is_setup_event (Darray.calls_made o) = true
   /\ Darray.is_error_return (Darray.ended o) = true
   /\ exists f', Darray.file_after o = Some f' /\ Darray.chain f' = Darray.chain f)
  \/ exists iodesc i f1 setup rest,
      Darray.check_and_locate E varid ioid al {| Darray.file := f; Darray.trace := [] |}
      = (Darray.Next (iodesc, Darray.ndof iodesc, i),
         {| Darray.file := f1; Darray.trace := setup |})
      /\ forallb Darray.is_setup_event setup = true
      /\ Darray.is_target f ioid rv i
      /\ ((i < length (Darray.chain f))%nat /\ Darray.chain f1 = Darray.chain f
          \/ i = length (Darray.chain f)
             /\ Darray.chain f1
                = Darray.chain f ++ [Darray.new_wmb ioid rv (Darray.ndof iodesc)])
      /\ let c := Darray.local_needsflush E setup (Darray.get_wmb f1 i)
                    (Darray.ndof iodesc) iodesc in
         let g := Darray.allreduce_max c (Darray.allreduce_others E) in
         Darray.calls_made o = setup ++ Darray.Ev_bstats :: Darray.Ev_Allreduce_MAX c :: rest
         /\ 0 <= c <= 2
         /\ In g (c :: Darray.allreduce_others E)
         /\ (forall x, In x (c :: Darray.allreduce_others E) -> x <= g)
         /\ (forall c' others',
                Permutation (c' :: others') (c :: Darray.allreduce_others E) ->
                Darray.allreduce_max c' others' = g)
         /\ ((rest = [] /\ Darray.file_after o = Some f1
              /\ exists e, e <> 0 /\ Darray.ended o = Darray.Return (Darray.MPI_FAIL e))
             \/ exists calc appends,
                 forallb Darray.is_calc_event calc = true
                 /\ forallb Darray.is_append_event appends = true
                 /\ (0 < g ->
                     exists wait_for_disk,
                       rest = calc ++ Darray.Ev_flush_buffer i wait_for_disk :: appends
                       /\ (wait_for_disk = true <-> g = 2))
                 /\ (g <= 0 -> rest = calc ++ appends)).
Proof.
  intros Hf o rv. subst o. unfold Darray.PIOc_write_darray. rewrite Hf. unfold Darray.run.
  destruct (Darray.write_darray_body E ncid varid ioid al array user_fill
              {| Darray.file := f; Darray.trace := [] |}) as [r s'] eqn:B.
  assert (Tr : forall (r : Darray.step Darray.pio_code),
             Darray.calls_made
               (match r with
                | Darray.Next c =>
                    {| Darray.ended := Darray.Return c;
                       Darray.file_after := Some (Darray.file s');
                       Darray.calls_made := Darray.trace s' |}
                | Darray.Stop e =>
                    {| Darray.ended := e; Darray.file_after := Some (Darray.file s');
                       Darray.calls_made := Darray.trace s' |}
                end) = Darray.trace s') by (intros []; reflexivity).
  apply write_darray_body_shape in B
    as [[e [C ->]] | [iodesc [al' [i [s1 [C H]]]]]].
  - left. destruct (check_and_locate_emits E varid ioid al _ _ _ C) as [evs [T F]].
    simpl in T. cbn [Darray.calls_made Darray.ended Darray.file_after]. rewrite T.
    split; [exact F|].
    split; [exact (check_and_locate_stops E varid ioid al _ _ _ C)|].
    exists (Darray.file s'). split; [reflexivity|].
    destruct (check_and_locate_queue E varid ioid al _ _ _ C) as [_ [[_ K] | K]];
      [exact K|]. destruct K as [d [j [K _]]]. discriminate K.
  - right. destruct (check_and_locate_emits E varid ioid al _ _ _ C) as [evs [T F]].
    simpl in T.
    destruct (check_and_locate_queue E varid ioid al _ _ _ C) as [_ [[[e K] _] | K]];
      [discriminate K|].
    destruct K as [d [j [K [Hd [Hal [Tg Ch]]]]]]. cbn [Darray.file] in Tg, Ch.
    injection K as -> -> ->. fold rv in Tg, Ch.
    cbv zeta in H.
    set (c := Darray.local_needsflush E (Darray.trace s1)
                (Darray.get_wmb (Darray.file s1) j) (Darray.ndof d) d) in *.
    set (g := Darray.allreduce_max c (Darray.allreduce_others E)) in *.
    destruct (allreduce_max_is_max (Darray.allreduce_others E) c) as [I M].
    fold g in I, M.
    assert (exists rest,
               Darray.trace s' = Darray.trace s1
                                   ++ Darray.Ev_bstats :: Darray.Ev_Allreduce_MAX c :: rest
               /\ ((rest = [] /\ Darray.file s' = Darray.file s1
                    /\ exists e, e <> 0 /\ r = Darray.Stop (Darray.Return (Darray.MPI_FAIL e)))
                   \/ exists calc appends,
                       forallb Darray.is_calc_event calc = true
                       /\ forallb Darray.is_append_event appends = true
                       /\ (0 < g ->
                           exists wait_for_disk,
                             rest = calc ++ Darray.Ev_flush_buffer j wait_for_disk :: appends
                             /\ (wait_for_disk = true <-> g = 2))
                       /\ (g <= 0 -> rest = calc ++ appends))) as [rest [T' R]].
    { destruct H as [[E0 [-> ->]] | [E0 [calc [appends [T' [Fc [Fa R]]]]]]].
      - exists []. split; [reflexivity|]. left. split; [reflexivity|].
        split; [reflexivity|]. eauto.
      - exists (calc ++ Darray.flush_calls j g ++ appends). split; [exact T'|].
        right. exists calc, appends. split; [exact Fc|]. split; [exact Fa|].
        unfold Darray.flush_calls. split.
        + intros G. destruct (Z.gtb_spec g 0); [|lia]. exists (g =? 2).
          split; [reflexivity|]. apply Z.eqb_eq.
        + intros G. destruct (Z.gtb_spec g 0); [lia|]. reflexivity. }
    exists d, j, (Darray.file s1), (Darray.trace s1), rest.
    split; [destruct s1; exact C|]. split; [rewrite T; exact F|].
    split; [exact Tg|]. split; [exact Ch|].
    cbv zeta. fold c g. rewrite Tr. split; [exact T'|].
    split; [apply local_needsflush_range|]. split; [exact I|]. split; [exact M|].
    split; [intros c' others'; apply allreduce_max_agrees|].
    destruct R as [[-> [Fs [e [He ->]]]] | R].
    + left. split; [reflexivity|]. cbn [Darray.file_after Darray.ended].
      split; [now rewrite Fs|]. eauto.
    + right. exact R.
Qed.

Lemma flush_follows_the_agreed_code_witness :
  exists calc appends,
    Darray.calls_made
      (Darray.PIOc_write_darray Inputs.env_peer_flush 7 2 5 2 Inputs.payload0 None)
    = [] ++ Darray.Ev_bstats :: Darray.Ev_Allreduce_MAX 0
         :: calc ++ Darray.Ev_flush_buffer 1 false :: appends
    /\ forallb Darray.is_append_event appends = true.
Proof.
  destruct (flush_follows_the_agreed_code Inputs.env_peer_flush 7 2 5 2 Inputs.payload0 None
              Inputs.file_queued eq_refl)
    as [[_ [He _]] | [iodesc [i [f1 [setup [rest [C [_ [_ [_ H]]]]]]]]]].
  - vm_compute in He. discriminate He.
  - assert (K : Darray.check_and_locate Inputs.env_peer_flush 2 5 2
                  {| Darray.file := Inputs.file_queued; Darray.trace := [] |}
                = (Darray.Next (Inputs.iodesc0, 2, 1%nat),
                   {| Darray.file := Inputs.file_queued; Darray.trace := [] |}))
      by reflexivity.
    rewrite K in C. injection C as E1 E2 E3 E4 E5. subst iodesc i f1 setup. clear E2.
    cbv zeta in H.
    change (Darray.local_needsflush Inputs.env_peer_flush [] (Darray.get_wmb Inputs.file_queued 1)
              (Darray.ndof Inputs.iodesc0) Inputs.iodesc0) with 0 in H.
    change (Darray.allreduce_max 0 (Darray.allreduce_others Inputs.env_peer_flush)) with 1 in H.
    destruct H as [Hc [_ [_ [_ [_ [[_ [_ [e [_ He]]]] | [calc [appends [_ [Fa [Hw _]]]]]]]]]]].
    + vm_compute in He. discriminate He.
    + destruct (Hw ltac:(lia)) as [w [Hr Hw2]].
      exists calc, appends. split; [|exact Fa]. rewrite Hc, Hr.
      destruct w; [|reflexivity]. destruct Hw2 as [Hw2 _]. specialize (Hw2 eq_refl).
      discriminate Hw2.
Defined.

(** On a file with nothing queued for the decomposition, the new entry
    is linked to the chain before the all-reduce: when the all-reduce
    fails the function returns at once, and the file holds the entry. *)
Lemma new_entry_is_linked_before_the_allreduce :
  let o := Darray.PIOc_write_darray Inputs.env_allreduce_fails 7 2 5 2 Inputs.payload0 None in
  Darray.calls_made o
  = [Darray.Ev_calloc_wmb; Darray.Ev_bstats; Darray.Ev_Allreduce_MAX 0]
  /\ Darray.ended o = Darray.Return (Darray.MPI_FAIL 1)
  /\ option_map Darray.chain (Darray.file_after o)
     = Some (Darray.chain Inputs.file_plain ++ [Darray.new_wmb 5 0 2])
  /\ length (Darray.chain Inputs.file_plain) = 1%nat.
Proof. repeat split. Qed.

(** X13: When [PIOc_write_darray] succeeds without a flush, the array is
    queued in the first entry of the chain that has the decomposition
    and the record kind of the variable, or in a new entry behind the
    last one when there is none: that entry counts one array more and
    has the [arraylen] of the decomposition, and no other entry
    changes. *)
Theorem write_darray_appends_to_its_entry (E : Darray.env) (ncid varid ioid al : Z)
        (array : block) (user_fill : option block) (f : Darray.file_desc_t) (i : nat) :
  Darray.pio_get_file E ncid = Some f ->
  let o := Darray.PIOc_write_darray E ncid varid ioid al array user_fill in
  let rv := if Darray.record (Darray.varlist f varid) >=? 0 then 1 else 0 in
  Darray.ended o = Darray.Return Darray.PIO_NOERR ->
  forallb (fun ev => negb (Darray.is_flush_event ev)) (Darray.calls_made o) = true ->
  Darray.is_target f ioid rv i ->
  exists f' iodesc,
    Darray.file_after o = Some f'
    /\ Darray.pio_get_iodesc_from_id E ioid = Some iodesc
    /\ length (Darray.chain f') = Nat.max (length (Darray.chain f)) (S i)
    /\ (forall j, j <> i -> Darray.get_wmb f' j = Darray.get_wmb f j)
    /\ let w := if (i <? length (Darray.chain f))%nat then Darray.get_wmb f i
                else Darray.new_wmb ioid rv (Darray.ndof iodesc) in
       let w' := Darray.get_wmb f' i in
       Darray.w_ioid w' = ioid
       /\ Darray.recordvar w' = rv
       /\ Darray.num_arrays w' = int_add 1 (Darray.num_arrays w)
       /\ Darray.arraylen w' = Darray.ndof iodesc.
Proof.
  intros Hf o rv He NF T. subst o rv.
  destruct (write_darray_reaches_the_append E ncid varid ioid al array user_fill f i
              Hf He NF T) as [iodesc [s5 [s' [Fa [Hd [W [M [Li [Le [Ot [_ Ap]]]]]]]]]]].
  exists (Darray.file s'), iodesc. split; [exact Fa|]. split; [exact Hd|].
  destruct (append_payload_result E i varid _ array user_fill iodesc s5 s' Ap)
    as [d' [fr' [fv' [F _]]]].
  rewrite F. split.
  { rewrite chain_put_wmb, list_set_length. exact Le. }
  split.
  { intros j Hj. rewrite get_put_wmb_other by exact Hj. apply Ot. exact Hj. }
  cbv zeta. rewrite get_put_wmb by exact Li. cbn [Darray.w_ioid Darray.recordvar
    Darray.num_arrays Darray.arraylen Darray.set_wmb].
  unfold Darray.wmb_matches in M. apply andb_true_iff in M as [M1 M2].
  apply Z.eqb_eq in M1, M2. rewrite <- W. auto.
Qed.

Lemma write_darray_appends_to_its_entry_witness :
  exists f',
    Darray.file_after (Darray.PIOc_write_darray Inputs.env_queue 7 2 5 2 Inputs.payload0 None)
    = Some f'
    /\ length (Darray.chain f') = 2%nat
    /\ Darray.num_arrays (Darray.get_wmb f' 1) = 2.
Proof.
  destruct (write_darray_appends_to_its_entry Inputs.env_queue 7 2 5 2 Inputs.payload0 None
              Inputs.file_queued 1%nat) as [f' [iodesc [Hf [_ [Hl [_ [_ [_ [Hn _]]]]]]]]].
  - reflexivity.
  - vm_compute. reflexivity.
  - vm_compute. reflexivity.
  - split; [simpl; lia|]. split.
    + intros j Hj. assert (j = 0%nat) by lia. subst j. reflexivity.
    + intros _. reflexivity.
  - exists f'. split; [exact Hf|]. split; [exact Hl|exact Hn].
Defined.

(** X14: When [PIOc_write_darray] succeeds without a flush, the entry holds
    the new array behind the arrays it held: slot [num_arrays] of [vid]
    is the variable and, for a record variable, slot [num_arrays] of
    [frame] its record; the data are the bytes of [array]; for a
    decomposition that needs fill, slot [num_arrays] of [fillvalue] is
    the fill value of the caller, or the default one of the type when
    the caller gave none.  The slots below [num_arrays] are as they
    were. *)
Theorem write_darray_queues_the_array (E : Darray.env) (ncid varid ioid al : Z)
        (array : block) (user_fill : option block) (f : Darray.file_desc_t) (i : nat) :
  Darray.pio_get_file E ncid = Some f ->
  let o := Darray.PIOc_write_darray E ncid varid ioid al array user_fill in
  let rc := Darray.record (Darray.varlist f varid) in
  let rv := if rc >=? 0 then 1 else 0 in
  Darray.ended o = Darray.Return Darray.PIO_NOERR ->
  forallb (fun ev => negb (Darray.is_flush_event ev)) (Darray.calls_made o) = true ->
  Darray.is_target f ioid rv i ->
  exists f' iodesc,
    Darray.file_after o = Some f'
    /\ Darray.pio_get_iodesc_from_id E ioid = Some iodesc
    /\ let w := if (i <? length (Darray.chain f))%nat then Darray.get_wmb f i
                else Darray.new_wmb ioid rv (Darray.ndof iodesc) in
       let w' := Darray.get_wmb f' i in
       let n0 := Darray.num_arrays w in
       let sz := Darray.mpitype_size iodesc in
       let n := Darray.ndof iodesc in
       0 <= n0 < INT_MAX ->
       (exists vids,
           Darray.vid w' = Some vids
           /\ aget vids n0 = varid
           /\ forall l j, Darray.vid w = Some l -> 0 <= j < n0 ->
                          j < Z.of_nat (length l) -> aget vids j = aget l j)
       /\ (0 <= rc ->
           exists fr,
             Darray.frame w' = Some fr
             /\ aget fr n0 = rc
             /\ forall l j, Darray.frame w = Some l -> 0 <= j < n0 ->
                            j < Z.of_nat (length l) -> aget fr j = aget l j)
       /\ (0 < n -> 0 < sz -> (n0 + 1) * n * sz < 2 ^ 63 ->
           exists d,
             Darray.data w' = Some d
             /\ size d = (n0 + 1) * n * sz
             /\ (forall k, 0 <= k < n * sz -> load d (n * sz * n0 + k) = load array k)
             /\ forall d0 k, Darray.data w = Some d0 -> 0 <= k < n * sz * n0 ->
                             k < size d0 -> load d k = load d0 k)
       /\ (Darray.needsfill iodesc = true -> 0 <= sz -> sz * (n0 + 1) <= INT_MAX ->
           exists fv fill,
             Darray.fillvalue w' = Some fv
             /\ (user_fill = Some fill
                 \/ (user_fill = None
                     /\ Darray.default_fill E (Darray.mpitype iodesc) = Some fill))
             /\ size fv = sz * (n0 + 1)
             /\ (forall k, 0 <= k < sz -> load fv (sz * n0 + k) = load fill k)
             /\ forall fv0 k, Darray.fillvalue w = Some fv0 -> 0 <= k < sz * n0 ->
                              k < size fv0 -> load fv k = load fv0 k).
Proof.
  intros Hf o rc rv He NF T. subst o rv rc.
  destruct (write_darray_reaches_the_append E ncid varid ioid al array user_fill f i
              Hf He NF T) as [iodesc [s5 [s' [Fa [Hd [W [M [Li [Le [Ot [R Ap]]]]]]]]]]].
  exists (Darray.file s'), iodesc. split; [exact Fa|]. split; [exact Hd|].
  destruct (append_payload_result E i varid _ array user_fill iodesc s5 s' Ap)
    as [d' [fr' [fv' [F [D [Fr Fv]]]]]].
  cbv zeta. rewrite F, get_put_wmb by exact Li.
  cbn [Darray.vid Darray.frame Darray.data Darray.fillvalue Darray.set_wmb].
  rewrite <- W. rewrite R in Fr.
  set (w := Darray.get_wmb (Darray.file s5) i) in *.
  set (n0 := Darray.num_arrays w) in *.
  set (sz := Darray.mpitype_size iodesc) in *.
  set (n := Darray.ndof iodesc) in *.
  intros Hn.
  assert (E1 : int_add 1 n0 = n0 + 1).
  { unfold int_add. rewrite wrap32_small by (unfold INT_MIN, INT_MAX in *; lia). lia. }
  rewrite E1 in *.
  split; [|split; [|split]].
  - eexists. split; [reflexivity|]. split.
    + unfold aget. apply list_set_nth. rewrite resize_ints_length. lia.
    + intros l j Hl Hj Hjl. unfold aget at 1. rewrite list_set_nth_other by lia.
      rewrite Hl. apply resize_ints_keeps; lia.
  - intros Hrc. destruct (Z.geb_spec (Darray.record (Darray.varlist f varid)) 0); [|lia].
    subst fr'. eexists. split; [reflexivity|]. split.
    + unfold aget. apply list_set_nth. rewrite resize_ints_length. lia.
    + intros l j Hl Hj Hjl. unfold aget at 1. rewrite list_set_nth_other by lia.
      rewrite Hl. apply resize_ints_keeps; lia.
  - intros Hpos Hsz Hov. destruct (Z.ltb_spec 0 n); [|lia]. subst d'.
    assert (P1 : 0 < n * sz) by (apply Z.mul_pos_pos; lia).
    assert (P2 : (n0 + 1) * n * sz = n * sz * n0 + n * sz) by ring.
    assert (P3 : 0 <= n * sz * n0) by (apply Z.mul_nonneg_nonneg; lia).
    assert (P4 : 0 <= (n0 + 1) * n <= (n0 + 1) * n * sz).
    { assert (0 <= (n0 + 1) * n) by (apply Z.mul_nonneg_nonneg; lia). nia. }
    assert (X1 : off_mul n sz = n * sz) by (unfold off_mul; apply wrap64_small; lia).
    assert (X2 : off_mul (n0 + 1) n = (n0 + 1) * n)
      by (unfold off_mul; apply wrap64_small; lia).
    assert (X3 : off_mul ((n0 + 1) * n) sz = (n0 + 1) * n * sz)
      by (unfold off_mul; apply wrap64_small; lia).
    assert (X4 : off_mul (n * sz) n0 = n * sz * n0)
      by (unfold off_mul; apply wrap64_small; lia).
    rewrite X1, X2, X3, X4.
    assert (Sz : size (resize (Darray.opt_block (Darray.data w)) ((n0 + 1) * n * sz))
                 = (n0 + 1) * n * sz) by (apply resize_size; lia).
    eexists. split; [reflexivity|]. split; [rewrite memcpy_size; exact Sz|]. split.
    + intros k Hk. rewrite load_memcpy by (rewrite Sz; lia).
      destruct (Z.leb_spec (n * sz * n0) (n * sz * n0 + k)); [|lia].
      destruct (Z.ltb_spec (n * sz * n0 + k) (n * sz * n0 + n * sz)); [|lia].
      cbn [andb]. f_equal. lia.
    + intros d0 k Hd0 Hk Hkd. rewrite load_memcpy by (rewrite Sz; lia).
      destruct (Z.leb_spec (n * sz * n0) k); [lia|]. cbn [andb].
      rewrite Hd0. cbn [Darray.opt_block]. apply load_resize; lia.
  - intros Hnf Hsz Hov. rewrite Hnf in Fv. destruct Fv as [fill [Hfill ->]].
    assert (P1 : 0 <= sz * n0) by (apply Z.mul_nonneg_nonneg; lia).
    assert (P2 : sz * (n0 + 1) = sz * n0 + sz) by ring.
    assert (X1 : int_mul sz (n0 + 1) = sz * (n0 + 1)).
    { unfold int_mul. apply wrap32_small. unfold INT_MIN, INT_MAX in *. lia. }
    assert (X2 : int_mul sz n0 = sz * n0).
    { unfold int_mul. apply wrap32_small. unfold INT_MIN, INT_MAX in *. lia. }
    rewrite X1, X2.
    assert (Sz : size (resize (Darray.opt_block (Darray.fillvalue w)) (sz * (n0 + 1)))
                 = sz * (n0 + 1)) by (apply resize_size; lia).
    eexists _, fill. split; [reflexivity|]. split; [exact Hfill|].
    split; [rewrite memcpy_size; exact Sz|]. split.
    + intros k Hk. rewrite load_memcpy by (rewrite Sz; lia).
      destruct (Z.leb_spec (sz * n0) (sz * n0 + k)); [|lia].
      destruct (Z.ltb_spec (sz * n0 + k) (sz * n0 + sz)); [|lia].
      cbn [andb]. f_equal. lia.
    + intros fv0 k Hf0 Hk Hkd. rewrite load_memcpy by (rewrite Sz; lia).
      destruct (Z.leb_spec (sz * n0) k); [lia|]. cbn [andb].
      rewrite Hf0. cbn [Darray.opt_block]. apply load_resize; lia.
Qed.

Lemma write_darray_queues_the_array_witness :
  exists f' vids d,
    Darray.file_after (Darray.PIOc_write_darray Inputs.env_queue 7 2 5 2 Inputs.payload0 None)
    = Some f'
    /\ Darray.vid (Darray.get_wmb f' 1) = Some vids
    /\ aget vids 1 = 2 /\ aget vids 0 = 4
    /\ Darray.data (Darray.get_wmb f' 1) = Some d
    /\ load d 8 = Some Byte.x03 /\ load d 0 = Some Byte.x01.
Proof.
  destruct (write_darray_queues_the_array Inputs.env_queue 7 2 5 2 Inputs.payload0 None
              Inputs.file_queued 1%nat) as [f' [iodesc [Hf [Hd H]]]].
  - reflexivity.
  - vm_compute. reflexivity.
  - vm_compute. reflexivity.
  - split; [simpl; lia|]. split.
    + intros j Hj. assert (j = 0%nat) by lia. subst j. reflexivity.
    + intros _. reflexivity.
  - injection Hd as <-. cbv zeta in H.
    destruct H as [[vids [Hv [Hv1 Hv0]]] [_ [Hdata _]]].
    + simpl. unfold INT_MAX. lia.
    + destruct Hdata as [d [Hda [_ [Hnew Hold]]]].
      * simpl. lia.
      * simpl. lia.
      * vm_compute. reflexivity.
      * exists f', vids, d. split; [exact Hf|]. split; [exact Hv|]. split; [exact Hv1|].
        split; [apply (Hv0 [4] 0); [reflexivity|simpl; lia|simpl; lia]|].
        split; [exact Hda|]. split.
        -- apply (Hnew 0). simpl. lia.
        -- apply (Hold (bytes (repeat Byte.x01 8)) 0); [reflexivity|simpl; lia|].
           vm_compute. reflexivity.
Defined.

(** X15: A call of [PIOc_write_darray] that fails without a flush queues
    nothing: every entry of the chain counts the arrays it counted and
    is for the decomposition and the record kind it was for, and an
    entry the call has linked behind the last one holds no array. *)
Theorem write_darray_failure_queues_nothing (E : Darray.env) (ncid varid ioid al : Z)
        (array : block) (user_fill : option block) (f : Darray.file_desc_t) :
  Darray.pio_get_file E ncid = Some f ->
  let o := Darray.PIOc_write_darray E ncid varid ioid al array user_fill in
  Darray.ended o <> Darray.Return Darray.PIO_NOERR ->
  forallb (fun ev => negb (Darray.is_flush_event ev)) (Darray.calls_made o) = true ->
  exists f',
    Darray.file_after o = Some f'
    /\ (forall j, (j < length (Darray.chain f))%nat ->
                  Darray.num_arrays (Darray.get_wmb f' j) = Darray.num_arrays (Darray.get_wmb f j)
                  /\ Darray.w_ioid (Darray.get_wmb f' j) = Darray.w_ioid (Darray.get_wmb f j)
                  /\ Darray.recordvar (Darray.get_wmb f' j)
                     = Darray.recordvar (Darray.get_wmb f j))
    /\ (length (Darray.chain f') = length (Darray.chain f)
        \/ (length (Darray.chain f') = S (length (Darray.chain f))
            /\ Darray.num_arrays (Darray.get_wmb f' (length (Darray.chain f))) = 0)).
Proof.
  intros Hf o. subst o. unfold Darray.PIOc_write_darray, Darray.run. rewrite Hf.
  destruct (Darray.write_darray_body E ncid varid ioid al array user_fill
              {| Darray.file := f; Darray.trace := [] |}) as [r s'] eqn:B.
  intros He NF.
  assert (NF' : forallb (fun ev => negb (Darray.is_flush_event ev)) (Darray.trace s') = true)
    by (destruct r; exact NF).
  exists (Darray.file s'). split; [destruct r; reflexivity|].
  pose proof (write_darray_body_queue E ncid varid ioid al array user_fill f _ _ B NF') as Q.
  cbv zeta in Q.
  set (rv := if Darray.record (Darray.varlist f varid) >=? 0 then 1 else 0) in *.
  assert (New : forall al' c, c = Darray.chain f ++ [Darray.new_wmb ioid rv al'] ->
                  (forall j, (j < length (Darray.chain f))%nat ->
                             nth j c Darray.wmb_null = Darray.get_wmb f j)
                  /\ length c = S (length (Darray.chain f))
                  /\ Darray.num_arrays (nth (length (Darray.chain f)) c Darray.wmb_null) = 0).
  { intros al' c ->. split; [|split].
    - intros j Hj. now rewrite app_nth1.
    - rewrite length_app. cbn [length]. lia.
    - rewrite app_nth2, Nat.sub_diag by lia. reflexivity. }
  destruct Q as [[_ [_ C]] | [iodesc [i [s5 [ra [_ [_ [_ [C [_ [Ap [Er [Pe [Pv Vr]]]]]]]]]]]]]].
  - destruct C as [C | [al' C]].
    + unfold Darray.get_wmb. rewrite C. split; [auto|left; reflexivity].
    + destruct (New al' _ C) as [N1 [N2 N3]]. unfold Darray.get_wmb at 1 3 5 7.
      split; [|right; split; [exact N2|exact N3]].
      intros j Hj. rewrite (N1 j Hj). auto.
  - destruct ra as [[]|e].
    { subst r. cbn in He. congruence. }
    destruct (append_payload_failed E i varid _ array user_fill iodesc s5 e s' Ap)
      as [_ [v [d [fr [fv [F _]]]]]].
    assert (Same : forall j,
               Darray.num_arrays (Darray.get_wmb (Darray.file s') j)
               = Darray.num_arrays (Darray.get_wmb (Darray.file s5) j)
               /\ Darray.w_ioid (Darray.get_wmb (Darray.file s') j)
                  = Darray.w_ioid (Darray.get_wmb (Darray.file s5) j)
               /\ Darray.recordvar (Darray.get_wmb (Darray.file s') j)
                  = Darray.recordvar (Darray.get_wmb (Darray.file s5) j)).
    { intros j. rewrite F. destruct (Nat.eq_dec j i) as [->|Ne].
      - destruct (Nat.lt_ge_cases i (length (Darray.chain (Darray.file s5)))) as [Lt|Ge].
        + rewrite get_put_wmb by exact Lt. auto.
        + unfold Darray.get_wmb. rewrite chain_put_wmb.
          rewrite !nth_overflow by (rewrite ?list_set_length; lia). auto.
      - rewrite get_put_wmb_other by exact Ne. auto. }
    assert (Len : length (Darray.chain (Darray.file s'))
                  = length (Darray.chain (Darray.file s5))).
    { rewrite F, chain_put_wmb, list_set_length. reflexivity. }
    rewrite Len. split.
    + intros j Hj. destruct (Same j) as [S1 [S2 S3]]. rewrite S1, S2, S3.
      unfold Darray.get_wmb. destruct C as [[_ C] | [_ C]]; rewrite C; [auto|].
      rewrite app_nth1 by exact Hj. auto.
    + destruct C as [[_ C] | [_ C]]; rewrite C; [left; reflexivity|right].
      split; [rewrite length_app; cbn [length]; lia|].
      destruct (Same (length (Darray.chain f))) as [S1 _]. rewrite S1.
      unfold Darray.get_wmb. rewrite C, app_nth2, Nat.sub_diag by lia. reflexivity.
Qed.

Lemma write_darray_failure_queues_nothing_witness :
  exists f',
    Darray.file_after (Darray.PIOc_write_darray Inputs.env_full 7 2 5 2 Inputs.payload0 None)
    = Some f'
    /\ Darray.num_arrays (Darray.get_wmb f' 1) = 1.
Proof.
  destruct (write_darray_failure_queues_nothing Inputs.env_full 7 2 5 2 Inputs.payload0 None
              Inputs.file_queued) as [f' [Hf [H _]]].
  - reflexivity.
  - vm_compute. discriminate.
  - vm_compute. reflexivity.
  - exists f'. split; [exact Hf|]. apply (H 1%nat). simpl. lia.
Defined.

(** X16: When the pool refuses the memory for the data, the call ends with
    that allocation and returns PIO_ENOMEM; the entry still counts the
    arrays it held, but its [data] pointer is null. *)
Theorem write_darray_refused_data_drops_the_queue (E : Darray.env) (ncid varid ioid al : Z)
        (array : block) (user_fill : option block) (f : Darray.file_desc_t) (i : nat)
        (pre : list Darray.event) (nbytes : Z) :
  Darray.pio_get_file E ncid = Some f ->
  let o := Darray.PIOc_write_darray E ncid varid ioid al array user_fill in
  let rv := if Darray.record (Darray.varlist f varid) >=? 0 then 1 else 0 in
  Darray.calls_made o = pre ++ [Darray.Ev_bgetr_data nbytes] ->
  forallb (fun ev => negb (Darray.is_flush_event ev)) pre = true ->
  Darray.is_target f ioid rv i ->
  Darray.ended o = Darray.Return Darray.PIO_ENOMEM
  /\ exists f' iodesc,
      Darray.file_after o = Some f'
      /\ Darray.pio_get_iodesc_from_id E ioid = Some iodesc
      /\ let w := if (i <? length (Darray.chain f))%nat then Darray.get_wmb f i
                  else Darray.new_wmb ioid rv (Darray.ndof iodesc) in
         let w' := Darray.get_wmb f' i in
         Darray.num_arrays w' = Darray.num_arrays w
         /\ Darray.data w' = None
         /\ Darray.vid w' = Darray.vid w
         /\ Darray.frame w' = Darray.frame w
         /\ Darray.fillvalue w' = Darray.fillvalue w.
Proof.
  intros Hf o rv. subst o rv. unfold Darray.PIOc_write_darray, Darray.run. rewrite Hf.
  destruct (Darray.write_darray_body E ncid varid ioid al array user_fill
              {| Darray.file := f; Darray.trace := [] |}) as [r s'] eqn:B.
  intros Hc NFp T.
  assert (Tr : Darray.trace s' = pre ++ [Darray.Ev_bgetr_data nbytes])
    by (destruct r; exact Hc).
  assert (NF' : forallb (fun ev => negb (Darray.is_flush_event ev)) (Darray.trace s') = true).
  { rewrite Tr, forallb_app, NFp. reflexivity. }
  pose proof (write_darray_body_queue E ncid varid ioid al array user_fill f _ _ B NF') as Q.
  cbv zeta in Q.
  destruct Q as [[_ [Na _]] | [iodesc [i' [s5 [ra [Hd [_ [T' [C [_ [Ap [Er [Pe [Pv Vr]]]]]]]]]]]]]].
  { rewrite Tr, forallb_app in Na. apply andb_true_iff in Na as [_ Na]. discriminate Na. }
  assert (i' = i) by (apply (is_target_unique f ioid _ _ _ T' T)). subst i'.
  destruct ra as [[]|e].
  { exfalso. apply (append_payload_goes_on E i varid _ array user_fill iodesc s5 s' Ap
                      pre nbytes Tr). }
  destruct (append_payload_failed E i varid _ array user_fill iodesc s5 e s' Ap)
    as [_ [v [d [fr [fv [F L]]]]]].
  destruct (L pre nbytes Tr) as [-> [-> [-> [-> ->]]]]. subst r.
  split; [reflexivity|]. exists (Darray.file s'), iodesc.
  split; [reflexivity|]. split; [exact Hd|]. cbv zeta.
  assert (W : Darray.get_wmb (Darray.file s5) i
              = (if (i <? length (Darray.chain f))%nat then Darray.get_wmb f i
                 else Darray.new_wmb ioid
                        (if Darray.record (Darray.varlist f varid) >=? 0 then 1 else 0)
                        (Darray.ndof iodesc))
              /\ (i < length (Darray.chain (Darray.file s5)))%nat).
  { destruct C as [[Lt C] | [Eq C]].
    - destruct (Nat.ltb_spec i (length (Darray.chain f))); [|lia].
      unfold Darray.get_wmb. rewrite C. auto.
    - destruct (Nat.ltb_spec i (length (Darray.chain f))); [lia|].
      unfold Darray.get_wmb. rewrite C, length_app, app_nth2 by lia.
      rewrite Eq, Nat.sub_diag. cbn [length nth]. split; [reflexivity|lia]. }
  destruct W as [W Li]. rewrite <- W, F, get_put_wmb by exact Li.
  cbn [Darray.num_arrays Darray.data Darray.vid Darray.frame Darray.fillvalue Darray.set_wmb].
  auto.
Qed.

Lemma write_darray_refused_data_drops_the_queue_witness :
  Darray.ended (Darray.PIOc_write_darray Inputs.env_full 7 2 5 2 Inputs.payload0 None)
  = Darray.Return Darray.PIO_ENOMEM
  /\ exists f',
      Darray.file_after (Darray.PIOc_write_darray Inputs.env_full 7 2 5 2 Inputs.payload0 None)
      = Some f'
      /\ Darray.num_arrays (Darray.get_wmb f' 1) = 1
      /\ Darray.data (Darray.get_wmb f' 1) = None.
Proof.
  destruct (write_darray_refused_data_drops_the_queue Inputs.env_full 7 2 5 2 Inputs.payload0 None
              Inputs.file_queued 1%nat [Darray.Ev_bstats; Darray.Ev_Allreduce_MAX 0] 16)
    as [He [f' [iodesc [Hf [_ [Hn [Hd _]]]]]]].
  - reflexivity.
  - vm_compute. reflexivity.
  - reflexivity.
  - split; [simpl; lia|]. split.
    + intros j Hj. assert (j = 0%nat) by lia. subst j. reflexivity.
    + intros _. reflexivity.
  - split; [exact He|]. exists f'. split; [exact Hf|]. split; [exact Hn|exact Hd].
Defined.

(** X17: A call of [PIOc_write_darray] that reaches the append without a
    flush has added the record size of the variable to the pending
    bytes of the file and of the variable, whether the append then
    completes or fails. *)
Theorem write_darray_counts_the_pending_bytes (E : Darray.env) (ncid varid ioid al : Z)
        (array : block) (user_fill : option block) (f : Darray.file_desc_t) :
  Darray.pio_get_file E ncid = Some f ->
  let o := Darray.PIOc_write_darray E ncid varid ioid al array user_fill in
  forallb (fun ev => negb (Darray.is_flush_event ev)) (Darray.calls_made o) = true ->
  existsb Darray.is_append_event (Darray.calls_made o) = true ->
  exists f',
    Darray.file_after o = Some f'
    /\ let vr := Darray.vrsize (Darray.varlist f' varid) in
       Darray.wb_pend f' = off_add (Darray.wb_pend f) vr
       /\ Darray.v_wb_pend (Darray.varlist f' varid)
          = off_add (Darray.v_wb_pend (Darray.varlist f varid)) vr
       /\ (Darray.vrsize (Darray.varlist f varid) <> 0 ->
           vr = Darray.vrsize (Darray.varlist f varid)).
Proof.
  intros Hf o. subst o. unfold Darray.PIOc_write_darray, Darray.run. rewrite Hf.
  destruct (Darray.write_darray_body E ncid varid ioid al array user_fill
              {| Darray.file := f; Darray.trace := [] |}) as [r s'] eqn:B.
  intros NF Ap.
  assert (NF' : forallb (fun ev => negb (Darray.is_flush_event ev)) (Darray.trace s') = true)
    by (destruct r; exact NF).
  assert (Ap' : existsb Darray.is_append_event (Darray.trace s') = true)
    by (destruct r; exact Ap).
  exists (Darray.file s'). split; [destruct r; reflexivity|].
  pose proof (write_darray_body_queue E ncid varid ioid al array user_fill f _ _ B NF') as Q.
  cbv zeta in Q.
  destruct Q as [[_ [Na _]] | [iodesc [i [s5 [ra [_ [_ [_ [_ [_ [A [_ [Pe [Pv Vr]]]]]]]]]]]]]].
  { exfalso. apply existsb_exists in Ap' as [ev [Hin Hev]].
    rewrite forallb_forall in Na. specialize (Na ev Hin). rewrite Hev in Na. discriminate Na. }
  assert (F : Darray.varlist (Darray.file s') = Darray.varlist (Darray.file s5)
              /\ Darray.wb_pend (Darray.file s') = Darray.wb_pend (Darray.file s5)).
  { assert (G : forall w, Darray.varlist (Darray.put_wmb (Darray.file s5) i w)
                          = Darray.varlist (Darray.file s5)
                          /\ Darray.wb_pend (Darray.put_wmb (Darray.file s5) i w)
                             = Darray.wb_pend (Darray.file s5)).
    { intros w. unfold Darray.put_wmb, Darray.set_chain, Darray.chain.
      destruct i; cbn; auto. }
    destruct ra as [[]|e].
    - destruct (append_payload_result E i varid _ array user_fill iodesc s5 s' A)
        as [d' [fr' [fv' [F _]]]]. rewrite F. apply G.
    - destruct (append_payload_failed E i varid _ array user_fill iodesc s5 e s' A)
        as [_ [v [d [fr [fv [F _]]]]]]. rewrite F. apply G. }
  destruct F as [F1 F2]. cbv zeta. rewrite F1, F2. auto.
Qed.

Lemma write_darray_counts_the_pending_bytes_witness :
  exists f',
    Darray.file_after (Darray.PIOc_write_darray Inputs.env_full 7 2 5 2 Inputs.payload0 None)
    = Some f'
    /\ Darray.wb_pend f' = 16.
Proof.
  destruct (write_darray_counts_the_pending_bytes Inputs.env_full 7 2 5 2 Inputs.payload0 None
              Inputs.file_queued) as [f' [Hf [Hw [_ Hv]]]].
  - reflexivity.
  - vm_compute. reflexivity.
  - vm_compute. reflexivity.
  - exists f'. split; [exact Hf|]. rewrite Hw, Hv; [reflexivity|discriminate].
Defined.

(** ** The end of [PIOc_write_darray_multi] *)

(** A step of a proof that a computation keeps an invariant of the
    file which the stores of the computation do not touch. *)
Ltac keeps_frame_step :=
  match goal with
  | |- Darray.keeps _ (Darray.put_file _) =>
      apply keeps_put_file; cbn in *; tauto
  | |- _ => keeps_step
  end.

Section MultiEnd.
Import Darray.

Variables (E : env) (a : multi_args).

Lemma write_holes_keeps_kind (f0 : file_desc_t) (varids : list Z) (iodesc : io_desc_t) :
  keeps (same_kind f0) (write_holes E a varids iodesc).
Proof.
  unfold write_holes. keeps_tac; apply (dispatch_keeps E f0).
Qed.

(** Lines 386-395: but for PNETCDF, [iobuf] is released once the data
    are written. *)
Lemma write_data_releases (iodesc : io_desc_t) (s s3 : state) :
  write_data E a iodesc s = (Next tt, s3) ->
  is_pnetcdf (iotype (file s)) = false ->
  iobuf (file s3) = None
  /\ varlist (file s3) = varlist (file s) /\ wb_pend (file s3) = wb_pend (file s).
Proof.
  unfold write_data, dispatch, when, bind, get_file, emit, put_file, pio_err, leave, ret.
  cbn [file trace]. intros H Hp.
  destruct (rearrange_comp2io E iodesc (m_array a) (iobuf (file s)) (m_nvars a)) as [ierr b].
  cbn [file trace set_iobuf iotype] in H.
  destruct (is_noerr ierr); cbn [negb] in H; [|discriminate].
  destruct (iotype (file s)) eqn:It; try discriminate; cbn in H;
    repeat match type of H with
           | context [if negb (is_noerr ?c) then _ else _] => destruct (is_noerr c); cbn in H
           end; try discriminate;
    rewrite ?It in H; cbn in H;
    destruct b; cbn in H; rewrite ?It in H; cbn in H; try discriminate;
    apply (f_equal snd) in H; cbn in H; rewrite <- H; cbn; tauto.
Qed.

Lemma write_holes_keeps_iobuf (varids : list Z) (iodesc : io_desc_t) (b : option block)
      (n : Z) :
  keeps (fun f => iobuf f = b /\ wb_pend f = n) (write_holes E a varids iodesc).
Proof.
  unfold write_holes, dispatch. repeat keeps_frame_step.
Qed.


(** Lines 472-481: the pending counts of the variables written are
    cleared. *)
Lemma clear_pending (varids : list Z) (l : list Z) (f : file_desc_t) :
  let g := fun (f : file_desc_t) (i : Z) =>
             set_var f (aget varids i) (set_v_wb_pend (varlist f (aget varids i)) 0) in
  iobuf (fold_left g l f) = iobuf f
  /\ forall v, In v l -> v_wb_pend (varlist (fold_left g l f) (aget varids v)) = 0.
Proof.
  intros g. split.
  - apply (fold_left_keeps g (fun b => iobuf b = iobuf f) (fun _ => True) l); auto.
  - intros v Hv.
    apply (fold_left_sets g (fun _ => True)
                          (fun b => v_wb_pend (varlist b (aget varids v)) = 0) l); auto.
    + intros t b _ _ H. unfold g. cbn [set_var varlist].
      destruct (aget varids v =? aget varids t) eqn:Q; [reflexivity|exact H].
    + exists v. split; [exact Hv|]. intros b _. unfold g. cbn [set_var varlist].
      rewrite Z.eqb_refl. reflexivity.
Qed.

Lemma complete_clears (varids : list Z) (s : state) (r : step unit) (s' : state) :
  complete E a varids s = (r, s') ->
  ioproc (iosystem (file s)) && is_pnetcdf (iotype (file s)) = false ->
  r = Next tt /\ trace s' = trace s
  /\ wb_pend (file s') = 0 /\ iobuf (file s') = iobuf (file s)
  /\ forall v, 0 <= v < m_nvars a -> v_wb_pend (varlist (file s') (aget varids v)) = 0.
Proof.
  unfold complete, bind, get_file, put_file. intros H Hc. rewrite Hc in H.
  injection H as <- <-. cbn [file trace set_wb_pend wb_pend iobuf varlist].
  destruct (clear_pending varids (Zrange 0 (m_nvars a)) (file s)) as [C1 C2].
  split; [reflexivity|]. split; [reflexivity|]. split; [reflexivity|]. split; [exact C1|].
  intros v Hv. apply C2. apply In_Zrange. exact Hv.
Qed.

End MultiEnd.

(** X18: After a successful call on a backend other than PNETCDF nothing is
    left pending: [iobuf] is released, and [wb_pend] of the file and of
    every variable written is 0. *)
Theorem multi_success_leaves_nothing_pending (E : Darray.env) (a : Darray.multi_args)
        (f : Darray.file_desc_t) :
  Darray.pio_get_file E (Darray.m_ncid a) = Some f ->
  Darray.is_pnetcdf (Darray.iotype f) = false ->
  Darray.ended (Darray.PIOc_write_darray_multi E a) = Darray.Return Darray.PIO_NOERR ->
  exists f' varids,
    Darray.file_after (Darray.PIOc_write_darray_multi E a) = Some f'
    /\ Darray.m_varids a = Some varids
    /\ Darray.iobuf f' = None
    /\ Darray.wb_pend f' = 0
    /\ forall v, 0 <= v < Darray.m_nvars a ->
                 Darray.v_wb_pend (Darray.varlist f' (aget varids v)) = 0.
Proof.
  intros Hf Hp He. unfold Darray.PIOc_write_darray_multi, Darray.run in *. rewrite Hf in *.
  destruct (Darray.write_darray_multi_body E a {| Darray.file := f; Darray.trace := [] |})
    as [r s'] eqn:B.
  destruct r as [c|x]; cbn [Darray.ended Darray.file_after] in *.
  2:{ pose proof (write_darray_multi_body_stops E a _ _ _ B) as NS.
      rewrite He in NS. discriminate NS. }
  clear He.
  apply write_darray_multi_run in B.
  destruct B as [[e [_ [A _]]] | [varids [iodesc [C B]]]]; [discriminate A|].
  destruct (check_inputs_passed E a _ _ _ C) as [Hv _].
  destruct B as [[e [_ A]] | [s1 [S1 B]]]; [discriminate A|].
  destruct B as [[e [_ A]] | [s2 [S2 B]]]; [discriminate A|].
  destruct B as [[e [_ A]] | [s3 [S3 B]]]; [discriminate A|].
  destruct B as [[e [_ A]] | [s4 [S4 B]]]; [discriminate A|].
  destruct B as [[e [_ A]] | [S5 _]]; [discriminate A|].
  assert (K1 : Darray.same_kind f (Darray.file s1)).
  { apply (share_params_keeps E a iodesc varids (Darray.same_kind f)
             {| Darray.file := f; Darray.trace := [] |} _ _ (conj eq_refl eq_refl) S1). }
  assert (K2 : Darray.same_kind f (Darray.file s2)).
  { apply (allocate_iobuf_keeps E a iodesc f _ _ _ K1 S2). }
  assert (K3 : Darray.same_kind f (Darray.file s3)).
  { apply (write_data_keeps E a iodesc f _ _ _ K2 S3). }
  assert (K4 : Darray.same_kind f (Darray.file s4)).
  { apply (write_holes_keeps_kind E a f varids iodesc _ _ _ K3 S4). }
  destruct K2 as [K2 _]. destruct K4 as [K4 _].
  destruct (write_data_releases E a iodesc s2 s3 S3) as [R1 _]; [rewrite K2; exact Hp|].
  destruct (write_holes_keeps_iobuf E a varids iodesc (Darray.iobuf (Darray.file s3))
              (Darray.wb_pend (Darray.file s3)) s3 _ _ (conj eq_refl eq_refl) S4) as [R2 _].
  destruct (complete_clears E a varids s4 _ _ S5) as [_ [_ [W [I V]]]].
  { rewrite K4, Hp. apply andb_false_r. }
  exists (Darray.file s'), varids. split; [reflexivity|]. split; [exact Hv|].
  split; [congruence|]. split; [exact W|exact V].
Qed.

Lemma multi_success_leaves_nothing_pending_witness :
  exists f',
    Darray.file_after
      (Darray.PIOc_write_darray_multi (Inputs.env0 Inputs.file_plain Inputs.iodesc0 false 100)
                                      Inputs.multi2) = Some f'
    /\ Darray.iobuf f' = None /\ Darray.wb_pend f' = 0.
Proof.
  destruct (multi_success_leaves_nothing_pending
              (Inputs.env0 Inputs.file_plain Inputs.iodesc0 false 100) Inputs.multi2
              Inputs.file_plain) as [f' [varids [Hf [_ [Hi [Hw _]]]]]].
  - reflexivity.
  - reflexivity.
  - vm_compute. reflexivity.
  - exists f'. split; [exact Hf|]. split; [exact Hi|exact Hw].
Defined.

Section MultiFail.
Import Darray.

Variables (E : env) (a : multi_args) (c : pio_code).

Hypothesis par_fails : forall f, write_darray_multi_par E f (m_nvars a) DARRAY_DATA = c.
Hypothesis serial_fails : forall f, write_darray_multi_serial E f (m_nvars a) DARRAY_DATA = c.
Hypothesis c_is_an_error : c <> PIO_NOERR.

Lemma write_data_fails (iodesc : io_desc_t) (s : state) (r : step unit) (s3 : state) :
  write_data E a iodesc s = (r, s3) ->
  exists x, r = Stop x
    /\ (trace s3 = trace s ++ [Ev_rearrange_comp2io (m_nvars a) (iobuf (file s))]
        \/ exists buf,
            trace s3 = trace s ++ Ev_rearrange_comp2io (m_nvars a) (iobuf (file s))
                               :: dispatch_call (iotype (file s)) (m_nvars a) DARRAY_DATA buf
            /\ dispatch_call (iotype (file s)) (m_nvars a) DARRAY_DATA buf <> []
            /\ x = Return c).
Proof.
  assert (Nc : is_noerr c = false) by (destruct c; congruence || reflexivity).
  unfold write_data, dispatch, when, bind, get_file, emit, put_file, pio_err, leave, ret.
  cbn [file trace]. intros H.
  destruct (rearrange_comp2io E iodesc (m_array a) (iobuf (file s)) (m_nvars a)) as [ierr b].
  cbn in H. destruct (is_noerr ierr); cbn in H.
  - destruct (iotype (file s)) eqn:It; cbn in H;
      rewrite ?par_fails, ?serial_fails, ?Nc in H; cbn in H;
      injection H as <- <-; cbn [trace];
      eexists; (split; [reflexivity|]);
      try (right; exists b; rewrite <- app_assoc; cbn;
           split; [reflexivity|split; [discriminate|reflexivity]]).
    left. reflexivity.
  - injection H as <- <-. eexists. split; [reflexivity|]. left. reflexivity.
Qed.

End MultiFail.

(** X19: When the backend refuses the data, the call returns the code of
    the backend: its calls are the preparation, the rearrangement and
    that one write; [iobuf] is not released and the fill values are not
    written. *)
Theorem multi_failed_data_write (E : Darray.env) (a : Darray.multi_args)
        (f : Darray.file_desc_t) (c : Darray.pio_code) :
  Darray.pio_get_file E (Darray.m_ncid a) = Some f ->
  (forall f', Darray.write_darray_multi_par E f' (Darray.m_nvars a) Darray.DARRAY_DATA = c) ->
  (forall f', Darray.write_darray_multi_serial E f' (Darray.m_nvars a) Darray.DARRAY_DATA = c) ->
  c <> Darray.PIO_NOERR ->
  let o := Darray.PIOc_write_darray_multi E a in
  Darray.ended o <> Darray.Return Darray.PIO_NOERR
  /\ exists prep rest,
      Darray.calls_made o = prep ++ rest
      /\ forallb Darray.is_prepare_event prep = true
      /\ (rest = []
          \/ (exists buf, rest = [Darray.Ev_rearrange_comp2io (Darray.m_nvars a) buf])
          \/ (exists buf buf',
                 rest = Darray.Ev_rearrange_comp2io (Darray.m_nvars a) buf
                        :: Darray.dispatch_call (Darray.iotype f) (Darray.m_nvars a)
                                                Darray.DARRAY_DATA buf'
                 /\ Darray.dispatch_call (Darray.iotype f) (Darray.m_nvars a)
                                         Darray.DARRAY_DATA buf' <> []
                 /\ Darray.ended o = Darray.Return c)).
Proof.
  intros Hf Hp Hs Hc o. subst o.
  unfold Darray.PIOc_write_darray_multi, Darray.run. rewrite Hf.
  destruct (Darray.write_darray_multi_body E a {| Darray.file := f; Darray.trace := [] |})
    as [r s'] eqn:B.
  pose proof B as B'. apply write_darray_multi_run in B'.
  assert (St : forall x, r = Darray.Stop x -> x <> Darray.Return Darray.PIO_NOERR).
  { intros x -> Hx. pose proof (write_darray_multi_body_stops E a _ _ _ B) as NS.
    rewrite Hx in NS. discriminate NS. }
  destruct B' as [[e [_ [-> ->]]] | [varids [iodesc [C B']]]].
  { cbn. split; [apply St; reflexivity|]. exists [], []. auto. }
  destruct B' as [[e [S1 ->]] | [s1 [S1 B']]].
  { cbn. split; [apply St; reflexivity|].
    destruct (share_params_emits E a iodesc varids _ _ _ S1) as [evs [T F]].
    cbn in T. exists evs, []. rewrite app_nil_r. split; [exact T|]. split; [|auto].
    rewrite forallb_forall in *. intros ev Hev. unfold Darray.is_prepare_event.
    rewrite (F ev Hev). reflexivity. }
  destruct (share_params_emits E a iodesc varids _ _ _ S1) as [ev1 [T1 F1]]. cbn in T1.
  assert (K1 : Darray.same_kind f (Darray.file s1)).
  { apply (share_params_keeps E a iodesc varids (Darray.same_kind f)
             {| Darray.file := f; Darray.trace := [] |} _ _ (conj eq_refl eq_refl) S1). }
  assert (A2 : forall r2 s2, Darray.allocate_iobuf E a iodesc s1 = (r2, s2) ->
                             exists ev2, Darray.trace s2 = ev1 ++ ev2
                                         /\ forallb Darray.is_prepare_event (ev1 ++ ev2) = true
                                         /\ Darray.same_kind f (Darray.file s2)).
  { intros r2 s2 S2.
    destruct (allocate_iobuf_emits E a iodesc Darray.is_prepare_event
                (fun _ => eq_refl) (fun _ => eq_refl) _ _ _ S2) as [ev2 [T2 F2]].
    exists ev2. split; [rewrite T2, T1; reflexivity|]. split.
    - rewrite forallb_app, F2, andb_true_r. rewrite forallb_forall in *.
      intros ev Hev. unfold Darray.is_prepare_event. rewrite (F1 ev Hev). reflexivity.
    - apply (allocate_iobuf_keeps E a iodesc f _ _ _ K1 S2). }
  destruct B' as [[e [S2 ->]] | [s2 [S2 B']]].
  { cbn. split; [apply St; reflexivity|]. destruct (A2 _ _ S2) as [ev2 [T2 [F2 _]]].
    exists (ev1 ++ ev2), []. rewrite app_nil_r. auto. }
  destruct (A2 _ _ S2) as [ev2 [T2 [F2 [K2 _]]]].
  destruct B' as [[e [S3 ->]] | [s3 [S3 _]]].
  - cbn. split; [apply St; reflexivity|].
    destruct (write_data_fails E a c Hp Hs Hc iodesc _ _ _ S3) as [x [Ex D]].
    injection Ex as ->. exists (ev1 ++ ev2). rewrite <- T2, K2 in *.
    destruct D as [D|[buf [D [Ne ->]]]].
    + exists [Darray.Ev_rearrange_comp2io (Darray.m_nvars a) (Darray.iobuf (Darray.file s2))].
      split; [exact D|]. split; [exact F2|]. right. left. eauto.
    + eexists. split; [exact D|]. split; [exact F2|]. right. right. eauto.
  - destruct (write_data_fails E a c Hp Hs Hc iodesc _ _ _ S3) as [x [Ex _]]. discriminate Ex.
Qed.

Lemma multi_failed_data_write_witness :
  Darray.ended (Darray.PIOc_write_darray_multi Inputs.env_refused Inputs.multi2)
  = Darray.Return (Darray.BACKEND (-31))
  /\ exists prep rest,
      Darray.calls_made (Darray.PIOc_write_darray_multi Inputs.env_refused Inputs.multi2)
      = prep ++ rest
      /\ forallb Darray.is_prepare_event prep = true.
Proof.
  destruct (multi_failed_data_write Inputs.env_refused Inputs.multi2 Inputs.file_plain
              (Darray.BACKEND (-31))) as [_ [prep [rest [Hc [Hp _]]]]].
  - reflexivity.
  - intros f'. reflexivity.
  - intros f'. reflexivity.
  - discriminate.
  - split; [reflexivity|]. exists prep, rest. split; [exact Hc|exact Hp].
Defined.

(** ** PIOc_read_darray *)

(** X20: A call of [PIOc_read_darray] that returns PIO_NOERR leaves no read
    pending on the file or on the variable, and touches the pending
    bytes of no other variable.  It has asked the pool for a buffer
    once on an I/O task with [rlen > 0] and not otherwise, but released
    one whenever [rlen > 0]: on a task that is not an I/O task the
    pointer it releases is null. *)
Theorem read_darray_success (E : ReadDarray.renv) (ncid varid ioid arraylen : Z)
        (array : block) (f : ReadDarray.rfile_desc_t) (iodesc : Darray.io_desc_t) :
  ReadDarray.r_pio_get_file E ncid = Some f ->
  ReadDarray.r_pio_get_iodesc_from_id E ioid = Some iodesc ->
  let o := ReadDarray.PIOc_read_darray E ncid varid ioid arraylen array in
  let rlen := (if ReadDarray.iomaster_is_root f then Darray.maxiobuflen iodesc
               else Darray.llen iodesc) mod 2 ^ 64 in
  ReadDarray.r_ended o = Darray.Return Darray.PIO_NOERR ->
  (exists f',
      ReadDarray.r_file_after o = Some f'
      /\ ReadDarray.rb_pend f' = 0
      /\ ReadDarray.v_rb_pend f' varid = 0
      /\ forall v, v <> varid -> ReadDarray.v_rb_pend f' v = ReadDarray.v_rb_pend f v)
  /\ length (filter ReadDarray.is_rv_bget (ReadDarray.r_calls_made o))
     = (if ReadDarray.r_ioproc f && (0 <? rlen) then 1%nat else 0%nat)
  /\ length (filter ReadDarray.is_rv_brel (ReadDarray.r_calls_made o))
     = (if 0 <? rlen then 1%nat else 0%nat)
  /\ (ReadDarray.r_ioproc f = false -> 0 < rlen ->
      In (ReadDarray.Rv_brel true) (ReadDarray.r_calls_made o)).
Proof.
  intros Hf Hd o rlen. subst o.
  unfold ReadDarray.PIOc_read_darray, ReadDarray.rearrange_and_release.
  rewrite Hf, Hd. destruct (negb _); [discriminate|]. cbv zeta. fold rlen.
  destruct f as [fa fio froot fty fvr fvp fp].
  cbn [ReadDarray.r_async ReadDarray.r_ioproc ReadDarray.iomaster_is_root
       ReadDarray.r_iotype ReadDarray.r_vrsize ReadDarray.v_rb_pend ReadDarray.rb_pend] in *.
  destruct fa, fio, (fvr varid =? 0), (0 <? rlen) eqn:R;
    cbn -[Z.ltb Darray.size_mul Z.modulo];
    repeat match goal with
           | |- context [ReadDarray.bget_ok ?e ?n] =>
               destruct (ReadDarray.bget_ok e n); cbn -[Z.ltb Darray.size_mul Z.modulo]
           end;
    destruct fty; cbn -[Z.ltb Darray.size_mul Z.modulo];
    repeat match goal with
           | |- context [ReadDarray.pio_read_darray_nc_serial ?e ?f ?d ?v ?b] =>
               destruct (ReadDarray.pio_read_darray_nc_serial e f d v b) as [[] ?];
               cbn -[Z.ltb Darray.size_mul Z.modulo]
           | |- context [ReadDarray.pio_read_darray_nc ?e ?f ?d ?v ?b] =>
               destruct (ReadDarray.pio_read_darray_nc e f d v b) as [[] ?];
               cbn -[Z.ltb Darray.size_mul Z.modulo]
           | |- context [ReadDarray.rearrange_io2comp ?e ?d ?b ?x] =>
               destruct (ReadDarray.rearrange_io2comp e d b x) as [[] ?];
               cbn -[Z.ltb Darray.size_mul Z.modulo]
           end;
    intros H; try discriminate H;
    (split; [eexists; split; [reflexivity|]; cbn; rewrite Z.eqb_refl;
             split; [reflexivity|]; split; [reflexivity|];
             intros v Hv; destruct (Z.eqb_spec v varid); [contradiction|reflexivity]|]);
    rewrite ?filter_app; cbn; rewrite ?R; cbn;
    (split; [reflexivity|]; split; [reflexivity|]);
    intros Hio L; try discriminate Hio;
    try (apply Z.ltb_lt in L; rewrite L in R; discriminate R); cbn; auto 10.
Qed.

Lemma read_darray_success_witness :
  In (ReadDarray.Rv_brel true)
     (ReadDarray.r_calls_made
        (ReadDarray.PIOc_read_darray (Inputs.renv0 false Darray.PIO_NOERR) 7 2 5 2 Inputs.payload0))
  /\ length (filter ReadDarray.is_rv_bget
                    (ReadDarray.r_calls_made
                       (ReadDarray.PIOc_read_darray (Inputs.renv0 false Darray.PIO_NOERR) 7 2 5 2
                                                    Inputs.payload0))) = 0%nat.
Proof.
  destruct (read_darray_success (Inputs.renv0 false Darray.PIO_NOERR) 7 2 5 2 Inputs.payload0
              (Inputs.rfile0 false) Inputs.iodesc0) as [_ [Hg [_ Hr]]].
  - reflexivity.
  - reflexivity.
  - vm_compute. reflexivity.
  - split; [|exact Hg]. apply Hr; [reflexivity|vm_compute; reflexivity].
Defined.

(** X21: A call of [PIOc_read_darray] that fails releases nothing.  Past the
    assertion on the rearranger it leaves the record size of the
    variable counted in the pending bytes of the file and of the
    variable; and when the code is not PIO_ENOMEM on an I/O task with
    [rlen > 0], the buffer it took from the pool is still allocated. *)
Theorem read_darray_failure_releases_nothing (E : ReadDarray.renv)
        (ncid varid ioid arraylen : Z) (array : block) (f : ReadDarray.rfile_desc_t)
        (iodesc : Darray.io_desc_t) :
  ReadDarray.r_pio_get_file E ncid = Some f ->
  ReadDarray.r_pio_get_iodesc_from_id E ioid = Some iodesc ->
  let o := ReadDarray.PIOc_read_darray E ncid varid ioid arraylen array in
  let rlen := (if ReadDarray.iomaster_is_root f then Darray.maxiobuflen iodesc
               else Darray.llen iodesc) mod 2 ^ 64 in
  ReadDarray.r_ended o <> Darray.Return Darray.PIO_NOERR ->
  filter ReadDarray.is_rv_brel (ReadDarray.r_calls_made o) = []
  /\ (ReadDarray.r_ended o <> Darray.Abort ->
      exists f',
        ReadDarray.r_file_after o = Some f'
        /\ ReadDarray.rb_pend f'
           = off_add (ReadDarray.rb_pend f) (ReadDarray.r_vrsize f' varid)
        /\ ReadDarray.v_rb_pend f' varid
           = off_add (ReadDarray.v_rb_pend f varid) (ReadDarray.r_vrsize f' varid))
  /\ (ReadDarray.r_ended o <> Darray.Abort ->
      ReadDarray.r_ended o <> Darray.Return Darray.PIO_ENOMEM ->
      ReadDarray.r_ioproc f = true -> 0 < rlen ->
      In (ReadDarray.Rv_bget (Darray.size_mul (Darray.mpitype_size iodesc) rlen))
         (ReadDarray.r_calls_made o)).
Proof.
  intros Hf Hd o rlen. subst o.
  unfold ReadDarray.PIOc_read_darray, ReadDarray.rearrange_and_release.
  rewrite Hf, Hd.
  destruct (negb _).
  { cbn. intros _. split; [reflexivity|]. split; intros N; exfalso; apply N; reflexivity. }
  cbv zeta. fold rlen.
  destruct f as [fa fio froot fty fvr fvp fp].
  cbn [ReadDarray.r_async ReadDarray.r_ioproc ReadDarray.iomaster_is_root
       ReadDarray.r_iotype ReadDarray.r_vrsize ReadDarray.v_rb_pend ReadDarray.rb_pend] in *.
  destruct fa, fio, (fvr varid =? 0), (0 <? rlen) eqn:R;
    cbn -[Z.ltb Darray.size_mul Z.modulo];
    repeat match goal with
           | |- context [ReadDarray.bget_ok ?e ?n] =>
               destruct (ReadDarray.bget_ok e n); cbn -[Z.ltb Darray.size_mul Z.modulo]
           end;
    destruct fty; cbn -[Z.ltb Darray.size_mul Z.modulo];
    repeat match goal with
           | |- context [ReadDarray.pio_read_darray_nc_serial ?e ?f ?d ?v ?b] =>
               destruct (ReadDarray.pio_read_darray_nc_serial e f d v b) as [[] ?];
               cbn -[Z.ltb Darray.size_mul Z.modulo]
           | |- context [ReadDarray.pio_read_darray_nc ?e ?f ?d ?v ?b] =>
               destruct (ReadDarray.pio_read_darray_nc e f d v b) as [[] ?];
               cbn -[Z.ltb Darray.size_mul Z.modulo]
           | |- context [ReadDarray.rearrange_io2comp ?e ?d ?b ?x] =>
               destruct (ReadDarray.rearrange_io2comp e d b x) as [[] ?];
               cbn -[Z.ltb Darray.size_mul Z.modulo]
           end;
    intros H; try (exfalso; apply H; reflexivity);
    (split; [rewrite ?filter_app; reflexivity|]);
    (split; [intros _; eexists; split; [reflexivity|]; cbn; rewrite ?Z.eqb_refl;
             split; reflexivity|]);
    intros _ Hc Hio L; try discriminate Hio; try (exfalso; apply Hc; reflexivity);
    try (apply Z.ltb_lt in L; rewrite L in R; discriminate R); cbn; auto 10.
Qed.

Lemma read_darray_failure_releases_nothing_witness :
  filter ReadDarray.is_rv_brel
         (ReadDarray.r_calls_made
            (ReadDarray.PIOc_read_darray (Inputs.renv0 true (Darray.BACKEND (-31))) 7 2 5 2
                                         Inputs.payload0)) = []
  /\ In (ReadDarray.Rv_bget 8)
        (ReadDarray.r_calls_made
           (ReadDarray.PIOc_read_darray (Inputs.renv0 true (Darray.BACKEND (-31))) 7 2 5 2
                                        Inputs.payload0)).
Proof.
  destruct (read_darray_failure_releases_nothing (Inputs.renv0 true (Darray.BACKEND (-31))) 7 2 5 2
              Inputs.payload0 (Inputs.rfile0 true) Inputs.iodesc0) as [H1 [_ H3]].
  - reflexivity.
  - reflexivity.
  - vm_compute. discriminate.
  - split; [exact H1|]. apply H3.
    + vm_compute. discriminate.
    + vm_compute. discriminate.
    + reflexivity.
    + vm_compute. reflexivity.
Defined.

(** ** PIOc_set_buffer_size_limit *)

Section Limit.
Import Darray.

Lemma set_limits_snoc (start : Z) (ls : list Z) (l : Z) :
  set_limits start (ls ++ [l])
  = (fst (set_limits start ls) ++ [snd (set_limits start ls)],
     if l >? 0 then l else snd (set_limits start ls)).
Proof.
  unfold set_limits. rewrite fold_left_app. cbn [fold_left].
  unfold PIOc_set_buffer_size_limit. reflexivity.
Qed.

End Limit.

(** X22: Whatever calls of [PIOc_set_buffer_size_limit] a process makes, the
    limit in force is the last positive value passed, or the limit it
    started from when none was; each call returns the limit that was in
    force before it; and a limit that is positive stays positive. *)
Theorem set_buffer_size_limit_keeps_the_last_valid_limit (start : Z) (limits : list Z) :
  let rets := fst (Darray.set_limits start limits) in
  let final := snd (Darray.set_limits start limits) in
  final = last (filter (fun l => 0 <? l) limits) start
  /\ length rets = length limits
  /\ (forall k, (k < length limits)%nat ->
                nth k rets 0 = snd (Darray.set_limits start (firstn k limits)))
  /\ (0 < start -> 0 < final).
Proof.
  induction limits as [|l ls IH] using rev_ind; cbv zeta.
  - cbn. repeat split; [intros k Hk; inversion Hk|auto].
  - cbv zeta in IH. destruct IH as [I1 [I2 [I3 I4]]].
    rewrite set_limits_snoc. cbn [fst snd]. rewrite filter_app. cbn [filter].
    split; [|split; [|split]].
    + destruct (Z.gtb_spec l 0); destruct (Z.ltb_spec 0 l); try lia.
      * rewrite last_last. reflexivity.
      * rewrite app_nil_r. exact I1.
    + rewrite !length_app. cbn [length]. lia.
    + intros k Hk. rewrite length_app in Hk. cbn [length] in Hk.
      destruct (Nat.eq_dec k (length ls)) as [->|Ne].
      * rewrite app_nth2 by lia. rewrite I2, Nat.sub_diag. cbn [nth].
        rewrite firstn_app, firstn_all, Nat.sub_diag. cbn [firstn]. rewrite app_nil_r.
        reflexivity.
      * rewrite app_nth1 by lia. rewrite firstn_app.
        replace (k - length ls)%nat with 0%nat by lia. cbn [firstn]. rewrite app_nil_r.
        apply I3. lia.
    + intros Hs. destruct (Z.gtb_spec l 0); [lia|auto].
Qed.

(** X23: The limit set by [PIOc_set_buffer_size_limit] governs the next
    [PIOc_write_darray], also on a file that is open already: once the
    memory the pool has handed out has reached it, the local flush code
    of the write is 2. *)
Theorem set_buffer_size_limit_governs_the_next_write (E : Darray.env) (limit : Z)
        (ncid varid ioid al : Z) (array : block) (user_fill : option block)
        (f : Darray.file_desc_t) (iodesc : Darray.io_desc_t) (al' : Z) (i : nat)
        (s1 : Darray.state) :
  0 < limit ->
  let E' := Darray.with_buffer_size_limit
              E (snd (Darray.PIOc_set_buffer_size_limit (Darray.pio_buffer_size_limit E)
                                                         limit)) in
  Darray.pio_get_file E ncid = Some f ->
  Darray.check_and_locate E' varid ioid al {| Darray.file := f; Darray.trace := [] |}
  = (Darray.Next (iodesc, al', i), s1) ->
  limit <= Darray.bstats_curalloc E (Darray.trace s1) ->
  exists rest,
    Darray.calls_made (Darray.PIOc_write_darray E' ncid varid ioid al array user_fill)
    = Darray.trace s1 ++ Darray.Ev_bstats :: Darray.Ev_Allreduce_MAX 2 :: rest.
Proof.
  intros Hl E' Hf C Hc.
  assert (L : Darray.local_needsflush E' (Darray.trace s1)
                (Darray.get_wmb (Darray.file s1) i) al' iodesc = 2).
  { assert (Lim : Darray.pio_buffer_size_limit E' = limit).
    { unfold E', Darray.with_buffer_size_limit, Darray.PIOc_set_buffer_size_limit.
      cbn [Darray.pio_buffer_size_limit snd].
      destruct (Z.gtb_spec limit 0); [reflexivity|lia]. }
    unfold Darray.local_needsflush, Darray.PIO_wmb_needs_flush. rewrite Lim.
    change (Darray.bstats_curalloc E') with (Darray.bstats_curalloc E).
    destruct (Z.geb_spec (Darray.bstats_curalloc E (Darray.trace s1)) limit); [|lia].
    destruct (_ >? _); reflexivity. }
  unfold Darray.PIOc_write_darray.
  change (Darray.pio_get_file E' ncid) with (Darray.pio_get_file E ncid). rewrite Hf.
  unfold Darray.run.
  destruct (Darray.write_darray_body E' ncid varid ioid al array user_fill
              {| Darray.file := f; Darray.trace := [] |}) as [r s'] eqn:B.
  apply write_darray_body_shape in B
    as [[e [C' _]] | [iodesc' [al'' [i' [s1' [C' H]]]]]]; [congruence|].
  rewrite C in C'. inversion C'; subst iodesc' al'' i' s1'. clear C'.
  cbv zeta in H. rewrite L in H.
  assert (Tr : Darray.calls_made
                 (match r with
                  | Darray.Next c =>
                      {| Darray.ended := Darray.Return c;
                         Darray.file_after := Some (Darray.file s');
                         Darray.calls_made := Darray.trace s' |}
                  | Darray.Stop e =>
                      {| Darray.ended := e; Darray.file_after := Some (Darray.file s');
                         Darray.calls_made := Darray.trace s' |}
                  end) = Darray.trace s') by (destruct r; reflexivity).
  rewrite Tr.
  destruct H as [[E0 [_ ->]] | [E0 [calc [appends [T' _]]]]].
  - exists []. reflexivity.
  - rewrite T'. eexists. reflexivity.
Qed.

Lemma set_buffer_size_limit_governs_the_next_write_witness :
  exists rest,
    Darray.calls_made
      (Darray.PIOc_write_darray
         (Darray.with_buffer_size_limit Inputs.env_queue 4096) 7 2 5 2 Inputs.payload0 None)
    = [Darray.Ev_bstats; Darray.Ev_Allreduce_MAX 2] ++ rest.
Proof.
  destruct (set_buffer_size_limit_governs_the_next_write Inputs.env_queue 4096 7 2 5 2
              Inputs.payload0 None Inputs.file_queued Inputs.iodesc0 2 1%nat
              {| Darray.file := Inputs.file_queued; Darray.trace := [] |}) as [rest H].
  - lia.
  - reflexivity.
  - reflexivity.
  - vm_compute. discriminate.
  - exists rest. exact H.
Defined.
